(** * Google Drive connector: sync activities

    A shallow embedding of the Google Drive connector activities
    ([syncFiles], [objectIsInFolders], [incrementalSync],
    [getSyncPageToken], [getFoldersToSync], [garbageCollector],
    [renewWebhooks], [deleteOneFile], [deleteFile],
    [markFolderAsVisited]) and the properties of the synchronisation
    engine that are stated about them.

    The activities are asynchronous TypeScript functions that read and
    write the connector's SQL tables, call the Google Drive API and the
    downstream data source, and may throw.  They are embedded in a state
    and exception monad over a [World] that holds the tables, the
    downstream index, the number of clock reads and the trace of external
    calls.  Everything the activities import from other modules (the Drive
    client, the hierarchy cache, the file synchroniser, ...) is a field of
    [Env]: a fixed view of the outside world during one activity.

    Worker pools ([PQueue], [Promise.all]) are embedded as loops that take
    the items in order and run every task, also after one of them has
    thrown: the pool then rejects with the first error. *)

From Stdlib Require Import String ZArith List Bool Lia Arith DecimalString.
Import ListNotations.
Open Scope string_scope.
Open Scope list_scope.
Open Scope Z_scope.

Set Implicit Arguments.

(** ** JavaScript values *)

Definition ModelId := Z.

(** The classes of exceptions the activities tell apart with
    [instanceof]. *)
Inductive JsError : Type :=
| GaxiosError (status : option Z) (message : string)
| ExternalOauthTokenError (message : string)
| HTTPError (message : string)
| Error (message : string).

Inductive Result (A : Type) : Type :=
| Ok (a : A)
| Throw (e : JsError).

Arguments Ok {A} a.
Arguments Throw {A} e.

(** [!s] for [s : string | null | undefined] is [negb (truthy s)]: the
    empty string is falsy. *)
Definition truthy (s : option string) : bool :=
  match s with
  | Some s => negb (s =? "")%string
  | None => false
  end.

(** [Array.prototype.includes] on strings. *)
Definition includes (l : list string) (s : string) : bool :=
  existsb (fun x => (x =? s)%string) l.

(** ** Remote objects *)

(** [drive_v3.Schema$File]: every field may be missing. *)
Module SchemaFile.
Record t := mk {
  id : option string;
  name : option string;
  mimeType : option string;
  createdTime : option string;
  trashed : option bool;
  parents : list string;
  driveId : option string
}.
End SchemaFile.

(** [drive_v3.Schema$Change]. *)
Module SchemaChange.
Record t := mk {
  changeType : option string;
  file : option SchemaFile.t
}.
End SchemaChange.

(** [GoogleDriveObjectType]: the canonical file or folder. *)
Module GoogleDriveObjectType.
Record t := mk {
  id : string;
  name : string;
  parent : option string;
  mimeType : string;
  trashed : bool;
  createdAtMs : Z;
  driveId : string;
  isInSharedDrive : bool
}.
End GoogleDriveObjectType.

Module FileList.
Record t := mk {
  status : Z;
  statusText : string;
  files : option (list SchemaFile.t);
  nextPageToken : option string
}.
End FileList.

Module ChangeList.
Record t := mk {
  status : Z;
  statusText : string;
  changes : option (list SchemaChange.t);
  nextPageToken : option string;
  newStartPageToken : option string
}.
End ChangeList.

Module StartPageToken.
Record t := mk {
  status : Z;
  statusText : string;
  startPageToken : option string
}.
End StartPageToken.

(** [drive_v3.Params$Resource$Changes$List]; [pageSize] is 100 and
    [fields] is "*" in every call. *)
Module ChangesListParams.
Record t := mk {
  pageToken : string;
  driveId : option string;
  includeItemsFromAllDrives : bool;
  supportsAllDrives : bool
}.
End ChangesListParams.

(** ** Tables *)

Module ConnectorResource.
Record t := mk {
  id : ModelId;
  connectionId : string;
  workspaceId : string
}.
End ConnectorResource.

Module GoogleDriveConfig.
Record t := mk {
  connectorId : ModelId;
  pdfEnabled : bool
}.
End GoogleDriveConfig.

(** The watched scope: one row per selected folder. *)
Module GoogleDriveFolders.
Record t := mk {
  connectorId : ModelId;
  folderId : string
}.
End GoogleDriveFolders.

(** The mirror store: one row per remote object, unique on
    [(connectorId, driveFileId)]. *)
Module GoogleDriveFiles.
Record t := mk {
  connectorId : ModelId;
  dustFileId : string;
  driveFileId : string;
  name : string;
  mimeType : string;
  parentId : option string;
  lastSeenTs : option Z
}.
End GoogleDriveFiles.

(** The persisted change-feed cursor, unique on [(connectorId, driveId)]. *)
Module GoogleDriveSyncToken.
Record t := mk {
  connectorId : ModelId;
  driveId : string;
  syncToken : string
}.
End GoogleDriveSyncToken.

(** Push-notification subscriptions; [id] is the primary key. *)
Module GoogleDriveWebhook.
Record t := mk {
  id : Z;
  webhookId : string;
  connectorId : ModelId;
  driveId : string;
  expiresAt : Z;
  renewAt : option Z;
  renewedByWebhookId : option string
}.
End GoogleDriveWebhook.

Definition OAuth2Client := string.
Definition DriveClient := string.
Definition DataSourceConfig := string.

(** ** External calls *)

Inductive Event : Type :=
| CallGetAuthObject (connectionId : string)
| CallGetDriveClient (credentials : string)
| CallGetGoogleDriveObject (driveObjectId : string)
| CallFilesList (folderId : string) (pageToken : option string)
| CallChangesList (opts : ChangesListParams.t)
| CallGetStartPageToken (driveId : option string)
| CallDriveObjectToDustType (fileId : option string)
| CallGetFileParentsMemoized (connectorId : ModelId) (fileId : string)
    (startSyncTs : Z)
| CallSyncOneFile (connectorId : ModelId) (fileId : string)
    (startSyncTs : Z) (isBatchSync : bool)
| CallDeleteFromDataSource (config : DataSourceConfig) (documentId : string)
| CallDeleteSpreadsheet (connectorId : ModelId) (driveFileId : string)
| CallEnsureWebhookForDriveId (connectorId : ModelId) (driveId : string)
| CallSyncFailed (connectorId : ModelId) (errorType : string)
| CallHeartbeat
| StatsDIncrement (stat : string)
| LogInfo (message : string)
| LogError (message : string).

(** The requests the activities themselves send to the Google Drive API:
    [files.get] (through [getGoogleDriveObject]), [files.list],
    [changes.list] and [changes.getStartPageToken]. *)
Definition isDriveApiCall (e : Event) : bool :=
  match e with
  | CallGetGoogleDriveObject _ | CallFilesList _ _ | CallChangesList _
  | CallGetStartPageToken _ => true
  | _ => false
  end.

(** ** The world *)

Record World := mkWorld {
  connectors : list ConnectorResource.t;
  googleDriveConfigs : list GoogleDriveConfig.t;
  googleDriveFolders : list GoogleDriveFolders.t;
  googleDriveFiles : list GoogleDriveFiles.t;
  googleDriveSyncTokens : list GoogleDriveSyncToken.t;
  googleDriveWebhooks : list GoogleDriveWebhook.t;
  (** the downstream index: the documents each data source holds *)
  dataSource : list (DataSourceConfig * string);
  (** how many times the clock was read *)
  clockReads : nat;
  (** the external calls made so far, oldest first *)
  trace : list Event
}.

Definition withFiles (fs : list GoogleDriveFiles.t) (w : World) : World :=
  mkWorld (connectors w) (googleDriveConfigs w) (googleDriveFolders w) fs
    (googleDriveSyncTokens w) (googleDriveWebhooks w) (dataSource w)
    (clockReads w) (trace w).

Definition withSyncTokens (ts : list GoogleDriveSyncToken.t) (w : World)
  : World :=
  mkWorld (connectors w) (googleDriveConfigs w) (googleDriveFolders w)
    (googleDriveFiles w) ts (googleDriveWebhooks w) (dataSource w)
    (clockReads w) (trace w).

Definition withWebhooks (ws : list GoogleDriveWebhook.t) (w : World)
  : World :=
  mkWorld (connectors w) (googleDriveConfigs w) (googleDriveFolders w)
    (googleDriveFiles w) (googleDriveSyncTokens w) ws (dataSource w)
    (clockReads w) (trace w).

Definition withDataSource (ds : list (DataSourceConfig * string))
  (w : World) : World :=
  mkWorld (connectors w) (googleDriveConfigs w) (googleDriveFolders w)
    (googleDriveFiles w) (googleDriveSyncTokens w) (googleDriveWebhooks w) ds
    (clockReads w) (trace w).

Definition withClockReads (n : nat) (w : World) : World :=
  mkWorld (connectors w) (googleDriveConfigs w) (googleDriveFolders w)
    (googleDriveFiles w) (googleDriveSyncTokens w) (googleDriveWebhooks w)
    (dataSource w) n (trace w).

Definition withTrace (t : list Event) (w : World) : World :=
  mkWorld (connectors w) (googleDriveConfigs w) (googleDriveFolders w)
    (googleDriveFiles w) (googleDriveSyncTokens w) (googleDriveWebhooks w)
    (dataSource w) (clockReads w) t.

(** ** The monad of activities

    A thrown exception keeps the writes made before it: nothing is rolled
    back. *)

Definition M (A : Type) : Type := World -> Result A * World.

Definition ret {A} (a : A) : M A := fun w => (Ok a, w).

Definition bind {A B} (m : M A) (k : A -> M B) : M B :=
  fun w =>
    match m w with
    | (Ok a, w') => k a w'
    | (Throw e, w') => (Throw e, w')
    end.

Definition throw {A} (e : JsError) : M A := fun w => (Throw e, w).

Definition tryCatch {A} (m : M A) (handler : JsError -> M A) : M A :=
  fun w =>
    match m w with
    | (Ok a, w') => (Ok a, w')
    | (Throw e, w') => handler e w'
    end.

Definition gets {A} (f : World -> A) : M A := fun w => (Ok (f w), w).

Definition modify (f : World -> World) : M unit := fun w => (Ok tt, f w).

Definition emit (e : Event) : M unit :=
  modify (fun w => withTrace (trace w ++ [e]) w).

(** An external call: recorded in the trace, then answered. *)
Definition call {A} (e : Event) (answer : Result A) : M A :=
  fun w => (answer, withTrace (trace w ++ [e]) w).

Declare Scope activity_scope.
Delimit Scope activity_scope with activity.

Notation "x <- m ;; k" := (bind m (fun x => k))
  (at level 61, m at next level, right associativity) : activity_scope.
Notation "m ;;; k" := (bind m (fun _ => k))
  (at level 61, right associativity) : activity_scope.

Open Scope activity_scope.

(** [for (const x of xs) { await body(x) }] *)
Fixpoint forEach {A} (xs : list A) (body : A -> M unit) : M unit :=
  match xs with
  | [] => ret tt
  | x :: xs' => body x ;;; forEach xs' body
  end.

(** [await Promise.all(xs.map(f))], the calls taken in order.  Every call
    is made, also after one of them has thrown: the promise rejects with
    the first error, and what the other calls do is done all the same. *)
Fixpoint promiseAllMap {A B} (xs : list A) (f : A -> M B) : M (list B) :=
  match xs with
  | [] => ret []
  | x :: xs' =>
      fun w =>
        let '(r, w1) := f x w in
        let '(rs, w2) := promiseAllMap xs' f w1 in
        (match r, rs with
         | Ok y, Ok ys => Ok (y :: ys)
         | Ok _, Throw e => Throw e
         | Throw e, _ => Throw e
         end, w2)
  end.

(** ** The outside world

    What the activities import and this file does not define.  Each
    function answers the same way during one activity: the remote drive
    and the caches are a snapshot. *)

Record Env := mkEnv {
  (** the value of the [k]-th clock read ([new Date()], SQL [NOW()]) *)
  clock : nat -> Z;
  GOOGLE_DRIVE_WEBHOOK_RENEW_MARGIN_MS : Z;
  getAuthObject : string -> Result OAuth2Client;
  getDriveClient : string -> Result DriveClient;
  getGoogleDriveObject :
    OAuth2Client -> string -> Result (option GoogleDriveObjectType.t);
  (** [drive.files.list] for the children of a folder with one of the
      given MIME types, not trashed *)
  files_list :
    DriveClient -> string -> list string -> option string ->
    Result FileList.t;
  changes_list : DriveClient -> ChangesListParams.t -> Result ChangeList.t;
  changes_getStartPageToken :
    DriveClient -> option string -> Result StartPageToken.t;
  driveObjectToDustType :
    SchemaFile.t -> OAuth2Client -> Result GoogleDriveObjectType.t;
  getFileParentsMemoized :
    ModelId -> OAuth2Client -> GoogleDriveObjectType.t -> Z ->
    Result (list GoogleDriveObjectType.t);
  getMimeTypesToSync : bool -> list string;
  isGoogleDriveSpreadSheetFile : GoogleDriveFiles.t -> bool;
  getDocumentId : string -> string;
  dataSourceConfigFromConnector : ConnectorResource.t -> DataSourceConfig;
  JSON_stringify : SchemaFile.t -> string;
  (** [syncOneFile] pushes the content and upserts the mirror row: it may
      rewrite the mirror store and the downstream index, also when it
      throws *)
  syncOneFile :
    ModelId -> OAuth2Client -> DataSourceConfig -> GoogleDriveObjectType.t ->
    Z -> bool ->
    list GoogleDriveFiles.t * list (DataSourceConfig * string) ->
    Result bool * (list GoogleDriveFiles.t * list (DataSourceConfig * string));
  (** the error of the downstream delete, if it fails *)
  deleteFromDataSource_error : DataSourceConfig -> string -> option JsError;
  (** [deleteSpreadsheet] removes what the sheets of a spreadsheet left
      downstream: it may rewrite the downstream index, also when it
      throws *)
  deleteSpreadsheet_result :
    ConnectorResource.t -> GoogleDriveFiles.t ->
    list (DataSourceConfig * string) ->
    Result unit * list (DataSourceConfig * string);
  (** the answer of the remote provider to a request for a new
      subscription: its id and its expiry *)
  registerWebhook :
    ConnectorResource.t -> string -> Result (option (string * Z))
}.

(** ** Table operations *)

Definition fetchById (connectorId : ModelId) : M (option ConnectorResource.t) :=
  gets (fun w =>
    find (fun c => ConnectorResource.id c =? connectorId) (connectors w)).

Definition findConfig (connectorId : ModelId)
  : M (option GoogleDriveConfig.t) :=
  gets (fun w =>
    find (fun c => GoogleDriveConfig.connectorId c =? connectorId)
      (googleDriveConfigs w)).

Definition sameFile (connectorId : ModelId) (driveFileId : string)
  (f : GoogleDriveFiles.t) : bool :=
  (GoogleDriveFiles.connectorId f =? connectorId)
  && (GoogleDriveFiles.driveFileId f =? driveFileId)%string.

(** [GoogleDriveFiles.findOne({ where: { connectorId, driveFileId } })] *)
Definition findFile (connectorId : ModelId) (driveFileId : string)
  (fs : list GoogleDriveFiles.t) : option GoogleDriveFiles.t :=
  find (sameFile connectorId driveFileId) fs.

(** [lastSeenTs: { [Op.gte]: new Date(startSyncTs) }]; a null timestamp
    compares false. *)
Definition seenSince (startSyncTs : Z) (f : GoogleDriveFiles.t) : bool :=
  match GoogleDriveFiles.lastSeenTs f with
  | Some ts => startSyncTs <=? ts
  | None => false
  end.

(** [lastSeenTs: { [Op.or]: [{ [Op.lt]: new Date(lastSeenTs) }, null] }] *)
Definition notSeenSince (lastSeenTs : Z) (f : GoogleDriveFiles.t) : bool :=
  match GoogleDriveFiles.lastSeenTs f with
  | Some ts => ts <? lastSeenTs
  | None => true
  end.

(** [row.destroy()]: the row is the one with this [(connectorId,
    driveFileId)]. *)
Definition destroyFile (f : GoogleDriveFiles.t)
  (fs : list GoogleDriveFiles.t) : list GoogleDriveFiles.t :=
  filter (fun g => negb (sameFile (GoogleDriveFiles.connectorId f)
                            (GoogleDriveFiles.driveFileId f) g)) fs.

(** [GoogleDriveFiles.upsert(row)]: every column is given, so a row with
    the same key is replaced; otherwise the row is added. *)
Definition upsertFile (f : GoogleDriveFiles.t)
  (fs : list GoogleDriveFiles.t) : list GoogleDriveFiles.t :=
  let same := sameFile (GoogleDriveFiles.connectorId f)
                (GoogleDriveFiles.driveFileId f) in
  if existsb same fs
  then map (fun g => if same g then f else g) fs
  else fs ++ [f].

Definition setLastSeenTs (ts : Z) (f : GoogleDriveFiles.t)
  : GoogleDriveFiles.t :=
  GoogleDriveFiles.mk (GoogleDriveFiles.connectorId f)
    (GoogleDriveFiles.dustFileId f) (GoogleDriveFiles.driveFileId f)
    (GoogleDriveFiles.name f) (GoogleDriveFiles.mimeType f)
    (GoogleDriveFiles.parentId f) (Some ts).

(** [row.update({ lastSeenTs })] *)
Definition updateLastSeenTs (f : GoogleDriveFiles.t) (ts : Z)
  (fs : list GoogleDriveFiles.t) : list GoogleDriveFiles.t :=
  map (fun g => if sameFile (GoogleDriveFiles.connectorId f)
                     (GoogleDriveFiles.driveFileId f) g
                then setLastSeenTs ts g else g) fs.

Definition sameDrive (connectorId : ModelId) (driveId : string)
  (t : GoogleDriveSyncToken.t) : bool :=
  (GoogleDriveSyncToken.connectorId t =? connectorId)
  && (GoogleDriveSyncToken.driveId t =? driveId)%string.

Definition findSyncToken (connectorId : ModelId) (driveId : string)
  (ts : list GoogleDriveSyncToken.t) : option GoogleDriveSyncToken.t :=
  find (sameDrive connectorId driveId) ts.

Definition upsertSyncToken (t : GoogleDriveSyncToken.t)
  (ts : list GoogleDriveSyncToken.t) : list GoogleDriveSyncToken.t :=
  let same := sameDrive (GoogleDriveSyncToken.connectorId t)
                (GoogleDriveSyncToken.driveId t) in
  if existsb same ts
  then map (fun u => if same u then t else u) ts
  else ts ++ [t].

(** [new Date()] and SQL [NOW()] *)
Definition now (env : Env) : M Z :=
  fun w => (Ok (clock env (clockReads w)),
            withClockReads (S (clockReads w)) w).

(** ** Helpers of the activities *)

Definition showZ (z : Z) : string := NilZero.string_of_int (Z.to_int z).

Definition connectorNotFound {A} (connectorId : ModelId) : M A :=
  throw (Error ("Connector " ++ showZ connectorId ++ " not found")).

Definition folderMimeType : string := "application/vnd.google-apps.folder".

Definition heartbeat : M unit := emit CallHeartbeat.

Definition syncFailed (connectorId : ModelId) (errorType : string) : M unit :=
  emit (CallSyncFailed connectorId errorType).

(** Modelled from the spec: [deleteFromDataSource], the [delete(documentId)]
    of the downstream indexing service, is imported from a module that is
    not at hand.  It removes the document from the data source, or
    fails. *)
Definition deleteFromDataSource (env : Env) (config : DataSourceConfig)
  (documentId : string) : M unit :=
  fun w =>
    let w1 :=
      withTrace (trace w ++ [CallDeleteFromDataSource config documentId]) w
    in
    match deleteFromDataSource_error env config documentId with
    | Some e => (Throw e, w1)
    | None =>
        (Ok tt,
         withDataSource
           (filter (fun d => negb ((fst d =? config)%string
                                   && (snd d =? documentId)%string))
              (dataSource w1)) w1)
    end.

(** [deleteSpreadsheet] is imported: the environment says whether it
    fails and what is left downstream. *)
Definition deleteSpreadsheet (env : Env) (connector : ConnectorResource.t)
  (file : GoogleDriveFiles.t) : M unit :=
  fun w =>
    let '(r, ds) :=
      deleteSpreadsheet_result env connector file (dataSource w) in
    (r, withTrace
          (trace w ++ [CallDeleteSpreadsheet (ConnectorResource.id connector)
                         (GoogleDriveFiles.driveFileId file)])
          (withDataSource ds w)).

Definition callSyncOneFile (env : Env) (connectorId : ModelId)
  (authCredentials : OAuth2Client) (dataSourceConfig : DataSourceConfig)
  (file : GoogleDriveObjectType.t) (startSyncTs : Z) (isBatchSync : bool)
  : M bool :=
  fun w =>
    let '(r, (fs, ds)) :=
      syncOneFile env connectorId authCredentials dataSourceConfig file
        startSyncTs isBatchSync (googleDriveFiles w, dataSource w) in
    (r, withTrace
          (trace w ++ [CallSyncOneFile connectorId
                         (GoogleDriveObjectType.id file) startSyncTs
                         isBatchSync])
          (withDataSource ds (withFiles fs w))).

(** ** The activities *)

Definition getFoldersToSync (connectorId : ModelId) : M (list string) :=
  gets (fun w =>
    map GoogleDriveFolders.folderId
      (filter (fun f => GoogleDriveFolders.connectorId f =? connectorId)
         (googleDriveFolders w))).

Definition objectIsInFolders (env : Env) (connectorId : ModelId)
  (authCredentials : OAuth2Client) (driveFile : GoogleDriveObjectType.t)
  (foldersIds : list string) (startSyncTs : Z) : M bool :=
  parents <- call (CallGetFileParentsMemoized connectorId
                     (GoogleDriveObjectType.id driveFile) startSyncTs)
               (getFileParentsMemoized env connectorId authCredentials
                  driveFile startSyncTs) ;;
  ret (existsb (fun parent =>
                  includes foldersIds (GoogleDriveObjectType.id parent))
         parents).

Definition deleteFile (env : Env) (googleDriveFile : GoogleDriveFiles.t)
  : M unit :=
  let connectorId := GoogleDriveFiles.connectorId googleDriveFile in
  connector <- fetchById connectorId ;;
  match connector with
  | None => connectorNotFound connectorId
  | Some connector =>
      emit (LogInfo "Deleting Google Drive file.") ;;;
      (if isGoogleDriveSpreadSheetFile env googleDriveFile
       then deleteSpreadsheet env connector googleDriveFile
       else if negb (GoogleDriveFiles.mimeType googleDriveFile
                     =? folderMimeType)%string
       then
         let dataSourceConfig := dataSourceConfigFromConnector env connector in
         deleteFromDataSource env dataSourceConfig
           (GoogleDriveFiles.dustFileId googleDriveFile)
       else ret tt) ;;;
      modify (fun w =>
        withFiles (destroyFile googleDriveFile (googleDriveFiles w)) w)
  end.

Definition deleteOneFile (env : Env) (connectorId : ModelId)
  (file : GoogleDriveObjectType.t) : M unit :=
  googleDriveFile <- gets (fun w =>
    findFile connectorId (GoogleDriveObjectType.id file)
      (googleDriveFiles w)) ;;
  match googleDriveFile with
  | None => ret tt
  | Some googleDriveFile => deleteFile env googleDriveFile
  end.

Module SyncFilesResult.
Record t := mk {
  nextPageToken : option string;
  count : nat;
  subfolders : list string
}.
End SyncFilesResult.

Definition invalidFile {A} (env : Env) (file : SchemaFile.t) : M A :=
  throw (Error ("Invalid file. File is: " ++ JSON_stringify env file)).

Definition syncFiles (env : Env) (connectorId : ModelId)
  (dataSourceConfig : DataSourceConfig) (driveFolderId : string)
  (startSyncTs : Z) (nextPageToken : option string)
  : M SyncFilesResult.t :=
  connector <- fetchById connectorId ;;
  match connector with
  | None => connectorNotFound connectorId
  | Some connector =>
  config <- findConfig connectorId ;;
  let mimeTypesToSync :=
    getMimeTypesToSync env
      (match config with
       | Some c => GoogleDriveConfig.pdfEnabled c
       | None => false
       end) in
  authCredentials <-
    call (CallGetAuthObject (ConnectorResource.connectionId connector))
      (getAuthObject env (ConnectorResource.connectionId connector)) ;;
  driveFolder <-
    call (CallGetGoogleDriveObject driveFolderId)
      (getGoogleDriveObject env authCredentials driveFolderId) ;;
  match driveFolder with
  | None =>
      emit (LogInfo "Google Drive Folder unexpectedly not found (got 404)") ;;;
      ret (SyncFilesResult.mk None 0 [])
  | Some driveFolder =>
  visitedFolder <-
    match nextPageToken with
    | None =>
        gets (fun w =>
          find (fun f =>
                  sameFile connectorId (GoogleDriveObjectType.id driveFolder) f
                  && seenSince startSyncTs f)
            (googleDriveFiles w))
    | Some _ => ret None
    end ;;
  match visitedFolder with
  | Some _ => ret (SyncFilesResult.mk None 0 [])
  | None =>
  drive <- call (CallGetDriveClient authCredentials)
             (getDriveClient env authCredentials) ;;
  res <- call (CallFilesList (GoogleDriveObjectType.id driveFolder)
                 nextPageToken)
           (files_list env drive (GoogleDriveObjectType.id driveFolder)
              mimeTypesToSync nextPageToken) ;;
  if negb (FileList.status res =? 200) then
    throw (Error ("Error getting files. status_code: "
                  ++ showZ (FileList.status res) ++ ". status_text: "
                  ++ FileList.statusText res))
  else
  match FileList.files res with
  | None => throw (Error "Files list is undefined")
  | Some files =>
  filesToSync <-
    promiseAllMap
      (filter (fun file => truthy (SchemaFile.id file)
                           && truthy (SchemaFile.createdTime file)) files)
      (fun file =>
         if negb (truthy (SchemaFile.id file))
            || negb (truthy (SchemaFile.createdTime file))
            || negb (truthy (SchemaFile.name file))
            || negb (truthy (SchemaFile.mimeType file))
         then invalidFile env file
         else call (CallDriveObjectToDustType (SchemaFile.id file))
                (driveObjectToDustType env file authCredentials)) ;;
  let subfolders :=
    map GoogleDriveObjectType.id
      (filter (fun file => (GoogleDriveObjectType.mimeType file
                            =? folderMimeType)%string) filesToSync) in
  results <-
    promiseAllMap filesToSync
      (fun file =>
         if negb (GoogleDriveObjectType.trashed file)
         then callSyncOneFile env connectorId authCredentials
                dataSourceConfig file startSyncTs true
         else deleteOneFile env connectorId file ;;; ret false) ;;
  ret (SyncFilesResult.mk
         (if truthy (FileList.nextPageToken res)
          then FileList.nextPageToken res else None)
         (List.length (filter (fun r : bool => r) results))
         subfolders)
  end end end end.

Definition getSyncPageToken (env : Env) (connectorId : ModelId)
  (driveId : string) (isSharedDrive : bool) : M string :=
  connector <- fetchById connectorId ;;
  match connector with
  | None => connectorNotFound connectorId
  | Some connector =>
  last <- gets (fun w =>
            findSyncToken connectorId driveId (googleDriveSyncTokens w)) ;;
  match last with
  | Some last => ret (GoogleDriveSyncToken.syncToken last)
  | None =>
  driveClient <-
    call (CallGetDriveClient (ConnectorResource.connectionId connector))
      (getDriveClient env (ConnectorResource.connectionId connector)) ;;
  let opts := if isSharedDrive then Some driveId else None in
  startTokenRes <- call (CallGetStartPageToken opts)
                     (changes_getStartPageToken env driveClient opts) ;;
  if negb (StartPageToken.status startTokenRes =? 200) then
    throw (Error ("Error getting start page token. status_code: "
                  ++ showZ (StartPageToken.status startTokenRes)
                  ++ ". status_text: "
                  ++ StartPageToken.statusText startTokenRes))
  else
  match StartPageToken.startPageToken startTokenRes with
  | Some t => if (t =? "")%string
              then throw (Error "No start page token found")
              else ret t
  | None => throw (Error "No start page token found")
  end
  end end.

(** The body of the [for (const change of changesRes.data.changes)] loop of
    [incrementalSync]; [continue] is an early [ret tt]. *)
Definition incrementalSync_change (env : Env) (connectorId : ModelId)
  (dataSourceConfig : DataSourceConfig) (startSyncTs : Z)
  (mimeTypesToSync selectedFoldersIds : list string)
  (authCredentials : OAuth2Client) (change : SchemaChange.t) : M unit :=
  heartbeat ;;;
  match SchemaChange.changeType change, SchemaChange.file change with
  | Some "file", Some change_file =>
  match SchemaFile.mimeType change_file with
  | None => ret tt
  | Some change_file_mimeType =>
  if negb (truthy (SchemaFile.mimeType change_file))
     || negb (includes mimeTypesToSync change_file_mimeType)
  then ret tt
  else
  match SchemaFile.id change_file with
  | None => ret tt
  | Some change_file_id =>
  if negb (truthy (SchemaFile.id change_file)) then ret tt else
  file <- call (CallDriveObjectToDustType (SchemaFile.id change_file))
            (driveObjectToDustType env change_file authCredentials) ;;
  isInFolders <- objectIsInFolders env connectorId authCredentials file
                   selectedFoldersIds startSyncTs ;;
  if negb isInFolders
     || match SchemaFile.trashed change_file with
        | Some b => b
        | None => false
        end
  then
    (* The current file is not in the list of selected folders.
       If we have it locally, we need to garbage collect it. *)
    localFile <- gets (fun w =>
                   findFile connectorId change_file_id (googleDriveFiles w)) ;;
    match localFile with
    | Some _ => deleteOneFile env connectorId file
    | None => ret tt
    end
  else
  if negb (truthy (SchemaFile.createdTime change_file))
     || negb (truthy (SchemaFile.name change_file))
     || negb (truthy (SchemaFile.id change_file))
  then invalidFile env change_file
  else
  emit (LogInfo "will sync file") ;;;
  driveFile <- call (CallDriveObjectToDustType (SchemaFile.id change_file))
                 (driveObjectToDustType env change_file authCredentials) ;;
  if (GoogleDriveObjectType.mimeType driveFile =? folderMimeType)%string
  then
    lastSeenTs <- now env ;;
    modify (fun w =>
      withFiles
        (upsertFile
           (GoogleDriveFiles.mk connectorId
              (getDocumentId env (GoogleDriveObjectType.id driveFile))
              (GoogleDriveObjectType.id file)
              (GoogleDriveObjectType.name file)
              (GoogleDriveObjectType.mimeType file)
              (GoogleDriveObjectType.parent file)
              (Some lastSeenTs))
           (googleDriveFiles w)) w) ;;;
    emit (LogInfo "done syncing file")
  else
    callSyncOneFile env connectorId authCredentials dataSourceConfig
      driveFile startSyncTs false ;;;
    emit (LogInfo "done syncing file")
  end end
  | _, _ => ret tt
  end.

(** [GoogleDriveSyncToken.upsert] at the end of a page. *)
Definition persistSyncToken (connectorId : ModelId) (driveId : string)
  (syncToken : string) : M unit :=
  modify (fun w =>
    withSyncTokens
      (upsertSyncToken
         (GoogleDriveSyncToken.mk connectorId driveId syncToken)
         (googleDriveSyncTokens w)) w).

(** The [try] block of [incrementalSync]. *)
Definition incrementalSync_try (env : Env) (connectorId : ModelId)
  (dataSourceConfig : DataSourceConfig) (driveId : string)
  (isSharedDrive : bool) (startSyncTs : Z) (nextPageToken : option string)
  : M (option string) :=
  connector <- fetchById connectorId ;;
  match connector with
  | None => connectorNotFound connectorId
  | Some connector =>
  nextPageToken <-
    match nextPageToken with
    | Some t => if (t =? "")%string
                then getSyncPageToken env connectorId driveId isSharedDrive
                else ret t
    | None => getSyncPageToken env connectorId driveId isSharedDrive
    end ;;
  config <- findConfig connectorId ;;
  let mimeTypesToSync :=
    getMimeTypesToSync env
      (match config with
       | Some c => GoogleDriveConfig.pdfEnabled c
       | None => false
       end) in
  selectedFoldersIds <- getFoldersToSync connectorId ;;
  authCredentials <-
    call (CallGetAuthObject (ConnectorResource.connectionId connector))
      (getAuthObject env (ConnectorResource.connectionId connector)) ;;
  driveClient <- call (CallGetDriveClient authCredentials)
                   (getDriveClient env authCredentials) ;;
  let opts :=
    if isSharedDrive
    then ChangesListParams.mk nextPageToken (Some driveId) true true
    else ChangesListParams.mk nextPageToken None false false in
  changesRes <- call (CallChangesList opts)
                  (changes_list env driveClient opts) ;;
  if negb (ChangeList.status changesRes =? 200) then
    throw (Error ("Error getting changes. status_code: "
                  ++ showZ (ChangeList.status changesRes)
                  ++ ". status_text: " ++ ChangeList.statusText changesRes))
  else
  match ChangeList.changes changesRes with
  | None => throw (Error "changes list is undefined")
  | Some changes =>
  emit (LogInfo "Got changes.") ;;;
  forEach changes
    (incrementalSync_change env connectorId dataSourceConfig startSyncTs
       mimeTypesToSync selectedFoldersIds authCredentials) ;;;
  let nextPageToken :=
    if truthy (ChangeList.nextPageToken changesRes)
    then ChangeList.nextPageToken changesRes else None in
  (match ChangeList.newStartPageToken changesRes with
   | Some newStartPageToken =>
       if (newStartPageToken =? "")%string then ret tt
       else persistSyncToken connectorId driveId newStartPageToken
   | None => ret tt
   end) ;;;
  ret nextPageToken
  end end.

(** [e instanceof GaxiosError && e.response?.status === 403] *)
Definition lostAccess (e : JsError) : bool :=
  match e with
  | GaxiosError (Some status) _ => status =? 403
  | _ => false
  end.

Definition incrementalSync (env : Env) (connectorId : ModelId)
  (dataSourceConfig : DataSourceConfig) (driveId : string)
  (isSharedDrive : bool) (startSyncTs : Z) (nextPageToken : option string)
  : M (option string) :=
  tryCatch
    (incrementalSync_try env connectorId dataSourceConfig driveId
       isSharedDrive startSyncTs nextPageToken)
    (fun e =>
       if lostAccess e then
         emit (LogError "Looks like we lost access to this drive. Skipping") ;;;
         ret None
       else throw e).

(** One task of the garbage collector's queue. *)
Definition garbageCollector_file (env : Env) (connectorId : ModelId)
  (authCredentials : OAuth2Client) (selectedFolders : list string)
  (lastSeenTs : Z) (file : GoogleDriveFiles.t) : M unit :=
  driveFile <-
    call (CallGetGoogleDriveObject (GoogleDriveFiles.driveFileId file))
      (getGoogleDriveObject env authCredentials
         (GoogleDriveFiles.driveFileId file)) ;;
  match driveFile with
  | None =>
      (* Could not find the file on Gdrive, deleting our local reference
         to it. *)
      deleteFile env file
  | Some driveFile =>
      isInFolder <- objectIsInFolders env connectorId authCredentials
                      driveFile selectedFolders lastSeenTs ;;
      if negb isInFolder || GoogleDriveObjectType.trashed driveFile
      then deleteOneFile env connectorId driveFile
      else
        ts <- now env ;;
        modify (fun w =>
          withFiles (updateLastSeenTs file ts (googleDriveFiles w)) w)
  end.

(** The rows [GoogleDriveFiles.findAll] selects for [garbageCollector]:
    [limit: 100].  The query has no order: the rows come in the order of
    the table. *)
Definition garbageCollector_candidates (connectorId : ModelId)
  (lastSeenTs : Z) (fs : list GoogleDriveFiles.t)
  : list GoogleDriveFiles.t :=
  firstn 100
    (filter (fun f => (GoogleDriveFiles.connectorId f =? connectorId)
                      && notSeenSince lastSeenTs f) fs).

(** The tasks of the pool are run for every selected row, also after one
    of them has thrown. *)
Definition garbageCollector (env : Env) (connectorId : ModelId)
  (lastSeenTs : Z) : M nat :=
  connector <- fetchById connectorId ;;
  match connector with
  | None => connectorNotFound connectorId
  | Some connector =>
  authCredentials <-
    call (CallGetAuthObject (ConnectorResource.connectionId connector))
      (getAuthObject env (ConnectorResource.connectionId connector)) ;;
  files <- gets (fun w =>
             garbageCollector_candidates connectorId lastSeenTs
               (googleDriveFiles w)) ;;
  selectedFolders <- getFoldersToSync connectorId ;;
  promiseAllMap files
    (garbageCollector_file env connectorId authCredentials selectedFolders
       lastSeenTs) ;;;
  ret (List.length files)
  end.

(** *** Webhooks *)

Definition setRenewedByWebhookId (v : option string)
  (wh : GoogleDriveWebhook.t) : GoogleDriveWebhook.t :=
  GoogleDriveWebhook.mk (GoogleDriveWebhook.id wh)
    (GoogleDriveWebhook.webhookId wh) (GoogleDriveWebhook.connectorId wh)
    (GoogleDriveWebhook.driveId wh) (GoogleDriveWebhook.expiresAt wh)
    (GoogleDriveWebhook.renewAt wh) v.

Definition setRenewAt (v : option Z) (wh : GoogleDriveWebhook.t)
  : GoogleDriveWebhook.t :=
  GoogleDriveWebhook.mk (GoogleDriveWebhook.id wh)
    (GoogleDriveWebhook.webhookId wh) (GoogleDriveWebhook.connectorId wh)
    (GoogleDriveWebhook.driveId wh) (GoogleDriveWebhook.expiresAt wh)
    v (GoogleDriveWebhook.renewedByWebhookId wh).

(** [wh.update(...)] and [wh.destroy()] act on the row with the primary
    key of [wh]. *)
Definition updateWebhook (wh : GoogleDriveWebhook.t)
  (f : GoogleDriveWebhook.t -> GoogleDriveWebhook.t) : M unit :=
  modify (fun w =>
    withWebhooks
      (map (fun r => if GoogleDriveWebhook.id r =? GoogleDriveWebhook.id wh
                     then f r else r) (googleDriveWebhooks w)) w).

Definition destroyWebhook (wh : GoogleDriveWebhook.t) : M unit :=
  modify (fun w =>
    withWebhooks
      (filter (fun r => negb (GoogleDriveWebhook.id r
                              =? GoogleDriveWebhook.id wh))
         (googleDriveWebhooks w)) w).

(** The key of a created row: past every key of the table. *)
Definition nextWebhookId (ws : list GoogleDriveWebhook.t) : Z :=
  1 + fold_right (fun r m => Z.max (GoogleDriveWebhook.id r) m) 0 ws.

(** Modelled from the spec: [ensureWebhookForDriveId] is imported from the
    connector's library, which is not at hand.  It "request[s] a new
    subscription from the remote provider": when the provider grants one,
    a record for it is created, not superseded, with its hard expiry and
    the soft deadline a margin before; the id of the new subscription is
    returned.  The answer is a [Result] value, as the caller tests it with
    [isErr]; no id is returned when no subscription was requested. *)
Definition ensureWebhookForDriveId (env : Env)
  (connector : ConnectorResource.t) (driveId : string) (marginMs : Z)
  : M (Result (option string)) :=
  fun w =>
    let w1 := withTrace
                (trace w ++ [CallEnsureWebhookForDriveId
                               (ConnectorResource.id connector) driveId]) w in
    match registerWebhook env connector driveId with
    | Throw e => (Ok (Throw e), w1)
    | Ok None => (Ok (Ok None), w1)
    | Ok (Some (webhookId, expirationTsMs)) =>
        (Ok (Ok (Some webhookId)),
         withWebhooks
           (googleDriveWebhooks w1
            ++ [GoogleDriveWebhook.mk (nextWebhookId (googleDriveWebhooks w1))
                  webhookId (ConnectorResource.id connector) driveId
                  expirationTsMs (Some (expirationTsMs - marginMs)) None])
           w1)
    end.

Definition twoHoursMs : Z := 2 * 60 * 60 * 1000.
Definition threeDaysMs : Z := 3 * 24 * 60 * 60 * 1000.

(** [e instanceof ExternalOauthTokenError || (e instanceof HTTPError &&
    e.message === "The caller does not have permission")] *)
Definition oauthTokenRevoked (e : JsError) : bool :=
  match e with
  | ExternalOauthTokenError _ => true
  | HTTPError message =>
      (message =? "The caller does not have permission")%string
  | _ => false
  end.

(** The [try] block of the loop of [renewWebhooks]. *)
Definition renewWebhooks_try (env : Env) (connector : ConnectorResource.t)
  (wh : GoogleDriveWebhook.t) : M unit :=
  auth <- call (CallGetAuthObject (ConnectorResource.connectionId connector))
            (getAuthObject env (ConnectorResource.connectionId connector)) ;;
  remoteDrive <-
    call (CallGetGoogleDriveObject (GoogleDriveWebhook.driveId wh))
      (getGoogleDriveObject env auth (GoogleDriveWebhook.driveId wh)) ;;
  (* Check if we still have access to this drive. *)
  match remoteDrive with
  | None =>
      emit (LogInfo
              "We lost access to the drive. Deleting the associated webhook.") ;;;
      destroyWebhook wh
  | Some _ =>
      res <- ensureWebhookForDriveId env connector
               (GoogleDriveWebhook.driveId wh)
               (GOOGLE_DRIVE_WEBHOOK_RENEW_MARGIN_MS env) ;;
      match res with
      | Throw e =>
          (* Throwing here to centralize error handling in the catch block
             below. *)
          throw e
      | Ok value =>
          if truthy value then
            (* marking the previous webhook as renewed by the new one. *)
            updateWebhook wh (setRenewedByWebhookId value)
          else
            emit (LogError
                    "Found a webhook to renew but did not proceed to the renewal process. Need to investigate.")
      end
  end.

(** The [catch] block of the loop of [renewWebhooks]. *)
Definition renewWebhooks_catch (env : Env) (connector : ConnectorResource.t)
  (wh : GoogleDriveWebhook.t) (e : JsError) : M unit :=
  if oauthTokenRevoked e then
    syncFailed (ConnectorResource.id connector) "oauth_token_revoked" ;;;
    emit (LogError "Failed to renew webhook: Oauth token revoked .") ;;;
    (* Do not delete the webhook object but push it down the line in 2h so
       that it does not get picked up by the loop calling
       rewnewOneWebhook. *)
    t <- now env ;;
    updateWebhook wh (setRenewAt (Some (t + twoHoursMs)))
  else
    emit (LogError "Failed to renew webhook") ;;;
    emit (StatsDIncrement "google_drive_renew_webhook_errors.count") ;;;
    t <- now env ;;
    updateWebhook wh (setRenewAt (Some (t + twoHoursMs))).

(** The body of the loop of [renewWebhooks]. *)
Definition renewWebhooks_webhook (env : Env) (wh : GoogleDriveWebhook.t)
  : M unit :=
  connector <- fetchById (GoogleDriveWebhook.connectorId wh) ;;
  match connector with
  | None => emit (LogError "Connector not found for webhook")
  | Some connector =>
      d <- now env ;;
      (if GoogleDriveWebhook.expiresAt wh <? d
       then emit (LogError
                    "We are processing a webhook which have already expired, this should never happen. Investigation needed.")
       else ret tt) ;;;
      tryCatch (renewWebhooks_try env connector wh)
        (renewWebhooks_catch env connector wh)
  end.

(** [renewAt: { [Op.lt]: ... }, renewedByWebhookId: null]; a null [renewAt]
    compares false. *)
Definition toRenew (deadline : Z) (wh : GoogleDriveWebhook.t) : bool :=
  match GoogleDriveWebhook.renewAt wh with
  | Some t => t <? deadline
  | None => false
  end
  && match GoogleDriveWebhook.renewedByWebhookId wh with
     | None => true
     | Some _ => false
     end.

(** [expiresAt < now() - INTERVAL '3 day'] and [renewedByWebhookId] not
    null. *)
Definition toCleanUp (t : Z) (wh : GoogleDriveWebhook.t) : bool :=
  (GoogleDriveWebhook.expiresAt wh <? t - threeDaysMs)
  && match GoogleDriveWebhook.renewedByWebhookId wh with
     | None => false
     | Some _ => true
     end.

(** The first [limit] rows that match go. *)
Fixpoint destroyFirst {A} (p : A -> bool) (limit : nat) (rows : list A)
  : list A :=
  match rows with
  | [] => []
  | r :: rows' =>
      if p r then
        match limit with
        | O => r :: rows'
        | S limit' => destroyFirst p limit' rows'
        end
      else r :: destroyFirst p limit rows'
  end.

(** [destroy({ where, limit })]: the first [limit] rows that match go.  A
    limit of 0 is falsy and the query is built without it: every row that
    matches goes. *)
Definition destroyLimit {A} (p : A -> bool) (limit : nat) (rows : list A)
  : list A :=
  match limit with
  | O => filter (fun r => negb (p r)) rows
  | S _ => destroyFirst p limit rows
  end.

Definition renewWebhooks (env : Env) (pageSize : nat) : M nat :=
  (* Find webhook that are about to expire in the next hour. *)
  t <- now env ;;
  webhooks <- gets (fun w =>
    firstn pageSize
      (filter (toRenew (t + GOOGLE_DRIVE_WEBHOOK_RENEW_MARGIN_MS env))
         (googleDriveWebhooks w))) ;;
  emit (LogInfo "Renewing webhooks") ;;;
  forEach webhooks (renewWebhooks_webhook env) ;;;
  (* Clean up webhooks pointers that expired more than 1 day ago. *)
  t' <- now env ;;
  modify (fun w =>
    withWebhooks
      (destroyLimit (toCleanUp t') pageSize (googleDriveWebhooks w)) w) ;;;
  ret (List.length webhooks).

Definition markFolderAsVisited (env : Env) (connectorId : ModelId)
  (driveFileId : string) : M unit :=
  connector <- fetchById connectorId ;;
  match connector with
  | None => connectorNotFound connectorId
  | Some connector =>
  authCredentials <-
    call (CallGetAuthObject (ConnectorResource.connectionId connector))
      (getAuthObject env (ConnectorResource.connectionId connector)) ;;
  file <- call (CallGetGoogleDriveObject driveFileId)
            (getGoogleDriveObject env authCredentials driveFileId) ;;
  match file with
  | None =>
      emit (LogInfo "Google Drive File unexpectedly not found (got 404)")
  | Some file =>
      ts <- now env ;;
      modify (fun w =>
        withFiles
          (upsertFile
             (GoogleDriveFiles.mk connectorId (getDocumentId env driveFileId)
                (GoogleDriveObjectType.id file)
                (GoogleDriveObjectType.name file)
                (GoogleDriveObjectType.mimeType file)
                (GoogleDriveObjectType.parent file)
                (Some ts))
             (googleDriveFiles w)) w)
  end
  end.

(** * Specifications

    What the theorems below say about the activities. *)

(** The downstream calls [deleteFile] makes for a row. *)
Definition deleteFile_downstream (env : Env) (connector : ConnectorResource.t)
  (f : GoogleDriveFiles.t) : list Event :=
  if isGoogleDriveSpreadSheetFile env f
  then [CallDeleteSpreadsheet (ConnectorResource.id connector)
          (GoogleDriveFiles.driveFileId f)]
  else if (GoogleDriveFiles.mimeType f =? folderMimeType)%string
  then []
  else [CallDeleteFromDataSource (dataSourceConfigFromConnector env connector)
          (GoogleDriveFiles.dustFileId f)].

(** Whether the downstream call of [deleteFile] for a row goes through. *)
Definition deleteFile_downstream_ok (env : Env)
  (connector : ConnectorResource.t) (f : GoogleDriveFiles.t)
  (ds : list (DataSourceConfig * string)) : bool :=
  if isGoogleDriveSpreadSheetFile env f
  then match fst (deleteSpreadsheet_result env connector f ds) with
       | Ok _ => true
       | Throw _ => false
       end
  else if (GoogleDriveFiles.mimeType f =? folderMimeType)%string
  then true
  else match deleteFromDataSource_error env
               (dataSourceConfigFromConnector env connector)
               (GoogleDriveFiles.dustFileId f) with
       | None => true
       | Some _ => false
       end.

(** The calls made between two worlds of one run. *)
Definition callsSince (w w' : World) : list Event :=
  skipn (List.length (trace w)) (trace w').

(** [keeps proj m]: running [m] does not change the [proj] part of the
    world, whether it returns or throws. *)
Definition keeps {T A} (proj : World -> T) (m : M A) : Prop :=
  forall w, proj (snd (m w)) = proj w.

(** The mirror row that marks a folder as visited since the start of the
    generation. *)
Definition visitedSince (connectorId : ModelId) (driveFileId : string)
  (startSyncTs : Z) (w : World) : Prop :=
  exists row,
    In row (googleDriveFiles w)
    /\ sameFile connectorId driveFileId row = true
    /\ seenSince startSyncTs row = true.

(** ** A small drive

    A concrete outside world, to run the activities on: a remote drive
    given by its objects, one page of listing, one page of changes and the
    provider's answer to a subscription request. *)

Definition documentMimeType : string := "application/vnd.google-apps.document".
Definition spreadsheetMimeType : string :=
  "application/vnd.google-apps.spreadsheet".

(** A remote object named after its id. *)
Definition remoteObject (id : string) (parent : option string)
  (mimeType : string) (trashed : bool) : GoogleDriveObjectType.t :=
  GoogleDriveObjectType.mk id id parent mimeType trashed 1 "drive1" false.

Definition findRemote (remote : list GoogleDriveObjectType.t) (id : string)
  : option GoogleDriveObjectType.t :=
  find (fun o => (GoogleDriveObjectType.id o =? id)%string) remote.

(** The object and its ancestors, nearest first. *)
Fixpoint ancestors (remote : list GoogleDriveObjectType.t) (fuel : nat)
  (o : GoogleDriveObjectType.t) : list GoogleDriveObjectType.t :=
  match fuel with
  | O => [o]
  | S fuel' =>
      o :: match GoogleDriveObjectType.parent o with
           | Some p => match findRemote remote p with
                       | Some po => ancestors remote fuel' po
                       | None => []
                       end
           | None => []
           end
  end.

(** The conversion of the small drive: it keeps the id, the name, the
    MIME type and the first parent, and rejects a file that lacks one of
    the first three. *)
Definition toDustType (f : SchemaFile.t) : Result GoogleDriveObjectType.t :=
  match SchemaFile.id f, SchemaFile.name f, SchemaFile.mimeType f with
  | Some id, Some name, Some mimeType =>
      Ok (GoogleDriveObjectType.mk id name (hd_error (SchemaFile.parents f))
            mimeType
            (match SchemaFile.trashed f with Some b => b | None => false end)
            1 "drive1" false)
  | _, _, _ => Throw (Error "Invalid file")
  end.

(** The clock reads 5000, 5001, ...; nothing fails but what is given as
    failing; [syncOneFile] upserts the mirror row and indexes the
    document. *)
Definition smallDrive (remote : list GoogleDriveObjectType.t)
  (listing : FileList.t) (changes : Result ChangeList.t)
  (subscription : Result (option (string * Z))) : Env :=
  {| clock := fun k => 5000 + Z.of_nat k;
     GOOGLE_DRIVE_WEBHOOK_RENEW_MARGIN_MS := 3600000;
     getAuthObject := fun connectionId => Ok connectionId;
     getDriveClient := fun credentials => Ok credentials;
     getGoogleDriveObject := fun _ id => Ok (findRemote remote id);
     files_list := fun _ _ _ _ => Ok listing;
     changes_list := fun _ _ => changes;
     changes_getStartPageToken :=
       fun _ _ => Ok (StartPageToken.mk 200 "OK" (Some "start"));
     driveObjectToDustType := fun f _ => toDustType f;
     getFileParentsMemoized := fun _ _ o _ => Ok (ancestors remote 8 o);
     getMimeTypesToSync :=
       fun _ => [documentMimeType; spreadsheetMimeType; folderMimeType];
     isGoogleDriveSpreadSheetFile :=
       fun f => (GoogleDriveFiles.mimeType f =? spreadsheetMimeType)%string;
     getDocumentId := fun id => ("gdrive-" ++ id)%string;
     dataSourceConfigFromConnector := fun c => ConnectorResource.workspaceId c;
     JSON_stringify :=
       fun f => match SchemaFile.id f with Some id => id | None => "{}" end;
     syncOneFile :=
       fun connectorId _ config o startSyncTs _ store =>
         (Ok true,
          (upsertFile
             (GoogleDriveFiles.mk connectorId
                ("gdrive-" ++ GoogleDriveObjectType.id o)%string
                (GoogleDriveObjectType.id o) (GoogleDriveObjectType.name o)
                (GoogleDriveObjectType.mimeType o)
                (GoogleDriveObjectType.parent o) (Some startSyncTs))
             (fst store),
           (config, ("gdrive-" ++ GoogleDriveObjectType.id o)%string)
             :: snd store));
     deleteFromDataSource_error := fun _ _ => None;
     deleteSpreadsheet_result := fun _ _ ds => (Ok tt, ds);
     registerWebhook := fun _ _ => subscription |}.

Definition noListing : FileList.t := FileList.mk 200 "OK" (Some []) None.
Definition noChanges : Result ChangeList.t :=
  Ok (ChangeList.mk 200 "OK" (Some []) None None).

Definition connector1 : ConnectorResource.t :=
  ConnectorResource.mk 1 "connection1" "workspace1".

(** A mirror row of connector 1. *)
Definition mirrorRow (driveFileId mimeType : string) (parent : option string)
  (lastSeenTs : option Z) : GoogleDriveFiles.t :=
  GoogleDriveFiles.mk 1 ("gdrive-" ++ driveFileId)%string driveFileId
    driveFileId mimeType parent lastSeenTs.

(** Connector 1 watches [folder1]; the mirror store, the downstream index
    and the subscriptions are given. *)
Definition smallWorld (files : list GoogleDriveFiles.t)
  (index : list (DataSourceConfig * string))
  (tokens : list GoogleDriveSyncToken.t)
  (webhooks : list GoogleDriveWebhook.t) : World :=
  {| connectors := [connector1];
     googleDriveConfigs := [GoogleDriveConfig.mk 1 false];
     googleDriveFolders := [GoogleDriveFolders.mk 1 "folder1"];
     googleDriveFiles := files;
     googleDriveSyncTokens := tokens;
     googleDriveWebhooks := webhooks;
     dataSource := index;
     clockReads := 0;
     trace := [] |}.

(** [folder1] holds [doc1]. *)
Definition remote1 : list GoogleDriveObjectType.t :=
  [ remoteObject "folder1" None folderMimeType false;
    remoteObject "doc1" (Some "folder1") documentMimeType false ].

(** *** Revisiting a folder

    [folder1] was marked visited at 100, the start of the generation. *)
Definition revisitEnv : Env := smallDrive remote1 noListing noChanges (Ok None).

Definition revisitWorld : World :=
  smallWorld [mirrorRow "folder1" folderMimeType None (Some 100)] [] [] [].

(** The persisted cursor of a drive. *)
Definition persistedCursor (connectorId : ModelId) (driveId : string)
  (w : World) : option string :=
  option_map GoogleDriveSyncToken.syncToken
    (findSyncToken connectorId driveId (googleDriveSyncTokens w)).

(** What [incrementalSync] returns for a page. *)
Definition continuation (page : ChangeList.t) : option string :=
  if truthy (ChangeList.nextPageToken page)
  then ChangeList.nextPageToken page else None.

(** The persisted cursors were written once, with the [newStartPageToken]
    of a page read from the change feed, in the world [w2] that the loop
    over all the entries of that page left when it returned. *)
Definition cursorWrittenAfterPage (env : Env) (connectorId : ModelId)
  (dataSourceConfig : DataSourceConfig) (driveId : string) (startSyncTs : Z)
  (w : World) (r : Result (option string)) (w' : World) : Prop :=
  exists driveClient opts page changes newStartPageToken
         mimeTypesToSync selectedFoldersIds authCredentials w1 w2,
    changes_list env driveClient opts = Ok page
    /\ ChangeList.changes page = Some changes
    /\ ChangeList.newStartPageToken page = Some newStartPageToken
    /\ newStartPageToken <> ""
    /\ forEach changes
         (incrementalSync_change env connectorId dataSourceConfig startSyncTs
            mimeTypesToSync selectedFoldersIds authCredentials) w1
       = (Ok tt, w2)
    /\ googleDriveSyncTokens w2 = googleDriveSyncTokens w
    /\ w' = withSyncTokens
              (upsertSyncToken
                 (GoogleDriveSyncToken.mk connectorId driveId
                    newStartPageToken)
                 (googleDriveSyncTokens w)) w2
    /\ r = Ok (continuation page)
    /\ persistedCursor connectorId driveId w' = Some newStartPageToken.

(** [selectedFolders] of a connector. *)
Definition foldersToSync (connectorId : ModelId) (w : World) : list string :=
  map GoogleDriveFolders.folderId
    (filter (fun f => GoogleDriveFolders.connectorId f =? connectorId)
       (googleDriveFolders w)).

(** The MIME types that [syncFiles] and [incrementalSync] ask for: those
    of the configuration of the connector, without PDF when it has none. *)
Definition mimeTypesToSyncOf (env : Env) (connectorId : ModelId) (w : World)
  : list string :=
  getMimeTypesToSync env
    (match find (fun c => GoogleDriveConfig.connectorId c =? connectorId)
             (googleDriveConfigs w) with
     | Some c => GoogleDriveConfig.pdfEnabled c
     | None => false
     end).

(** The parameters of [changes.list] for a page token. *)
Definition changesListParams (driveId : string) (isSharedDrive : bool)
  (pageToken : string) : ChangesListParams.t :=
  if isSharedDrive
  then ChangesListParams.mk pageToken (Some driveId) true true
  else ChangesListParams.mk pageToken None false false.

(** The page token that [incrementalSync] asks the feed with, and the world
    it is in then: the token it was given when it was given one, and what
    [getSyncPageToken] returns for the drive otherwise. *)
Definition pageTokenFrom (env : Env) (connectorId : ModelId)
  (driveId : string) (isSharedDrive : bool) (nextPageToken : option string)
  (w : World) (pageToken : string) (w1 : World) : Prop :=
  if truthy nextPageToken
  then nextPageToken = Some pageToken /\ w1 = w
  else getSyncPageToken env connectorId driveId isSharedDrive w
       = (Ok pageToken, w1).

(** [incrementalSync] reads the page [page] of the feed: the connector
    exists, the activity has a page token, the credentials and the client
    are obtained, and [changes.list] answers [page] with the status 200.
    [wp] is the world in which the loop over the entries of the page
    starts. *)
Definition readsPage (env : Env) (connectorId : ModelId) (driveId : string)
  (isSharedDrive : bool) (nextPageToken : option string) (w : World)
  (authCredentials : string) (page : ChangeList.t) (wp : World) : Prop :=
  exists connector pageToken w1 driveClient,
    find (fun c => ConnectorResource.id c =? connectorId) (connectors w)
    = Some connector
    /\ pageTokenFrom env connectorId driveId isSharedDrive nextPageToken w
         pageToken w1
    /\ getAuthObject env (ConnectorResource.connectionId connector)
       = Ok authCredentials
    /\ getDriveClient env authCredentials = Ok driveClient
    /\ changes_list env driveClient
         (changesListParams driveId isSharedDrive pageToken) = Ok page
    /\ ChangeList.status page = 200
    /\ wp = withTrace
              (trace w1
               ++ [CallGetAuthObject (ConnectorResource.connectionId connector);
                   CallGetDriveClient authCredentials;
                   CallChangesList
                     (changesListParams driveId isSharedDrive pageToken);
                   LogInfo "Got changes."]) w1.

(** The loop of [incrementalSync] over the entries [changes], as the
    activity started in [w] runs it. *)
Definition incrementalSync_entries (env : Env) (connectorId : ModelId)
  (dataSourceConfig : DataSourceConfig) (startSyncTs : Z) (w : World)
  (authCredentials : string) (changes : list SchemaChange.t) : M unit :=
  forEach changes
    (incrementalSync_change env connectorId dataSourceConfig startSyncTs
       (mimeTypesToSyncOf env connectorId w) (foldersToSync connectorId w)
       authCredentials).

(** *** A page in the middle of the feed

    The persisted cursor is [page1]; the page read from it has no entry
    and announces a next page, [page2]. *)
Definition midFeedEnv : Env :=
  smallDrive remote1 noListing
    (Ok (ChangeList.mk 200 "OK" (Some []) (Some "page2") None)) (Ok None).

Definition midFeedWorld : World :=
  smallWorld [] [] [GoogleDriveSyncToken.mk 1 "drive1" "page1"] [].

(** *** Losing access to the drive

    [changes.list] answers 403, or 500. *)
Definition lostAccessEnv : Env :=
  smallDrive remote1 noListing (Throw (GaxiosError (Some 403) "Forbidden"))
    (Ok None).

Definition serverErrorEnv : Env :=
  smallDrive remote1 noListing
    (Throw (GaxiosError (Some 500) "Internal Server Error")) (Ok None).

(** An entry of the change feed that gets past the filters at the head of
    the loop of [incrementalSync]: a file change, of a MIME type to sync,
    with an id. *)
Definition passesFilters (mimeTypesToSync : list string)
  (change : SchemaChange.t) (file : SchemaFile.t) (id : string) : Prop :=
  SchemaChange.changeType change = Some "file"
  /\ SchemaChange.file change = Some file
  /\ (exists mimeType,
        SchemaFile.mimeType file = Some mimeType
        /\ mimeType <> ""
        /\ includes mimeTypesToSync mimeType = true)
  /\ SchemaFile.id file = Some id
  /\ id <> "".

(** [change.file.trashed] is truthy. *)
Definition changeTrashed (file : SchemaFile.t) : bool :=
  match SchemaFile.trashed file with
  | Some b => b
  | None => false
  end.

(** The answer of [objectIsInFolders] on ancestors [parents]. *)
Definition anyInFolders (foldersIds : list string)
  (parents : list GoogleDriveObjectType.t) : bool :=
  existsb (fun parent => includes foldersIds (GoogleDriveObjectType.id parent))
    parents.

(** *** Entries of the change feed *)

Definition fileChange (id name mimeType createdTime : option string)
  (trashed : option bool) : SchemaChange.t :=
  SchemaChange.mk (Some "file")
    (Some (SchemaFile.mk id name mimeType createdTime trashed ["folder1"]
             (Some "drive1"))).

(** A document of [folder1] that lost its id; one that lost its
    [createdTime]. *)
Definition changeWithoutId : SchemaChange.t :=
  fileChange None (Some "doc1") (Some documentMimeType) (Some "2024-01-01")
    None.

Definition fileWithoutCreatedTime : SchemaFile.t :=
  SchemaFile.mk (Some "doc1") (Some "doc1") (Some documentMimeType) None None
    ["folder1"] (Some "drive1").

Definition changeWithoutCreatedTime : SchemaChange.t :=
  SchemaChange.mk (Some "file") (Some fileWithoutCreatedTime).

(** The page of the feed holds the document without [createdTime], and
    is the last one. *)
Definition invalidEntryEnv : Env :=
  smallDrive remote1 noListing
    (Ok (ChangeList.mk 200 "OK" (Some [changeWithoutCreatedTime]) None
           (Some "page2")))
    (Ok None).

(** [doc1] was trashed. *)
Definition fileTrashed : SchemaFile.t :=
  SchemaFile.mk (Some "doc1") (Some "doc1") (Some documentMimeType)
    (Some "2024-01-01") (Some true) ["folder1"] (Some "drive1").

Definition changeTrashedDoc : SchemaChange.t :=
  SchemaChange.mk (Some "file") (Some fileTrashed).

Definition trashedEnv : Env :=
  smallDrive
    [ remoteObject "folder1" None folderMimeType false;
      remoteObject "doc1" (Some "folder1") documentMimeType true ]
    noListing
    (Ok (ChangeList.mk 200 "OK" (Some [changeTrashedDoc]) None (Some "page2")))
    (Ok None).

Definition trashedWorld : World :=
  smallWorld [mirrorRow "doc1" documentMimeType (Some "folder1") (Some 50)]
    [("workspace1", "gdrive-doc1")]
    [GoogleDriveSyncToken.mk 1 "drive1" "page1"] [].

(** A trashed PDF, mirrored when PDFs were synced; they no longer are. *)
Definition pdfMimeType : string := "application/pdf".

Definition changeTrashedPdf : SchemaChange.t :=
  fileChange (Some "pdf1") (Some "pdf1") (Some pdfMimeType)
    (Some "2024-01-01") (Some true).

Definition trashedPdfEnv : Env :=
  smallDrive
    [ remoteObject "folder1" None folderMimeType false;
      remoteObject "pdf1" (Some "folder1") pdfMimeType true ]
    noListing
    (Ok (ChangeList.mk 200 "OK" (Some [changeTrashedPdf]) None (Some "page2")))
    (Ok None).

Definition trashedPdfWorld : World :=
  smallWorld [mirrorRow "pdf1" pdfMimeType (Some "folder1") (Some 50)]
    [("workspace1", "gdrive-pdf1")]
    [GoogleDriveSyncToken.mk 1 "drive1" "page1"] [].

(** ** Garbage collection *)

(** The identity of a mirror row. *)
Definition fileKey (f : GoogleDriveFiles.t) : ModelId * string :=
  (GoogleDriveFiles.connectorId f, GoogleDriveFiles.driveFileId f).

(** [fs'] differs from [fs] at most on the rows of one key, and has no new
    key. *)
Definition onlyTouches (connectorId : ModelId) (driveFileId : string)
  (fs fs' : list GoogleDriveFiles.t) : Prop :=
  (forall r, In r fs -> sameFile connectorId driveFileId r = false ->
             In r fs')
  /\ (forall c i, findFile c i fs = None -> findFile c i fs' = None).

(** The remote answers a fetch by id with the object of that id. *)
Definition faithfulIds (env : Env) : Prop :=
  forall authCredentials id o,
    getGoogleDriveObject env authCredentials id = Ok (Some o) ->
    GoogleDriveObjectType.id o = id.

(** What the collector owes a candidate [c], between the world [w] it
    started in and the world [w'] it left: gone from the mirror store if
    the remote no longer has it, or has it trashed or out of the watched
    scope; still there, with [lastSeenTs] set to a clock read of the run,
    if the remote has it in scope and not trashed. *)
Definition reconciled (env : Env) (connectorId : ModelId)
  (authCredentials : OAuth2Client) (selectedFolders : list string)
  (lastSeenTs : Z) (c : GoogleDriveFiles.t) (w w' : World) : Prop :=
  match getGoogleDriveObject env authCredentials
          (GoogleDriveFiles.driveFileId c) with
  | Ok None =>
      findFile connectorId (GoogleDriveFiles.driveFileId c)
        (googleDriveFiles w') = None
  | Ok (Some driveFile) =>
      match getFileParentsMemoized env connectorId authCredentials driveFile
              lastSeenTs with
      | Ok parents =>
          if negb (anyInFolders selectedFolders parents)
             || GoogleDriveObjectType.trashed driveFile
          then findFile connectorId (GoogleDriveFiles.driveFileId c)
                 (googleDriveFiles w') = None
          else exists k,
                 (clockReads w <= k < clockReads w')%nat
                 /\ In (setLastSeenTs (clock env k) c) (googleDriveFiles w')
      | Throw _ => False
      end
  | Throw _ => False
  end.

(** The remote answers for a candidate, and the downstream deletes go
    through. *)
Definition answersFor (env : Env) (connectorId : ModelId)
  (authCredentials : OAuth2Client) (lastSeenTs : Z)
  (c : GoogleDriveFiles.t) : Prop :=
  match getGoogleDriveObject env authCredentials
          (GoogleDriveFiles.driveFileId c) with
  | Ok None => True
  | Ok (Some driveFile) =>
      match getFileParentsMemoized env connectorId authCredentials driveFile
              lastSeenTs with
      | Ok _ => True
      | Throw _ => False
      end
  | Throw _ => False
  end.

(** *** A stale mirror

    [folder1] is watched.  The remote has [doc1] in it, [doc2] in it but
    trashed, [doc3] elsewhere, and no [doc4].  The mirror rows of the four
    are stale at 100; the row of [doc5] is not. *)
Definition staleRemote : list GoogleDriveObjectType.t :=
  [ remoteObject "folder1" None folderMimeType false;
    remoteObject "doc1" (Some "folder1") documentMimeType false;
    remoteObject "doc2" (Some "folder1") documentMimeType true;
    remoteObject "doc3" (Some "elsewhere") documentMimeType false;
    remoteObject "doc5" (Some "folder1") documentMimeType false ].

Definition staleEnv : Env :=
  smallDrive staleRemote noListing noChanges (Ok None).

Definition staleWorld : World :=
  smallWorld
    [ mirrorRow "doc1" documentMimeType (Some "folder1") (Some 99);
      mirrorRow "doc2" documentMimeType (Some "folder1") (Some 50);
      mirrorRow "doc3" documentMimeType (Some "folder1") None;
      mirrorRow "doc4" documentMimeType (Some "folder1") (Some 50);
      mirrorRow "doc5" documentMimeType (Some "folder1") (Some 100) ]
    [ ("workspace1", "gdrive-doc1"); ("workspace1", "gdrive-doc2");
      ("workspace1", "gdrive-doc3"); ("workspace1", "gdrive-doc4");
      ("workspace1", "gdrive-doc5") ]
    [] [].

(** Only [doc1], stale and still there. *)
Definition refreshWorld : World :=
  smallWorld [mirrorRow "doc1" documentMimeType (Some "folder1") (Some 99)]
    [("workspace1", "gdrive-doc1")] [] [].

(** *** Deleting a mirrored folder *)
Definition folderRow : GoogleDriveFiles.t :=
  mirrorRow "folder2" folderMimeType (Some "folder1") (Some 50).

Definition folderWorld : World :=
  smallWorld [folderRow] [("workspace1", "gdrive-doc1")] [] [].

(** ** Webhooks *)

(** The subscription a record stands for: a drive, for a connector. *)
Definition webhookKey (wh : GoogleDriveWebhook.t) : ModelId * string :=
  (GoogleDriveWebhook.connectorId wh, GoogleDriveWebhook.driveId wh).

Definition notSuperseded (wh : GoogleDriveWebhook.t) : bool :=
  match GoogleDriveWebhook.renewedByWebhookId wh with
  | None => true
  | Some _ => false
  end.

(** A record of the drive [driveId] for [connectorId] that no record
    supersedes. *)
Definition live (connectorId : ModelId) (driveId : string)
  (wh : GoogleDriveWebhook.t) : bool :=
  (GoogleDriveWebhook.connectorId wh =? connectorId)
  && (GoogleDriveWebhook.driveId wh =? driveId)%string
  && notSuperseded wh.

(** Active at time [t]: not superseded and not expired. *)
Definition active (t : Z) (connectorId : ModelId) (driveId : string)
  (wh : GoogleDriveWebhook.t) : bool :=
  live connectorId driveId wh && (t <=? GoogleDriveWebhook.expiresAt wh).

Definition atMostOneLive (ws : list GoogleDriveWebhook.t) : Prop :=
  forall connectorId driveId,
    (List.length (filter (live connectorId driveId) ws) <= 1)%nat.

(** The provider never grants a subscription with an empty id. *)
Definition grantsIds (env : Env) : Prop :=
  forall connector driveId webhookId expirationTsMs,
    registerWebhook env connector driveId
      = Ok (Some (webhookId, expirationTsMs)) ->
    webhookId <> "".

(** [wh.update({ renewAt })] and [wh.update({ renewedByWebhookId })] on a
    table. *)
Definition deferred (wh : GoogleDriveWebhook.t) (t : Z)
  (ws : list GoogleDriveWebhook.t) : list GoogleDriveWebhook.t :=
  map (fun r => if GoogleDriveWebhook.id r =? GoogleDriveWebhook.id wh
                then setRenewAt (Some (t + twoHoursMs)) r else r) ws.

Definition superseded (wh : GoogleDriveWebhook.t) (by_ : option string)
  (ws : list GoogleDriveWebhook.t) : list GoogleDriveWebhook.t :=
  map (fun r => if GoogleDriveWebhook.id r =? GoogleDriveWebhook.id wh
                then setRenewedByWebhookId by_ r else r) ws.

Definition retired (wh : GoogleDriveWebhook.t)
  (ws : list GoogleDriveWebhook.t) : list GoogleDriveWebhook.t :=
  filter (fun r => negb (GoogleDriveWebhook.id r =? GoogleDriveWebhook.id wh))
    ws.

(** The record created for a granted subscription. *)
Definition granted (env : Env) (connector : ConnectorResource.t)
  (driveId webhookId : string) (expirationTsMs : Z)
  (ws : list GoogleDriveWebhook.t) : GoogleDriveWebhook.t :=
  GoogleDriveWebhook.mk (nextWebhookId ws) webhookId
    (ConnectorResource.id connector) driveId expirationTsMs
    (Some (expirationTsMs - GOOGLE_DRIVE_WEBHOOK_RENEW_MARGIN_MS env)) None.

(** What one turn of the loop of [renewWebhooks] does to the table, for a
    selected record [wh] whose connector is [connector]; [t] is the clock
    read of the [catch] block.

    - the credentials, the fetch of the drive or the subscription request
      fail: the record stays, its [renewAt] is two hours after [t];
    - the drive is no longer there: the record is deleted, nothing
      replaces it;
    - no subscription was requested: nothing changes;
    - a subscription was granted: a record is created for it and the
      record of [wh] stays, with its id in [renewedByWebhookId]. *)
Definition renewalOutcome (env : Env) (connector : ConnectorResource.t)
  (wh : GoogleDriveWebhook.t) (t : Z) (ws : list GoogleDriveWebhook.t)
  : list GoogleDriveWebhook.t :=
  match getAuthObject env (ConnectorResource.connectionId connector) with
  | Throw _ => deferred wh t ws
  | Ok auth =>
      match getGoogleDriveObject env auth (GoogleDriveWebhook.driveId wh) with
      | Throw _ => deferred wh t ws
      | Ok None => retired wh ws
      | Ok (Some _) =>
          match registerWebhook env connector (GoogleDriveWebhook.driveId wh)
          with
          | Throw _ => deferred wh t ws
          | Ok None => ws
          | Ok (Some (webhookId, expirationTsMs)) =>
              let ws1 :=
                ws ++ [granted env connector (GoogleDriveWebhook.driveId wh)
                         webhookId expirationTsMs ws] in
              if truthy (Some webhookId)
              then superseded wh (Some webhookId) ws1
              else ws1
          end
      end
  end.

(** Whether the turn for [wh] asks the provider for a subscription: its
    connector exists, the credentials are obtained and the drive is still
    there. *)
Definition renewalRequested (env : Env) (w : World)
  (wh : GoogleDriveWebhook.t) : bool :=
  match find (fun c => ConnectorResource.id c
                       =? GoogleDriveWebhook.connectorId wh) (connectors w)
  with
  | None => false
  | Some connector =>
      match getAuthObject env (ConnectorResource.connectionId connector) with
      | Ok auth =>
          match getGoogleDriveObject env auth (GoogleDriveWebhook.driveId wh)
          with
          | Ok (Some _) => true
          | _ => false
          end
      | Throw _ => false
      end
  end.

Definition isEnsureWebhookCall (e : Event) : bool :=
  match e with
  | CallEnsureWebhookForDriveId _ _ => true
  | _ => false
  end.

(** The subscription requests made so far. *)
Definition ensureWebhookCalls (w : World) : list Event :=
  filter isEnsureWebhookCall (trace w).

(** The records [renewWebhooks] selects in [w]. *)
Definition webhooksToRenew (env : Env) (pageSize : nat) (w : World)
  : list GoogleDriveWebhook.t :=
  firstn pageSize
    (filter (toRenew (clock env (clockReads w)
                      + GOOGLE_DRIVE_WEBHOOK_RENEW_MARGIN_MS env))
       (googleDriveWebhooks w)).

(** The world a pass of [renewWebhooks] started in [w] is in when the
    turns of the records [turns] are done: after the read of the clock,
    the selection and the log that open the pass. *)
Definition turnsDone (env : Env) (w : World)
  (turns : list GoogleDriveWebhook.t) : World :=
  snd (forEach turns (renewWebhooks_webhook env)
         (withTrace (trace w ++ [LogInfo "Renewing webhooks"])
            (withClockReads (S (clockReads w)) w))).

(** The clock read of the sweep that ends the pass. *)
Definition sweepTime (env : Env) (pageSize : nat) (w : World) : Z :=
  clock env (clockReads (turnsDone env w (webhooksToRenew env pageSize w))).

(** The error that the [try] block of the turn for [wh] throws, when it
    throws: that of the credentials, of the fetch of the drive, or of the
    subscription request. *)
Definition renewalFailure (env : Env) (connector : ConnectorResource.t)
  (wh : GoogleDriveWebhook.t) : option JsError :=
  match getAuthObject env (ConnectorResource.connectionId connector) with
  | Throw e => Some e
  | Ok auth =>
      match getGoogleDriveObject env auth (GoogleDriveWebhook.driveId wh) with
      | Throw e => Some e
      | Ok None => None
      | Ok (Some _) =>
          match registerWebhook env connector (GoogleDriveWebhook.driveId wh)
          with
          | Throw e => Some e
          | Ok _ => None
          end
      end
  end.

(** The calls that the [try] block of the turn for [wh] makes. *)
Definition renewalAttempt (env : Env) (connector : ConnectorResource.t)
  (wh : GoogleDriveWebhook.t) : list Event :=
  CallGetAuthObject (ConnectorResource.connectionId connector)
  :: match getAuthObject env (ConnectorResource.connectionId connector) with
     | Throw _ => []
     | Ok auth =>
         CallGetGoogleDriveObject (GoogleDriveWebhook.driveId wh)
         :: match getGoogleDriveObject env auth
                    (GoogleDriveWebhook.driveId wh) with
            | Ok (Some _) =>
                [CallEnsureWebhookForDriveId (ConnectorResource.id connector)
                   (GoogleDriveWebhook.driveId wh)]
            | _ => []
            end
     end.

(** What a turn logs first when the record it is given has expired. *)
Definition expiredWarning (env : Env) (wh : GoogleDriveWebhook.t) (w : World)
  : list Event :=
  if GoogleDriveWebhook.expiresAt wh <? clock env (clockReads w)
  then [LogError
          "We are processing a webhook which have already expired, this should never happen. Investigation needed."]
  else [].

Definition isSyncFailedCall (e : Event) : bool :=
  match e with
  | CallSyncFailed _ _ => true
  | _ => false
  end.

(** The turn for [wh] fails on an authorization failure. *)
Definition authorizationFails (env : Env) (w : World)
  (wh : GoogleDriveWebhook.t) : bool :=
  match find (fun c => ConnectorResource.id c
                       =? GoogleDriveWebhook.connectorId wh) (connectors w)
  with
  | None => false
  | Some connector =>
      match renewalFailure env connector wh with
      | Some e => oauthTokenRevoked e
      | None => false
      end
  end.

(** *** Subscriptions

    The clock reads 5000 and the margin is 3600000.  The subscription of
    [drive1] is to renew at 1000 and expires at 9000000. *)
Definition webhook1 : GoogleDriveWebhook.t :=
  GoogleDriveWebhook.mk 1 "webhook1" 1 "drive1" 9000000 (Some 1000) None.

Definition driveRemote : list GoogleDriveObjectType.t :=
  [ remoteObject "drive1" None folderMimeType false ].

(** The provider grants [webhook2]. *)
Definition renewalEnv : Env :=
  smallDrive driveRemote noListing noChanges
    (Ok (Some ("webhook2", 90000000))).

(** The drive is no longer there. *)
Definition lostDriveEnv : Env :=
  smallDrive [] noListing noChanges (Ok (Some ("webhook2", 90000000))).

(** The provider refuses: the token was revoked; or it is down. *)
Definition revokedEnv : Env :=
  smallDrive driveRemote noListing noChanges
    (Throw (HTTPError "The caller does not have permission")).

Definition providerDownEnv : Env :=
  smallDrive driveRemote noListing noChanges
    (Throw (HTTPError "Service Unavailable")).

Definition webhookWorld : World := smallWorld [] [] [] [webhook1].

(** A subscription whose hard expiry is more than three days back, and is
    still to renew. *)
Definition expiredWebhook : GoogleDriveWebhook.t :=
  GoogleDriveWebhook.mk 1 "webhook1" 1 "drive1" (-300000000) (Some 1000) None.

Definition expiredWebhookWorld : World :=
  smallWorld [] [] [] [expiredWebhook].

(** *** A first visit

    The listing of [folder1] holds [doc1] and the subfolder [folder2]. *)
Definition listedFile (id mimeType : string) : SchemaFile.t :=
  SchemaFile.mk (Some id) (Some id) (Some mimeType) (Some "2024-01-01") None
    ["folder1"] (Some "drive1").

Definition firstVisitEnv : Env :=
  smallDrive remote1
    (FileList.mk 200 "OK"
       (Some [listedFile "doc1" documentMimeType;
              listedFile "folder2" folderMimeType])
       None)
    noChanges (Ok None).
(** * More of the activities

    The other activities of the connector, and the launchers of its
    workflows. *)

From Stdlib Require Import Permutation.

(** ** Checking the selected folders *)

(** The loop of [shouldGarbageCollect]: [return true] leaves it. *)
Fixpoint shouldGarbageCollect_folders (env : Env)
  (authCredentials : OAuth2Client) (selectedFolder : list GoogleDriveFolders.t)
  : M bool :=
  match selectedFolder with
  | [] => ret false
  | folder :: rest =>
      remoteFolder <-
        call (CallGetGoogleDriveObject (GoogleDriveFolders.folderId folder))
          (getGoogleDriveObject env authCredentials
             (GoogleDriveFolders.folderId folder)) ;;
      match remoteFolder with
      | None => ret true
      | Some _ => shouldGarbageCollect_folders env authCredentials rest
      end
  end.

(** Check if we still have access to all the selected folder we are
    supposed to sync.  If we don't have access to one of them, we should
    garbage collect. *)
Definition shouldGarbageCollect (env : Env) (connectorId : ModelId) : M bool :=
  selectedFolder <- gets (fun w =>
    filter (fun f => GoogleDriveFolders.connectorId f =? connectorId)
      (googleDriveFolders w)) ;;
  connector <- fetchById connectorId ;;
  match connector with
  | None => connectorNotFound connectorId
  | Some connector =>
      authCredentials <-
        call (CallGetAuthObject (ConnectorResource.connectionId connector))
          (getAuthObject env (ConnectorResource.connectionId connector)) ;;
      shouldGarbageCollect_folders env authCredentials selectedFolder
  end.

(** ** The drives to sync *)

Module LightGoogledrive.
Record t := mk {
  id : string;
  name : string;
  isSharedDrive : bool
}.
End LightGoogledrive.

(** A JavaScript object used as a map, [Record<string, V>]: its
    properties, in the order they were created. *)
Definition JsObject (V : Type) : Type := list (string * V).

(** [obj[key] = value]: a property that exists keeps its place. *)
Fixpoint jsSet {V} (obj : JsObject V) (key : string) (value : V)
  : JsObject V :=
  match obj with
  | [] => [(key, value)]
  | (k, v) :: obj' =>
      if (k =? key)%string then (k, value) :: obj'
      else (k, v) :: jsSet obj' key value
  end.

(** The array index a property name stands for, if it is one: a canonical
    decimal numeral below [2^32 - 1]. *)
Definition arrayIndex (key : string) : option N :=
  match NilEmpty.uint_of_string key with
  | Some u =>
      let n := N.of_uint u in
      if (NilZero.string_of_uint (N.to_uint n) =? key)%string
         && (n <? 4294967295)%N
      then Some n else None
  | None => None
  end.

Fixpoint insertByIndex {V} (e : N * V) (l : list (N * V)) : list (N * V) :=
  match l with
  | [] => [e]
  | x :: l' =>
      if (fst e <? fst x)%N then e :: x :: l' else x :: insertByIndex e l'
  end.

Definition sortByIndex {V} (l : list (N * V)) : list (N * V) :=
  fold_right insertByIndex [] l.

Fixpoint indexed {V} (obj : JsObject V) : list (N * V) :=
  match obj with
  | [] => []
  | (k, v) :: obj' =>
      match arrayIndex k with
      | Some n => (n, v) :: indexed obj'
      | None => indexed obj'
      end
  end.

Fixpoint named {V} (obj : JsObject V) : list V :=
  match obj with
  | [] => []
  | (k, v) :: obj' =>
      match arrayIndex k with
      | Some _ => named obj'
      | None => v :: named obj'
      end
  end.

(** [Object.values(obj)]: the properties whose names are array indices
    first, by increasing index, then the others in creation order. *)
Definition Object_values {V} (obj : JsObject V) : list V :=
  map snd (sortByIndex (indexed obj)) ++ named obj.

(** The loop of [getDrivesToSync]. *)
Fixpoint getDrivesToSync_folders (env : Env) (authCredentials : OAuth2Client)
  (selectedFolders : list GoogleDriveFolders.t)
  (drives : JsObject LightGoogledrive.t) : M (JsObject LightGoogledrive.t) :=
  match selectedFolders with
  | [] => ret drives
  | folder :: rest =>
      remoteFolder <-
        call (CallGetGoogleDriveObject (GoogleDriveFolders.folderId folder))
          (getGoogleDriveObject env authCredentials
             (GoogleDriveFolders.folderId folder)) ;;
      match remoteFolder with
      | Some remoteFolder =>
          if (GoogleDriveObjectType.driveId remoteFolder =? "")%string then
            throw (Error ("Folder " ++ GoogleDriveFolders.folderId folder
                          ++ " does not have a driveId."))
          else
            getDrivesToSync_folders env authCredentials rest
              (jsSet drives (GoogleDriveObjectType.driveId remoteFolder)
                 (LightGoogledrive.mk
                    (GoogleDriveObjectType.driveId remoteFolder)
                    (GoogleDriveObjectType.name remoteFolder)
                    (GoogleDriveObjectType.isInSharedDrive remoteFolder)))
      | None => getDrivesToSync_folders env authCredentials rest drives
      end
  end.

(** Get the list of drives that have folders selected for sync. *)
Definition getDrivesToSync (env : Env) (connectorId : ModelId)
  : M (list LightGoogledrive.t) :=
  selectedFolders <- gets (fun w =>
    filter (fun f => GoogleDriveFolders.connectorId f =? connectorId)
      (googleDriveFolders w)) ;;
  connector <- fetchById connectorId ;;
  match connector with
  | None => connectorNotFound connectorId
  | Some connector =>
      authCredentials <-
        call (CallGetAuthObject (ConnectorResource.connectionId connector))
          (getAuthObject env (ConnectorResource.connectionId connector)) ;;
      drives <-
        getDrivesToSync_folders env authCredentials selectedFolders [] ;;
      ret (Object_values drives)
  end.

(** ** Words for the properties of these activities *)

Definition isSyncOneFileCall (e : Event) : bool :=
  match e with
  | CallSyncOneFile _ _ _ _ => true
  | _ => false
  end.

(** [tracesOnly P m]: running [m] changes nothing but the trace, to which
    it adds events that satisfy [P], whether it returns or throws. *)
Definition tracesOnly {A} (P : Event -> bool) (m : M A) : Prop :=
  forall w, exists t,
    snd (m w) = withTrace (trace w ++ t) w /\ forallb P t = true.

(** *** A page with a file that has no name *)

Definition namelessFile : SchemaFile.t :=
  SchemaFile.mk (Some "doc2") None (Some documentMimeType)
    (Some "2024-01-01") None ["folder1"] (Some "drive1").

Definition namelessEnv : Env :=
  smallDrive remote1
    (FileList.mk 200 "OK"
       (Some [listedFile "doc1" documentMimeType; namelessFile])
       (Some "page2"))
    noChanges (Ok None).

(** *** A change of [doc1], still in [folder1] *)

Definition changeDoc1 : SchemaChange.t :=
  fileChange (Some "doc1") (Some "doc1") (Some documentMimeType)
    (Some "2024-01-01") None.

Definition fileDoc1 : SchemaFile.t :=
  SchemaFile.mk (Some "doc1") (Some "doc1") (Some documentMimeType)
    (Some "2024-01-01") None ["folder1"] (Some "drive1").

Definition dustDoc1 : GoogleDriveObjectType.t :=
  GoogleDriveObjectType.mk "doc1" "doc1" (Some "folder1") documentMimeType
    false 1 "drive1" false.

(** The remote has the object [id]. *)
Definition foundRemotely (env : Env) (authCredentials : OAuth2Client)
  (id : string) : Prop :=
  exists o, getGoogleDriveObject env authCredentials id = Ok (Some o).

(** The drive of a remote folder, as [getDrivesToSync] records it. *)
Definition driveOf (o : GoogleDriveObjectType.t) : LightGoogledrive.t :=
  LightGoogledrive.mk (GoogleDriveObjectType.driveId o)
    (GoogleDriveObjectType.name o) (GoogleDriveObjectType.isInSharedDrive o).

(** ** The drives of a connector *)

(** [drive_v3.Schema$Drive], the fields asked for. *)
Module SchemaDrive.
Record t := mk {
  id : option string;
  name : option string
}.
End SchemaDrive.

(** [GaxiosResponse<drive_v3.Schema$DriveList>] *)
Module DriveList.
Record t := mk {
  status : Z;
  statusText : string;
  drives : option (list SchemaDrive.t);
  nextPageToken : option string
}.
End DriveList.

(** What [getDrives] imports beside the functions of [Env]:
    [getMyDriveIdCached], and [drive.drives.list] with its page token. *)
Record DrivesEnv := mkDrivesEnv {
  getMyDriveIdCached : OAuth2Client -> Result string;
  drives_list : DriveClient -> option string -> Result DriveList.t
}.

(** An external call that the trace does not record. *)
Definition answer {A} (r : Result A) : M A := fun w => (r, w).

(** [for (const drive of res.data.drives)]: the drives of a page that have
    an id and a name. *)
Definition sharedDrives (page : list SchemaDrive.t)
  : list LightGoogledrive.t :=
  flat_map (fun drive =>
              match SchemaDrive.id drive, SchemaDrive.name drive with
              | Some id, Some name =>
                  if truthy (SchemaDrive.id drive)
                     && truthy (SchemaDrive.name drive)
                  then [LightGoogledrive.mk id name true] else []
              | _, _ => []
              end) page.

(** The [do ... while (nextPageToken)] loop of [getDrives]: one turn for
    each unit of [fuel]; [None] when the fuel runs out before the remote
    gives a page without a next page token. *)
Fixpoint getDrives_pages (denv : DrivesEnv) (fuel : nat) (drive : DriveClient)
  (nextPageToken : option string) (drives : list LightGoogledrive.t)
  : M (option (list LightGoogledrive.t)) :=
  match fuel with
  | O => ret None
  | S fuel' =>
      res <- answer (drives_list denv drive nextPageToken) ;;
      if negb (DriveList.status res =? 200) then
        throw (Error ("Error getting drives. status_code: "
                      ++ showZ (DriveList.status res) ++ ". status_text: "
                      ++ DriveList.statusText res))
      else
      match DriveList.drives res with
      | None => throw (Error "Drives list is undefined")
      | Some page =>
          let drives := drives ++ sharedDrives page in
          if truthy (DriveList.nextPageToken res)
          then getDrives_pages denv fuel' drive (DriveList.nextPageToken res)
                 drives
          else ret (Some drives)
      end
  end.

Definition getDrives (env : Env) (denv : DrivesEnv) (fuel : nat)
  (connectorId : ModelId) : M (option (list LightGoogledrive.t)) :=
  connector <- fetchById connectorId ;;
  match connector with
  | None => connectorNotFound connectorId
  | Some connector =>
      drive <-
        call (CallGetDriveClient (ConnectorResource.connectionId connector))
          (getDriveClient env (ConnectorResource.connectionId connector)) ;;
      authCredentials <-
        call (CallGetAuthObject (ConnectorResource.connectionId connector))
          (getAuthObject env (ConnectorResource.connectionId connector)) ;;
      myDriveId <- answer (getMyDriveIdCached denv authCredentials) ;;
      getDrives_pages denv fuel drive None
        [LightGoogledrive.mk myDriveId "My Drive" false]
  end.

(** ** Giving every drive a cursor *)

Definition populateSyncTokens (env : Env) (denv : DrivesEnv) (fuel : nat)
  (connectorId : ModelId) : M (option unit) :=
  connector <- fetchById connectorId ;;
  match connector with
  | None => connectorNotFound connectorId
  | Some connector =>
      drivesIds <- getDrives env denv fuel (ConnectorResource.id connector) ;;
      match drivesIds with
      | None => ret None
      | Some drivesIds =>
          forEach drivesIds
            (fun drive =>
               lastSyncToken <-
                 getSyncPageToken env connectorId (LightGoogledrive.id drive)
                   (LightGoogledrive.isSharedDrive drive) ;;
               persistSyncToken connectorId (LightGoogledrive.id drive)
                 lastSyncToken) ;;;
          ret (Some tt)
      end
  end.

(** *** Two pages of shared drives *)

Definition twoPages : DrivesEnv :=
  {| getMyDriveIdCached := fun _ => Ok "drive1";
     drives_list :=
       fun _ token =>
         match token with
         | None =>
             Ok (DriveList.mk 200 "OK"
                   (Some [SchemaDrive.mk (Some "shared1") (Some "Team");
                          SchemaDrive.mk (Some "shared2") None])
                   (Some "page2"))
         | Some _ =>
             Ok (DriveList.mk 200 "OK"
                   (Some [SchemaDrive.mk (Some "shared3") (Some "Archive")])
                   None)
         end |}.

(** The remote answers [n] pages of drives in a row from [token], each
    with a next page token. *)
Fixpoint morePagesAfter (denv : DrivesEnv) (drive : DriveClient)
  (token : option string) (n : nat) : bool :=
  match n with
  | O => true
  | S n' =>
      match drives_list denv drive token with
      | Ok res =>
          (DriveList.status res =? 200)
          && match DriveList.drives res with
             | Some _ => true
             | None => false
             end
          && truthy (DriveList.nextPageToken res)
          && morePagesAfter denv drive (DriveList.nextPageToken res) n'
      | Throw _ => false
      end
  end.

(** The pages of drives that the remote gives from [token]: each one
    answered with the status 200 and a list of drives, each but the last
    with a next page token, with which the next one is asked. *)
Inductive pagesFrom (denv : DrivesEnv) (drive : DriveClient)
  : option string -> list (list SchemaDrive.t) -> Prop :=
| pagesFrom_last token res page :
    drives_list denv drive token = Ok res ->
    DriveList.status res = 200 ->
    DriveList.drives res = Some page ->
    truthy (DriveList.nextPageToken res) = false ->
    pagesFrom denv drive token [page]
| pagesFrom_more token res page pages :
    drives_list denv drive token = Ok res ->
    DriveList.status res = 200 ->
    DriveList.drives res = Some page ->
    truthy (DriveList.nextPageToken res) = true ->
    pagesFrom denv drive (DriveList.nextPageToken res) pages ->
    pagesFrom denv drive token (page :: pages).

(** A drive of a page has an id and a name; the entry listed for it. *)
Definition hasIdAndName (d : SchemaDrive.t) : bool :=
  truthy (SchemaDrive.id d) && truthy (SchemaDrive.name d).

Definition listedDrive (d : SchemaDrive.t) : LightGoogledrive.t :=
  LightGoogledrive.mk
    (match SchemaDrive.id d with Some id => id | None => "" end)
    (match SchemaDrive.name d with Some name => name | None => "" end)
    true.

(** A shared drive as [getDrives] lists it. *)
Definition listedAsShared (d : LightGoogledrive.t) : Prop :=
  LightGoogledrive.isSharedDrive d = true
  /\ LightGoogledrive.id d <> ""
  /\ LightGoogledrive.name d <> "".

(** * Launching the workflows

    The launchers talk to the workflow service through its client.  What
    the service answers depends on what it was asked before: its answers
    are functions of the calls made so far. *)

(** The errors of the launchers: the two classes they tell apart, and any
    other error. *)
Inductive LaunchError :=
| WorkflowNotFoundError (message : string)
| RateLimitError (message : string)
| OtherError (e : JsError).

(** [e instanceof WorkflowNotFoundError] *)
Definition isWorkflowNotFoundError (e : LaunchError) : bool :=
  match e with
  | WorkflowNotFoundError _ => true
  | _ => false
  end.

Inductive WorkflowArg :=
| ArgConnectorId (connectorId : ModelId)
| ArgDataSourceConfig (dataSourceConfig : DataSourceConfig)
| ArgTimestamp (ts : Z).

(** The options of [client.workflow.start] and
    [client.workflow.signalWithStart]. *)
Module StartOptions.
Record t := mk {
  workflow : string;
  args : list WorkflowArg;
  taskQueue : string;
  workflowId : string;
  searchAttributes : option ModelId;
  memo : option ModelId;
  cronSchedule : option string;
  signal : option string
}.
End StartOptions.

Inductive ServiceCall :=
| CallRateLimiter (key : string) (maxPerTimeframe timeframeSeconds : Z)
| CallGetTemporalClient
| CallTerminate (workflowId : string)
| CallStart (options : StartOptions.t)
| CallSignalWithStart (options : StartOptions.t).

(** What the launchers import and this file does not define. *)
Record LaunchEnv := mkLaunchEnv {
  QUEUE_NAME : string;
  GDRIVE_INCREMENTAL_SYNC_DEBOUNCE_SEC : Z;
  newWebhookSignal : string;
  googleDriveFullSyncWorkflowId : ModelId -> string;
  googleDriveIncrementalSyncWorkflowId : ModelId -> string;
  googleDriveGarbageCollectorWorkflowId : ModelId -> string;
  googleDriveRenewWebhooksWorkflowId : string;
  (** the remaining allowance, or the error of the limiter *)
  rateLimiter : list ServiceCall -> string -> Z -> Z -> Z + LaunchError;
  (** the error of the call, if it fails *)
  getTemporalClient : list ServiceCall -> option LaunchError;
  terminate : list ServiceCall -> string -> option LaunchError;
  start : list ServiceCall -> StartOptions.t -> option LaunchError;
  signalWithStart : list ServiceCall -> StartOptions.t -> option LaunchError
}.

(** The world of a launcher: the tables and the log, and the calls made to
    the service so far. *)
Record LaunchWorld := mkLaunchWorld {
  world : World;
  calls : list ServiceCall
}.

(** What running a launcher gives: it returns, or it throws. *)
Inductive Outcome (A : Type) :=
| Returns (a : A)
| Throws (e : LaunchError).
Arguments Returns {A} a.
Arguments Throws {A} e.

Definition L (A : Type) : Type := LaunchWorld -> Outcome A * LaunchWorld.

Definition lret {A} (a : A) : L A := fun w => (Returns a, w).

Definition lbind {A B} (m : L A) (k : A -> L B) : L B :=
  fun w =>
    match m w with
    | (Returns a, w') => k a w'
    | (Throws e, w') => (Throws e, w')
    end.

Definition lthrow {A} (e : LaunchError) : L A := fun w => (Throws e, w).

Definition ltry {A} (m : L A) (handler : LaunchError -> L A) : L A :=
  fun w =>
    match m w with
    | (Returns a, w') => (Returns a, w')
    | (Throws e, w') => handler e w'
    end.

Declare Scope launcher_scope.
Delimit Scope launcher_scope with launcher.

Notation "x <- m ;; k" := (lbind m (fun x => k))
  (at level 61, m at next level, right associativity) : launcher_scope.
Notation "m ;;; k" := (lbind m (fun _ => k))
  (at level 61, right associativity) : launcher_scope.

(** A call to the service: recorded, then answered from the calls made
    before it. *)
Definition service (c : ServiceCall)
  (error : list ServiceCall -> option LaunchError) : L unit :=
  fun w =>
    (match error (calls w) with
     | Some e => Throws e
     | None => Returns tt
     end,
     mkLaunchWorld (world w) (calls w ++ [c])).

(** [logger.info], [logger.error] *)
Definition llog (e : Event) : L unit :=
  fun w =>
    (Returns tt,
     mkLaunchWorld (withTrace (trace (world w) ++ [e]) (world w)) (calls w)).

Definition lfetchById (connectorId : ModelId)
  : L (option ConnectorResource.t) :=
  fun w =>
    (Returns (find (fun c => ConnectorResource.id c =? connectorId)
                (connectors (world w))), w).

(** [new Date().getTime()] *)
Definition lnow (env : Env) : L Z :=
  fun w =>
    (Returns (clock env (clockReads (world w))),
     mkLaunchWorld (withClockReads (S (clockReads (world w))) (world w))
       (calls w)).

(** The [Result<string, Error>] that a launcher returns. *)
Inductive LaunchResult :=
| LaunchOk (workflowId : string)
| LaunchErr (error : LaunchError).

Definition connectorNotFoundErr (connectorId : ModelId) : LaunchResult :=
  LaunchErr
    (OtherError (Error ("Connector " ++ showZ connectorId ++ " not found"))).

(** [if (fromTs)] for [fromTs : number | null]: zero is falsy. *)
Definition truthyNumber (n : option Z) : bool :=
  match n with
  | Some z => negb (z =? 0)
  | None => false
  end.

(** [try { await handle.terminate() } catch (e) { if (!(e instanceof
    WorkflowNotFoundError)) throw e }] *)
Definition terminateIfRunning (lenv : LaunchEnv) (workflowId : string)
  : L unit :=
  ltry (service (CallTerminate workflowId)
          (fun h => terminate lenv h workflowId))
    (fun e => if negb (isWorkflowNotFoundError e) then lthrow e else lret tt).

Definition failedStarting (e : LaunchError) : L LaunchResult :=
  (llog (LogError "Failed starting workflow.") ;;;
   lret (LaunchErr e))%launcher.

Definition launchGoogleDriveFullSyncWorkflow (env : Env) (lenv : LaunchEnv)
  (connectorId : ModelId) (fromTs : option Z) : L LaunchResult :=
  (connector <- lfetchById connectorId ;;
   match connector with
   | None => lret (connectorNotFoundErr connectorId)
   | Some connector =>
   if truthyNumber fromTs then
     lret (LaunchErr
             (OtherError
                (Error "Google Drive connector does not support partial resync")))
   else
   service CallGetTemporalClient (getTemporalClient lenv) ;;;
   let dataSourceConfig := dataSourceConfigFromConnector env connector in
   let workflowId := googleDriveFullSyncWorkflowId lenv connectorId in
   let options :=
     StartOptions.mk "googleDriveFullSync"
       [ArgConnectorId connectorId; ArgDataSourceConfig dataSourceConfig]
       (QUEUE_NAME lenv) workflowId (Some connectorId) (Some connectorId)
       None None in
   ltry
     (terminateIfRunning lenv workflowId ;;;
      service (CallStart options) (fun h => start lenv h options) ;;;
      llog (LogInfo "Started workflow.") ;;;
      lret (LaunchOk workflowId))
     failedStarting
   end)%launcher.

Definition launchGoogleDriveIncrementalSyncWorkflow (env : Env)
  (lenv : LaunchEnv) (connectorId : ModelId) : L LaunchResult :=
  (connector <- lfetchById connectorId ;;
   match connector with
   | None => lret (connectorNotFoundErr connectorId)
   | Some connector =>
   let key := ("launchGoogleDriveIncrementalSyncWorkflow-"
               ++ showZ connectorId)%string in
   remaining <-
     (fun w =>
        (match rateLimiter lenv (calls w) key 1
                 (GDRIVE_INCREMENTAL_SYNC_DEBOUNCE_SEC lenv) with
         | inl n => Returns n
         | inr e => Throws e
         end,
         mkLaunchWorld (world w)
           (calls w
            ++ [CallRateLimiter key 1
                  (GDRIVE_INCREMENTAL_SYNC_DEBOUNCE_SEC lenv)]))) ;;
   if remaining =? 0 then
     lret (LaunchErr (RateLimitError "Rate limit exceeded"))
   else
   service CallGetTemporalClient (getTemporalClient lenv) ;;;
   let dataSourceConfig := dataSourceConfigFromConnector env connector in
   let workflowId := googleDriveIncrementalSyncWorkflowId lenv connectorId in
   let options :=
     StartOptions.mk "googleDriveIncrementalSync"
       [ArgConnectorId connectorId; ArgDataSourceConfig dataSourceConfig]
       (QUEUE_NAME lenv) workflowId (Some connectorId) (Some connectorId)
       None (Some (newWebhookSignal lenv)) in
   ltry
     (service (CallSignalWithStart options)
        (fun h => signalWithStart lenv h options) ;;;
      llog (LogInfo "Started workflow.") ;;;
      lret (LaunchOk workflowId))
     failedStarting
   end)%launcher.

Definition launchGoogleDriveRenewWebhooksWorkflow (lenv : LaunchEnv)
  : L LaunchResult :=
  (service CallGetTemporalClient (getTemporalClient lenv) ;;;
   let workflowId := googleDriveRenewWebhooksWorkflowId lenv in
   terminateIfRunning lenv workflowId ;;;
   let options :=
     StartOptions.mk "googleDriveRenewWebhooks" [] (QUEUE_NAME lenv)
       workflowId None None (Some "*/30 * * * *") None in
   ltry
     (service (CallStart options) (fun h => start lenv h options) ;;;
      llog (LogInfo "Started workflow.") ;;;
      lret (LaunchOk workflowId))
     failedStarting)%launcher.

Definition launchGoogleGarbageCollector (env : Env) (lenv : LaunchEnv)
  (connectorId : ModelId) : L LaunchResult :=
  (connector <- lfetchById connectorId ;;
   match connector with
   | None => lret (connectorNotFoundErr connectorId)
   | Some connector =>
   service CallGetTemporalClient (getTemporalClient lenv) ;;;
   let workflowId := googleDriveGarbageCollectorWorkflowId lenv connectorId in
   ltry
     (terminateIfRunning lenv workflowId ;;;
      ts <- lnow env ;;
      let options :=
        StartOptions.mk "googleDriveGarbageCollectorWorkflow"
          [ArgConnectorId (ConnectorResource.id connector); ArgTimestamp ts]
          (QUEUE_NAME lenv) workflowId (Some connectorId) (Some connectorId)
          None None in
      service (CallStart options) (fun h => start lenv h options) ;;;
      llog (LogInfo "Started workflow.") ;;;
      lret (LaunchOk workflowId))
     failedStarting
   end)%launcher.

(** ** Words for the properties of the launchers *)

Definition isTerminateCall (c : ServiceCall) : bool :=
  match c with
  | CallTerminate _ => true
  | _ => false
  end.

(** Whether the terminate asked after the calls [h] lets the launcher go
    on: it went through, or no such workflow was running. *)
Definition terminated (lenv : LaunchEnv) (h : list ServiceCall)
  (workflowId : string) : bool :=
  match terminate lenv h workflowId with
  | None => true
  | Some e => isWorkflowNotFoundError e
  end.

(** *** A workflow service

    No workflow is running; the service starts what it is asked to, and
    allows one launch. *)
Definition idleService : LaunchEnv :=
  {| QUEUE_NAME := "google-queue";
     GDRIVE_INCREMENTAL_SYNC_DEBOUNCE_SEC := 10;
     newWebhookSignal := "new_webhook_signal";
     googleDriveFullSyncWorkflowId :=
       fun c => ("googleDrive-fullSync-" ++ showZ c)%string;
     googleDriveIncrementalSyncWorkflowId :=
       fun c => ("googleDrive-IncrementalSync-" ++ showZ c)%string;
     googleDriveGarbageCollectorWorkflowId :=
       fun c => ("googleDrive-GarbageCollector-" ++ showZ c)%string;
     googleDriveRenewWebhooksWorkflowId := "googleDrive-RenewWebhook";
     rateLimiter := fun _ _ _ _ => inl 1;
     getTemporalClient := fun _ => None;
     terminate :=
       fun _ _ => Some (WorkflowNotFoundError "workflow not found");
     start := fun _ _ => None;
     signalWithStart := fun _ _ => None |}.

(** The service is down for the running workflow: terminate times out. *)
Definition stuckService : LaunchEnv :=
  {| QUEUE_NAME := "google-queue";
     GDRIVE_INCREMENTAL_SYNC_DEBOUNCE_SEC := 10;
     newWebhookSignal := "new_webhook_signal";
     googleDriveFullSyncWorkflowId :=
       fun c => ("googleDrive-fullSync-" ++ showZ c)%string;
     googleDriveIncrementalSyncWorkflowId :=
       fun c => ("googleDrive-IncrementalSync-" ++ showZ c)%string;
     googleDriveGarbageCollectorWorkflowId :=
       fun c => ("googleDrive-GarbageCollector-" ++ showZ c)%string;
     googleDriveRenewWebhooksWorkflowId := "googleDrive-RenewWebhook";
     rateLimiter := fun _ _ _ _ => inl 0;
     getTemporalClient := fun _ => None;
     terminate := fun _ _ => Some (OtherError (Error "deadline exceeded"));
     start := fun _ _ => None;
     signalWithStart := fun _ _ => None |}.

Definition launchWorld1 : LaunchWorld :=
  mkLaunchWorld (smallWorld [] [] [] []) [].

(** The calls made to the service between two worlds. *)
Definition newCalls (w w' : LaunchWorld) : list ServiceCall :=
  skipn (List.length (calls w)) (calls w').

(** The tables of a world: everything but the clock and the log. *)
Definition tables (w : World) :=
  (connectors w, googleDriveConfigs w, googleDriveFolders w,
   googleDriveFiles w, googleDriveSyncTokens w, googleDriveWebhooks w,
   dataSource w).

(** The options the launchers start their workflows with. *)
Definition fullSyncOptions (env : Env) (lenv : LaunchEnv)
  (connector : ConnectorResource.t) (connectorId : ModelId)
  : StartOptions.t :=
  StartOptions.mk "googleDriveFullSync"
    [ArgConnectorId connectorId;
     ArgDataSourceConfig (dataSourceConfigFromConnector env connector)]
    (QUEUE_NAME lenv) (googleDriveFullSyncWorkflowId lenv connectorId)
    (Some connectorId) (Some connectorId) None None.

Definition incrementalSyncOptions (env : Env) (lenv : LaunchEnv)
  (connector : ConnectorResource.t) (connectorId : ModelId)
  : StartOptions.t :=
  StartOptions.mk "googleDriveIncrementalSync"
    [ArgConnectorId connectorId;
     ArgDataSourceConfig (dataSourceConfigFromConnector env connector)]
    (QUEUE_NAME lenv) (googleDriveIncrementalSyncWorkflowId lenv connectorId)
    (Some connectorId) (Some connectorId) None
    (Some (newWebhookSignal lenv)).

Definition renewWebhooksOptions (lenv : LaunchEnv) : StartOptions.t :=
  StartOptions.mk "googleDriveRenewWebhooks" [] (QUEUE_NAME lenv)
    (googleDriveRenewWebhooksWorkflowId lenv) None None
    (Some "*/30 * * * *") None.

Definition garbageCollectorOptions (lenv : LaunchEnv)
  (connector : ConnectorResource.t) (connectorId : ModelId) (ts : Z)
  : StartOptions.t :=
  StartOptions.mk "googleDriveGarbageCollectorWorkflow"
    [ArgConnectorId (ConnectorResource.id connector); ArgTimestamp ts]
    (QUEUE_NAME lenv) (googleDriveGarbageCollectorWorkflowId lenv connectorId)
    (Some connectorId) (Some connectorId) None None.

Definition incrementalSyncKey (connectorId : ModelId) : string :=
  "launchGoogleDriveIncrementalSyncWorkflow-" ++ showZ connectorId.

(** * The time of the last garbage collection

    [garbageCollectorFinished] and [getLastGCTime] use a column of the
    connectors that the other activities do not: here the connectors come
    with it. *)

Module ConnectorRow.
Record t := mk {
  connector : ConnectorResource.t;
  lastGCTime : option Z
}.
End ConnectorRow.

Record GCWorld := mkGCWorld {
  connectorRows : list ConnectorRow.t;
  gcClockReads : nat
}.

Definition isConnectorRow (connectorId : ModelId) (r : ConnectorRow.t)
  : bool :=
  ConnectorResource.id (ConnectorRow.connector r) =? connectorId.

(** [connector.update({ lastGCTime: new Date() })]: the row with the
    primary key of the connector gets the time. *)
Definition garbageCollectorFinished (env : Env) (connectorId : ModelId)
  (w : GCWorld) : Result unit * GCWorld :=
  match find (isConnectorRow connectorId) (connectorRows w) with
  | None =>
      (Throw (Error ("Connector " ++ showZ connectorId ++ " not found")), w)
  | Some connector =>
      (Ok tt,
       mkGCWorld
         (map (fun r =>
                 if isConnectorRow
                      (ConnectorResource.id (ConnectorRow.connector connector))
                      r
                 then ConnectorRow.mk (ConnectorRow.connector r)
                        (Some (clock env (gcClockReads w)))
                 else r) (connectorRows w))
         (S (gcClockReads w)))
  end.

(** [connector.lastGCTime?.getTime() || 0] *)
Definition getLastGCTime (connectorId : ModelId) (w : GCWorld) : Result Z :=
  match find (isConnectorRow connectorId) (connectorRows w) with
  | None =>
      Throw (Error ("Connector " ++ showZ connectorId ++ " not found"))
  | Some connector =>
      Ok (match ConnectorRow.lastGCTime connector with
          | Some t => if t =? 0 then 0 else t
          | None => 0
          end)
  end.

(** *** Two connectors, never collected *)
Definition gcWorld1 : GCWorld :=
  mkGCWorld
    [ ConnectorRow.mk connector1 None;
      ConnectorRow.mk (ConnectorResource.mk 2 "connection2" "workspace2")
        None ]
    0.

(** * More scenarios *)

(** The small drive, with a downstream index that refuses every delete. *)
Definition downstreamDown (env : Env) : Env :=
  {| clock := clock env;
     GOOGLE_DRIVE_WEBHOOK_RENEW_MARGIN_MS :=
       GOOGLE_DRIVE_WEBHOOK_RENEW_MARGIN_MS env;
     getAuthObject := getAuthObject env;
     getDriveClient := getDriveClient env;
     getGoogleDriveObject := getGoogleDriveObject env;
     files_list := files_list env;
     changes_list := changes_list env;
     changes_getStartPageToken := changes_getStartPageToken env;
     driveObjectToDustType := driveObjectToDustType env;
     getFileParentsMemoized := getFileParentsMemoized env;
     getMimeTypesToSync := getMimeTypesToSync env;
     isGoogleDriveSpreadSheetFile := isGoogleDriveSpreadSheetFile env;
     getDocumentId := getDocumentId env;
     dataSourceConfigFromConnector := dataSourceConfigFromConnector env;
     JSON_stringify := JSON_stringify env;
     syncOneFile := syncOneFile env;
     deleteFromDataSource_error :=
       fun _ _ => Some (HTTPError "Service Unavailable");
     deleteSpreadsheet_result := deleteSpreadsheet_result env;
     registerWebhook := registerWebhook env |}.

(** Connector 1 watches no folder. *)
Definition nothingWatched (w : World) : World :=
  mkWorld (connectors w) (googleDriveConfigs w) [] (googleDriveFiles w)
    (googleDriveSyncTokens w) (googleDriveWebhooks w) (dataSource w)
    (clockReads w) (trace w).

(** [quiet w w']: from [w] to [w'] no call of [syncOneFile] was made, no
    mirror row was added under a new key, and the selected folders are the
    same. *)
Definition quiet (w w' : World) : Prop :=
  (exists t, trace w' = trace w ++ t /\ existsb isSyncOneFileCall t = false)
  /\ (forall c i, findFile c i (googleDriveFiles w) = None ->
                  findFile c i (googleDriveFiles w') = None)
  /\ googleDriveFolders w' = googleDriveFolders w.

(** The mirror rows of the other connectors, in the order of the table. *)
Definition rowsOfOthers (connectorId : ModelId) (w : World)
  : list GoogleDriveFiles.t :=
  filter (fun r => negb (GoogleDriveFiles.connectorId r =? connectorId))
    (googleDriveFiles w).

(** * Properties *)

(** ** Running an activity *)

Ltac run :=
  unfold bind, ret, throw, gets, modify, emit, call, tryCatch, fetchById,
    connectorNotFound, heartbeat, syncFailed in *; simpl in *.

Lemma bind_Ok A B (m : M A) (k : A -> M B) w a w' :
  m w = (Ok a, w') -> bind m k w = k a w'.
Proof. intros H. unfold bind. now rewrite H. Qed.

Lemma bind_Throw A B (m : M A) (k : A -> M B) w e w' :
  m w = (Throw e, w') -> bind m k w = (Throw e, w').
Proof. intros H. unfold bind. now rewrite H. Qed.

(** ** Deleting a mirrored object *)

Lemma findFile_destroyFile f fs :
  findFile (GoogleDriveFiles.connectorId f) (GoogleDriveFiles.driveFileId f)
    (destroyFile f fs) = None.
Proof.
  unfold findFile, destroyFile.
  induction fs as [|g fs IH]; simpl; [reflexivity|].
  destruct (sameFile _ _ g) eqn:E; simpl; [exact IH|].
  now rewrite E.
Qed.

(** C10.  [deleteFile] on a mirror row whose connector exists logs and
    then makes exactly the downstream calls of [deleteFile_downstream]:
    [deleteSpreadsheet] for a spreadsheet, nothing for a folder,
    [deleteFromDataSource] of the row's document otherwise.  So the
    downstream delete is issued only for a row that is neither a
    spreadsheet nor a folder; deleting a folder always succeeds, leaves the
    downstream index as it was and only destroys the mirror row.  In each
    of the three cases the activity returns unless the downstream call
    throws, and when it returns the mirror row is destroyed. *)
Theorem deleteFile_routes_by_kind :
  forall env w f connector,
    find (fun c => ConnectorResource.id c =? GoogleDriveFiles.connectorId f)
      (connectors w) = Some connector ->
    let r := fst (deleteFile env f w) in
    let w' := snd (deleteFile env f w) in
    trace w' = trace w ++ LogInfo "Deleting Google Drive file."
                          :: deleteFile_downstream env connector f
    /\ (In (CallDeleteFromDataSource
              (dataSourceConfigFromConnector env connector)
              (GoogleDriveFiles.dustFileId f))
          (deleteFile_downstream env connector f) <->
        isGoogleDriveSpreadSheetFile env f = false
        /\ GoogleDriveFiles.mimeType f <> folderMimeType)
    /\ (isGoogleDriveSpreadSheetFile env f = false ->
        GoogleDriveFiles.mimeType f = folderMimeType ->
        r = Ok tt /\ dataSource w' = dataSource w
        /\ trace w' = trace w ++ [LogInfo "Deleting Google Drive file."])
    /\ (r = Ok tt <->
        deleteFile_downstream_ok env connector f (dataSource w) = true)
    /\ (r = Ok tt ->
        googleDriveFiles w' = destroyFile f (googleDriveFiles w)
        /\ findFile (GoogleDriveFiles.connectorId f)
             (GoogleDriveFiles.driveFileId f) (googleDriveFiles w') = None).
Proof.
  intros env w f connector Hc r w'. subst r w'.
  unfold deleteFile, deleteFile_downstream, deleteFile_downstream_ok.
  run. rewrite Hc. simpl.
  destruct (isGoogleDriveSpreadSheetFile env f) eqn:Hs;
    [ unfold deleteSpreadsheet; simpl;
      destruct (deleteSpreadsheet_result env connector f (dataSource w))
        as [[[]|e] ds] eqn:Hd
    | destruct (String.eqb_spec (GoogleDriveFiles.mimeType f) folderMimeType)
        as [Hm|Hm];
      [ | unfold deleteFromDataSource; simpl;
          destruct (deleteFromDataSource_error env _ _) as [e|] eqn:He ] ];
    simpl; rewrite <- ?app_assoc; simpl;
    repeat split; intros;
    repeat match goal with
           | H : _ /\ _ |- _ => destruct H
           | H : _ \/ _ |- _ => destruct H
           | H : False |- _ => destruct H
           end;
    try congruence; try discriminate; try tauto;
    try apply findFile_destroyFile.
Qed.

Lemma deleteFile_routes_by_kind_witness :
  fst (deleteFile trashedEnv folderRow folderWorld) = Ok tt
  /\ dataSource (snd (deleteFile trashedEnv folderRow folderWorld))
     = dataSource folderWorld
  /\ trace (snd (deleteFile trashedEnv folderRow folderWorld))
     = trace folderWorld ++ [LogInfo "Deleting Google Drive file."].
Proof.
  apply (@deleteFile_routes_by_kind trashedEnv folderWorld folderRow
           connector1); reflexivity.
Defined.

(** ** Frames: what an activity leaves alone *)

Section Frames.
Context {T : Type} (proj : World -> T).

Lemma keeps_ret A (a : A) : keeps proj (ret a).
Proof. intros w. reflexivity. Qed.

Lemma keeps_throw A e : keeps proj (@throw A e).
Proof. intros w. reflexivity. Qed.

Lemma keeps_gets A (f : World -> A) : keeps proj (gets f).
Proof. intros w. reflexivity. Qed.

Lemma keeps_modify (f : World -> World) :
  (forall w, proj (f w) = proj w) -> keeps proj (modify f).
Proof. intros H w. apply H. Qed.

Lemma keeps_bind A B (m : M A) (k : A -> M B) :
  keeps proj m -> (forall a, keeps proj (k a)) -> keeps proj (bind m k).
Proof.
  intros Hm Hk w. unfold bind. specialize (Hm w).
  destruct (m w) as [[a|e] w1]; simpl in *.
  - rewrite Hk. exact Hm.
  - exact Hm.
Qed.

Lemma keeps_tryCatch A (m : M A) (h : JsError -> M A) :
  keeps proj m -> (forall e, keeps proj (h e)) -> keeps proj (tryCatch m h).
Proof.
  intros Hm Hh w. unfold tryCatch. specialize (Hm w).
  destruct (m w) as [[a|e] w1]; simpl in *.
  - exact Hm.
  - rewrite Hh. exact Hm.
Qed.

Lemma keeps_forEach A (xs : list A) (body : A -> M unit) :
  (forall x, keeps proj (body x)) -> keeps proj (forEach xs body).
Proof.
  intros Hb. induction xs as [|x xs IH]; simpl.
  - apply keeps_ret.
  - apply keeps_bind; [apply Hb | intros _; exact IH].
Qed.

Lemma keeps_promiseAllMap A B (xs : list A) (f : A -> M B) :
  (forall x, keeps proj (f x)) -> keeps proj (promiseAllMap xs f).
Proof.
  intros Hf. induction xs as [|x xs IH]; intros w; simpl; [reflexivity|].
  specialize (Hf x w). destruct (f x w) as [r w1].
  specialize (IH w1). destruct (promiseAllMap xs f w1) as [rs w2].
  simpl in *. now rewrite IH.
Qed.
End Frames.

(** Splits a frame goal along the structure of the activity. *)
Ltac frame_step :=
  match goal with
  | |- keeps _ (bind _ _) => apply keeps_bind
  | |- keeps _ (ret _) => apply keeps_ret
  | |- keeps _ (throw _) => apply keeps_throw
  | |- keeps _ (gets _) => apply keeps_gets
  | |- keeps _ (tryCatch _ _) => apply keeps_tryCatch
  | |- keeps _ (forEach _ _) => apply keeps_forEach
  | |- keeps _ (promiseAllMap _ _) => apply keeps_promiseAllMap
  | |- keeps _ (modify _) => apply keeps_modify; intros; reflexivity
  | |- keeps _ (emit _) => apply keeps_modify; intros; reflexivity
  | |- keeps _ (call _ _) => intros ?; reflexivity
  | |- keeps _ (connectorNotFound _) => apply keeps_throw
  | |- keeps _ (invalidFile _ _) => apply keeps_throw
  | |- keeps _ (fetchById _) => apply keeps_gets
  | |- keeps _ (findConfig _) => apply keeps_gets
  | |- keeps _ (getFoldersToSync _) => apply keeps_gets
  | |- keeps _ heartbeat => apply keeps_modify; intros; reflexivity
  | |- keeps _ (syncFailed _ _) => apply keeps_modify; intros; reflexivity
  | |- keeps _ (match ?x with _ => _ end) => destruct x
  | |- forall _, _ => intro
  end.

Ltac frame := repeat frame_step.

(** ** Full sync: revisiting a folder *)

Lemma find_In_true A (p : A -> bool) (l : list A) x :
  In x l -> p x = true -> exists y, find p l = Some y.
Proof.
  intros Hin Hp. destruct (find p l) as [y|] eqn:E; [now exists y|].
  apply (find_none p l E) in Hin. congruence.
Qed.

Lemma callsSince_app w t :
  callsSince w (withTrace (trace w ++ t) w) = t.
Proof.
  unfold callsSince. simpl.
  rewrite skipn_app, skipn_all, Nat.sub_diag. reflexivity.
Qed.

(** C1, as amended.  [syncFiles] without a page token, on a folder that the
    remote still has and whose mirror row was seen at or after
    [startSyncTs], returns the empty result after exactly two external
    calls: the credentials lookup and the one [getGoogleDriveObject] fetch
    of the folder that the check needs.  It lists no children and leaves
    every table as it was. *)
Theorem syncFiles_revisit_short_circuits :
  forall env w connectorId dataSourceConfig driveFolderId startSyncTs
         connector authCredentials driveFolder,
    find (fun c => ConnectorResource.id c =? connectorId) (connectors w)
      = Some connector ->
    getAuthObject env (ConnectorResource.connectionId connector)
      = Ok authCredentials ->
    getGoogleDriveObject env authCredentials driveFolderId
      = Ok (Some driveFolder) ->
    visitedSince connectorId (GoogleDriveObjectType.id driveFolder)
      startSyncTs w ->
    let w' := withTrace
                (trace w
                 ++ [CallGetAuthObject
                       (ConnectorResource.connectionId connector);
                     CallGetGoogleDriveObject driveFolderId]) w in
    syncFiles env connectorId dataSourceConfig driveFolderId startSyncTs None w
      = (Ok (SyncFilesResult.mk None 0 []), w')
    /\ filter isDriveApiCall (callsSince w w')
         = [CallGetGoogleDriveObject driveFolderId].
Proof.
  intros env w connectorId dataSourceConfig driveFolderId startSyncTs
    connector authCredentials driveFolder Hc Ha Hg
    (row & Hin & Hsame & Hseen) w'.
  destruct (find_In_true
              (fun f =>
                 sameFile connectorId (GoogleDriveObjectType.id driveFolder) f
                 && seenSince startSyncTs f)
              (googleDriveFiles w) row Hin) as [v Hv].
  { now rewrite Hsame, Hseen. }
  split.
  - unfold syncFiles. run. rewrite Hc, Ha. simpl. rewrite Hg. simpl.
    rewrite Hv. subst w'. unfold withTrace. simpl.
    rewrite <- app_assoc. reflexivity.
  - subst w'. rewrite callsSince_app. reflexivity.
Qed.

Lemma syncFiles_revisit_short_circuits_witness :
  syncFiles revisitEnv 1 "workspace1" "folder1" 100 None revisitWorld
    = (Ok (SyncFilesResult.mk None 0 []),
       withTrace [CallGetAuthObject "connection1";
                  CallGetGoogleDriveObject "folder1"] revisitWorld)
  /\ filter isDriveApiCall
       (callsSince revisitWorld
          (withTrace [CallGetAuthObject "connection1";
                      CallGetGoogleDriveObject "folder1"] revisitWorld))
     = [CallGetGoogleDriveObject "folder1"].
Proof.
  apply (@syncFiles_revisit_short_circuits revisitEnv revisitWorld 1
           "workspace1" "folder1" 100 connector1 "connection1"
           (remoteObject "folder1" None folderMimeType false)).
  - reflexivity.
  - reflexivity.
  - reflexivity.
  - exists (mirrorRow "folder1" folderMimeType None (Some 100)).
    split; [left; reflexivity | split; reflexivity].
Defined.

(** C1, as stated, fails: the revisit of a visited folder is not free of
    remote calls.  On [revisitWorld] the folder is marked visited at the
    start of the generation and the result is empty, but the Drive API was
    asked once, for the folder itself. *)
Lemma syncFiles_revisit_calls_the_remote :
  visitedSince 1 "folder1" 100 revisitWorld
  /\ fst (syncFiles revisitEnv 1 "workspace1" "folder1" 100 None revisitWorld)
     = Ok (SyncFilesResult.mk None 0 [])
  /\ filter isDriveApiCall
       (callsSince revisitWorld
          (snd (syncFiles revisitEnv 1 "workspace1" "folder1" 100 None
                  revisitWorld)))
     = [CallGetGoogleDriveObject "folder1"]
  /\ filter isDriveApiCall
       (callsSince revisitWorld
          (snd (syncFiles revisitEnv 1 "workspace1" "folder1" 100 None
                  revisitWorld)))
     <> [].
Proof.
  split; [|split; [|split]].
  - exists (mirrorRow "folder1" folderMimeType None (Some 100)).
    split; [left; reflexivity | split; reflexivity].
  - vm_compute. reflexivity.
  - vm_compute. reflexivity.
  - vm_compute. discriminate.
Qed.

(** ** Frames of the activities *)

Section Untouched.
Context {T : Type} (proj : World -> T).
Hypothesis proj_files : forall fs w, proj (withFiles fs w) = proj w.
Hypothesis proj_dataSource : forall ds w, proj (withDataSource ds w) = proj w.
Hypothesis proj_clockReads : forall n w, proj (withClockReads n w) = proj w.
Hypothesis proj_trace : forall t w, proj (withTrace t w) = proj w.

Lemma keeps_emit e : keeps proj (emit e).
Proof. intros w. apply proj_trace. Qed.

Lemma keeps_call A e (r : Result A) : keeps proj (call e r).
Proof. intros w. apply proj_trace. Qed.

Lemma keeps_now env : keeps proj (now env).
Proof. intros w. apply proj_clockReads. Qed.

Lemma keeps_deleteFromDataSource env config documentId :
  keeps proj (deleteFromDataSource env config documentId).
Proof.
  intros w. unfold deleteFromDataSource.
  destruct (deleteFromDataSource_error env config documentId); simpl.
  - apply proj_trace.
  - now rewrite proj_dataSource, proj_trace.
Qed.

Lemma keeps_deleteSpreadsheet env connector file :
  keeps proj (deleteSpreadsheet env connector file).
Proof.
  intros w. unfold deleteSpreadsheet.
  destruct (deleteSpreadsheet_result env connector file (dataSource w));
    simpl.
  now rewrite proj_trace, proj_dataSource.
Qed.

Lemma keeps_callSyncOneFile env connectorId auth config file ts batch :
  keeps proj (callSyncOneFile env connectorId auth config file ts batch).
Proof.
  intros w. unfold callSyncOneFile.
  destruct (syncOneFile env connectorId auth config file ts batch
              (googleDriveFiles w, dataSource w)) as [r [fs ds]]; simpl.
  now rewrite proj_trace, proj_dataSource, proj_files.
Qed.

Ltac untouched :=
  repeat first
    [ apply keeps_emit | apply keeps_call | apply keeps_now
    | apply keeps_deleteFromDataSource | apply keeps_deleteSpreadsheet
    | apply keeps_callSyncOneFile
    | apply keeps_modify; intros; apply proj_files
    | frame_step ].

Lemma keeps_objectIsInFolders env connectorId auth file folders ts :
  keeps proj (objectIsInFolders env connectorId auth file folders ts).
Proof. unfold objectIsInFolders. untouched. Qed.

Lemma keeps_deleteFile env file : keeps proj (deleteFile env file).
Proof. unfold deleteFile. untouched. Qed.

Lemma keeps_deleteOneFile env connectorId file :
  keeps proj (deleteOneFile env connectorId file).
Proof. unfold deleteOneFile. untouched. apply keeps_deleteFile. Qed.

Lemma keeps_incrementalSync_change env connectorId config ts mimeTypes
  folders auth change :
  keeps proj (incrementalSync_change env connectorId config ts mimeTypes
                folders auth change).
Proof.
  unfold incrementalSync_change.
  untouched; try apply keeps_objectIsInFolders; untouched;
    try apply keeps_deleteOneFile.
Qed.

Lemma keeps_garbageCollector_file env connectorId auth folders ts file :
  keeps proj (garbageCollector_file env connectorId auth folders ts file).
Proof.
  unfold garbageCollector_file.
  untouched; try apply keeps_deleteFile;
    try apply keeps_objectIsInFolders; untouched;
    try apply keeps_deleteOneFile.
Qed.
End Untouched.

(** ** Incremental sync: the persisted cursor *)

Lemma bind_inv A B (m : M A) (k : A -> M B) w r w' :
  bind m k w = (r, w') ->
  (exists a w1, m w = (Ok a, w1) /\ k a w1 = (r, w'))
  \/ (exists e, m w = (Throw e, w') /\ r = Throw e).
Proof.
  unfold bind. destruct (m w) as [[a|e] w1]; intros H.
  - left. now exists a, w1.
  - right. exists e. now inversion H.
Qed.

(** Inverts the first [bind] of a run [H]; the second tactic closes the
    case where the first activity throws. *)
Ltac step H a w1 H1 :=
  apply bind_inv in H;
  destruct H as [(a & w1 & H1 & H)|(?e & H1 & ?Hr)].

Lemma keeps_run T A (proj : World -> T) (m : M A) w r w' :
  keeps proj m -> m w = (r, w') -> proj w' = proj w.
Proof. intros Hk H. specialize (Hk w). now rewrite H in Hk. Qed.

Lemma keeps_getSyncPageToken T (proj : World -> T) env connectorId driveId
  shared :
  (forall t w, proj (withTrace t w) = proj w) ->
  keeps proj (getSyncPageToken env connectorId driveId shared).
Proof.
  intros Ht. unfold getSyncPageToken.
  repeat first [ apply keeps_call; assumption | frame_step ].
Qed.

Lemma findSyncToken_upsertSyncToken connectorId driveId token ts :
  findSyncToken connectorId driveId
    (upsertSyncToken (GoogleDriveSyncToken.mk connectorId driveId token) ts)
  = Some (GoogleDriveSyncToken.mk connectorId driveId token).
Proof.
  unfold findSyncToken, upsertSyncToken. simpl.
  destruct (existsb (sameDrive connectorId driveId) ts) eqn:E.
  - induction ts as [|u ts IH]; simpl in *; [discriminate|].
    destruct (sameDrive connectorId driveId u) eqn:Eu; simpl.
    + unfold sameDrive at 1. simpl. now rewrite Z.eqb_refl, String.eqb_refl.
    + rewrite Eu. apply IH. exact E.
  - induction ts as [|u ts IH]; simpl in *.
    + unfold sameDrive. simpl. now rewrite Z.eqb_refl, String.eqb_refl.
    + apply orb_false_elim in E. destruct E as [Eu E].
      rewrite Eu. apply IH. exact E.
Qed.

Lemma incrementalSync_try_cursor env w connectorId dsc driveId isShared ts
  token r w' :
  incrementalSync_try env connectorId dsc driveId isShared ts token w
    = (r, w') ->
  googleDriveSyncTokens w' = googleDriveSyncTokens w
  \/ cursorWrittenAfterPage env connectorId dsc driveId ts w r w'.
Proof.
  intros H. unfold incrementalSync_try in H.
  step H connector w0 S0; [|inversion S0].
  inversion S0; subst w0; clear S0.
  destruct (find _ (connectors w)) as [c|] eqn:Hc; subst connector;
    [|inversion H; now left].
  step H pageToken w1 S1.
  2:{ left. revert S1.
      destruct token as [t|]; [destruct (t =? "")%string|]; intros S1;
        try (eapply keeps_run; [|exact S1]; apply keeps_getSyncPageToken;
             reflexivity).
      inversion S1. }
  assert (K1 : googleDriveSyncTokens w1 = googleDriveSyncTokens w).
  { revert S1.
    destruct token as [t|]; [destruct (t =? "")%string|]; intros S1;
      try (eapply keeps_run; [|exact S1]; apply keeps_getSyncPageToken;
           reflexivity).
    now inversion S1. }
  clear S1.
  step H config w2 S2; [|inversion S2]. inversion S2; subst w2; clear S2.
  step H folders w2 S2; [|inversion S2]. inversion S2; subst w2; clear S2.
  step H auth w2 S2; [|left; inversion S2; subst; exact K1].
  inversion S2 as [[Ea Ew]]; clear S2.
  step H client w3 S3; [|left; inversion S3; subst; exact K1].
  inversion S3 as [[Ecl Ew3]]; clear S3.
  step H page w4 S4; [|left; inversion S4; subst; exact K1].
  inversion S4 as [[Ep Ew4]]; clear S4.
  assert (K4 : googleDriveSyncTokens w4 = googleDriveSyncTokens w)
    by (subst; exact K1).
  clear Ew Ew3 Ew4 K1.
  destruct (negb (ChangeList.status page =? 200));
    [inversion H; subst; now left|].
  destruct (ChangeList.changes page) as [changes|] eqn:Hch;
    [|inversion H; subst; now left].
  step H u w5 S5; [|inversion S5]. inversion S5 as [[Eu Ew5]]; clear S5.
  assert (K5 : googleDriveSyncTokens w5 = googleDriveSyncTokens w)
    by (subst; exact K4).
  clear Ew5 K4.
  step H u' w6 S6.
  2:{ left. rewrite <- K5. eapply keeps_run; [|exact S6].
      apply keeps_forEach. intros x.
      apply keeps_incrementalSync_change; reflexivity. }
  assert (K6 : googleDriveSyncTokens w6 = googleDriveSyncTokens w).
  { rewrite <- K5. eapply keeps_run; [|exact S6].
    apply keeps_forEach. intros x.
    apply keeps_incrementalSync_change; reflexivity. }
  destruct u'.
  destruct (ChangeList.newStartPageToken page) as [newStart|] eqn:Hn.
  - destruct (String.eqb_spec newStart "") as [He|He].
    + inversion H; subst. now left.
    + right. unfold bind, persistSyncToken, modify, ret in H. simpl in H.
      inversion H; subst r w'; clear H.
      exists client, (if isShared
               then ChangesListParams.mk pageToken (Some driveId) true true
               else ChangesListParams.mk pageToken None false false),
        page, changes, newStart.
      eexists _, _, _, w5, w6.
      repeat split; try eassumption.
      * now rewrite K6.
      * unfold persistedCursor. simpl. rewrite K6.
        now rewrite findSyncToken_upsertSyncToken.
  - inversion H; subst. now left.
Qed.

Lemma gets_bind A B (f : World -> A) (k : A -> M B) w :
  bind (gets f) k w = k (f w) w.
Proof. reflexivity. Qed.

Lemma call_bind_Ok A B ev (a : A) (k : A -> M B) w :
  bind (call ev (Ok a)) k w = k a (withTrace (trace w ++ [ev]) w).
Proof. reflexivity. Qed.

Lemma emit_bind B ev (k : unit -> M B) w :
  bind (emit ev) k w = k tt (withTrace (trace w ++ [ev]) w).
Proof. reflexivity. Qed.

Lemma pageTokenFrom_run env connectorId driveId isShared token w pageToken
  w1 :
  pageTokenFrom env connectorId driveId isShared token w pageToken w1 ->
  match token with
  | Some t => if (t =? "")%string
              then getSyncPageToken env connectorId driveId isShared
              else ret t
  | None => getSyncPageToken env connectorId driveId isShared
  end w = (Ok pageToken, w1)
  /\ connectors w1 = connectors w
  /\ googleDriveConfigs w1 = googleDriveConfigs w
  /\ googleDriveFolders w1 = googleDriveFolders w
  /\ googleDriveSyncTokens w1 = googleDriveSyncTokens w.
Proof.
  unfold pageTokenFrom, truthy.
  assert (K : forall r w', getSyncPageToken env connectorId driveId isShared w
                           = (r, w') ->
              connectors w' = connectors w
              /\ googleDriveConfigs w' = googleDriveConfigs w
              /\ googleDriveFolders w' = googleDriveFolders w
              /\ googleDriveSyncTokens w' = googleDriveSyncTokens w).
  { intros r w' H.
    repeat split;
      (eapply keeps_run; [|exact H]; apply keeps_getSyncPageToken;
       reflexivity). }
  destruct token as [t|]; [destruct (t =? "")%string; simpl|].
  - intros H. split; [exact H|exact (K _ _ H)].
  - intros [Ht Hw]. inversion Ht; subst. repeat split; reflexivity.
  - intros H. split; [exact H|exact (K _ _ H)].
Qed.

Lemma incrementalSync_try_page env w connectorId dsc driveId isShared ts
  token auth page wp changes :
  readsPage env connectorId driveId isShared token w auth page wp ->
  ChangeList.changes page = Some changes ->
  incrementalSync_try env connectorId dsc driveId isShared ts token w
  = (incrementalSync_entries env connectorId dsc ts w auth changes ;;;
     (match ChangeList.newStartPageToken page with
      | Some newStartPageToken =>
          if (newStartPageToken =? "")%string then ret tt
          else persistSyncToken connectorId driveId newStartPageToken
      | None => ret tt
      end) ;;;
     ret (continuation page)) wp.
Proof.
  intros (connector & pageToken & w1 & client & Hc & Ht & Ha & Hcl & Hp & Hs
          & Hwp) Hch.
  apply pageTokenFrom_run in Ht.
  destruct Ht as (Ht & _ & Kc & Kf & _).
  unfold incrementalSync_try, fetchById.
  rewrite gets_bind, Hc.
  rewrite (@bind_Ok _ _ _ _ _ _ _ Ht).
  unfold findConfig, getFoldersToSync.
  rewrite !gets_bind, Ha, call_bind_Ok, Hcl, call_bind_Ok.
  fold (changesListParams driveId isShared pageToken).
  rewrite Hp, call_bind_Ok, Hs, Hch, Z.eqb_refl. cbn [negb].
  rewrite emit_bind.
  unfold incrementalSync_entries, mimeTypesToSyncOf, foldersToSync,
    continuation.
  rewrite Kc, Kf. subst wp. simpl. rewrite <- !app_assoc. reflexivity.
Qed.

(** C2, as amended.  One invocation of [incrementalSync] either leaves the
    persisted cursors as they were, or writes the cursor of the drive once:
    with the non-empty [newStartPageToken] of the page it read, in the
    world left by the loop over all the entries of that page, after that
    loop returned.  When the invocation throws, and when it gives up on a
    lost access, the persisted cursors are as they were.  And the write is
    made: when the invocation reads a page and the loop over all its
    entries returns, the invocation returns the continuation of the page,
    and a non-empty [newStartPageToken] of the page is then the persisted
    cursor of the drive, written in the world the loop left; a page
    without one (it only announces a [nextPageToken]) leaves that world,
    and the persisted cursor, as they are. *)
Theorem incrementalSync_cursor_written_after_page :
  forall env w connectorId dataSourceConfig driveId isSharedDrive startSyncTs
         nextPageToken,
    let r := fst (incrementalSync env connectorId dataSourceConfig driveId
                    isSharedDrive startSyncTs nextPageToken w) in
    let w' := snd (incrementalSync env connectorId dataSourceConfig driveId
                     isSharedDrive startSyncTs nextPageToken w) in
    (googleDriveSyncTokens w' = googleDriveSyncTokens w
     \/ cursorWrittenAfterPage env connectorId dataSourceConfig driveId
          startSyncTs w r w')
    /\ (forall e, r = Throw e ->
        googleDriveSyncTokens w' = googleDriveSyncTokens w)
    /\ (forall e w1,
          incrementalSync_try env connectorId dataSourceConfig driveId
            isSharedDrive startSyncTs nextPageToken w = (Throw e, w1) ->
          googleDriveSyncTokens w' = googleDriveSyncTokens w)
    /\ (forall authCredentials page wp changes w2,
          readsPage env connectorId driveId isSharedDrive nextPageToken w
            authCredentials page wp ->
          ChangeList.changes page = Some changes ->
          incrementalSync_entries env connectorId dataSourceConfig
            startSyncTs w authCredentials changes wp = (Ok tt, w2) ->
          r = Ok (continuation page)
          /\ googleDriveSyncTokens w2 = googleDriveSyncTokens w
          /\ (forall newStartPageToken,
                ChangeList.newStartPageToken page = Some newStartPageToken ->
                newStartPageToken <> "" ->
                w' = withSyncTokens
                       (upsertSyncToken
                          (GoogleDriveSyncToken.mk connectorId driveId
                             newStartPageToken)
                          (googleDriveSyncTokens w2)) w2
                /\ persistedCursor connectorId driveId w'
                   = Some newStartPageToken)
          /\ (truthy (ChangeList.newStartPageToken page) = false ->
              w' = w2
              /\ persistedCursor connectorId driveId w'
                 = persistedCursor connectorId driveId w)).
Proof.
  intros env w connectorId dsc driveId isShared ts token r w'.
  assert (Hmain :
    googleDriveSyncTokens w' = googleDriveSyncTokens w
    \/ cursorWrittenAfterPage env connectorId dsc driveId ts w r w').
  { subst r w'. unfold incrementalSync, tryCatch.
    destruct (incrementalSync_try env connectorId dsc driveId isShared ts
                token w) as [[a|e] w1] eqn:Htry.
    - simpl. exact (incrementalSync_try_cursor _ _ _ _ _ _ _ _ Htry).
    - destruct (incrementalSync_try_cursor _ _ _ _ _ _ _ _ Htry) as [K|K].
      + left. destruct (lostAccess e); simpl; exact K.
      + destruct K as (? & ? & ? & ? & ? & ? & ? & ? & ? & ? & K).
        decompose [and] K. discriminate. }
  split; [exact Hmain|split; [|split]].
  - intros e He. destruct Hmain as [K|K]; [exact K|].
    destruct K as (? & ? & ? & ? & ? & ? & ? & ? & ? & ? & K).
    decompose [and] K. congruence.
  - intros e w1 Htry.
    destruct (incrementalSync_try_cursor _ _ _ _ _ _ _ _ Htry) as [K|K].
    + subst w'. unfold incrementalSync, tryCatch. rewrite Htry.
      destruct (lostAccess e); simpl; exact K.
    + destruct K as (? & ? & ? & ? & ? & ? & ? & ? & ? & ? & K).
      decompose [and] K. discriminate.
  - intros auth page wp changes w2 Hread Hch Hloop.
    assert (K2 : googleDriveSyncTokens w2 = googleDriveSyncTokens w).
    { transitivity (googleDriveSyncTokens wp).
      - eapply keeps_run; [|exact Hloop].
        apply keeps_forEach. intros x.
        apply keeps_incrementalSync_change; reflexivity.
      - destruct Hread as (c & t & w1 & cl & _ & Ht & _ & _ & _ & _ & Hwp).
        apply pageTokenFrom_run in Ht. subst wp. simpl. tauto. }
    pose proof (incrementalSync_try_page dsc ts Hread Hch) as Htry.
    subst r w'. unfold incrementalSync, tryCatch. rewrite Htry.
    rewrite (@bind_Ok _ _ _ _ _ _ _ Hloop).
    destruct (ChangeList.newStartPageToken page) as [n|] eqn:Hn.
    + destruct (String.eqb_spec n "") as [He|He].
      * simpl. split; [reflexivity|split; [exact K2|split]].
        -- intros n' Hn' Hne. inversion Hn'; subst. now elim Hne.
        -- intros _. split; [reflexivity|].
           unfold persistedCursor. now rewrite K2.
      * simpl. split; [reflexivity|split; [exact K2|split]].
        -- intros n' Hn' Hne. inversion Hn'; subst n'.
           split; [reflexivity|].
           unfold persistedCursor. simpl.
           now rewrite findSyncToken_upsertSyncToken.
        -- unfold truthy. destruct (String.eqb_spec n ""); [contradiction|].
           discriminate.
    + simpl. split; [reflexivity|split; [exact K2|split]].
      * intros n' Hn'. discriminate.
      * intros _. split; [reflexivity|].
        unfold persistedCursor. now rewrite K2.
Qed.

(** On its last page the feed of [trashedEnv] gives the new cursor
    [page2]: the invocation that reads it leaves [page2] as the persisted
    cursor of the drive. *)
Lemma incrementalSync_cursor_written_after_page_witness :
  persistedCursor 1 "drive1" trashedWorld = Some "page1"
  /\ fst (incrementalSync trashedEnv 1 "workspace1" "drive1" false 100 None
            trashedWorld) = Ok None
  /\ persistedCursor 1 "drive1"
       (snd (incrementalSync trashedEnv 1 "workspace1" "drive1" false 100
               None trashedWorld)) = Some "page2".
Proof.
  pose proof (incrementalSync_cursor_written_after_page trashedEnv
                trashedWorld 1 "workspace1" "drive1" false 100 None) as H.
  cbv zeta in H. destruct H as (_ & _ & _ & H).
  specialize (H "connection1"
                (ChangeList.mk 200 "OK" (Some [changeTrashedDoc]) None
                   (Some "page2"))
                (withTrace
                   (trace trashedWorld
                    ++ [CallGetAuthObject "connection1";
                        CallGetDriveClient "connection1";
                        CallChangesList
                          (changesListParams "drive1" false "page1");
                        LogInfo "Got changes."]) trashedWorld)
                [changeTrashedDoc]
                (snd (incrementalSync_entries trashedEnv 1 "workspace1" 100
                        trashedWorld "connection1" [changeTrashedDoc]
                        (withTrace
                           (trace trashedWorld
                            ++ [CallGetAuthObject "connection1";
                                CallGetDriveClient "connection1";
                                CallChangesList
                                  (changesListParams "drive1" false "page1");
                                LogInfo "Got changes."]) trashedWorld)))).
  destruct H as (Hr & _ & Hw & _).
  - exists connector1, "page1", trashedWorld, "connection1".
    repeat split; vm_compute; reflexivity.
  - reflexivity.
  - vm_compute. reflexivity.
  - split; [reflexivity|split; [exact Hr|]].
    exact (proj2 (Hw "page2" eq_refl
                    ltac:(discriminate))).
Defined.

(** C2, as stated, fails: in the middle of the feed the page is consumed
    and its new cursor [page2] is returned, but the persisted cursor is
    still [page1]. *)
Lemma incrementalSync_mid_feed_cursor_not_persisted :
  persistedCursor 1 "drive1" midFeedWorld = Some "page1"
  /\ fst (incrementalSync midFeedEnv 1 "workspace1" "drive1" false 100 None
            midFeedWorld) = Ok (Some "page2")
  /\ persistedCursor 1 "drive1"
       (snd (incrementalSync midFeedEnv 1 "workspace1" "drive1" false 100
               None midFeedWorld)) = Some "page1"
  /\ persistedCursor 1 "drive1"
       (snd (incrementalSync midFeedEnv 1 "workspace1" "drive1" false 100
               None midFeedWorld)) <> Some "page2".
Proof.
  split; [|split; [|split]]; vm_compute; try reflexivity; discriminate.
Qed.

(** ** Incremental sync: losing access *)

(** C7.  When the [try] block of [incrementalSync] throws, the activity
    returns [undefined] after logging if the error is a [GaxiosError] with
    status 403 (the drive is lost), and throws the same error otherwise;
    nothing else is changed.  So the activity throws [e] exactly when its
    [try] block throws [e] and [e] is not a loss of access. *)
Theorem incrementalSync_swallows_lost_access :
  forall env w connectorId dataSourceConfig driveId isSharedDrive startSyncTs
         nextPageToken e w1,
    incrementalSync_try env connectorId dataSourceConfig driveId
      isSharedDrive startSyncTs nextPageToken w = (Throw e, w1) ->
    (lostAccess e = true <->
     exists message, e = GaxiosError (Some 403) message)
    /\ (lostAccess e = true ->
        incrementalSync env connectorId dataSourceConfig driveId
          isSharedDrive startSyncTs nextPageToken w
        = (Ok None,
           withTrace
             (trace w1
              ++ [LogError "Looks like we lost access to this drive. Skipping"])
             w1))
    /\ (lostAccess e = false ->
        incrementalSync env connectorId dataSourceConfig driveId
          isSharedDrive startSyncTs nextPageToken w = (Throw e, w1))
    /\ (forall e',
          fst (incrementalSync env connectorId dataSourceConfig driveId
                 isSharedDrive startSyncTs nextPageToken w) = Throw e' ->
          e' = e /\ lostAccess e = false).
Proof.
  intros env w connectorId dsc driveId isShared ts token e w1 Htry.
  split; [|split; [|split]].
  - destruct e as [[status|] message| | |]; simpl;
      try (split; [discriminate | intros [m Hm]; discriminate]).
    split.
    + intros H. apply Z.eqb_eq in H. subst. now exists message.
    + intros [m Hm]. inversion Hm. reflexivity.
  - intros Hl. unfold incrementalSync, tryCatch. rewrite Htry, Hl.
    reflexivity.
  - intros Hl. unfold incrementalSync, tryCatch. rewrite Htry, Hl.
    reflexivity.
  - intros e'. unfold incrementalSync, tryCatch. rewrite Htry.
    destruct (lostAccess e); simpl; [discriminate|].
    intros H. inversion H. now split.
Qed.

Lemma incrementalSync_swallows_lost_access_witness :
  incrementalSync lostAccessEnv 1 "workspace1" "drive1" false 100
    (Some "page1") midFeedWorld
  = (Ok None,
     withTrace
       (trace (snd (incrementalSync_try lostAccessEnv 1 "workspace1" "drive1"
                      false 100 (Some "page1") midFeedWorld))
        ++ [LogError "Looks like we lost access to this drive. Skipping"])
       (snd (incrementalSync_try lostAccessEnv 1 "workspace1" "drive1" false
               100 (Some "page1") midFeedWorld))).
Proof.
  apply (@incrementalSync_swallows_lost_access lostAccessEnv midFeedWorld 1
           "workspace1" "drive1" false 100 (Some "page1")
           (GaxiosError (Some 403) "Forbidden")
           (snd (incrementalSync_try lostAccessEnv 1 "workspace1" "drive1"
                   false 100 (Some "page1") midFeedWorld))).
  - vm_compute. reflexivity.
  - reflexivity.
Defined.

(** Any other error of the Drive API goes to the caller. *)
Example incrementalSync_throws_server_error :
  fst (incrementalSync serverErrorEnv 1 "workspace1" "drive1" false 100
         (Some "page1") midFeedWorld)
  = Throw (GaxiosError (Some 500) "Internal Server Error").
Proof. vm_compute. reflexivity. Qed.

(** ** Incremental sync: one entry of the change feed *)

Lemma forEach_app_Throw A (body : A -> M unit) pre x post w w1 e w2 :
  forEach pre body w = (Ok tt, w1) ->
  body x w1 = (Throw e, w2) ->
  forEach (pre ++ x :: post) body w = (Throw e, w2).
Proof.
  revert w. induction pre as [|y pre IH]; intros w Hpre Hx; simpl in *.
  - inversion Hpre; subst. unfold bind. now rewrite Hx.
  - unfold bind in *. destruct (body y w) as [[[]|e'] w'].
    + now apply IH.
    + discriminate.
Qed.

(** An entry that passed the filters reaches the scope test: the run up to
    there. *)
Lemma incrementalSync_change_reaches_scope env connectorId dsc ts mimeTypes
  folders auth change file id w :
  passesFilters mimeTypes change file id ->
  incrementalSync_change env connectorId dsc ts mimeTypes folders auth change w
  = (heartbeat ;;;
     dustFile <- call (CallDriveObjectToDustType (Some id))
                   (driveObjectToDustType env file auth) ;;
     isInFolders <-
       objectIsInFolders env connectorId auth dustFile folders ts ;;
     if negb isInFolders || changeTrashed file
     then
       localFile <- gets (fun w =>
                      findFile connectorId id (googleDriveFiles w)) ;;
       match localFile with
       | Some _ => deleteOneFile env connectorId dustFile
       | None => ret tt
       end
     else
       if negb (truthy (SchemaFile.createdTime file))
          || negb (truthy (SchemaFile.name file))
          || negb (truthy (SchemaFile.id file))
       then invalidFile env file
       else
         emit (LogInfo "will sync file") ;;;
         driveFile <- call (CallDriveObjectToDustType (Some id))
                        (driveObjectToDustType env file auth) ;;
         if (GoogleDriveObjectType.mimeType driveFile =? folderMimeType)%string
         then
           lastSeenTs <- now env ;;
           modify (fun w =>
             withFiles
               (upsertFile
                  (GoogleDriveFiles.mk connectorId
                     (getDocumentId env (GoogleDriveObjectType.id driveFile))
                     (GoogleDriveObjectType.id dustFile)
                     (GoogleDriveObjectType.name dustFile)
                     (GoogleDriveObjectType.mimeType dustFile)
                     (GoogleDriveObjectType.parent dustFile)
                     (Some lastSeenTs))
                  (googleDriveFiles w)) w) ;;;
           emit (LogInfo "done syncing file")
         else
           callSyncOneFile env connectorId auth dsc driveFile ts false ;;;
           emit (LogInfo "done syncing file")) w.
Proof.
  intros (Hct & Hf & (mimeType & Hm & Hne & Hinc) & Hid & Hidne).
  unfold incrementalSync_change. rewrite Hct, Hf, Hm, Hid.
  cbn [truthy]. rewrite Hinc.
  apply String.eqb_neq in Hne, Hidne. rewrite Hne, Hidne.
  reflexivity.
Qed.

(** C9, as amended.  An entry that passed the filters (a file change, of a
    MIME type to sync, with an id), that is in the watched scope and not
    trashed, and that has no [createdTime] or no [name], makes the loop
    body throw the "Invalid file" error, with no table changed; the loop
    over a page stops there with that error, and the activity does not
    swallow it: an invocation of [incrementalSync] that reads a page with
    such an entry, the entries before it having been handled, throws that
    error to its caller, and leaves the persisted cursors as they were. *)
Theorem incrementalSync_change_invalid_file_throws :
  forall env connectorId dataSourceConfig startSyncTs mimeTypesToSync
         selectedFoldersIds authCredentials change file id dustFile parents w,
    passesFilters mimeTypesToSync change file id ->
    driveObjectToDustType env file authCredentials = Ok dustFile ->
    getFileParentsMemoized env connectorId authCredentials dustFile startSyncTs
      = Ok parents ->
    anyInFolders selectedFoldersIds parents = true ->
    changeTrashed file = false ->
    truthy (SchemaFile.createdTime file) = false
    \/ truthy (SchemaFile.name file) = false ->
    let body := incrementalSync_change env connectorId dataSourceConfig
                  startSyncTs mimeTypesToSync selectedFoldersIds
                  authCredentials in
    let e := Error ("Invalid file. File is: " ++ JSON_stringify env file) in
    let w' := withTrace
                (trace w
                 ++ [CallHeartbeat; CallDriveObjectToDustType (Some id);
                     CallGetFileParentsMemoized connectorId
                       (GoogleDriveObjectType.id dustFile) startSyncTs]) w in
    body change w = (Throw e, w')
    /\ (forall pre post w0,
          forEach pre body w0 = (Ok tt, w) ->
          forEach (pre ++ change :: post) body w0 = (Throw e, w'))
    /\ lostAccess e = false
    /\ (forall w0 driveId isSharedDrive nextPageToken page wp pre post,
          mimeTypesToSync = mimeTypesToSyncOf env connectorId w0 ->
          selectedFoldersIds = foldersToSync connectorId w0 ->
          readsPage env connectorId driveId isSharedDrive nextPageToken w0
            authCredentials page wp ->
          ChangeList.changes page = Some (pre ++ change :: post) ->
          forEach pre body wp = (Ok tt, w) ->
          incrementalSync env connectorId dataSourceConfig driveId
            isSharedDrive startSyncTs nextPageToken w0 = (Throw e, w')
          /\ googleDriveSyncTokens w' = googleDriveSyncTokens w0).
Proof.
  intros env connectorId dsc ts mimeTypes folders auth change file id dustFile
    parents w Hpass Hconv Hparents Hin Htrashed Hmissing body e w'.
  assert (Hbody : body change w = (Throw e, w')).
  { subst body e w'. cbv beta.
    rewrite (incrementalSync_change_reaches_scope env connectorId dsc ts
               folders auth w Hpass).
    unfold objectIsInFolders. run. rewrite Hconv. simpl.
    rewrite Hparents. simpl. unfold anyInFolders in Hin. rewrite Hin.
    rewrite Htrashed. simpl.
    assert (Hm : negb (truthy (SchemaFile.createdTime file))
                 || negb (truthy (SchemaFile.name file))
                 || negb (truthy (SchemaFile.id file)) = true).
    { destruct Hmissing as [H|H]; rewrite H; simpl;
        [reflexivity | now rewrite orb_true_r]. }
    rewrite Hm. unfold invalidFile, throw, withTrace. simpl.
    rewrite <- !app_assoc. reflexivity. }
  split; [exact Hbody|split; [|split]].
  - intros pre post w0 Hpre. eapply forEach_app_Throw; eassumption.
  - reflexivity.
  - intros w0 driveId isShared token page wp pre post Hm Hf Hread Hch Hpre.
    assert (Hloop : incrementalSync_entries env connectorId dsc ts w0 auth
                      (pre ++ change :: post) wp = (Throw e, w')).
    { unfold incrementalSync_entries. rewrite <- Hm, <- Hf.
      eapply forEach_app_Throw; eassumption. }
    assert (Hrun : incrementalSync env connectorId dsc driveId isShared ts
                     token w0 = (Throw e, w')).
    { unfold incrementalSync, tryCatch.
      rewrite (incrementalSync_try_page dsc ts Hread Hch).
      rewrite (@bind_Throw _ _ _ _ _ _ _ Hloop). reflexivity. }
    split; [exact Hrun|].
    transitivity (googleDriveSyncTokens wp).
    + transitivity (googleDriveSyncTokens w); [reflexivity|].
      eapply keeps_run; [|exact Hpre].
      apply keeps_forEach. intros x.
      apply keeps_incrementalSync_change; reflexivity.
    + destruct Hread as (c & t & w1 & cl & _ & Ht & _ & _ & _ & _ & Hwp).
      apply pageTokenFrom_run in Ht. subst wp. simpl. tauto.
Qed.

Lemma incrementalSync_change_invalid_file_throws_witness :
  incrementalSync invalidEntryEnv 1 "workspace1" "drive1" false 100 None
    trashedWorld
  = (Throw (Error "Invalid file. File is: doc1"),
     withTrace
       [CallGetAuthObject "connection1"; CallGetDriveClient "connection1";
        CallChangesList (ChangesListParams.mk "page1" None false false);
        LogInfo "Got changes.";
        CallHeartbeat; CallDriveObjectToDustType (Some "doc1");
        CallGetFileParentsMemoized 1 "doc1" 100] trashedWorld)
  /\ persistedCursor 1 "drive1"
       (snd (incrementalSync invalidEntryEnv 1 "workspace1" "drive1" false
               100 None trashedWorld)) = Some "page1".
Proof.
  pose proof
    (@incrementalSync_change_invalid_file_throws invalidEntryEnv 1
       "workspace1" 100 [documentMimeType; spreadsheetMimeType; folderMimeType]
       ["folder1"] "connection1" changeWithoutCreatedTime
       fileWithoutCreatedTime "doc1"
       (GoogleDriveObjectType.mk "doc1" "doc1" (Some "folder1")
          documentMimeType false 1 "drive1" false)
       (ancestors remote1 8
          (GoogleDriveObjectType.mk "doc1" "doc1" (Some "folder1")
             documentMimeType false 1 "drive1" false))
       (withTrace
          [CallGetAuthObject "connection1"; CallGetDriveClient "connection1";
           CallChangesList (ChangesListParams.mk "page1" None false false);
           LogInfo "Got changes."] trashedWorld)) as H.
  destruct H as (_ & _ & _ & H).
  - repeat split; try reflexivity; try discriminate.
    exists documentMimeType. repeat split; try reflexivity; discriminate.
  - reflexivity.
  - reflexivity.
  - reflexivity.
  - reflexivity.
  - left. reflexivity.
  - specialize (H trashedWorld "drive1" false None
                  (ChangeList.mk 200 "OK" (Some [changeWithoutCreatedTime])
                     None (Some "page2"))
                  (withTrace
                     [CallGetAuthObject "connection1";
                      CallGetDriveClient "connection1";
                      CallChangesList
                        (ChangesListParams.mk "page1" None false false);
                      LogInfo "Got changes."] trashedWorld)
                  [] []).
    destruct H as (Hrun & _).
    + reflexivity.
    + reflexivity.
    + exists connector1, "page1", trashedWorld, "connection1".
      repeat split; vm_compute; reflexivity.
    + reflexivity.
    + reflexivity.
    + split; [exact Hrun|]. rewrite Hrun. reflexivity.
Defined.

(** C9, as stated, fails: an entry that passes the change-type and the
    MIME-type filters and has no id is skipped, not rejected.  The loop
    body returns after the heartbeat. *)
Lemma incrementalSync_change_without_id_is_skipped :
  SchemaChange.changeType changeWithoutId = Some "file"
  /\ (exists file,
        SchemaChange.file changeWithoutId = Some file
        /\ SchemaFile.mimeType file = Some documentMimeType
        /\ SchemaFile.id file = None)
  /\ includes (getMimeTypesToSync trashedEnv false) documentMimeType = true
  /\ incrementalSync_change trashedEnv 1 "workspace1" 100
       (getMimeTypesToSync trashedEnv false) ["folder1"] "connection1"
       changeWithoutId trashedWorld
     = (Ok tt, withTrace [CallHeartbeat] trashedWorld).
Proof.
  split; [reflexivity|split; [|split]].
  - eexists. repeat split; reflexivity.
  - reflexivity.
  - vm_compute. reflexivity.
Qed.

(** *** Entries out of scope or trashed *)

Lemma deleteFile_when_downstream_ok env w f connector :
  find (fun c => ConnectorResource.id c =? GoogleDriveFiles.connectorId f)
    (connectors w) = Some connector ->
  deleteFile_downstream_ok env connector f (dataSource w) = true ->
  fst (deleteFile env f w) = Ok tt
  /\ googleDriveFiles (snd (deleteFile env f w))
     = destroyFile f (googleDriveFiles w)
  /\ trace (snd (deleteFile env f w))
     = trace w ++ LogInfo "Deleting Google Drive file."
                  :: deleteFile_downstream env connector f
  /\ (isGoogleDriveSpreadSheetFile env f = false ->
      GoogleDriveFiles.mimeType f <> folderMimeType ->
      ~ In (dataSourceConfigFromConnector env connector,
            GoogleDriveFiles.dustFileId f)
          (dataSource (snd (deleteFile env f w)))).
Proof.
  intros Hc Hok.
  unfold deleteFile, deleteFile_downstream, deleteFile_downstream_ok in *.
  run. rewrite Hc. simpl.
  destruct (isGoogleDriveSpreadSheetFile env f) eqn:Hs.
  - unfold deleteSpreadsheet. simpl.
    destruct (deleteSpreadsheet_result env connector f (dataSource w))
      as [[[]|e] ds] eqn:Hd; simpl in *; [|discriminate].
    rewrite <- app_assoc. repeat split. discriminate.
  - destruct (String.eqb_spec (GoogleDriveFiles.mimeType f) folderMimeType)
      as [Hm|Hm]; simpl.
    + repeat split. intros _ H. contradiction.
    + unfold deleteFromDataSource. simpl.
      destruct (deleteFromDataSource_error env _ _) as [e|] eqn:He;
        [discriminate|]. simpl.
      rewrite <- app_assoc. repeat split.
      intros _ _ Hin. apply filter_In in Hin. destruct Hin as [_ Hin].
      simpl in Hin. rewrite !String.eqb_refl in Hin. discriminate.
Qed.

Lemma findFile_sameFile connectorId driveFileId fs row :
  findFile connectorId driveFileId fs = Some row ->
  In row fs /\ GoogleDriveFiles.connectorId row = connectorId
  /\ GoogleDriveFiles.driveFileId row = driveFileId.
Proof.
  intros H. apply find_some in H. destruct H as [Hin Hs].
  unfold sameFile in Hs. apply andb_prop in Hs. destruct Hs as [H1 H2].
  apply Z.eqb_eq in H1. apply String.eqb_eq in H2. auto.
Qed.

(** C3, as amended.  An entry that passed the filters of the loop (a file
    change, of a MIME type to sync, with an id) and whose file is out of
    the watched scope or trashed changes nothing when the mirror store has
    no row for it.  When it has one, the row is deleted through
    [deleteFile]: if the downstream call goes through, the loop body
    returns, the mirror row is gone, the downstream calls are those of
    [deleteFile] and, for a row that is neither a spreadsheet nor a folder,
    its document is no longer in the downstream index. *)
Theorem incrementalSync_change_out_of_scope_or_trashed :
  forall env connectorId dataSourceConfig startSyncTs mimeTypesToSync
         selectedFoldersIds authCredentials change file id dustFile parents w,
    passesFilters mimeTypesToSync change file id ->
    driveObjectToDustType env file authCredentials = Ok dustFile ->
    GoogleDriveObjectType.id dustFile = id ->
    getFileParentsMemoized env connectorId authCredentials dustFile startSyncTs
      = Ok parents ->
    anyInFolders selectedFoldersIds parents = false
    \/ changeTrashed file = true ->
    let run := incrementalSync_change env connectorId dataSourceConfig
                 startSyncTs mimeTypesToSync selectedFoldersIds
                 authCredentials change w in
    let w0 := withTrace
                (trace w
                 ++ [CallHeartbeat; CallDriveObjectToDustType (Some id);
                     CallGetFileParentsMemoized connectorId id startSyncTs])
                w in
    (findFile connectorId id (googleDriveFiles w) = None ->
     run = (Ok tt, w0))
    /\ (forall row connector,
          findFile connectorId id (googleDriveFiles w) = Some row ->
          find (fun c => ConnectorResource.id c =? connectorId) (connectors w)
            = Some connector ->
          deleteFile_downstream_ok env connector row (dataSource w) = true ->
          fst run = Ok tt
          /\ googleDriveFiles (snd run) = destroyFile row (googleDriveFiles w)
          /\ findFile connectorId id (googleDriveFiles (snd run)) = None
          /\ trace (snd run)
             = trace w0 ++ LogInfo "Deleting Google Drive file."
                           :: deleteFile_downstream env connector row
          /\ (isGoogleDriveSpreadSheetFile env row = false ->
              GoogleDriveFiles.mimeType row <> folderMimeType ->
              ~ In (dataSourceConfigFromConnector env connector,
                    GoogleDriveFiles.dustFileId row)
                  (dataSource (snd run)))).
Proof.
  intros env connectorId dsc ts mimeTypes folders auth change file id dustFile
    parents w Hpass Hconv Hid Hparents Hout run w0.
  assert (Hrun : run
    = (localFile <- gets (fun w =>
                      findFile connectorId id (googleDriveFiles w)) ;;
       match localFile with
       | Some _ => deleteOneFile env connectorId dustFile
       | None => ret tt
       end) w0).
  { subst run w0.
    rewrite (incrementalSync_change_reaches_scope env connectorId dsc ts
               folders auth w Hpass).
    unfold objectIsInFolders. run. rewrite Hconv. simpl.
    rewrite Hparents. simpl. rewrite Hid.
    assert (Hb : negb (existsb
                         (fun parent =>
                            includes folders (GoogleDriveObjectType.id parent))
                         parents) || changeTrashed file = true).
    { unfold anyInFolders in Hout. destruct Hout as [H|H]; rewrite H;
        [reflexivity | apply orb_true_r]. }
    rewrite Hb. unfold withTrace. simpl. rewrite <- !app_assoc. reflexivity. }
  split.
  - intros Hnone. rewrite Hrun. unfold bind, gets.
    change (googleDriveFiles w0) with (googleDriveFiles w).
    now rewrite Hnone.
  - intros row connector Hrow Hc Hok.
    destruct (findFile_sameFile _ _ _ Hrow) as (_ & Hrc & Hrd).
    assert (Hrun' : run = deleteFile env row w0).
    { rewrite Hrun. unfold bind at 1. unfold gets at 1.
      change (googleDriveFiles w0) with (googleDriveFiles w).
      rewrite Hrow. unfold deleteOneFile, bind, gets.
      change (googleDriveFiles w0) with (googleDriveFiles w).
      now rewrite Hid, Hrow. }
    rewrite Hrun'.
    destruct (@deleteFile_when_downstream_ok env w0 row connector)
      as (H1 & H2 & H3 & H4).
    { subst w0. simpl. now rewrite Hrc. }
    { subst w0. simpl. exact Hok. }
    repeat split; try assumption.
    rewrite H2. subst w0. simpl. rewrite <- Hrc, <- Hrd.
    apply findFile_destroyFile.
Qed.

Lemma incrementalSync_change_out_of_scope_or_trashed_witness :
  fst (incrementalSync_change trashedEnv 1 "workspace1" 100
         [documentMimeType; spreadsheetMimeType; folderMimeType] ["folder1"]
         "connection1" changeTrashedDoc trashedWorld) = Ok tt
  /\ googleDriveFiles
       (snd (incrementalSync_change trashedEnv 1 "workspace1" 100
               [documentMimeType; spreadsheetMimeType; folderMimeType]
               ["folder1"] "connection1" changeTrashedDoc trashedWorld))
     = destroyFile
         (mirrorRow "doc1" documentMimeType (Some "folder1") (Some 50))
         (googleDriveFiles trashedWorld)
  /\ findFile 1 "doc1"
       (googleDriveFiles
          (snd (incrementalSync_change trashedEnv 1 "workspace1" 100
                  [documentMimeType; spreadsheetMimeType; folderMimeType]
                  ["folder1"] "connection1" changeTrashedDoc trashedWorld)))
     = None
  /\ trace
       (snd (incrementalSync_change trashedEnv 1 "workspace1" 100
               [documentMimeType; spreadsheetMimeType; folderMimeType]
               ["folder1"] "connection1" changeTrashedDoc trashedWorld))
     = trace
         (withTrace
            (trace trashedWorld
             ++ [CallHeartbeat; CallDriveObjectToDustType (Some "doc1");
                 CallGetFileParentsMemoized 1 "doc1" 100]) trashedWorld)
       ++ LogInfo "Deleting Google Drive file."
          :: deleteFile_downstream trashedEnv connector1
               (mirrorRow "doc1" documentMimeType (Some "folder1") (Some 50))
  /\ (isGoogleDriveSpreadSheetFile trashedEnv
        (mirrorRow "doc1" documentMimeType (Some "folder1") (Some 50))
      = false ->
      GoogleDriveFiles.mimeType
        (mirrorRow "doc1" documentMimeType (Some "folder1") (Some 50))
      <> folderMimeType ->
      ~ In (dataSourceConfigFromConnector trashedEnv connector1,
            GoogleDriveFiles.dustFileId
              (mirrorRow "doc1" documentMimeType (Some "folder1") (Some 50)))
          (dataSource
             (snd (incrementalSync_change trashedEnv 1 "workspace1" 100
                     [documentMimeType; spreadsheetMimeType; folderMimeType]
                     ["folder1"] "connection1" changeTrashedDoc
                     trashedWorld)))).
Proof.
  apply (@incrementalSync_change_out_of_scope_or_trashed trashedEnv 1
           "workspace1" 100
           [documentMimeType; spreadsheetMimeType; folderMimeType]
           ["folder1"] "connection1" changeTrashedDoc fileTrashed "doc1"
           (GoogleDriveObjectType.mk "doc1" "doc1" (Some "folder1")
              documentMimeType true 1 "drive1" false)
           (ancestors
              [ remoteObject "folder1" None folderMimeType false;
                remoteObject "doc1" (Some "folder1") documentMimeType true ]
              8
              (GoogleDriveObjectType.mk "doc1" "doc1" (Some "folder1")
                 documentMimeType true 1 "drive1" false))
           trashedWorld).
  - repeat split; try reflexivity; try discriminate.
    exists documentMimeType. repeat split; try reflexivity; discriminate.
  - reflexivity.
  - reflexivity.
  - reflexivity.
  - right. reflexivity.
  - reflexivity.
  - reflexivity.
  - reflexivity.
Defined.

(** The whole activity on the feed [[update(doc1, trashed)]]: [doc1] leaves
    the mirror store and the downstream index, and the cursor moves to the
    token the page announced. *)
Example incrementalSync_trashed_document :
  fst (incrementalSync trashedEnv 1 "workspace1" "drive1" false 100 None
         trashedWorld) = Ok None
  /\ googleDriveFiles
       (snd (incrementalSync trashedEnv 1 "workspace1" "drive1" false 100
               None trashedWorld)) = []
  /\ dataSource
       (snd (incrementalSync trashedEnv 1 "workspace1" "drive1" false 100
               None trashedWorld)) = []
  /\ persistedCursor 1 "drive1"
       (snd (incrementalSync trashedEnv 1 "workspace1" "drive1" false 100
               None trashedWorld)) = Some "page2".
Proof. repeat split; vm_compute; reflexivity. Qed.

(** C3, as stated, fails: a trashed file whose MIME type is not among the
    types to sync is skipped by the filter at the head of the loop.  Its
    mirror row and its document stay, although the page is consumed. *)
Lemma incrementalSync_trashed_pdf_is_kept :
  includes (getMimeTypesToSync trashedPdfEnv false) pdfMimeType = false
  /\ fst (incrementalSync trashedPdfEnv 1 "workspace1" "drive1" false 100
            None trashedPdfWorld) = Ok None
  /\ findFile 1 "pdf1"
       (googleDriveFiles
          (snd (incrementalSync trashedPdfEnv 1 "workspace1" "drive1" false
                  100 None trashedPdfWorld)))
     = Some (mirrorRow "pdf1" pdfMimeType (Some "folder1") (Some 50))
  /\ In ("workspace1", "gdrive-pdf1")
       (dataSource
          (snd (incrementalSync trashedPdfEnv 1 "workspace1" "drive1" false
                  100 None trashedPdfWorld)))
  /\ persistedCursor 1 "drive1"
       (snd (incrementalSync trashedPdfEnv 1 "workspace1" "drive1" false 100
               None trashedPdfWorld)) = Some "page2".
Proof.
  repeat split; try (vm_compute; reflexivity).
  vm_compute. left. reflexivity.
Qed.

(** ** Garbage collection *)

Lemma sameFile_fileKey connectorId driveFileId f :
  sameFile connectorId driveFileId f = true
  <-> fileKey f = (connectorId, driveFileId).
Proof.
  unfold sameFile, fileKey. rewrite andb_true_iff, Z.eqb_eq, String.eqb_eq.
  split; [intros [-> ->]; reflexivity | intros H; inversion H; auto].
Qed.

Lemma sameFile_false connectorId driveFileId f :
  fileKey f <> (connectorId, driveFileId) ->
  sameFile connectorId driveFileId f = false.
Proof.
  intros H. destruct (sameFile connectorId driveFileId f) eqn:E; auto.
  apply sameFile_fileKey in E. contradiction.
Qed.

Lemma sameFile_setLastSeenTs connectorId driveFileId ts f :
  sameFile connectorId driveFileId (setLastSeenTs ts f)
  = sameFile connectorId driveFileId f.
Proof. reflexivity. Qed.

Lemma onlyTouches_refl connectorId driveFileId fs :
  onlyTouches connectorId driveFileId fs fs.
Proof. split; auto. Qed.

Lemma findFile_filter_None c i (p : GoogleDriveFiles.t -> bool) fs :
  findFile c i fs = None -> findFile c i (filter p fs) = None.
Proof.
  unfold findFile. induction fs as [|g fs IH]; simpl; [auto|].
  destruct (sameFile c i g) eqn:E; [discriminate|].
  intros H. destruct (p g); simpl; [rewrite E|]; auto.
Qed.

Lemma onlyTouches_destroyFile f fs :
  onlyTouches (GoogleDriveFiles.connectorId f)
    (GoogleDriveFiles.driveFileId f) fs (destroyFile f fs).
Proof.
  split.
  - intros r Hin Hs. unfold destroyFile. apply filter_In.
    split; [exact Hin | now rewrite Hs].
  - intros c i. apply findFile_filter_None.
Qed.

Lemma onlyTouches_updateLastSeenTs f ts fs :
  onlyTouches (GoogleDriveFiles.connectorId f)
    (GoogleDriveFiles.driveFileId f) fs (updateLastSeenTs f ts fs).
Proof.
  split.
  - intros r Hin Hs. unfold updateLastSeenTs. apply in_map_iff.
    exists r. now rewrite Hs.
  - intros c i. unfold findFile, updateLastSeenTs.
    induction fs as [|g fs IH]; cbn [find map]; [auto|].
    destruct (sameFile c i g) eqn:E; [discriminate|]. intros H.
    destruct (sameFile (GoogleDriveFiles.connectorId f)
                (GoogleDriveFiles.driveFileId f) g);
      [rewrite sameFile_setLastSeenTs|]; rewrite E; auto.
Qed.

Lemma In_updateLastSeenTs f ts fs :
  In f fs -> In (setLastSeenTs ts f) (updateLastSeenTs f ts fs).
Proof.
  intros Hin. unfold updateLastSeenTs. apply in_map_iff. exists f.
  split; [|exact Hin].
  unfold sameFile. now rewrite Z.eqb_refl, String.eqb_refl.
Qed.

Lemma deleteFile_Ok env f w w' :
  deleteFile env f w = (Ok tt, w') ->
  googleDriveFiles w' = destroyFile f (googleDriveFiles w)
  /\ clockReads w' = clockReads w.
Proof.
  unfold deleteFile. run.
  destruct (find _ (connectors w)) as [c|]; [|discriminate]. simpl.
  destruct (isGoogleDriveSpreadSheetFile env f).
  - unfold deleteSpreadsheet. simpl.
    destruct (deleteSpreadsheet_result env c f (dataSource w))
      as [[[]|e] ds]; simpl; intros H; inversion H; now subst.
  - destruct (negb _).
    + unfold deleteFromDataSource. simpl.
      destruct (deleteFromDataSource_error env _ _); simpl; intros H;
        inversion H; now subst.
    + simpl. intros H; inversion H; now subst.
Qed.

Lemma deleteOneFile_Ok env connectorId o w w' :
  deleteOneFile env connectorId o w = (Ok tt, w') ->
  onlyTouches connectorId (GoogleDriveObjectType.id o) (googleDriveFiles w)
    (googleDriveFiles w')
  /\ findFile connectorId (GoogleDriveObjectType.id o) (googleDriveFiles w')
     = None
  /\ clockReads w' = clockReads w.
Proof.
  unfold deleteOneFile, bind, gets.
  destruct (findFile connectorId (GoogleDriveObjectType.id o)
              (googleDriveFiles w)) as [row|] eqn:Hrow.
  - intros H. apply deleteFile_Ok in H. destruct H as [Hf Hc].
    destruct (findFile_sameFile _ _ _ Hrow) as (_ & Hrc & Hrd).
    rewrite Hf. subst connectorId. rewrite <- Hrd.
    split; [|split].
    + apply onlyTouches_destroyFile.
    + apply findFile_destroyFile.
    + exact Hc.
  - intros H. inversion H; subst.
    split; [apply onlyTouches_refl | split; [exact Hrow | reflexivity]].
Qed.

Section Collector.
Variable env : Env.
Variable connectorId : ModelId.
Variable authCredentials : OAuth2Client.
Variable selectedFolders : list string.
Variable lastSeenTs : Z.
Hypothesis faithful : faithfulIds env.


(** One task of the queue that returned. *)
Lemma garbageCollector_file_Ok c w w' :
  GoogleDriveFiles.connectorId c = connectorId ->
  garbageCollector_file env connectorId authCredentials selectedFolders
    lastSeenTs c w = (Ok tt, w') ->
  onlyTouches connectorId (GoogleDriveFiles.driveFileId c)
    (googleDriveFiles w) (googleDriveFiles w')
  /\ (clockReads w <= clockReads w')%nat
  /\ match getGoogleDriveObject env authCredentials
             (GoogleDriveFiles.driveFileId c) with
     | Ok None =>
         findFile connectorId (GoogleDriveFiles.driveFileId c)
           (googleDriveFiles w') = None
     | Ok (Some driveFile) =>
         match getFileParentsMemoized env connectorId authCredentials
                 driveFile lastSeenTs with
         | Ok parents =>
             if negb (anyInFolders selectedFolders parents)
                || GoogleDriveObjectType.trashed driveFile
             then findFile connectorId (GoogleDriveFiles.driveFileId c)
                    (googleDriveFiles w') = None
             else googleDriveFiles w'
                  = updateLastSeenTs c (clock env (clockReads w))
                      (googleDriveFiles w)
                  /\ clockReads w' = S (clockReads w)
         | Throw _ => False
         end
     | Throw _ => False
     end.
Proof.
  intros Hc. unfold garbageCollector_file.
  unfold bind at 1. unfold call at 1.
  destruct (getGoogleDriveObject env authCredentials
              (GoogleDriveFiles.driveFileId c)) as [[o|]|e] eqn:Hget;
    [| |discriminate].
  - pose proof (faithful _ _ Hget) as Hid.
    unfold objectIsInFolders. unfold bind at 1 2. unfold call at 1.
    destruct (getFileParentsMemoized env connectorId authCredentials o
                lastSeenTs) as [parents|e] eqn:Hparents; [|discriminate].
    unfold ret at 1. fold (anyInFolders selectedFolders parents).
    destruct (negb (anyInFolders selectedFolders parents)
              || GoogleDriveObjectType.trashed o).
    + intros H. apply deleteOneFile_Ok in H. rewrite Hid in H.
      destruct H as (H1 & H2 & H3).
      split; [exact H1 | split; [|exact H2]].
      rewrite H3. simpl. lia.
    + unfold bind, now, modify. intros H. inversion H; subst w'.
      cbn [googleDriveFiles clockReads withFiles withClockReads withTrace].
      split; [|split; [lia|split; reflexivity]].
      rewrite <- Hc. apply onlyTouches_updateLastSeenTs.
  - intros H. apply deleteFile_Ok in H. destruct H as [Hf Hk].
    cbn [googleDriveFiles clockReads withTrace] in Hf, Hk. rewrite Hf.
    split; [|split; [lia|]]; rewrite <- Hc.
    + apply onlyTouches_destroyFile.
    + apply findFile_destroyFile.
Qed.

Lemma reconciled_later c w0 w w' :
  (clockReads w0 <= clockReads w)%nat ->
  reconciled env connectorId authCredentials selectedFolders lastSeenTs
    c w w' ->
  reconciled env connectorId authCredentials selectedFolders lastSeenTs
    c w0 w'.
Proof.
  intros Hle. unfold reconciled.
  destruct (getGoogleDriveObject env authCredentials _) as [[o|]|e]; auto.
  destruct (getFileParentsMemoized env connectorId authCredentials o _)
    as [parents|e]; auto.
  destruct (negb _ || _); auto.
  intros (k & Hk & Hin). exists k. split; [lia|exact Hin].
Qed.

(** The queue, when every task returned. *)
Lemma garbageCollector_loop cs : forall w w',
  (forall c, In c cs -> GoogleDriveFiles.connectorId c = connectorId) ->
  NoDup (map fileKey cs) ->
  forEach cs
    (garbageCollector_file env connectorId authCredentials selectedFolders
       lastSeenTs) w = (Ok tt, w') ->
  (forall r, In r (googleDriveFiles w) ->
             (forall c, In c cs -> fileKey c <> fileKey r) ->
             In r (googleDriveFiles w'))
  /\ (forall c i, findFile c i (googleDriveFiles w) = None ->
                  findFile c i (googleDriveFiles w') = None)
  /\ (clockReads w <= clockReads w')%nat
  /\ (forall c, In c cs -> In c (googleDriveFiles w) ->
                reconciled env connectorId authCredentials selectedFolders
                  lastSeenTs c w w').
Proof.
  induction cs as [|c0 cs IH]; intros w w' Hcid Hnd Hrun.
  - simpl in Hrun. inversion Hrun; subst.
    repeat split; auto. intros c [].
  - simpl in Hrun. apply bind_inv in Hrun.
    destruct Hrun as [(u & w1 & Hstep & Hrest)|(e & _ & He)];
      [|discriminate].
    destruct u.
    assert (Hc0 : GoogleDriveFiles.connectorId c0 = connectorId)
      by (apply Hcid; now left).
    cbn [map] in Hnd. apply NoDup_cons_iff in Hnd.
    destruct Hnd as [Hnotin Hnd'].
    destruct (garbageCollector_file_Ok c0 w Hc0 Hstep)
      as ((Hframe & Hnone) & Hclock & Hout).
    destruct (IH w1 w' (fun c H => Hcid c (or_intror H)) Hnd' Hrest)
      as (IHframe & IHnone & IHclock & IHout).
    assert (Hkeep : forall r, In r (googleDriveFiles w) ->
                              fileKey c0 <> fileKey r ->
                              In r (googleDriveFiles w1)).
    { intros r Hr Hk. apply Hframe; [exact Hr|].
      apply sameFile_false. intros E. apply Hk. rewrite E.
      unfold fileKey. now rewrite Hc0. }
    repeat split.
    + intros r Hr Hk. apply IHframe.
      * apply Hkeep; [exact Hr | apply Hk; now left].
      * intros c Hc. apply Hk. now right.
    + intros c i H. apply IHnone, Hnone, H.
    + lia.
    + intros c [<-|Hc] Hin.
      * unfold reconciled.
        destruct (getGoogleDriveObject env authCredentials _)
          as [[o|]|e]; auto.
        destruct (getFileParentsMemoized env connectorId authCredentials
                    o _) as [parents|e]; auto.
        destruct (negb _ || _); auto.
        destruct Hout as [Hfs Hk]. exists (clockReads w). split; [lia|].
        apply IHframe.
        -- rewrite Hfs. now apply In_updateLastSeenTs.
        -- intros c Hc E. apply Hnotin.
           change (fileKey c0)
           with (fileKey (setLastSeenTs (clock env (clockReads w)) c0)).
           rewrite <- E. now apply in_map.
      * apply reconciled_later with (w := w1); [exact Hclock|].
        apply IHout; [exact Hc|].
        apply Hkeep; [exact Hin|].
        intros E. apply Hnotin. rewrite E. now apply in_map.
Qed.
End Collector.

Lemma In_firstn A (x : A) n l : In x (firstn n l) -> In x l.
Proof.
  revert l. induction n as [|n IH]; intros [|y l]; simpl; try tauto.
  intros [H|H]; [now left | right; now apply IH].
Qed.

Lemma NoDup_map_filter A B (f : A -> B) (p : A -> bool) l :
  NoDup (map f l) -> NoDup (map f (filter p l)).
Proof.
  induction l as [|x l IH]; simpl; [auto|].
  intros H. apply NoDup_cons_iff in H. destruct H as [Hx Hl].
  destruct (p x); [|auto]. simpl. constructor; [|auto].
  intros Hin. apply Hx. apply in_map_iff in Hin.
  destruct Hin as (y & Hy & Hin). apply filter_In in Hin.
  apply in_map_iff. exists y. tauto.
Qed.

Lemma NoDup_map_firstn A B (f : A -> B) n l :
  NoDup (map f l) -> NoDup (map f (firstn n l)).
Proof.
  revert l. induction n as [|n IH]; intros [|x l]; simpl;
    try (intros; constructor).
  - apply NoDup_cons_iff in H. destruct H as [Hx Hl].
    intros Hin. apply Hx. apply in_map_iff in Hin.
    destruct Hin as (y & Hy & Hin). apply In_firstn in Hin.
    apply in_map_iff. exists y. tauto.
  - apply IH. apply NoDup_cons_iff in H. tauto.
Qed.

Lemma NoDup_map_In_eq A B (f : A -> B) l a b :
  NoDup (map f l) -> In a l -> In b l -> f a = f b -> a = b.
Proof.
  induction l as [|x l IH]; simpl; [tauto|].
  intros H. apply NoDup_cons_iff in H. destruct H as [Hx Hl].
  intros [->|Ha] [->|Hb] E; auto.
  - exfalso. apply Hx. rewrite E. now apply in_map.
  - exfalso. apply Hx. rewrite <- E. now apply in_map.
Qed.

Lemma garbageCollector_candidates_In connectorId lastSeenTs fs c :
  In c (garbageCollector_candidates connectorId lastSeenTs fs) ->
  In c fs /\ GoogleDriveFiles.connectorId c = connectorId
  /\ notSeenSince lastSeenTs c = true.
Proof.
  unfold garbageCollector_candidates. intros H. apply In_firstn in H.
  apply filter_In in H. destruct H as [Hin Hp].
  apply andb_prop in Hp. destruct Hp as [H1 H2].
  apply Z.eqb_eq in H1. auto.
Qed.

Lemma garbageCollector_file_returns env connectorId auth folders ts connector
  c w :
  find (fun k => ConnectorResource.id k =? connectorId) (connectors w)
    = Some connector ->
  GoogleDriveFiles.connectorId c = connectorId ->
  answersFor env connectorId auth ts c ->
  (forall row ds, deleteFile_downstream_ok env connector row ds = true) ->
  exists w',
    garbageCollector_file env connectorId auth folders ts c w = (Ok tt, w')
    /\ connectors w' = connectors w.
Proof.
  intros Hk Hc Hans Hdown.
  exists (snd (garbageCollector_file env connectorId auth folders ts c w)).
  split.
  2:{ apply (@keeps_garbageCollector_file _ connectors); reflexivity. }
  rewrite (surjective_pairing (garbageCollector_file _ _ _ _ _ _ _)) at 1.
  f_equal.
  unfold answersFor in Hans. unfold garbageCollector_file.
  unfold bind at 1. unfold call at 1.
  destruct (getGoogleDriveObject env auth (GoogleDriveFiles.driveFileId c))
    as [[o|]|e]; [| |contradiction].
  - unfold objectIsInFolders. unfold bind at 1 2. unfold call at 1.
    destruct (getFileParentsMemoized env connectorId auth o ts)
      as [parents|e]; [|contradiction].
    unfold ret at 1. destruct (negb _ || _); [|reflexivity].
    unfold deleteOneFile, bind, gets.
    cbn [googleDriveFiles withTrace].
    destruct (findFile connectorId (GoogleDriveObjectType.id o)
                (googleDriveFiles w)) as [row|] eqn:Hrow; [|reflexivity].
    destruct (findFile_sameFile _ _ _ Hrow) as (_ & Hrc & _).
    apply deleteFile_when_downstream_ok with (connector := connector).
    + cbn [connectors withTrace]. now rewrite Hrc.
    + apply Hdown.
  - apply deleteFile_when_downstream_ok with (connector := connector).
    + cbn [connectors withTrace]. now rewrite Hc.
    + apply Hdown.
Qed.

Lemma garbageCollector_loop_returns env connectorId auth folders ts connector
  cs : forall w,
  find (fun k => ConnectorResource.id k =? connectorId) (connectors w)
    = Some connector ->
  (forall c, In c cs ->
     GoogleDriveFiles.connectorId c = connectorId
     /\ answersFor env connectorId auth ts c) ->
  (forall row ds, deleteFile_downstream_ok env connector row ds = true) ->
  exists w',
    forEach cs (garbageCollector_file env connectorId auth folders ts) w
    = (Ok tt, w').
Proof.
  induction cs as [|c cs IH]; intros w Hk Hcs Hdown; simpl.
  - now exists w.
  - destruct (Hcs c (or_introl eq_refl)) as [Hc Hans].
    destruct (garbageCollector_file_returns env auth folders ts c w Hk Hc
                Hans Hdown) as (w1 & Hstep & Hconn).
    assert (Hk1 : find (fun k => ConnectorResource.id k =? connectorId)
                    (connectors w1) = Some connector)
      by now rewrite Hconn.
    destruct (IH w1 Hk1 (fun c' H => Hcs c' (or_intror H)) Hdown)
      as (w' & Hrest).
    exists w'. unfold bind. now rewrite Hstep.
Qed.

(** A pool whose tasks all returned went as the tasks taken one after the
    other, and the other way round. *)
Lemma promiseAllMap_returns A (body : A -> M unit) xs : forall w ys w',
  promiseAllMap xs body w = (Ok ys, w') ->
  forEach xs body w = (Ok tt, w').
Proof.
  induction xs as [|x xs IH]; intros w ys w' H; simpl in *.
  - unfold ret in *. now inversion H.
  - unfold bind. destruct (body x w) as [[[]|e] w1].
    + destruct (promiseAllMap xs body w1) as [[ys'|e] w2] eqn:E;
        [|discriminate].
      inversion H. subst. now apply IH with ys'.
    + destruct (promiseAllMap xs body w1) as [rs w2]. discriminate.
Qed.

Lemma forEach_returns A (body : A -> M unit) xs : forall w w',
  forEach xs body w = (Ok tt, w') ->
  exists ys, promiseAllMap xs body w = (Ok ys, w').
Proof.
  induction xs as [|x xs IH]; intros w w' H; simpl in *.
  - unfold ret in *. inversion H. now exists [].
  - unfold bind in H. destruct (body x w) as [[[]|e] w1]; [|discriminate].
    destruct (IH _ _ H) as [ys Hys]. rewrite Hys. now exists (tt :: ys).
Qed.

(** The collection, once the connector and its credentials are found. *)
Lemma garbageCollector_run env w connectorId lastSeenTs connector auth :
  find (fun c => ConnectorResource.id c =? connectorId) (connectors w)
    = Some connector ->
  getAuthObject env (ConnectorResource.connectionId connector) = Ok auth ->
  garbageCollector env connectorId lastSeenTs w
  = (promiseAllMap
       (garbageCollector_candidates connectorId lastSeenTs
          (googleDriveFiles w))
       (garbageCollector_file env connectorId auth
          (foldersToSync connectorId w) lastSeenTs) ;;;
     ret (List.length
            (garbageCollector_candidates connectorId lastSeenTs
               (googleDriveFiles w))))
      (withTrace
         (trace w
          ++ [CallGetAuthObject (ConnectorResource.connectionId connector)])
         w).
Proof.
  intros Hk Hauth. unfold garbageCollector. run. rewrite Hk, Hauth.
  reflexivity.
Qed.

(** C4.  A garbage collection for a connector that exists, against a
    remote that answers a fetch by id with the object of that id and a
    mirror store with one row per [(connectorId, driveFileId)]:

    - the candidates are rows of the connector whose [lastSeenTs] is
      strictly before the cutoff or null, at most 100 of them, and all of
      these rows when they are at most 100;
    - when the collection returns, every candidate is [reconciled]: gone
      if the remote does not have it, gone if the remote has it trashed or
      out of the watched folders, and otherwise still there with
      [lastSeenTs] set to a clock read of this run; the rows that are not
      candidates are left as they were;
    - the collection returns, with the number of candidates, when the
      remote answers for every candidate and the downstream deletes go
      through. *)
Theorem garbageCollector_reconciles :
  forall env w connectorId lastSeenTs connector authCredentials,
    find (fun c => ConnectorResource.id c =? connectorId) (connectors w)
      = Some connector ->
    getAuthObject env (ConnectorResource.connectionId connector)
      = Ok authCredentials ->
    faithfulIds env ->
    NoDup (map fileKey (googleDriveFiles w)) ->
    let candidates :=
      garbageCollector_candidates connectorId lastSeenTs
        (googleDriveFiles w) in
    let stale f := (GoogleDriveFiles.connectorId f =? connectorId)
                   && notSeenSince lastSeenTs f in
    ((List.length candidates <= 100)%nat
     /\ (forall c, In c candidates ->
           In c (googleDriveFiles w)
           /\ GoogleDriveFiles.connectorId c = connectorId
           /\ notSeenSince lastSeenTs c = true)
     /\ ((List.length (filter stale (googleDriveFiles w)) <= 100)%nat ->
         forall c, In c (googleDriveFiles w) -> stale c = true ->
                   In c candidates))
    /\ (forall n w',
          garbageCollector env connectorId lastSeenTs w = (Ok n, w') ->
          (forall c, In c candidates ->
             reconciled env connectorId authCredentials
               (foldersToSync connectorId w) lastSeenTs c w w')
          /\ (forall r, In r (googleDriveFiles w) -> ~ In r candidates ->
                        In r (googleDriveFiles w')))
    /\ ((forall c, In c candidates ->
           answersFor env connectorId authCredentials lastSeenTs c) ->
        (forall row ds,
           deleteFile_downstream_ok env connector row ds = true) ->
        exists w',
          garbageCollector env connectorId lastSeenTs w
          = (Ok (List.length candidates), w')).
Proof.
  intros env w connectorId lastSeenTs connector auth Hk Hauth Hfaithful Hnd
    candidates stale.
  assert (Hcand : forall c, In c candidates ->
            In c (googleDriveFiles w)
            /\ GoogleDriveFiles.connectorId c = connectorId
            /\ notSeenSince lastSeenTs c = true)
    by (intros c; apply garbageCollector_candidates_In).
  assert (Hrun : garbageCollector env connectorId lastSeenTs w
    = (promiseAllMap candidates
         (garbageCollector_file env connectorId auth
            (foldersToSync connectorId w) lastSeenTs) ;;;
       ret (List.length candidates))
        (withTrace
           (trace w
            ++ [CallGetAuthObject (ConnectorResource.connectionId connector)])
           w)).
  { apply garbageCollector_run; assumption. }
  split; [split; [|split]|split].
  - apply firstn_le_length.
  - exact Hcand.
  - intros Hlen c Hin Hst. subst candidates.
    unfold garbageCollector_candidates. fold stale.
    rewrite firstn_all2 by exact Hlen. apply filter_In. now split.
  - intros n w' Hgc. rewrite Hrun in Hgc. apply bind_inv in Hgc.
    destruct Hgc as [(u & w1 & Hloop & Hret)|(e & _ & He)]; [|discriminate].
    apply promiseAllMap_returns in Hloop.
    inversion Hret; subst n w1; clear Hret.
    assert (Hndc : NoDup (map fileKey candidates)).
    { apply NoDup_map_firstn, NoDup_map_filter, Hnd. }
    destruct (@garbageCollector_loop env connectorId auth
                (foldersToSync connectorId w) lastSeenTs Hfaithful
                candidates _ _
                (fun c H => proj1 (proj2 (Hcand c H))) Hndc Hloop)
      as (Hframe & _ & _ & Hout).
    split.
    + intros c Hc.
      apply reconciled_later with (w := withTrace
           (trace w
            ++ [CallGetAuthObject (ConnectorResource.connectionId connector)])
           w); [apply Nat.le_refl|].
      apply Hout; [exact Hc | apply (Hcand c Hc)].
    + intros r Hr Hnot. apply Hframe; [exact Hr|].
      intros c Hc E. apply Hnot.
      replace r with c; [exact Hc|].
      apply (NoDup_map_In_eq fileKey (googleDriveFiles w)); auto.
      apply (Hcand c Hc).
  - intros Hans Hdown.
    destruct (@garbageCollector_loop_returns env connectorId auth
                (foldersToSync connectorId w) lastSeenTs connector candidates
                (withTrace
                   (trace w
                    ++ [CallGetAuthObject
                          (ConnectorResource.connectionId connector)]) w))
      as (w' & Hloop).
    + exact Hk.
    + intros c Hc. split; [apply (Hcand c Hc) | apply Hans, Hc].
    + exact Hdown.
    + exists w'. rewrite Hrun. apply forEach_returns in Hloop.
      destruct Hloop as [ys Hloop]. unfold bind. now rewrite Hloop.
Qed.

Lemma findRemote_id remote id o :
  findRemote remote id = Some o -> GoogleDriveObjectType.id o = id.
Proof.
  unfold findRemote. intros H. apply find_some in H.
  now apply String.eqb_eq.
Qed.

Lemma smallDrive_faithfulIds remote listing changes subscription :
  faithfulIds (smallDrive remote listing changes subscription).
Proof.
  intros auth id o H. simpl in H. inversion H as [H'].
  now apply findRemote_id in H'.
Qed.

Lemma garbageCollector_reconciles_witness :
  exists w',
    garbageCollector staleEnv 1 100 staleWorld
    = (Ok (List.length
             (garbageCollector_candidates 1 100
                (googleDriveFiles staleWorld))), w').
Proof.
  apply (@garbageCollector_reconciles staleEnv staleWorld 1 100 connector1
           "connection1").
  - reflexivity.
  - reflexivity.
  - apply smallDrive_faithfulIds.
  - vm_compute.
    repeat (constructor;
            [ intros H; repeat (destruct H as [H|H]; [discriminate|]);
              exact H | ]).
    constructor.
  - intros c Hc. vm_compute in Hc.
    repeat (destruct Hc as [<-|Hc]; [vm_compute; exact I|]).
    destruct Hc.
  - intros row ds. unfold deleteFile_downstream_ok. simpl.
    destruct (_ =? _)%string; [reflexivity|].
    destruct (_ =? _)%string; reflexivity.
Defined.

(** The run on the stale mirror: [doc1] is refreshed, [doc2], [doc3] and
    [doc4] are reclaimed from the mirror store and the downstream index,
    [doc5] is left alone. *)
Example garbageCollector_stale_mirror :
  fst (garbageCollector staleEnv 1 100 staleWorld) = Ok 4%nat
  /\ googleDriveFiles (snd (garbageCollector staleEnv 1 100 staleWorld))
     = [ mirrorRow "doc1" documentMimeType (Some "folder1") (Some 5000);
         mirrorRow "doc5" documentMimeType (Some "folder1") (Some 100) ]
  /\ dataSource (snd (garbageCollector staleEnv 1 100 staleWorld))
     = [ ("workspace1", "gdrive-doc1"); ("workspace1", "gdrive-doc5") ].
Proof. repeat split; vm_compute; reflexivity. Qed.

(** C6, as amended.  What [garbageCollector] returns is the number of
    candidates it selected, at most 100, whatever it did with them: it
    returns nothing else, and it returns that number whenever the connector
    and its credentials are found, the remote answers for every candidate
    and the downstream deletes go through. *)
Theorem garbageCollector_returns_candidate_count :
  forall env w connectorId lastSeenTs,
    let candidates :=
      garbageCollector_candidates connectorId lastSeenTs
        (googleDriveFiles w) in
    (forall n w',
       garbageCollector env connectorId lastSeenTs w = (Ok n, w') ->
       n = List.length candidates /\ (n <= 100)%nat)
    /\ (forall connector authCredentials,
          find (fun c => ConnectorResource.id c =? connectorId) (connectors w)
            = Some connector ->
          getAuthObject env (ConnectorResource.connectionId connector)
            = Ok authCredentials ->
          (forall c, In c candidates ->
             answersFor env connectorId authCredentials lastSeenTs c) ->
          (forall row ds,
             deleteFile_downstream_ok env connector row ds = true) ->
          fst (garbageCollector env connectorId lastSeenTs w)
          = Ok (List.length candidates)).
Proof.
  intros env w connectorId lastSeenTs candidates. split.
  - intros n w' H.
    assert (Hn : n = List.length candidates).
    { unfold garbageCollector in H.
      apply bind_inv in H.
      destruct H as [(c & w0 & H0 & H)|(e & _ & He)]; [|discriminate].
      unfold fetchById, gets in H0. inversion H0; subst c w0; clear H0.
      destruct (find _ (connectors w)) as [connector|]; [|discriminate].
      apply bind_inv in H.
      destruct H as [(auth & w1 & H1 & H)|(e & _ & He)]; [|discriminate].
      assert (Hw1 : googleDriveFiles w1 = googleDriveFiles w).
      { unfold call in H1. inversion H1. reflexivity. }
      apply bind_inv in H.
      destruct H as [(files & w2 & H2 & H)|(e & _ & He)]; [|discriminate].
      unfold gets in H2. inversion H2; subst files w2; clear H2.
      apply bind_inv in H.
      destruct H as [(folders & w2 & H2 & H)|(e & _ & He)]; [|discriminate].
      apply bind_inv in H.
      destruct H as [(u & w3 & H3 & H)|(e & _ & He)]; [|discriminate].
      unfold ret in H. inversion H. subst candidates. now rewrite Hw1. }
    split; [exact Hn|].
    rewrite Hn. apply firstn_le_length.
  - intros connector auth Hk Hauth Hans Hdown.
    rewrite (garbageCollector_run env w connectorId lastSeenTs Hk Hauth).
    fold candidates.
    destruct (@garbageCollector_loop_returns env connectorId auth
                (foldersToSync connectorId w) lastSeenTs connector candidates
                (withTrace
                   (trace w
                    ++ [CallGetAuthObject
                          (ConnectorResource.connectionId connector)]) w))
      as (w' & Hloop).
    + exact Hk.
    + intros c Hc. split; [|apply Hans, Hc].
      now apply garbageCollector_candidates_In in Hc.
    + exact Hdown.
    + apply forEach_returns in Hloop. destruct Hloop as [ys Hloop].
      unfold bind. now rewrite Hloop.
Qed.

Lemma garbageCollector_returns_candidate_count_witness :
  1%nat = List.length
            (garbageCollector_candidates 1 100 (googleDriveFiles refreshWorld))
  /\ (1 <= 100)%nat.
Proof.
  apply (@garbageCollector_returns_candidate_count staleEnv refreshWorld 1 100)
    with (w' := snd (garbageCollector staleEnv 1 100 refreshWorld)).
  vm_compute. reflexivity.
Defined.

(** C6, as stated, fails: on a mirror whose only stale row is still in
    scope remotely, the collector returns 1 and has reclaimed nothing: the
    row and its document are still there. *)
Lemma garbageCollector_counts_refreshed_rows :
  fst (garbageCollector staleEnv 1 100 refreshWorld) = Ok 1%nat
  /\ googleDriveFiles (snd (garbageCollector staleEnv 1 100 refreshWorld))
     = [mirrorRow "doc1" documentMimeType (Some "folder1") (Some 5000)]
  /\ List.length
       (googleDriveFiles (snd (garbageCollector staleEnv 1 100 refreshWorld)))
     = List.length (googleDriveFiles refreshWorld)
  /\ dataSource (snd (garbageCollector staleEnv 1 100 refreshWorld))
     = dataSource refreshWorld.
Proof. repeat split; vm_compute; reflexivity. Qed.

(** ** Renewing webhooks *)

(** One turn of the loop of [renewWebhooks]: it returns, leaves the
    connectors alone, changes the table as [renewalOutcome] says and asks
    the provider at most once. *)
Lemma renewWebhooks_webhook_run env wh w :
  fst (renewWebhooks_webhook env wh w) = Ok tt
  /\ connectors (snd (renewWebhooks_webhook env wh w)) = connectors w
  /\ googleDriveWebhooks (snd (renewWebhooks_webhook env wh w))
     = match find (fun c => ConnectorResource.id c
                            =? GoogleDriveWebhook.connectorId wh)
               (connectors w) with
       | None => googleDriveWebhooks w
       | Some connector =>
           renewalOutcome env connector wh (clock env (S (clockReads w)))
             (googleDriveWebhooks w)
       end
  /\ ensureWebhookCalls (snd (renewWebhooks_webhook env wh w))
     = ensureWebhookCalls w
       ++ (if renewalRequested env w wh
           then [CallEnsureWebhookForDriveId
                   (GoogleDriveWebhook.connectorId wh)
                   (GoogleDriveWebhook.driveId wh)]
           else []).
Proof.
  remember (renewWebhooks_webhook env wh w) as r eqn:Hr.
  unfold renewWebhooks_webhook in Hr.
  unfold renewalOutcome, renewalRequested, ensureWebhookCalls.
  unfold bind at 1 in Hr. unfold fetchById, gets in Hr.
  destruct (find _ (connectors w)) as [connector|] eqn:Hfind.
  2:{ subst r. unfold emit, modify.
      cbn [fst snd connectors googleDriveWebhooks trace withTrace].
      rewrite filter_app. simpl. now rewrite app_nil_r. }
  apply find_some in Hfind. destruct Hfind as [_ Hid].
  apply Z.eqb_eq in Hid.
  unfold renewWebhooks_try, renewWebhooks_catch, ensureWebhookForDriveId,
    updateWebhook, destroyWebhook in Hr.
  unfold deferred, superseded, retired, granted.
  run.
  destruct (GoogleDriveWebhook.expiresAt wh <? clock env (clockReads w));
    simpl in Hr;
    (destruct (getAuthObject env (ConnectorResource.connectionId connector))
       as [auth|e]; simpl in Hr;
     [ destruct (getGoogleDriveObject env auth (GoogleDriveWebhook.driveId wh))
         as [[o|]|e]; simpl in Hr;
       [ destruct (registerWebhook env connector
                     (GoogleDriveWebhook.driveId wh))
           as [[[webhookId expirationTsMs]|]|e]; simpl in Hr;
         [ destruct (webhookId =? "")%string; simpl in Hr | | ] | | ] | ]);
    try (destruct (oauthTokenRevoked e); simpl in Hr);
    subst r;
    cbn [fst snd connectors googleDriveWebhooks trace withTrace withWebhooks
         withClockReads clockReads];
    rewrite ?filter_app; simpl; rewrite ?app_nil_r, ?Hid;
    repeat split; try reflexivity.
Qed.

(** *** Counting records *)

Lemma filter_none_length A (p : A -> bool) l :
  (forall x, In x l -> p x = false) -> List.length (filter p l) = 0%nat.
Proof.
  induction l as [|x l IH]; simpl; [reflexivity|]. intros H.
  rewrite (H x (or_introl eq_refl)). apply IH. intros y Hy. apply H.
  now right.
Qed.

Lemma filter_map_length_le A (p : A -> bool) (f : A -> A) l :
  (forall x, p (f x) = true -> p x = true) ->
  (List.length (filter p (map f l)) <= List.length (filter p l))%nat.
Proof.
  intros H. induction l as [|x l IH]; simpl; [lia|].
  destruct (p (f x)) eqn:E.
  - rewrite (H x E). simpl. lia.
  - destruct (p x); simpl; lia.
Qed.

Lemma filter_filter_length_le A (p q : A -> bool) l :
  (List.length (filter p (filter q l)) <= List.length (filter p l))%nat.
Proof.
  induction l as [|x l IH]; simpl; [lia|].
  destruct (q x); simpl; destruct (p x); simpl; lia.
Qed.

Lemma destroyFirst_filter_length_le A (p q : A -> bool) n l :
  (List.length (filter p (destroyFirst q n l)) <= List.length (filter p l))%nat.
Proof.
  revert n. induction l as [|x l IH]; intros n; simpl; [lia|].
  destruct (q x).
  - destruct n as [|n]; simpl.
    + lia.
    + specialize (IH n). destruct (p x); simpl; lia.
  - simpl. specialize (IH n). destruct (p x); simpl; lia.
Qed.

Lemma destroyLimit_filter_length_le A (p q : A -> bool) n l :
  (List.length (filter p (destroyLimit q n l)) <= List.length (filter p l))%nat.
Proof.
  destruct n as [|n]; cbn [destroyLimit].
  - apply filter_filter_length_le.
  - apply destroyFirst_filter_length_le.
Qed.

Lemma destroyFirst_keeps A (q : A -> bool) n l x :
  In x l -> q x = false -> In x (destroyFirst q n l).
Proof.
  intros Hin Hq. revert n. induction l as [|y l IH]; intros n; simpl;
    [destruct Hin|].
  destruct Hin as [->|Hin].
  - rewrite Hq. now left.
  - destruct (q y).
    + destruct n as [|n]; [now right | now apply IH].
    + right. now apply IH.
Qed.

Lemma destroyLimit_keeps A (q : A -> bool) n l x :
  In x l -> q x = false -> In x (destroyLimit q n l).
Proof.
  intros Hin Hq. destruct n as [|n]; cbn [destroyLimit].
  - apply filter_In. split; [exact Hin | now rewrite Hq].
  - now apply destroyFirst_keeps.
Qed.

Lemma filter_le1_In_eq A (p : A -> bool) l a b :
  (List.length (filter p l) <= 1)%nat ->
  In a l -> p a = true -> In b l -> p b = true -> a = b.
Proof.
  induction l as [|x l IH]; simpl; [tauto|].
  destruct (p x) eqn:E; simpl; intros Hlen Ha Pa Hb Pb.
  - assert (Hnone : forall y, In y l -> p y = false).
    { intros y Hy. destruct (p y) eqn:Ey; [|reflexivity].
      assert (In y (filter p l)) by (apply filter_In; now split).
      destruct (filter p l); [contradiction | simpl in Hlen; lia]. }
    destruct Ha as [->|Ha]; destruct Hb as [->|Hb]; try reflexivity.
    + rewrite (Hnone _ Hb) in Pb. discriminate.
    + rewrite (Hnone _ Ha) in Pa. discriminate.
    + rewrite (Hnone _ Ha) in Pa. discriminate.
  - destruct Ha as [->|Ha]; [congruence|].
    destruct Hb as [->|Hb]; [congruence|]. now apply IH.
Qed.

Lemma live_webhookKey connectorId driveId r :
  live connectorId driveId r = true
  <-> webhookKey r = (connectorId, driveId) /\ notSuperseded r = true.
Proof.
  unfold live, webhookKey.
  rewrite !andb_true_iff, Z.eqb_eq, String.eqb_eq.
  split.
  - intros [[-> ->] H]. auto.
  - intros [E H]. inversion E. auto.
Qed.

Lemma toRenew_notSuperseded deadline wh :
  toRenew deadline wh = true -> notSuperseded wh = true.
Proof.
  unfold toRenew, notSuperseded. intros H. apply andb_prop in H.
  destruct H as [_ H]. exact H.
Qed.

Lemma atMostOneLive_NoDup_keys ws (q : GoogleDriveWebhook.t -> bool) :
  atMostOneLive ws ->
  (forall x, q x = true -> notSuperseded x = true) ->
  NoDup (map webhookKey (filter q ws)).
Proof.
  intros Hone Hq. induction ws as [|x ws IH]; simpl; [constructor|].
  assert (Hone' : atMostOneLive ws).
  { intros c d. specialize (Hone c d). simpl in Hone.
    destruct (live c d x); simpl in Hone; lia. }
  destruct (q x) eqn:Ex; [|now apply IH].
  simpl. constructor; [|now apply IH].
  intros Hin. apply in_map_iff in Hin. destruct Hin as (y & Hk & Hy).
  apply filter_In in Hy. destruct Hy as [Hy Qy].
  specialize (Hone (GoogleDriveWebhook.connectorId x)
                (GoogleDriveWebhook.driveId x)).
  simpl in Hone.
  assert (Lx : live (GoogleDriveWebhook.connectorId x)
                 (GoogleDriveWebhook.driveId x) x = true).
  { apply live_webhookKey. split; [reflexivity | now apply Hq]. }
  assert (Ly : live (GoogleDriveWebhook.connectorId x)
                 (GoogleDriveWebhook.driveId x) y = true).
  { apply live_webhookKey. split; [exact Hk | now apply Hq]. }
  rewrite Lx in Hone. simpl in Hone.
  assert (In y (filter (live (GoogleDriveWebhook.connectorId x)
                          (GoogleDriveWebhook.driveId x)) ws))
    by (apply filter_In; now split).
  destruct (filter _ ws); [contradiction | simpl in Hone; lia].
Qed.

Lemma nextWebhookId_gt ws r :
  In r ws -> GoogleDriveWebhook.id r < nextWebhookId ws.
Proof.
  unfold nextWebhookId. induction ws as [|x ws IH]; cbn [fold_right In];
    [tauto|].
  intros [->|Hin]; [lia|]. specialize (IH Hin). lia.
Qed.

(** *** The invariant: at most one live record per subscription *)

Lemma live_superseded_row connectorId driveId wh v r :
  live connectorId driveId
    (if GoogleDriveWebhook.id r =? GoogleDriveWebhook.id wh
     then setRenewedByWebhookId (Some v) r else r) = true ->
  live connectorId driveId r = true
  /\ GoogleDriveWebhook.id r <> GoogleDriveWebhook.id wh.
Proof.
  destruct (Z.eqb_spec (GoogleDriveWebhook.id r) (GoogleDriveWebhook.id wh))
    as [E|E].
  - unfold live, notSuperseded. simpl. rewrite andb_false_r. discriminate.
  - auto.
Qed.

Lemma live_deferred_row connectorId driveId wh v r :
  live connectorId driveId
    (if GoogleDriveWebhook.id r =? GoogleDriveWebhook.id wh
     then setRenewAt v r else r)
  = live connectorId driveId r.
Proof. destruct (_ =? _); reflexivity. Qed.

Section Renewal.
Variable env : Env.
Variable connector : ConnectorResource.t.
Variable wh : GoogleDriveWebhook.t.
Variable t : Z.
Hypothesis grants : grantsIds env.
Hypothesis connector_of_wh :
  ConnectorResource.id connector = GoogleDriveWebhook.connectorId wh.

Lemma granted_webhookKey driveId webhookId expirationTsMs ws :
  webhookKey (granted env connector driveId webhookId expirationTsMs ws)
  = (GoogleDriveWebhook.connectorId wh, driveId).
Proof. unfold webhookKey, granted. simpl. now rewrite connector_of_wh. Qed.

(** A turn keeps the invariant, when the live records of the subscription
    of [wh] are records of [wh]. *)
Lemma renewalOutcome_atMostOneLive ws :
  atMostOneLive ws ->
  (forall r, In r ws ->
     live (GoogleDriveWebhook.connectorId wh) (GoogleDriveWebhook.driveId wh)
       r = true ->
     GoogleDriveWebhook.id r = GoogleDriveWebhook.id wh) ->
  atMostOneLive (renewalOutcome env connector wh t ws).
Proof.
  intros Hone Hown.
  assert (Hdef : atMostOneLive (deferred wh t ws)).
  { intros c d. specialize (Hone c d). unfold deferred.
    etransitivity; [apply filter_map_length_le|exact Hone].
    intros x. now rewrite live_deferred_row. }
  unfold renewalOutcome.
  destruct (getAuthObject env _) as [auth|e]; [|exact Hdef].
  destruct (getGoogleDriveObject env auth _) as [[o|]|e]; [| |exact Hdef].
  2:{ intros c d. specialize (Hone c d). unfold retired.
      etransitivity; [apply filter_filter_length_le|exact Hone]. }
  destruct (registerWebhook env connector _)
    as [[[webhookId expirationTsMs]|]|e] eqn:Hreg;
    [| exact Hone | exact Hdef].
  apply grants in Hreg. apply String.eqb_neq in Hreg.
  cbn [truthy]. rewrite Hreg. cbn [negb].
  intros c d. unfold superseded. rewrite map_app, filter_app, length_app.
  destruct (Z.eqb_spec c (GoogleDriveWebhook.connectorId wh)) as [Ec|Ec];
    [destruct (String.eqb_spec d (GoogleDriveWebhook.driveId wh)) as [Ed|Ed]|].
  - subst c d.
    rewrite (filter_none_length
               (live (GoogleDriveWebhook.connectorId wh)
                  (GoogleDriveWebhook.driveId wh))).
    + apply (Nat.le_trans _ (List.length
               (map (fun r => if GoogleDriveWebhook.id r
                                 =? GoogleDriveWebhook.id wh
                              then setRenewedByWebhookId (Some webhookId) r
                              else r)
                  [granted env connector (GoogleDriveWebhook.driveId wh)
                     webhookId expirationTsMs ws]))).
      * apply filter_length_le.
      * simpl. lia.
    + intros x Hx. apply in_map_iff in Hx. destruct Hx as (r & <- & Hr).
      destruct (live _ _ _) eqn:E; [|reflexivity].
      apply live_superseded_row in E. destruct E as [E1 E2].
      exfalso. apply E2. now apply Hown.
  - rewrite (filter_none_length (live c d)
               (map _ [granted env connector (GoogleDriveWebhook.driveId wh)
                         webhookId expirationTsMs ws])).
    + rewrite Nat.add_0_r.
      etransitivity; [apply filter_map_length_le|apply Hone].
      intros x Hx. now apply live_superseded_row in Hx.
    + intros x Hx. apply in_map_iff in Hx. destruct Hx as (r & <- & Hr).
      destruct Hr as [<-|[]].
      destruct (live _ _ _) eqn:E; [|reflexivity].
      apply live_superseded_row in E. destruct E as [E1 _].
      apply live_webhookKey in E1. destruct E1 as [E1 _].
      rewrite granted_webhookKey in E1. inversion E1. congruence.
  - rewrite (filter_none_length (live c d)
               (map _ [granted env connector (GoogleDriveWebhook.driveId wh)
                         webhookId expirationTsMs ws])).
    + rewrite Nat.add_0_r.
      etransitivity; [apply filter_map_length_le|apply Hone].
      intros x Hx. now apply live_superseded_row in Hx.
    + intros x Hx. apply in_map_iff in Hx. destruct Hx as (r & <- & Hr).
      destruct Hr as [<-|[]].
      destruct (live _ _ _) eqn:E; [|reflexivity].
      apply live_superseded_row in E. destruct E as [E1 _].
      apply live_webhookKey in E1. destruct E1 as [E1 _].
      rewrite granted_webhookKey in E1. inversion E1. congruence.
Qed.

(** A turn for [wh] makes no live record for another subscription. *)
Lemma renewalOutcome_owner ws wh' :
  webhookKey wh' <> webhookKey wh ->
  (forall r, In r ws ->
     live (GoogleDriveWebhook.connectorId wh')
       (GoogleDriveWebhook.driveId wh') r = true ->
     GoogleDriveWebhook.id r = GoogleDriveWebhook.id wh') ->
  forall r, In r (renewalOutcome env connector wh t ws) ->
    live (GoogleDriveWebhook.connectorId wh')
      (GoogleDriveWebhook.driveId wh') r = true ->
    GoogleDriveWebhook.id r = GoogleDriveWebhook.id wh'.
Proof.
  intros Hk Hown.
  assert (Hdef : forall r, In r (deferred wh t ws) ->
            live (GoogleDriveWebhook.connectorId wh')
              (GoogleDriveWebhook.driveId wh') r = true ->
            GoogleDriveWebhook.id r = GoogleDriveWebhook.id wh').
  { intros r Hr Hl. apply in_map_iff in Hr. destruct Hr as (r0 & <- & Hr0).
    rewrite live_deferred_row in Hl.
    rewrite <- (Hown r0 Hr0 Hl). destruct (_ =? _); reflexivity. }
  unfold renewalOutcome.
  destruct (getAuthObject env _) as [auth|e]; [|exact Hdef].
  destruct (getGoogleDriveObject env auth _) as [[o|]|e]; [| |exact Hdef].
  2:{ intros r Hr. apply filter_In in Hr. now apply Hown. }
  destruct (registerWebhook env connector _)
    as [[[webhookId expirationTsMs]|]|e] eqn:Hreg;
    [| exact Hown | exact Hdef].
  apply grants in Hreg. apply String.eqb_neq in Hreg.
  cbn [truthy]. rewrite Hreg. cbn [negb].
  intros r Hr Hl. apply in_map_iff in Hr. destruct Hr as (r0 & <- & Hr0).
  apply live_superseded_row in Hl. destruct Hl as [Hl Hne].
  apply Z.eqb_neq in Hne. rewrite Hne.
  apply in_app_iff in Hr0. destruct Hr0 as [Hr0|[<-|[]]].
  - now apply Hown.
  - exfalso. apply Hk. apply live_webhookKey in Hl. destruct Hl as [Hl _].
    rewrite granted_webhookKey in Hl. unfold webhookKey. now rewrite Hl.
Qed.
End Renewal.

(** *** The loop and the pass *)

Lemma renewalRequested_connectors env w w1 wh :
  connectors w1 = connectors w ->
  renewalRequested env w1 wh = renewalRequested env w wh.
Proof. intros H. unfold renewalRequested. now rewrite H. Qed.

Lemma renewWebhooks_loop_run env rest : forall w,
  fst (forEach rest (renewWebhooks_webhook env) w) = Ok tt
  /\ connectors (snd (forEach rest (renewWebhooks_webhook env) w))
     = connectors w
  /\ ensureWebhookCalls (snd (forEach rest (renewWebhooks_webhook env) w))
     = ensureWebhookCalls w
       ++ map (fun wh => CallEnsureWebhookForDriveId
                           (GoogleDriveWebhook.connectorId wh)
                           (GoogleDriveWebhook.driveId wh))
            (filter (renewalRequested env w) rest).
Proof.
  induction rest as [|x rest IH]; intros w; simpl.
  - now rewrite app_nil_r.
  - destruct (renewWebhooks_webhook_run env x w) as (Hok & Hconn & _ & Hcalls).
    unfold bind.
    destruct (renewWebhooks_webhook env x w) as [[[]|e] w1];
      simpl in Hok, Hconn, Hcalls; [|discriminate].
    destruct (IH w1) as (IHok & IHconn & IHcalls).
    split; [exact IHok|split].
    + now rewrite IHconn.
    + rewrite IHcalls, Hcalls, <- app_assoc. f_equal.
      rewrite (filter_ext _ _ (fun wh =>
                 renewalRequested_connectors env w w1 wh Hconn)).
      destruct (renewalRequested env w x); reflexivity.
Qed.

Lemma renewWebhooks_loop_atMostOneLive env rest :
  grantsIds env ->
  forall w,
    atMostOneLive (googleDriveWebhooks w) ->
    NoDup (map webhookKey rest) ->
    (forall wh, In wh rest ->
       forall r, In r (googleDriveWebhooks w) ->
         live (GoogleDriveWebhook.connectorId wh)
           (GoogleDriveWebhook.driveId wh) r = true ->
         GoogleDriveWebhook.id r = GoogleDriveWebhook.id wh) ->
    atMostOneLive
      (googleDriveWebhooks (snd (forEach rest (renewWebhooks_webhook env) w))).
Proof.
  intros grants.
  induction rest as [|x rest IH]; intros w Hone Hnd Hown; simpl;
    [exact Hone|].
  destruct (renewWebhooks_webhook_run env x w) as (Hok & _ & Htable & _).
  unfold bind.
  destruct (renewWebhooks_webhook env x w) as [[[]|e] w1];
    simpl in Hok, Htable; [|discriminate].
  cbn [map] in Hnd. apply NoDup_cons_iff in Hnd. destruct Hnd as [Hx Hnd].
  apply IH; [| exact Hnd |].
  - rewrite Htable.
    destruct (find _ (connectors w)) as [connector|] eqn:Hfind;
      [|exact Hone].
    apply find_some in Hfind. destruct Hfind as [_ Hid].
    apply Z.eqb_eq in Hid.
    apply renewalOutcome_atMostOneLive; auto.
    intros r Hr. apply Hown; [now left | exact Hr].
  - intros wh' Hwh'. rewrite Htable.
    destruct (find _ (connectors w)) as [connector|] eqn:Hfind.
    + apply find_some in Hfind. destruct Hfind as [_ Hid].
      apply Z.eqb_eq in Hid.
      apply renewalOutcome_owner; auto.
      * intros E. apply Hx. rewrite <- E. now apply in_map.
      * apply Hown. now right.
    + apply Hown. now right.
Qed.

(** The pass: the selection, the loop, the sweep. *)
Lemma renewWebhooks_run env pageSize w :
  let w0 := withTrace (trace w ++ [LogInfo "Renewing webhooks"])
              (withClockReads (S (clockReads w)) w) in
  let w1 := snd (forEach (webhooksToRenew env pageSize w)
                   (renewWebhooks_webhook env) w0) in
  renewWebhooks env pageSize w
  = (Ok (List.length (webhooksToRenew env pageSize w)),
     withWebhooks
       (destroyLimit (toCleanUp (clock env (clockReads w1))) pageSize
          (googleDriveWebhooks w1))
       (withClockReads (S (clockReads w1)) w1)).
Proof.
  intros w0 w1. unfold renewWebhooks.
  unfold bind at 1. unfold now at 1.
  unfold bind at 1. unfold gets at 1.
  unfold bind at 1. unfold emit at 1, modify at 1.
  unfold bind at 1.
  cbn [googleDriveWebhooks withClockReads withTrace clockReads trace].
  fold (webhooksToRenew env pageSize w). fold w0.
  destruct (renewWebhooks_loop_run env (webhooksToRenew env pageSize w) w0)
    as (Hok & _).
  subst w1.
  destruct (forEach (webhooksToRenew env pageSize w)
              (renewWebhooks_webhook env) w0) as [[[]|e] w1];
    simpl in Hok; [|discriminate].
  reflexivity.
Qed.

Lemma renewWebhooks_try_Throw env connector wh w e w1 :
  renewWebhooks_try env connector wh w = (Throw e, w1) ->
  googleDriveWebhooks w1 = googleDriveWebhooks w
  /\ clockReads w1 = clockReads w.
Proof.
  unfold renewWebhooks_try, ensureWebhookForDriveId, updateWebhook,
    destroyWebhook. run.
  destruct (getAuthObject env _) as [auth|e0]; simpl;
    [|intros H; inversion H; now subst].
  destruct (getGoogleDriveObject env auth _) as [[o|]|e0]; simpl;
    [| discriminate | intros H; inversion H; now subst].
  destruct (registerWebhook env connector _)
    as [[[webhookId expirationTsMs]|]|e0]; simpl;
    [| discriminate | intros H; inversion H; now subst].
  destruct (webhookId =? "")%string; discriminate.
Qed.

(** *** The turns of a pass, one after the other *)

Lemma forEach_app_returns A (body : A -> M unit) pre post :
  (forall x w, fst (body x w) = Ok tt) ->
  forall w,
    snd (forEach (pre ++ post) body w)
    = snd (forEach post body (snd (forEach pre body w))).
Proof.
  intros Hok. induction pre as [|x pre IH]; intros w; simpl; [reflexivity|].
  unfold bind. specialize (Hok x w).
  destruct (body x w) as [[[]|e] w1]; simpl in Hok; [|discriminate].
  apply IH.
Qed.

Lemma turnsDone_app env w pre post :
  turnsDone env w (pre ++ post)
  = snd (forEach post (renewWebhooks_webhook env) (turnsDone env w pre)).
Proof.
  unfold turnsDone. apply forEach_app_returns.
  intros x w1. apply renewWebhooks_webhook_run.
Qed.

Lemma turnsDone_cons env w pre wh :
  turnsDone env w (pre ++ [wh])
  = snd (renewWebhooks_webhook env wh (turnsDone env w pre)).
Proof.
  rewrite turnsDone_app. simpl. unfold bind.
  destruct (renewWebhooks_webhook_run env wh (turnsDone env w pre))
    as (Hok & _).
  destruct (renewWebhooks_webhook env wh (turnsDone env w pre))
    as [[[]|e] w1]; simpl in Hok; [reflexivity|discriminate].
Qed.

Lemma turnsDone_connectors env w turns :
  connectors (turnsDone env w turns) = connectors w.
Proof.
  unfold turnsDone.
  destruct (renewWebhooks_loop_run env turns
              (withTrace (trace w ++ [LogInfo "Renewing webhooks"])
                 (withClockReads (S (clockReads w)) w))) as (_ & H & _).
  exact H.
Qed.

Lemma renewWebhooks_turnsDone env pageSize w :
  renewWebhooks env pageSize w
  = (Ok (List.length (webhooksToRenew env pageSize w)),
     withWebhooks
       (destroyLimit (toCleanUp (sweepTime env pageSize w)) pageSize
          (googleDriveWebhooks
             (turnsDone env w (webhooksToRenew env pageSize w))))
       (withClockReads
          (S (clockReads (turnsDone env w (webhooksToRenew env pageSize w))))
          (turnsDone env w (webhooksToRenew env pageSize w)))).
Proof. exact (renewWebhooks_run env pageSize w). Qed.

Lemma World_eq (a b : World) :
  connectors a = connectors b ->
  googleDriveConfigs a = googleDriveConfigs b ->
  googleDriveFolders a = googleDriveFolders b ->
  googleDriveFiles a = googleDriveFiles b ->
  googleDriveSyncTokens a = googleDriveSyncTokens b ->
  googleDriveWebhooks a = googleDriveWebhooks b ->
  dataSource a = dataSource b ->
  clockReads a = clockReads b ->
  trace a = trace b ->
  a = b.
Proof. destruct a, b; simpl; congruence. Qed.

(** A turn that fails. *)
Lemma renewWebhooks_webhook_failure env wh w connector e :
  find (fun c => ConnectorResource.id c =? GoogleDriveWebhook.connectorId wh)
    (connectors w) = Some connector ->
  renewalFailure env connector wh = Some e ->
  renewWebhooks_webhook env wh w
  = (Ok tt,
     withWebhooks
       (deferred wh (clock env (S (clockReads w))) (googleDriveWebhooks w))
       (withClockReads (S (S (clockReads w)))
          (withTrace
             (trace w ++ expiredWarning env wh w
              ++ renewalAttempt env connector wh
              ++ (if oauthTokenRevoked e
                  then [CallSyncFailed (ConnectorResource.id connector)
                          "oauth_token_revoked";
                        LogError
                          "Failed to renew webhook: Oauth token revoked ."]
                  else [LogError "Failed to renew webhook";
                        StatsDIncrement
                          "google_drive_renew_webhook_errors.count"])) w))).
Proof.
  intros Hfind Hfail.
  remember (renewWebhooks_webhook env wh w) as r eqn:Hr.
  unfold renewWebhooks_webhook in Hr.
  unfold bind at 1 in Hr. unfold fetchById, gets in Hr.
  rewrite Hfind in Hr.
  unfold renewalFailure in Hfail.
  unfold expiredWarning, renewalAttempt.
  unfold renewWebhooks_try, renewWebhooks_catch, ensureWebhookForDriveId,
    updateWebhook, destroyWebhook in Hr.
  run.
  destruct (GoogleDriveWebhook.expiresAt wh <? clock env (clockReads w));
    simpl in Hr;
    (destruct (getAuthObject env (ConnectorResource.connectionId connector))
       as [auth|e0]; simpl in Hr;
     [ destruct (getGoogleDriveObject env auth (GoogleDriveWebhook.driveId wh))
         as [[o|]|e0]; simpl in Hr;
       [ destruct (registerWebhook env connector
                     (GoogleDriveWebhook.driveId wh))
           as [[[webhookId expirationTsMs]|]|e0]; simpl in Hr | | ] | ]);
    try discriminate;
    injection Hfail as ->;
    destruct (oauthTokenRevoked e); simpl in Hr;
    subst r; apply f_equal;
    apply World_eq;
    cbn [connectors googleDriveConfigs googleDriveFolders googleDriveFiles
         googleDriveSyncTokens googleDriveWebhooks dataSource clockReads
         trace withTrace withWebhooks withClockReads app];
    rewrite <- ?app_assoc; reflexivity.
Qed.

(** What every turn does to the clock and to the trace. *)
Lemma renewWebhooks_webhook_trace env wh w :
  (clockReads w <= clockReads (snd (renewWebhooks_webhook env wh w)))%nat
  /\ exists t,
       trace (snd (renewWebhooks_webhook env wh w)) = trace w ++ t
       /\ filter isSyncFailedCall t
          = if authorizationFails env w wh
            then [CallSyncFailed (GoogleDriveWebhook.connectorId wh)
                    "oauth_token_revoked"]
            else [].
Proof.
  remember (renewWebhooks_webhook env wh w) as r eqn:Hr.
  unfold renewWebhooks_webhook in Hr.
  unfold authorizationFails, renewalFailure.
  unfold bind at 1 in Hr. unfold fetchById, gets in Hr.
  destruct (find _ (connectors w)) as [connector|] eqn:Hfind.
  2:{ subst r. unfold emit, modify. cbn [fst snd clockReads trace withTrace].
      split; [lia|]. eexists. split; reflexivity. }
  apply find_some in Hfind. destruct Hfind as [_ Hid].
  apply Z.eqb_eq in Hid.
  unfold renewWebhooks_try, renewWebhooks_catch, ensureWebhookForDriveId,
    updateWebhook, destroyWebhook in Hr.
  run.
  destruct (GoogleDriveWebhook.expiresAt wh <? clock env (clockReads w));
    simpl in Hr;
    (destruct (getAuthObject env (ConnectorResource.connectionId connector))
       as [auth|e]; simpl in Hr;
     [ destruct (getGoogleDriveObject env auth (GoogleDriveWebhook.driveId wh))
         as [[o|]|e]; simpl in Hr;
       [ destruct (registerWebhook env connector
                     (GoogleDriveWebhook.driveId wh))
           as [[[webhookId expirationTsMs]|]|e]; simpl in Hr;
         [ destruct (webhookId =? "")%string; simpl in Hr | | ] | | ] | ]);
    try (destruct (oauthTokenRevoked e); simpl in Hr);
    subst r;
    cbn [fst snd connectors googleDriveWebhooks trace withTrace withWebhooks
         withClockReads clockReads];
    (split; [lia|]);
    rewrite <- ?app_assoc;
    (eexists; split; [reflexivity|]); simpl; rewrite ?Hid; reflexivity.
Qed.

Lemma authorizationFails_connectors env w w1 wh :
  connectors w1 = connectors w ->
  authorizationFails env w1 wh = authorizationFails env w wh.
Proof. intros H. unfold authorizationFails. now rewrite H. Qed.

Lemma renewWebhooks_loop_trace env rest : forall w,
  (clockReads w
   <= clockReads (snd (forEach rest (renewWebhooks_webhook env) w)))%nat
  /\ exists t,
       trace (snd (forEach rest (renewWebhooks_webhook env) w))
       = trace w ++ t
       /\ filter isSyncFailedCall t
          = map (fun wh => CallSyncFailed (GoogleDriveWebhook.connectorId wh)
                             "oauth_token_revoked")
              (filter (authorizationFails env w) rest).
Proof.
  induction rest as [|x rest IH]; intros w; simpl.
  - split; [lia|]. exists []. now rewrite app_nil_r.
  - destruct (renewWebhooks_webhook_run env x w) as (Hok & Hconn & _).
    destruct (renewWebhooks_webhook_trace env x w)
      as (Hclock & t1 & Ht1 & Hf1).
    unfold bind.
    destruct (renewWebhooks_webhook env x w) as [[[]|e] w1];
      simpl in Hok, Hconn, Hclock, Ht1; [|discriminate].
    destruct (IH w1) as (IHclock & t2 & Ht2 & Hf2).
    split; [lia|].
    exists (t1 ++ t2). split.
    + now rewrite Ht2, Ht1, app_assoc.
    + rewrite filter_app, Hf1, Hf2.
      rewrite (filter_ext _ _ (fun wh =>
                 authorizationFails_connectors env w w1 wh Hconn)).
      destruct (authorizationFails env w x); reflexivity.
Qed.

(** A turn leaves the records of the other subscriptions as they are. *)
Lemma renewalOutcome_keeps_other env connector x t ws r :
  In r ws ->
  GoogleDriveWebhook.id r <> GoogleDriveWebhook.id x ->
  In r (renewalOutcome env connector x t ws).
Proof.
  intros Hin Hne. apply Z.eqb_neq in Hne.
  assert (Hd : forall v, In r (deferred x v ws)).
  { intros v. unfold deferred. apply in_map_iff. exists r.
    now rewrite Hne. }
  unfold renewalOutcome.
  destruct (getAuthObject env _) as [auth|e]; [|apply Hd].
  destruct (getGoogleDriveObject env auth _) as [[o|]|e]; [| |apply Hd].
  - destruct (registerWebhook env connector _)
      as [[[webhookId expirationTsMs]|]|e]; [| exact Hin | apply Hd].
    cbv zeta.
    destruct (truthy (Some webhookId)).
    + unfold superseded. apply in_map_iff. exists r. rewrite Hne.
      split; [reflexivity|]. apply in_app_iff. now left.
    + apply in_app_iff. now left.
  - unfold retired. apply filter_In. split; [exact Hin|]. now rewrite Hne.
Qed.

Lemma renewWebhooks_loop_keeps_other env rest : forall w r,
  In r (googleDriveWebhooks w) ->
  (forall x, In x rest ->
     GoogleDriveWebhook.id r <> GoogleDriveWebhook.id x) ->
  In r (googleDriveWebhooks
          (snd (forEach rest (renewWebhooks_webhook env) w))).
Proof.
  induction rest as [|x rest IH]; intros w r Hin Hne; simpl; [exact Hin|].
  destruct (renewWebhooks_webhook_run env x w) as (Hok & _ & Htable & _).
  unfold bind.
  destruct (renewWebhooks_webhook env x w) as [[[]|e] w1];
    simpl in Hok, Htable; [|discriminate].
  apply IH.
  - rewrite Htable. destruct (find _ (connectors w)); [|exact Hin].
    apply renewalOutcome_keeps_other; [exact Hin|].
    apply Hne. now left.
  - intros y Hy. apply Hne. now right.
Qed.

Lemma turnsDone_keeps_other env w turns r :
  In r (googleDriveWebhooks w) ->
  (forall x, In x turns ->
     GoogleDriveWebhook.id r <> GoogleDriveWebhook.id x) ->
  In r (googleDriveWebhooks (turnsDone env w turns)).
Proof.
  intros Hin Hne. unfold turnsDone.
  apply renewWebhooks_loop_keeps_other; [exact Hin|exact Hne].
Qed.

(** The selected records are records of the table, to renew, with
    distinct keys when the keys of the table are. *)
Lemma webhooksToRenew_split env pageSize w pre wh post :
  NoDup (map GoogleDriveWebhook.id (googleDriveWebhooks w)) ->
  webhooksToRenew env pageSize w = pre ++ wh :: post ->
  In wh (googleDriveWebhooks w)
  /\ notSuperseded wh = true
  /\ (forall x, In x pre ->
        GoogleDriveWebhook.id wh <> GoogleDriveWebhook.id x)
  /\ (forall x, In x post ->
        GoogleDriveWebhook.id wh <> GoogleDriveWebhook.id x)
  /\ (forall x, In x post ->
        In x (googleDriveWebhooks w)
        /\ forall y, In y pre ->
             GoogleDriveWebhook.id x <> GoogleDriveWebhook.id y).
Proof.
  intros Hnd Hsel.
  assert (Hnd' : NoDup (map GoogleDriveWebhook.id (pre ++ wh :: post))).
  { rewrite <- Hsel. unfold webhooksToRenew.
    apply NoDup_map_firstn. now apply NoDup_map_filter. }
  assert (Hin : forall x, In x (pre ++ wh :: post) ->
            In x (googleDriveWebhooks w) /\ notSuperseded x = true).
  { intros x Hx. rewrite <- Hsel in Hx. unfold webhooksToRenew in Hx.
    apply In_firstn in Hx. apply filter_In in Hx. destruct Hx as [Hx Ht].
    split; [exact Hx|]. now apply toRenew_notSuperseded in Ht. }
  rewrite map_app in Hnd'. cbn [map] in Hnd'.
  pose proof (NoDup_remove_2 _ _ _ Hnd') as Hwh.
  apply NoDup_remove_1 in Hnd'.
  split; [apply Hin, in_elt|split; [apply Hin, in_elt|split; [|split]]].
  - intros x Hx E. apply Hwh. apply in_app_iff. left. rewrite E.
    now apply in_map.
  - intros x Hx E. apply Hwh. apply in_app_iff. right. rewrite E.
    now apply in_map.
  - intros x Hx. split.
    + apply Hin. apply in_app_iff. right. now right.
    + intros y Hy E.
      rewrite <- map_app in Hnd'.
      assert (Exy : x = y).
      { apply (NoDup_map_In_eq GoogleDriveWebhook.id (pre ++ post));
          [exact Hnd' | | | exact E];
          apply in_app_iff; [now right | now left]. }
      subst y.
      apply in_split in Hy. destruct Hy as (l1 & l2 & ->).
      rewrite <- app_assoc in Hnd'. rewrite map_app in Hnd'.
      cbn [app map] in Hnd'.
      apply NoDup_remove_2 in Hnd'. apply Hnd'.
      apply in_app_iff. right. rewrite map_app. apply in_app_iff. right.
      now apply in_map.
Qed.

(** A sweep whose page holds every record to clean up removes them all. *)
Lemma destroyFirst_all A (p : A -> bool) n l :
  (List.length (filter p l) <= n)%nat ->
  destroyFirst p n l = filter (fun r => negb (p r)) l.
Proof.
  revert n. induction l as [|x l IH]; intros n; simpl; [reflexivity|].
  destruct (p x); simpl.
  - destruct n as [|n]; [lia|]. intros H. apply IH. lia.
  - intros H. f_equal. now apply IH.
Qed.

Lemma destroyLimit_removes A (p : A -> bool) n l x :
  n = 0%nat \/ (List.length (filter p l) <= n)%nat ->
  p x = true ->
  ~ In x (destroyLimit p n l).
Proof.
  intros Hn Hp Hin.
  assert (E : destroyLimit p n l = filter (fun r => negb (p r)) l).
  { destruct n as [|n]; [reflexivity|]. cbn [destroyLimit].
    apply destroyFirst_all. destruct Hn as [Hn|Hn]; [discriminate|exact Hn]. }
  rewrite E in Hin. apply filter_In in Hin. destruct Hin as [_ Hin].
  rewrite Hp in Hin. discriminate.
Qed.

Lemma callsSince_trace w w' t :
  trace w' = trace w ++ t -> callsSince w w' = t.
Proof.
  intros H. unfold callsSince. rewrite H.
  rewrite skipn_app, skipn_all, Nat.sub_diag. reflexivity.
Qed.

Lemma toCleanUp_notSuperseded t r :
  notSuperseded r = true -> toCleanUp t r = false.
Proof.
  unfold toCleanUp, notSuperseded.
  destruct (GoogleDriveWebhook.renewedByWebhookId r); [discriminate|].
  intros _. apply andb_false_r.
Qed.

(** What a pass does to the clock and to the trace. *)
Lemma renewWebhooks_trace env pageSize w :
  (S (clockReads w)
   <= clockReads (turnsDone env w (webhooksToRenew env pageSize w)))%nat
  /\ filter isSyncFailedCall
       (callsSince w (snd (renewWebhooks env pageSize w)))
     = map (fun wh => CallSyncFailed (GoogleDriveWebhook.connectorId wh)
                        "oauth_token_revoked")
         (filter (authorizationFails env w) (webhooksToRenew env pageSize w)).
Proof.
  rewrite renewWebhooks_turnsDone. cbn [snd]. unfold turnsDone.
  set (w0 := withTrace (trace w ++ [LogInfo "Renewing webhooks"])
               (withClockReads (S (clockReads w)) w)).
  destruct (renewWebhooks_loop_trace env (webhooksToRenew env pageSize w) w0)
    as (Hclock & t & Ht & Hf).
  split; [exact Hclock|].
  rewrite (@callsSince_trace w _ ([LogInfo "Renewing webhooks"] ++ t)).
  - rewrite filter_app, Hf. simpl. apply f_equal. apply filter_ext.
    intros wh. now apply authorizationFails_connectors.
  - cbn [trace withWebhooks withClockReads]. rewrite Ht. subst w0.
    cbn [trace withTrace]. now rewrite <- app_assoc.
Qed.

(** C8.  A turn of [renewWebhooks] whose [try] block fails (the
    credentials, the fetch of the drive or the subscription request throw)
    still returns, and no record is deleted: the record of the
    subscription gets [renewAt] two hours after the clock read of the
    [catch] block, and nothing else changes in the table.  The two kinds
    of failure differ in one thing: for an authorization failure (an
    [ExternalOauthTokenError], or the HTTP error "The caller does not have
    permission") the connector's sync is marked failed with
    [oauth_token_revoked] and the failure is logged; for any other failure
    it is only logged and counted.  So for the pass: a selected record
    whose turn fails is in the table when [renewWebhooks] returns, with
    [renewAt] two hours after a clock read of the pass; the syncs marked
    failed during the pass are those of the selected records whose turn
    fails on an authorization failure, one mark each; and the sweep that
    ends the pass leaves every record that is not superseded. *)
Theorem renewWebhooks_failure_defers_renewal :
  forall env w pageSize pre wh post connector e,
    webhooksToRenew env pageSize w = pre ++ wh :: post ->
    NoDup (map GoogleDriveWebhook.id (googleDriveWebhooks w)) ->
    find (fun c => ConnectorResource.id c
                   =? GoogleDriveWebhook.connectorId wh) (connectors w)
    = Some connector ->
    renewalFailure env connector wh = Some e ->
    let w1 := turnsDone env w pre in
    let turn := renewWebhooks_webhook env wh w1 in
    let t := clock env (S (clockReads w1)) in
    let w' := snd (renewWebhooks env pageSize w) in
    fst turn = Ok tt
    /\ googleDriveWebhooks (snd turn) = deferred wh t (googleDriveWebhooks w1)
    /\ map GoogleDriveWebhook.id (googleDriveWebhooks (snd turn))
       = map GoogleDriveWebhook.id (googleDriveWebhooks w1)
    /\ In (setRenewAt (Some (t + 7200000)) wh)
         (googleDriveWebhooks (snd turn))
    /\ (oauthTokenRevoked e = true <->
        (exists message, e = ExternalOauthTokenError message)
        \/ e = HTTPError "The caller does not have permission")
    /\ (oauthTokenRevoked e = true ->
        trace (snd turn)
        = trace w1 ++ expiredWarning env wh w1
          ++ renewalAttempt env connector wh
          ++ [CallSyncFailed (ConnectorResource.id connector)
                "oauth_token_revoked";
              LogError "Failed to renew webhook: Oauth token revoked ."])
    /\ (oauthTokenRevoked e = false ->
        trace (snd turn)
        = trace w1 ++ expiredWarning env wh w1
          ++ renewalAttempt env connector wh
          ++ [LogError "Failed to renew webhook";
              StatsDIncrement "google_drive_renew_webhook_errors.count"])
    /\ (oauthTokenRevoked e = false ->
        filter isSyncFailedCall (callsSince w1 (snd turn)) = [])
    /\ In (setRenewAt (Some (t + 7200000)) wh) (googleDriveWebhooks w')
    /\ (clockReads w < S (clockReads w1) < clockReads w')%nat
    /\ authorizationFails env w wh = oauthTokenRevoked e
    /\ filter isSyncFailedCall (callsSince w w')
       = map (fun wh => CallSyncFailed (GoogleDriveWebhook.connectorId wh)
                          "oauth_token_revoked")
           (filter (authorizationFails env w)
              (webhooksToRenew env pageSize w))
    /\ (oauthTokenRevoked e = true ->
        In (CallSyncFailed (ConnectorResource.id connector)
              "oauth_token_revoked") (callsSince w w'))
    /\ (forall r,
          In r (googleDriveWebhooks
                  (turnsDone env w (webhooksToRenew env pageSize w))) ->
          notSuperseded r = true ->
          In r (googleDriveWebhooks w')).
Proof.
  intros env w pageSize pre wh post connector e Hsel Hnd Hfind Hfail w1 turn
    t w'.
  destruct (webhooksToRenew_split env pageSize w pre wh post Hnd Hsel)
    as (Hin & Hns & Hpre & Hpost & _).
  assert (Hfind1 : find (fun c => ConnectorResource.id c
                                  =? GoogleDriveWebhook.connectorId wh)
                     (connectors w1) = Some connector).
  { subst w1. now rewrite turnsDone_connectors. }
  pose proof (renewWebhooks_webhook_failure env wh w1 Hfind1 Hfail) as Hturn.
  fold turn in Hturn.
  assert (Hid : ConnectorResource.id connector
                = GoogleDriveWebhook.connectorId wh).
  { apply find_some in Hfind. now apply Z.eqb_eq. }
  assert (Hin1 : In wh (googleDriveWebhooks w1)).
  { subst w1. now apply turnsDone_keeps_other. }
  assert (Hin2 : In (setRenewAt (Some (t + 7200000)) wh)
                   (googleDriveWebhooks (snd turn))).
  { rewrite Hturn. cbn [snd googleDriveWebhooks withWebhooks].
    unfold deferred. apply in_map_iff.
    exists wh. split; [|exact Hin1]. now rewrite Z.eqb_refl. }
  assert (Hsweep : forall r,
            In r (googleDriveWebhooks
                    (turnsDone env w (webhooksToRenew env pageSize w))) ->
            notSuperseded r = true ->
            In r (googleDriveWebhooks w')).
  { intros r Hr Hnr. subst w'. rewrite renewWebhooks_turnsDone.
    cbn [snd googleDriveWebhooks withWebhooks].
    apply destroyLimit_keeps; [exact Hr|].
    now apply toCleanUp_notSuperseded. }
  assert (Hdone : turnsDone env w (webhooksToRenew env pageSize w)
                  = snd (forEach post (renewWebhooks_webhook env)
                           (snd turn))).
  { rewrite Hsel.
    change (pre ++ wh :: post) with (pre ++ [wh] ++ post).
    rewrite app_assoc, turnsDone_app, turnsDone_cons. reflexivity. }
  assert (Hauth : authorizationFails env w wh = oauthTokenRevoked e).
  { unfold authorizationFails. now rewrite Hfind, Hfail. }
  destruct (renewWebhooks_trace env pageSize w) as (Hclock & Hcalls).
  fold w' in Hcalls.
  split; [|split; [|split; [|split; [|split; [|split; [|split; [|split;
    [|split; [|split; [|split; [|split; [|split]]]]]]]]]]]].
  - now rewrite Hturn.
  - now rewrite Hturn.
  - rewrite Hturn. cbn [snd googleDriveWebhooks withWebhooks].
    unfold deferred. rewrite map_map.
    apply map_ext. intros r. destruct (_ =? _); reflexivity.
  - exact Hin2.
  - destruct e as [s m|m|m|m]; simpl.
    + split; [discriminate | intros [[m' H]|H]; discriminate].
    + split; [intros _; left; now exists m | reflexivity].
    + split.
      * intros H. apply String.eqb_eq in H. right. now subst.
      * intros [[m' H]|H]; [discriminate|]. inversion H.
        apply String.eqb_refl.
    + split; [discriminate | intros [[m' H]|H]; discriminate].
  - intros Hr. rewrite Hturn, Hr. reflexivity.
  - intros Hr. rewrite Hturn, Hr. reflexivity.
  - intros Hr.
    erewrite callsSince_trace; [|rewrite Hturn, Hr; reflexivity].
    rewrite !filter_app. unfold expiredWarning, renewalAttempt.
    destruct (_ <? _);
      destruct (getAuthObject env _) as [auth|e0]; try reflexivity;
      destruct (getGoogleDriveObject env auth _) as [[o|]|e0]; reflexivity.
  - apply Hsweep.
    + rewrite Hdone. apply renewWebhooks_loop_keeps_other; [exact Hin2|].
      exact Hpost.
    + exact Hns.
  - assert (H1 : (S (clockReads w) <= clockReads w1)%nat).
    { subst w1. unfold turnsDone.
      destruct (renewWebhooks_loop_trace env pre
                  (withTrace (trace w ++ [LogInfo "Renewing webhooks"])
                     (withClockReads (S (clockReads w)) w))) as (H & _).
      exact H. }
    assert (H2 : (S (S (clockReads w1)) <= clockReads w')%nat).
    { subst w'. rewrite renewWebhooks_turnsDone. cbn [snd clockReads
        withWebhooks withClockReads]. rewrite Hdone.
      destruct (renewWebhooks_loop_trace env post (snd turn)) as (H & _).
      rewrite Hturn in H at 1.
      cbn [snd clockReads withWebhooks withClockReads] in H. lia. }
    lia.
  - exact Hauth.
  - exact Hcalls.
  - intros Hr.
    assert (Hmark : In (CallSyncFailed (ConnectorResource.id connector)
                          "oauth_token_revoked")
                      (filter isSyncFailedCall (callsSince w w'))).
    { rewrite Hcalls, Hid.
      apply (in_map (fun wh => CallSyncFailed
                                 (GoogleDriveWebhook.connectorId wh)
                                 "oauth_token_revoked")).
      apply filter_In. split; [rewrite Hsel; apply in_elt|].
      now rewrite Hauth. }
    apply filter_In in Hmark. exact (proj1 Hmark).
  - exact Hsweep.
Qed.

Lemma renewWebhooks_failure_defers_renewal_witness :
  In (setRenewAt (Some 7205002) webhook1)
    (googleDriveWebhooks (snd (renewWebhooks revokedEnv 10 webhookWorld)))
  /\ In (CallSyncFailed 1 "oauth_token_revoked")
       (callsSince webhookWorld (snd (renewWebhooks revokedEnv 10 webhookWorld)))
  /\ fst (renewWebhooks_webhook revokedEnv webhook1
            (turnsDone revokedEnv webhookWorld [])) = Ok tt.
Proof.
  pose proof (@renewWebhooks_failure_defers_renewal revokedEnv webhookWorld
                10%nat [] webhook1 [] connector1
                (HTTPError "The caller does not have permission")
                eq_refl) as H.
  cbv zeta in H.
  destruct H as (H1 & _ & _ & _ & _ & _ & _ & _ & H9 & _ & _ & _ & H13 & _).
  - repeat constructor. simpl. tauto.
  - reflexivity.
  - reflexivity.
  - split; [exact H9|split; [exact (H13 eq_refl)|exact H1]].
Defined.

(** The two failures on the same subscription: the revoked token marks the
    connector failed, the provider that is down does not; the record stays,
    deferred, in both. *)
Example renewWebhooks_revoked_and_down :
  trace (snd (renewWebhooks revokedEnv 10 webhookWorld))
  = [LogInfo "Renewing webhooks"; CallGetAuthObject "connection1";
     CallGetGoogleDriveObject "drive1";
     CallEnsureWebhookForDriveId 1 "drive1";
     CallSyncFailed 1 "oauth_token_revoked";
     LogError "Failed to renew webhook: Oauth token revoked ."]
  /\ trace (snd (renewWebhooks providerDownEnv 10 webhookWorld))
     = [LogInfo "Renewing webhooks"; CallGetAuthObject "connection1";
        CallGetGoogleDriveObject "drive1";
        CallEnsureWebhookForDriveId 1 "drive1";
        LogError "Failed to renew webhook";
        StatsDIncrement "google_drive_renew_webhook_errors.count"]
  /\ googleDriveWebhooks (snd (renewWebhooks revokedEnv 10 webhookWorld))
     = [setRenewAt (Some 7205002) webhook1]
  /\ googleDriveWebhooks (snd (renewWebhooks providerDownEnv 10 webhookWorld))
     = [setRenewAt (Some 7205002) webhook1].
Proof. repeat split; vm_compute; reflexivity. Qed.

Lemma active_le_live t connectorId driveId ws :
  (List.length (filter (active t connectorId driveId) ws)
   <= List.length (filter (live connectorId driveId) ws))%nat.
Proof.
  induction ws as [|x ws IH]; simpl; [lia|].
  unfold active at 1. destruct (live connectorId driveId x); simpl.
  - destruct (t <=? _); simpl; lia.
  - exact IH.
Qed.

Lemma destroyLimit_In A (p : A -> bool) n l x :
  In x (destroyLimit p n l) -> In x l.
Proof.
  destruct n as [|n]; cbn [destroyLimit].
  - intros H. now apply filter_In in H.
  - generalize (S n) as m. induction l as [|y l IH]; intros m; simpl;
      [tauto|].
    destruct (p y).
    + destruct m as [|m]; [tauto|]. intros H. right. now apply (IH m).
    + intros [H|H]; [now left|right; now apply (IH m)].
Qed.

(** A granted subscription: the old record is linked, the new one is
    there. *)
Lemma renewalOutcome_granted env connector wh t ws auth o webhookId
  expirationTsMs :
  In wh ws ->
  getAuthObject env (ConnectorResource.connectionId connector) = Ok auth ->
  getGoogleDriveObject env auth (GoogleDriveWebhook.driveId wh)
    = Ok (Some o) ->
  registerWebhook env connector (GoogleDriveWebhook.driveId wh)
    = Ok (Some (webhookId, expirationTsMs)) ->
  webhookId <> "" ->
  In (setRenewedByWebhookId (Some webhookId) wh)
    (renewalOutcome env connector wh t ws)
  /\ In (granted env connector (GoogleDriveWebhook.driveId wh)
           webhookId expirationTsMs ws)
       (renewalOutcome env connector wh t ws).
Proof.
  intros Hin Ha Hg Hr Hne.
  unfold renewalOutcome. rewrite Ha, Hg, Hr.
  apply String.eqb_neq in Hne. cbn [truthy]. rewrite Hne. cbn [negb].
  unfold superseded. split; apply in_map_iff.
  - exists wh. rewrite Z.eqb_refl. split; [reflexivity|].
    apply in_app_iff. now left.
  - exists (granted env connector (GoogleDriveWebhook.driveId wh) webhookId
              expirationTsMs ws).
    split; [|apply in_app_iff; right; now left].
    pose proof (nextWebhookId_gt ws wh Hin) as Hgt.
    assert (E : (GoogleDriveWebhook.id
                   (granted env connector (GoogleDriveWebhook.driveId wh)
                      webhookId expirationTsMs ws)
                 =? GoogleDriveWebhook.id wh) = false).
    { apply Z.eqb_neq. unfold granted. simpl. lia. }
    now rewrite E.
Qed.

(** C5, as amended.  A pass of [renewWebhooks] returns the number of
    records it selected: the first [pageSize] records whose [renewAt] is
    before the clock plus the margin and that no record supersedes (all of
    them when they fit in a page).  Each selected record gets one turn, in
    order, and the provider is asked once for each record whose connector
    exists, whose credentials are obtained and whose drive is still there.
    A turn always returns and changes the table as [renewalOutcome] says: in
    particular, when the provider grants a subscription the old record
    stays, linked to the new one by [renewedByWebhookId], next to the
    record created for the new one; when the drive is no longer there the
    old record is deleted and nothing replaces it.  If the provider never
    grants an empty id and each subscription had at most one record that is
    not superseded before the pass, it has at most one after it, hence at
    most one active record at any time.

    The pass ends with a sweep of the table the turns left: it removes
    superseded records whose hard expiry is more than three days before
    its clock read, at most [pageSize] of them, and all of them when
    [pageSize] is 0; every other record stays.  So, for a selected record
    that was granted a subscription: the record created for the new
    subscription is in the table when the pass returns; the old record,
    linked, is in the table the turns left, and is in the table when the
    pass returns if its hard expiry is not more than three days before
    the sweep; if it is, and the sweep's page holds every record to clean
    up, the sweep deletes the old record in the same pass. *)
Theorem renewWebhooks_pass :
  forall env w pageSize,
    let deadline := clock env (clockReads w)
                    + GOOGLE_DRIVE_WEBHOOK_RENEW_MARGIN_MS env in
    let selected := webhooksToRenew env pageSize w in
    let w' := snd (renewWebhooks env pageSize w) in
    fst (renewWebhooks env pageSize w) = Ok (List.length selected)
    /\ (List.length selected <= pageSize)%nat
    /\ (forall wh, In wh selected ->
          In wh (googleDriveWebhooks w) /\ toRenew deadline wh = true)
    /\ ((List.length (filter (toRenew deadline) (googleDriveWebhooks w))
         <= pageSize)%nat ->
        selected = filter (toRenew deadline) (googleDriveWebhooks w))
    /\ ensureWebhookCalls w'
       = ensureWebhookCalls w
         ++ map (fun wh => CallEnsureWebhookForDriveId
                             (GoogleDriveWebhook.connectorId wh)
                             (GoogleDriveWebhook.driveId wh))
              (filter (renewalRequested env w) selected)
    /\ (forall wh w1,
          fst (renewWebhooks_webhook env wh w1) = Ok tt
          /\ googleDriveWebhooks (snd (renewWebhooks_webhook env wh w1))
             = match find (fun c => ConnectorResource.id c
                                    =? GoogleDriveWebhook.connectorId wh)
                       (connectors w1) with
               | None => googleDriveWebhooks w1
               | Some connector =>
                   renewalOutcome env connector wh
                     (clock env (S (clockReads w1))) (googleDriveWebhooks w1)
               end)
    /\ (forall connector wh t ws auth o webhookId expirationTsMs,
          In wh ws ->
          getAuthObject env (ConnectorResource.connectionId connector)
            = Ok auth ->
          getGoogleDriveObject env auth (GoogleDriveWebhook.driveId wh)
            = Ok (Some o) ->
          registerWebhook env connector (GoogleDriveWebhook.driveId wh)
            = Ok (Some (webhookId, expirationTsMs)) ->
          webhookId <> "" ->
          In (setRenewedByWebhookId (Some webhookId) wh)
            (renewalOutcome env connector wh t ws)
          /\ In (granted env connector (GoogleDriveWebhook.driveId wh)
                   webhookId expirationTsMs ws)
               (renewalOutcome env connector wh t ws))
    /\ (forall connector wh t ws auth,
          getAuthObject env (ConnectorResource.connectionId connector)
            = Ok auth ->
          getGoogleDriveObject env auth (GoogleDriveWebhook.driveId wh)
            = Ok None ->
          renewalOutcome env connector wh t ws = retired wh ws
          /\ ~ In wh (renewalOutcome env connector wh t ws))
    /\ (grantsIds env ->
        atMostOneLive (googleDriveWebhooks w) ->
        atMostOneLive (googleDriveWebhooks w')
        /\ forall t connectorId driveId,
             (List.length
                (filter (active t connectorId driveId)
                   (googleDriveWebhooks w')) <= 1)%nat)
    /\ googleDriveWebhooks w'
       = destroyLimit (toCleanUp (sweepTime env pageSize w)) pageSize
           (googleDriveWebhooks (turnsDone env w selected))
    /\ (forall r,
          In r (googleDriveWebhooks w') ->
          In r (googleDriveWebhooks (turnsDone env w selected)))
    /\ (forall r,
          In r (googleDriveWebhooks (turnsDone env w selected)) ->
          toCleanUp (sweepTime env pageSize w) r = false ->
          In r (googleDriveWebhooks w'))
    /\ (pageSize = 0%nat ->
        googleDriveWebhooks w'
        = filter (fun r => negb (toCleanUp (clock env (S (clockReads w))) r))
            (googleDriveWebhooks w))
    /\ (NoDup (map GoogleDriveWebhook.id (googleDriveWebhooks w)) ->
        forall wh connector auth o webhookId expirationTsMs,
          In wh selected ->
          find (fun c => ConnectorResource.id c
                         =? GoogleDriveWebhook.connectorId wh) (connectors w)
          = Some connector ->
          getAuthObject env (ConnectorResource.connectionId connector)
            = Ok auth ->
          getGoogleDriveObject env auth (GoogleDriveWebhook.driveId wh)
            = Ok (Some o) ->
          registerWebhook env connector (GoogleDriveWebhook.driveId wh)
            = Ok (Some (webhookId, expirationTsMs)) ->
          webhookId <> "" ->
          In (setRenewedByWebhookId (Some webhookId) wh)
            (googleDriveWebhooks (turnsDone env w selected))
          /\ (sweepTime env pageSize w - threeDaysMs
              <= GoogleDriveWebhook.expiresAt wh ->
              In (setRenewedByWebhookId (Some webhookId) wh)
                (googleDriveWebhooks w'))
          /\ (GoogleDriveWebhook.expiresAt wh
              < sweepTime env pageSize w - threeDaysMs ->
              (List.length
                 (filter (toCleanUp (sweepTime env pageSize w))
                    (googleDriveWebhooks (turnsDone env w selected)))
               <= pageSize)%nat ->
              ~ In (setRenewedByWebhookId (Some webhookId) wh)
                  (googleDriveWebhooks w'))
          /\ (exists fresh,
                In fresh (googleDriveWebhooks w')
                /\ GoogleDriveWebhook.webhookId fresh = webhookId
                /\ GoogleDriveWebhook.connectorId fresh
                   = GoogleDriveWebhook.connectorId wh
                /\ GoogleDriveWebhook.driveId fresh
                   = GoogleDriveWebhook.driveId wh
                /\ GoogleDriveWebhook.expiresAt fresh = expirationTsMs
                /\ GoogleDriveWebhook.renewedByWebhookId fresh = None)).
Proof.
  intros env w pageSize deadline selected w'.
  pose proof (renewWebhooks_run env pageSize w) as Hrun. cbv zeta in Hrun.
  set (w0 := withTrace (trace w ++ [LogInfo "Renewing webhooks"])
               (withClockReads (S (clockReads w)) w)) in *.
  fold selected in Hrun.
  set (w1 := snd (forEach selected (renewWebhooks_webhook env) w0)) in *.
  assert (Hsel : forall wh, In wh selected ->
            In wh (googleDriveWebhooks w) /\ toRenew deadline wh = true).
  { intros wh Hin. subst selected. unfold webhooksToRenew in Hin.
    apply In_firstn in Hin. now apply filter_In in Hin. }
  assert (Htable : googleDriveWebhooks w'
                   = destroyLimit (toCleanUp (sweepTime env pageSize w))
                       pageSize
                       (googleDriveWebhooks (turnsDone env w selected))).
  { subst w'. now rewrite Hrun. }
  assert (Hkept : forall r,
            In r (googleDriveWebhooks (turnsDone env w selected)) ->
            toCleanUp (sweepTime env pageSize w) r = false ->
            In r (googleDriveWebhooks w')).
  { intros r Hr Hc. rewrite Htable. now apply destroyLimit_keeps. }
  split; [|split; [|split; [|split; [|split; [|split; [|split; [|split;
    [|split; [|split; [|split; [|split; [|split]]]]]]]]]]]].
  - now rewrite Hrun.
  - apply firstn_le_length.
  - exact Hsel.
  - intros Hlen. subst selected. unfold webhooksToRenew.
    now apply firstn_all2.
  - subst w'. rewrite Hrun. cbn [snd].
    change (ensureWebhookCalls
              (withWebhooks
                 (destroyLimit (toCleanUp (clock env (clockReads w1)))
                    pageSize (googleDriveWebhooks w1))
                 (withClockReads (S (clockReads w1)) w1)))
      with (ensureWebhookCalls w1).
    subst w1.
    destruct (renewWebhooks_loop_run env selected w0) as (_ & _ & Hcalls).
    rewrite Hcalls.
    replace (ensureWebhookCalls w0) with (ensureWebhookCalls w).
    + reflexivity.
    + subst w0. unfold ensureWebhookCalls. cbn [trace withTrace].
      rewrite filter_app. simpl. now rewrite app_nil_r.
  - intros wh w2.
    destruct (renewWebhooks_webhook_run env wh w2) as (H1 & _ & H3 & _).
    now split.
  - intros connector wh t ws auth o webhookId expirationTsMs Hin Ha Hg Hr
      Hne.
    exact (renewalOutcome_granted env connector wh t ws Hin Ha Hg Hr Hne).
  - intros connector wh t ws auth Ha Hg.
    unfold renewalOutcome. rewrite Ha, Hg. split; [reflexivity|].
    unfold retired. intros Hin. apply filter_In in Hin.
    destruct Hin as [_ Hin]. rewrite Z.eqb_refl in Hin. discriminate.
  - intros grants Hone.
    assert (Hone' : atMostOneLive (googleDriveWebhooks w')).
    { subst w'. rewrite Hrun. cbn [snd googleDriveWebhooks withWebhooks].
      intros c d.
      etransitivity; [apply destroyLimit_filter_length_le|].
      revert c d. subst w1.
      apply renewWebhooks_loop_atMostOneLive.
      - exact grants.
      - exact Hone.
      - subst selected. unfold webhooksToRenew.
        apply NoDup_map_firstn. apply atMostOneLive_NoDup_keys.
        + exact Hone.
        + intros x. apply toRenew_notSuperseded.
      - intros wh Hwh r Hr Hl.
        destruct (Hsel wh Hwh) as [Hin Ht].
        f_equal.
        apply (@filter_le1_In_eq _
                 (live (GoogleDriveWebhook.connectorId wh)
                    (GoogleDriveWebhook.driveId wh))
                 (googleDriveWebhooks w) r wh);
          [ apply Hone | exact Hr | exact Hl | exact Hin | ].
        apply live_webhookKey. split; [reflexivity|].
        now apply toRenew_notSuperseded in Ht. }
    split; [exact Hone'|].
    intros t c d. etransitivity; [apply active_le_live|apply Hone'].
  - exact Htable.
  - intros r Hr. rewrite Htable in Hr. now apply destroyLimit_In in Hr.
  - exact Hkept.
  - intros Hp. rewrite Htable. unfold sweepTime. fold selected.
    assert (Hnone : selected = []).
    { subst selected. unfold webhooksToRenew. now rewrite Hp. }
    rewrite Hnone, Hp. reflexivity.
  - intros Hnd wh connector auth o webhookId expirationTsMs Hin Hfind Ha Hg
      Hr Hne.
    destruct (in_split _ _ Hin) as (pre & post & Hsplit).
    destruct (webhooksToRenew_split env pageSize w pre wh post Hnd Hsplit)
      as (Hinw & Hns & Hpre & Hpost & Hlater).
    set (wa := turnsDone env w pre).
    assert (Hina : In wh (googleDriveWebhooks wa)).
    { subst wa. now apply turnsDone_keeps_other. }
    assert (Hdone : turnsDone env w selected
                    = snd (forEach post (renewWebhooks_webhook env)
                             (snd (renewWebhooks_webhook env wh wa)))).
    { fold selected in Hsplit. rewrite Hsplit.
      change (pre ++ wh :: post) with (pre ++ [wh] ++ post).
      rewrite app_assoc, turnsDone_app, turnsDone_cons. reflexivity. }
    destruct (renewWebhooks_webhook_run env wh wa) as (_ & _ & Hturn & _).
    assert (Hfinda : find (fun c => ConnectorResource.id c
                                    =? GoogleDriveWebhook.connectorId wh)
                       (connectors wa) = Some connector).
    { subst wa. now rewrite turnsDone_connectors. }
    rewrite Hfinda in Hturn.
    destruct (renewalOutcome_granted env connector wh
                (clock env (S (clockReads wa))) (googleDriveWebhooks wa)
                Hina Ha Hg Hr Hne) as (Hlinked & Hfresh).
    rewrite <- Hturn in Hlinked, Hfresh.
    assert (Hlinked' : In (setRenewedByWebhookId (Some webhookId) wh)
                         (googleDriveWebhooks (turnsDone env w selected))).
    { rewrite Hdone. apply renewWebhooks_loop_keeps_other;
        [exact Hlinked|exact Hpost]. }
    assert (Hfresh' : In (granted env connector (GoogleDriveWebhook.driveId wh)
                            webhookId expirationTsMs
                            (googleDriveWebhooks wa))
                        (googleDriveWebhooks (turnsDone env w selected))).
    { rewrite Hdone. apply renewWebhooks_loop_keeps_other;
        [exact Hfresh|].
      intros x Hx. destruct (Hlater x Hx) as (Hxw & Hxpre).
      assert (Hxa : In x (googleDriveWebhooks wa)).
      { subst wa. apply turnsDone_keeps_other; [exact Hxw|exact Hxpre]. }
      pose proof (nextWebhookId_gt _ _ Hxa) as Hgt.
      unfold granted. simpl. lia. }
    split; [exact Hlinked'|split; [|split]].
    + intros Hexp. apply Hkept; [exact Hlinked'|].
      unfold toCleanUp. cbn [setRenewedByWebhookId
        GoogleDriveWebhook.expiresAt GoogleDriveWebhook.renewedByWebhookId].
      apply andb_false_iff. left. apply Z.ltb_ge. exact Hexp.
    + intros Hexp Hpage. rewrite Htable.
      apply destroyLimit_removes; [right; exact Hpage|].
      unfold toCleanUp. cbn [setRenewedByWebhookId
        GoogleDriveWebhook.expiresAt GoogleDriveWebhook.renewedByWebhookId].
      apply andb_true_iff. split; [|reflexivity].
      apply Z.ltb_lt. exact Hexp.
    + exists (granted env connector (GoogleDriveWebhook.driveId wh) webhookId
                expirationTsMs (googleDriveWebhooks wa)).
      split; [apply Hkept; [exact Hfresh'|]|].
      * apply toCleanUp_notSuperseded. reflexivity.
      * unfold granted. simpl.
        apply find_some in Hfind. destruct Hfind as [_ Hid].
        apply Z.eqb_eq in Hid. now rewrite Hid.
Qed.

(** A renewal that goes through: [webhook1] is linked to [webhook2], whose
    record is the only one that is not superseded. *)
Example renewWebhooks_renews_webhook1 :
  fst (renewWebhooks renewalEnv 10 webhookWorld) = Ok 1%nat
  /\ googleDriveWebhooks (snd (renewWebhooks renewalEnv 10 webhookWorld))
     = [ setRenewedByWebhookId (Some "webhook2") webhook1;
         GoogleDriveWebhook.mk 2 "webhook2" 1 "drive1" 90000000
           (Some 86400000) None ].
Proof. split; vm_compute; reflexivity. Qed.

(** C5, as stated, fails.  A selected subscription is not always renewed
    and kept: when its drive is no longer there, its record is deleted, the
    provider is not asked, and nothing replaces it.  And the selection
    stops at the page size: with a page of 0 the subscription, which is to
    renew, is not selected.  And a renewed record is not always retained:
    one whose hard expiry is more than three days back is linked to its
    successor and deleted by the sweep of the same pass. *)
Lemma renewWebhooks_retires_lost_drive :
  In webhook1 (webhooksToRenew lostDriveEnv 10 webhookWorld)
  /\ fst (renewWebhooks lostDriveEnv 10 webhookWorld) = Ok 1%nat
  /\ googleDriveWebhooks (snd (renewWebhooks lostDriveEnv 10 webhookWorld))
     = []
  /\ ensureWebhookCalls (snd (renewWebhooks lostDriveEnv 10 webhookWorld))
     = []
  /\ toRenew (clock renewalEnv (clockReads webhookWorld)
              + GOOGLE_DRIVE_WEBHOOK_RENEW_MARGIN_MS renewalEnv) webhook1
     = true
  /\ webhooksToRenew renewalEnv 0 webhookWorld = []
  /\ webhooksToRenew renewalEnv 10 expiredWebhookWorld = [expiredWebhook]
  /\ googleDriveWebhooks
       (turnsDone renewalEnv expiredWebhookWorld [expiredWebhook])
     = [ setRenewedByWebhookId (Some "webhook2") expiredWebhook;
         GoogleDriveWebhook.mk 2 "webhook2" 1 "drive1" 90000000
           (Some 86400000) None ]
  /\ googleDriveWebhooks
       (snd (renewWebhooks renewalEnv 10 expiredWebhookWorld))
     = [ GoogleDriveWebhook.mk 2 "webhook2" 1 "drive1" 90000000
           (Some 86400000) None ].
Proof.
  repeat split; try (vm_compute; reflexivity).
  vm_compute. left. reflexivity.
Qed.

(** ** Marking a folder, then revisiting it

    [markFolderAsVisited] stamps the folder with the clock; a full sync of
    the same generation that comes back to the folder then stops at the
    marker. *)
Example markFolderAsVisited_then_syncFiles :
  fst (markFolderAsVisited revisitEnv 1 "folder1" (smallWorld [] [] [] []))
  = Ok tt
  /\ googleDriveFiles
       (snd (markFolderAsVisited revisitEnv 1 "folder1"
               (smallWorld [] [] [] [])))
     = [mirrorRow "folder1" folderMimeType None (Some 5000)]
  /\ fst (syncFiles revisitEnv 1 "workspace1" "folder1" 5000 None
            (snd (markFolderAsVisited revisitEnv 1 "folder1"
                    (smallWorld [] [] [] []))))
     = Ok (SyncFilesResult.mk None 0 []).
Proof. repeat split; vm_compute; reflexivity. Qed.

(** ** A first visit

    Without a marker the folder is listed: its two children are synced and
    the subfolder is reported for the caller to walk. *)
Example syncFiles_first_visit :
  fst (syncFiles firstVisitEnv 1 "workspace1" "folder1" 100 None
         (smallWorld [] [] [] []))
  = Ok (SyncFilesResult.mk None 2 ["folder2"])
  /\ map GoogleDriveFiles.driveFileId
       (googleDriveFiles
          (snd (syncFiles firstVisitEnv 1 "workspace1" "folder1" 100 None
                  (smallWorld [] [] [] []))))
     = ["doc1"; "folder2"]
  /\ filter isDriveApiCall
       (trace (snd (syncFiles firstVisitEnv 1 "workspace1" "folder1" 100 None
                      (smallWorld [] [] [] []))))
     = [CallGetGoogleDriveObject "folder1"; CallFilesList "folder1" None].
Proof. repeat split; vm_compute; reflexivity. Qed.

(** * More properties *)

(** ** Full sync: a folder that is gone *)

(** X1.  [syncFiles] on a folder that the remote no longer has (a 404)
    gives up on the folder, whatever the page token: it returns the empty
    result after the credentials lookup and the fetch of the folder, logs
    it, lists nothing and changes no table. *)
Theorem syncFiles_folder_not_found :
  forall env w connectorId dataSourceConfig driveFolderId startSyncTs
         nextPageToken connector authCredentials,
    find (fun c => ConnectorResource.id c =? connectorId) (connectors w)
      = Some connector ->
    getAuthObject env (ConnectorResource.connectionId connector)
      = Ok authCredentials ->
    getGoogleDriveObject env authCredentials driveFolderId = Ok None ->
    syncFiles env connectorId dataSourceConfig driveFolderId startSyncTs
      nextPageToken w
    = (Ok (SyncFilesResult.mk None 0 []),
       withTrace
         (trace w
          ++ [CallGetAuthObject (ConnectorResource.connectionId connector);
              CallGetGoogleDriveObject driveFolderId;
              LogInfo "Google Drive Folder unexpectedly not found (got 404)"])
         w).
Proof.
  intros env w connectorId dsc driveFolderId ts token connector auth Hc Ha Hg.
  unfold syncFiles. run. rewrite Hc, Ha. simpl. rewrite Hg. simpl.
  unfold withTrace. simpl. rewrite <- !app_assoc. reflexivity.
Qed.

Lemma syncFiles_folder_not_found_witness :
  syncFiles lostDriveEnv 1 "workspace1" "folder1" 100 (Some "page2")
    revisitWorld
  = (Ok (SyncFilesResult.mk None 0 []),
     withTrace
       (trace revisitWorld
        ++ [CallGetAuthObject "connection1";
            CallGetGoogleDriveObject "folder1";
            LogInfo "Google Drive Folder unexpectedly not found (got 404)"])
       revisitWorld).
Proof.
  apply (@syncFiles_folder_not_found lostDriveEnv revisitWorld 1 "workspace1"
           "folder1" 100 (Some "page2") connector1 "connection1");
    reflexivity.
Defined.

(** ** Marking a folder as visited *)

Lemma In_upsertFile f fs : In f (upsertFile f fs).
Proof.
  unfold upsertFile.
  destruct (existsb _ fs) eqn:E.
  - apply existsb_exists in E. destruct E as (x & Hx & Hs).
    apply in_map_iff. exists x. now rewrite Hs.
  - apply in_app_iff. right. now left.
Qed.

Lemma sameFile_refl f :
  sameFile (GoogleDriveFiles.connectorId f) (GoogleDriveFiles.driveFileId f) f
  = true.
Proof. unfold sameFile. now rewrite Z.eqb_refl, String.eqb_refl. Qed.

Lemma findFile_upsertFile f fs :
  findFile (GoogleDriveFiles.connectorId f) (GoogleDriveFiles.driveFileId f)
    (upsertFile f fs) = Some f.
Proof.
  unfold findFile, upsertFile.
  destruct (existsb _ fs) eqn:E.
  - induction fs as [|g fs IH]; simpl in *; [discriminate|].
    destruct (sameFile _ _ g) eqn:Eg; simpl.
    + now rewrite sameFile_refl.
    + rewrite Eg. apply IH. exact E.
  - induction fs as [|g fs IH]; simpl in *.
    + now rewrite sameFile_refl.
    + apply orb_false_elim in E. destruct E as [Eg E].
      rewrite Eg. apply IH. exact E.
Qed.

Lemma upsertFile_keys f fs :
  map fileKey (upsertFile f fs)
  = if existsb (sameFile (GoogleDriveFiles.connectorId f)
                  (GoogleDriveFiles.driveFileId f)) fs
    then map fileKey fs
    else map fileKey fs ++ [fileKey f].
Proof.
  unfold upsertFile. destruct (existsb _ fs).
  - rewrite map_map. apply map_ext. intros g.
    destruct (sameFile _ _ g) eqn:E; [|reflexivity].
    apply sameFile_fileKey in E. now rewrite E.
  - now rewrite map_app.
Qed.

Lemma upsertFile_NoDup f fs :
  NoDup (map fileKey fs) -> NoDup (map fileKey (upsertFile f fs)).
Proof.
  intros H. rewrite upsertFile_keys.
  destruct (existsb _ fs) eqn:E; [exact H|].
  apply NoDup_app; [exact H | repeat constructor; intros [] |].
  intros k Hk [<-|[]]. apply in_map_iff in Hk.
  destruct Hk as (g & Hg & Hin).
  assert (sameFile (GoogleDriveFiles.connectorId f)
            (GoogleDriveFiles.driveFileId f) g = true)
    by now apply sameFile_fileKey.
  assert (existsb (sameFile (GoogleDriveFiles.connectorId f)
                     (GoogleDriveFiles.driveFileId f)) fs = true)
    by (apply existsb_exists; now exists g).
  congruence.
Qed.

Lemma upsertFile_others f fs r :
  In r fs ->
  sameFile (GoogleDriveFiles.connectorId f) (GoogleDriveFiles.driveFileId f) r
  = false ->
  In r (upsertFile f fs).
Proof.
  intros Hin Hs. unfold upsertFile. destruct (existsb _ fs).
  - apply in_map_iff. exists r. now rewrite Hs.
  - apply in_app_iff. now left.
Qed.

(** The run of [markFolderAsVisited] on a folder that the remote has. *)
Lemma markFolderAsVisited_run env w connectorId driveFileId connector auth
  file :
  find (fun c => ConnectorResource.id c =? connectorId) (connectors w)
    = Some connector ->
  getAuthObject env (ConnectorResource.connectionId connector) = Ok auth ->
  getGoogleDriveObject env auth driveFileId = Ok (Some file) ->
  markFolderAsVisited env connectorId driveFileId w
  = (Ok tt,
     withFiles
       (upsertFile
          (GoogleDriveFiles.mk connectorId (getDocumentId env driveFileId)
             (GoogleDriveObjectType.id file) (GoogleDriveObjectType.name file)
             (GoogleDriveObjectType.mimeType file)
             (GoogleDriveObjectType.parent file)
             (Some (clock env (clockReads w))))
          (googleDriveFiles w))
       (withClockReads (S (clockReads w))
          (withTrace
             (trace w
              ++ [CallGetAuthObject (ConnectorResource.connectionId connector);
                  CallGetGoogleDriveObject driveFileId]) w))).
Proof.
  intros Hc Ha Hg. unfold markFolderAsVisited, now. run.
  rewrite Hc, Ha. simpl. rewrite Hg. simpl.
  unfold withFiles, withClockReads, withTrace. simpl.
  rewrite <- !app_assoc. reflexivity.
Qed.

(** X2.  [markFolderAsVisited] on a folder that the remote has upserts its
    mirror row: afterwards the row of the folder is the one just written,
    stamped with the clock; every row of another key is still there; and a
    mirror store that had one row per key still has.  Nothing else
    changes. *)
Theorem markFolderAsVisited_upserts_marker :
  forall env w connectorId driveFileId connector authCredentials file,
    find (fun c => ConnectorResource.id c =? connectorId) (connectors w)
      = Some connector ->
    getAuthObject env (ConnectorResource.connectionId connector)
      = Ok authCredentials ->
    getGoogleDriveObject env authCredentials driveFileId = Ok (Some file) ->
    let w' := snd (markFolderAsVisited env connectorId driveFileId w) in
    let marker :=
      GoogleDriveFiles.mk connectorId (getDocumentId env driveFileId)
        (GoogleDriveObjectType.id file) (GoogleDriveObjectType.name file)
        (GoogleDriveObjectType.mimeType file)
        (GoogleDriveObjectType.parent file)
        (Some (clock env (clockReads w))) in
    fst (markFolderAsVisited env connectorId driveFileId w) = Ok tt
    /\ findFile connectorId (GoogleDriveObjectType.id file)
         (googleDriveFiles w') = Some marker
    /\ (forall r, In r (googleDriveFiles w) ->
          fileKey r <> (connectorId, GoogleDriveObjectType.id file) ->
          In r (googleDriveFiles w'))
    /\ (forall r, In r (googleDriveFiles w') ->
          r = marker \/ In r (googleDriveFiles w))
    /\ (NoDup (map fileKey (googleDriveFiles w)) ->
        NoDup (map fileKey (googleDriveFiles w')))
    /\ googleDriveSyncTokens w' = googleDriveSyncTokens w
    /\ googleDriveWebhooks w' = googleDriveWebhooks w
    /\ dataSource w' = dataSource w.
Proof.
  intros env w connectorId driveFileId connector auth file Hc Ha Hg w' marker.
  subst w'.
  rewrite (@markFolderAsVisited_run env w connectorId driveFileId connector
             auth file Hc Ha Hg).
  cbn [fst snd googleDriveFiles googleDriveSyncTokens googleDriveWebhooks
       dataSource withFiles withClockReads withTrace].
  fold marker.
  split; [reflexivity|split; [|split; [|split; [|split]]]].
  - apply (findFile_upsertFile marker).
  - intros r Hr Hk. apply upsertFile_others; [exact Hr|].
    now apply sameFile_false.
  - intros r Hr. unfold upsertFile in Hr. destruct (existsb _ _).
    + apply in_map_iff in Hr. destruct Hr as (g & Hg' & Hin).
      destruct (sameFile _ _ g); [left; now symmetry | right; now subst].
    + apply in_app_iff in Hr. destruct Hr as [Hr|[<-|[]]]; auto.
  - apply upsertFile_NoDup.
  - repeat split.
Qed.

Lemma markFolderAsVisited_upserts_marker_witness :
  fst (markFolderAsVisited revisitEnv 1 "folder1" revisitWorld) = Ok tt
  /\ findFile 1
       (GoogleDriveObjectType.id
          (remoteObject "folder1" None folderMimeType false))
       (googleDriveFiles
          (snd (markFolderAsVisited revisitEnv 1 "folder1" revisitWorld)))
     = Some (GoogleDriveFiles.mk 1 (getDocumentId revisitEnv "folder1")
               "folder1" "folder1" folderMimeType None
               (Some (clock revisitEnv (clockReads revisitWorld)))).
Proof.
  split;
    apply (@markFolderAsVisited_upserts_marker revisitEnv revisitWorld 1
             "folder1" connector1 "connection1"
             (remoteObject "folder1" None folderMimeType false));
    reflexivity.
Defined.

(** X3.  A folder marked as visited at or after the start of the
    generation stops the next full sync of that generation: after
    [markFolderAsVisited], [syncFiles] on the same folder without a page
    token returns the empty result, having fetched the folder and nothing
    else. *)
Theorem markFolderAsVisited_stops_syncFiles :
  forall env w connectorId dataSourceConfig driveFolderId startSyncTs
         connector authCredentials driveFolder,
    find (fun c => ConnectorResource.id c =? connectorId) (connectors w)
      = Some connector ->
    getAuthObject env (ConnectorResource.connectionId connector)
      = Ok authCredentials ->
    getGoogleDriveObject env authCredentials driveFolderId
      = Ok (Some driveFolder) ->
    startSyncTs <= clock env (clockReads w) ->
    let w1 := snd (markFolderAsVisited env connectorId driveFolderId w) in
    syncFiles env connectorId dataSourceConfig driveFolderId startSyncTs None
      w1
    = (Ok (SyncFilesResult.mk None 0 []),
       withTrace
         (trace w1
          ++ [CallGetAuthObject (ConnectorResource.connectionId connector);
              CallGetGoogleDriveObject driveFolderId]) w1).
Proof.
  intros env w connectorId dsc driveFolderId ts connector auth driveFolder
    Hc Ha Hg Hts w1.
  subst w1.
  rewrite (@markFolderAsVisited_run env w connectorId driveFolderId connector
             auth driveFolder Hc Ha Hg).
  cbn [snd].
  set (marker := GoogleDriveFiles.mk connectorId
                   (getDocumentId env driveFolderId)
                   (GoogleDriveObjectType.id driveFolder)
                   (GoogleDriveObjectType.name driveFolder)
                   (GoogleDriveObjectType.mimeType driveFolder)
                   (GoogleDriveObjectType.parent driveFolder)
                   (Some (clock env (clockReads w)))).
  destruct (find_In_true
              (fun f => sameFile connectorId
                          (GoogleDriveObjectType.id driveFolder) f
                        && seenSince ts f)
              (upsertFile marker (googleDriveFiles w)) marker
              (In_upsertFile marker (googleDriveFiles w))) as [v Hv].
  { apply andb_true_iff. split; [exact (sameFile_refl marker)|].
    unfold seenSince. simpl. now apply Z.leb_le. }
  unfold syncFiles. run. rewrite Hc, Ha. simpl. rewrite Hg. simpl.
  fold marker. rewrite Hv.
  unfold withTrace. simpl. rewrite <- !app_assoc. reflexivity.
Qed.

Lemma markFolderAsVisited_stops_syncFiles_witness :
  syncFiles revisitEnv 1 "workspace1" "folder1" 5000 None
    (snd (markFolderAsVisited revisitEnv 1 "folder1" (smallWorld [] [] [] [])))
  = (Ok (SyncFilesResult.mk None 0 []),
     withTrace
       (trace (snd (markFolderAsVisited revisitEnv 1 "folder1"
                      (smallWorld [] [] [] [])))
        ++ [CallGetAuthObject "connection1";
            CallGetGoogleDriveObject "folder1"])
       (snd (markFolderAsVisited revisitEnv 1 "folder1"
               (smallWorld [] [] [] [])))).
Proof.
  apply (@markFolderAsVisited_stops_syncFiles revisitEnv
           (smallWorld [] [] [] []) 1 "workspace1" "folder1" 5000 connector1
           "connection1" (remoteObject "folder1" None folderMimeType false)).
  - reflexivity.
  - reflexivity.
  - reflexivity.
  - vm_compute. discriminate.
Defined.

(** ** Full sync: the page of a folder *)

Lemma withTrace_nil w : withTrace (trace w ++ []) w = w.
Proof. destruct w. unfold withTrace. simpl. now rewrite app_nil_r. Qed.

Lemma withTrace_withTrace w t1 t2 :
  withTrace (trace (withTrace (trace w ++ t1) w) ++ t2)
    (withTrace (trace w ++ t1) w)
  = withTrace (trace w ++ t1 ++ t2) w.
Proof. unfold withTrace. simpl. now rewrite app_assoc. Qed.

Section TracesOnly.
Variable P : Event -> bool.

Lemma tracesOnly_ret A (a : A) : tracesOnly P (ret a).
Proof. intros w. exists []. split; [symmetry; apply withTrace_nil|easy]. Qed.

Lemma tracesOnly_throw A e : tracesOnly P (@throw A e).
Proof. intros w. exists []. split; [symmetry; apply withTrace_nil|easy]. Qed.

Lemma tracesOnly_gets A (f : World -> A) : tracesOnly P (gets f).
Proof. intros w. exists []. split; [symmetry; apply withTrace_nil|easy]. Qed.

Lemma tracesOnly_call A e (r : Result A) :
  P e = true -> tracesOnly P (call e r).
Proof. intros He w. exists [e]. simpl. now rewrite He. Qed.

Lemma tracesOnly_emit e : P e = true -> tracesOnly P (emit e).
Proof. intros He w. exists [e]. simpl. now rewrite He. Qed.

Lemma tracesOnly_bind A B (m : M A) (k : A -> M B) :
  tracesOnly P m -> (forall a, tracesOnly P (k a)) -> tracesOnly P (bind m k).
Proof.
  intros Hm Hk w. unfold bind. destruct (Hm w) as (t1 & E1 & P1).
  destruct (m w) as [[a|e] w1]; simpl in *.
  - destruct (Hk a w1) as (t2 & E2 & P2). exists (t1 ++ t2).
    rewrite E2, E1, withTrace_withTrace, forallb_app, P1, P2. now split.
  - now exists t1.
Qed.

Lemma tracesOnly_promiseAllMap A B (xs : list A) (f : A -> M B) :
  (forall x, tracesOnly P (f x)) -> tracesOnly P (promiseAllMap xs f).
Proof.
  intros Hf. induction xs as [|x xs IH]; intros w; simpl.
  - exists []. split; [symmetry; apply withTrace_nil|reflexivity].
  - destruct (Hf x w) as (t1 & E1 & P1). destruct (f x w) as [r w1].
    destruct (IH w1) as (t2 & E2 & P2).
    destruct (promiseAllMap xs f w1) as [rs w2]. cbn [snd] in *.
    exists (t1 ++ t2).
    rewrite E2, E1, withTrace_withTrace, forallb_app, P1, P2. now split.
Qed.
End TracesOnly.

(** [Promise.all] rejects when one of the items always does. *)
Lemma promiseAllMap_Throw A B (f : A -> M B) x xs :
  In x xs -> (forall w, exists e, fst (f x w) = Throw e) ->
  forall w, exists e, fst (promiseAllMap xs f w) = Throw e.
Proof.
  intros Hin Hx. induction xs as [|a xs IH]; [destruct Hin|].
  intros w. simpl.
  destruct (f a w) as [[y|e] w1] eqn:Ea.
  - destruct Hin as [->|Hin].
    + destruct (Hx w) as [e He]. rewrite Ea in He. discriminate.
    + destruct (IH Hin w1) as [e He].
      destruct (promiseAllMap xs f w1) as [[ys|e'] w2]; simpl in *;
        [discriminate|]. now exists e'.
  - destruct (promiseAllMap xs f w1) as [rs w2]. now exists e.
Qed.

(** What a returned [Promise.all] holds: the results of the items, in
    their order. *)
Lemma promiseAllMap_Ok A B (f : A -> M B) xs : forall w ys w',
  promiseAllMap xs f w = (Ok ys, w') ->
  Forall2 (fun x y => exists w1 w2, f x w1 = (Ok y, w2)) xs ys.
Proof.
  induction xs as [|a xs IH]; intros w ys w' H; simpl in H.
  - inversion H. constructor.
  - destruct (f a w) as [[y|e] w1] eqn:Ea.
    + destruct (promiseAllMap xs f w1) as [[ys'|e] w2] eqn:E;
        [|discriminate].
      inversion H. subst. constructor; [now exists w, w1|].
      exact (IH _ _ _ E).
    + destruct (promiseAllMap xs f w1) as [rs w2]. discriminate.
Qed.

(** The run of [syncFiles] up to the listing of a page of the folder. *)
Lemma syncFiles_lists env w connectorId dsc driveFolderId ts token connector
  auth driveFolder drive res files :
  find (fun c => ConnectorResource.id c =? connectorId) (connectors w)
    = Some connector ->
  getAuthObject env (ConnectorResource.connectionId connector) = Ok auth ->
  getGoogleDriveObject env auth driveFolderId = Ok (Some driveFolder) ->
  (token = None ->
   find (fun f => sameFile connectorId (GoogleDriveObjectType.id driveFolder) f
                  && seenSince ts f) (googleDriveFiles w) = None) ->
  getDriveClient env auth = Ok drive ->
  files_list env drive (GoogleDriveObjectType.id driveFolder)
    (mimeTypesToSyncOf env connectorId w) token = Ok res ->
  FileList.status res = 200 ->
  FileList.files res = Some files ->
  syncFiles env connectorId dsc driveFolderId ts token w
  = (filesToSync <-
       promiseAllMap
         (filter (fun file => truthy (SchemaFile.id file)
                              && truthy (SchemaFile.createdTime file)) files)
         (fun file =>
            if negb (truthy (SchemaFile.id file))
               || negb (truthy (SchemaFile.createdTime file))
               || negb (truthy (SchemaFile.name file))
               || negb (truthy (SchemaFile.mimeType file))
            then invalidFile env file
            else call (CallDriveObjectToDustType (SchemaFile.id file))
                   (driveObjectToDustType env file auth)) ;;
     results <-
       promiseAllMap filesToSync
         (fun file =>
            if negb (GoogleDriveObjectType.trashed file)
            then callSyncOneFile env connectorId auth dsc file ts true
            else deleteOneFile env connectorId file ;;; ret false) ;;
     ret (SyncFilesResult.mk
            (if truthy (FileList.nextPageToken res)
             then FileList.nextPageToken res else None)
            (List.length (filter (fun r : bool => r) results))
            (map GoogleDriveObjectType.id
               (filter (fun file => (GoogleDriveObjectType.mimeType file
                                     =? folderMimeType)%string) filesToSync))))
      (withTrace
         (trace w
          ++ [CallGetAuthObject (ConnectorResource.connectionId connector);
              CallGetGoogleDriveObject driveFolderId;
              CallGetDriveClient auth;
              CallFilesList (GoogleDriveObjectType.id driveFolder) token]) w).
Proof.
  intros Hc Ha Hg Hv Hd Hl Hs Hf. unfold mimeTypesToSyncOf in Hl.
  unfold syncFiles, findConfig. run. rewrite Hc, Ha. simpl. rewrite Hg.
  simpl.
  destruct token as [token|]; simpl; [|rewrite (Hv eq_refl)]; rewrite Hd;
    simpl;
    rewrite Hl; simpl; rewrite Hs, Hf; simpl;
    unfold withTrace; simpl; rewrite <- !app_assoc; reflexivity.
Qed.

(** X4.  [syncFiles] checks the whole page before it syncs any of it: when
    the listing holds a file with an id and a creation time but no name or
    no MIME type, the activity throws without a call of [syncOneFile], and
    leaves every table as it was. *)
Theorem syncFiles_invalid_listed_file :
  forall env w connectorId dataSourceConfig driveFolderId startSyncTs
         nextPageToken connector authCredentials driveFolder drive res files
         file,
    find (fun c => ConnectorResource.id c =? connectorId) (connectors w)
      = Some connector ->
    getAuthObject env (ConnectorResource.connectionId connector)
      = Ok authCredentials ->
    getGoogleDriveObject env authCredentials driveFolderId
      = Ok (Some driveFolder) ->
    (nextPageToken = None ->
     find (fun f =>
             sameFile connectorId (GoogleDriveObjectType.id driveFolder) f
             && seenSince startSyncTs f) (googleDriveFiles w) = None) ->
    getDriveClient env authCredentials = Ok drive ->
    files_list env drive (GoogleDriveObjectType.id driveFolder)
      (mimeTypesToSyncOf env connectorId w) nextPageToken = Ok res ->
    FileList.status res = 200 ->
    FileList.files res = Some files ->
    In file files ->
    truthy (SchemaFile.id file) = true ->
    truthy (SchemaFile.createdTime file) = true ->
    truthy (SchemaFile.name file) && truthy (SchemaFile.mimeType file)
      = false ->
    exists e t,
      syncFiles env connectorId dataSourceConfig driveFolderId startSyncTs
        nextPageToken w
      = (Throw e, withTrace (trace w ++ t) w)
      /\ existsb isSyncOneFileCall t = false.
Proof.
  intros env w connectorId dsc driveFolderId ts token connector auth
    driveFolder drive res files file Hc Ha Hg Hv Hd Hl Hs Hf Hin Hid Hct Hnm.
  rewrite (@syncFiles_lists env w connectorId dsc driveFolderId ts token
             connector auth driveFolder drive res files Hc Ha Hg Hv Hd Hl Hs
             Hf).
  set (w1 := withTrace _ w).
  set (check := fun file0 : SchemaFile.t => _ : M GoogleDriveObjectType.t).
  set (listed := filter _ files).
  assert (Hthrow : exists e, fst (promiseAllMap listed check w1) = Throw e).
  { apply promiseAllMap_Throw with (x := file).
    - apply filter_In. split; [exact Hin|]. now rewrite Hid, Hct.
    - intros w0. subst check. cbv beta. rewrite Hid, Hct.
      apply andb_false_iff in Hnm. destruct Hnm as [-> | ->]; simpl;
        [|rewrite orb_true_r]; eexists; reflexivity. }
  assert (Hquiet : tracesOnly (fun e => negb (isSyncOneFileCall e))
                     (promiseAllMap listed check)).
  { apply tracesOnly_promiseAllMap. intros x. subst check. cbv beta.
    destruct (_ || _).
    - apply tracesOnly_throw.
    - now apply tracesOnly_call. }
  destruct Hthrow as [e He]. destruct (Hquiet w1) as (t & Et & Pt).
  unfold bind at 1.
  destruct (promiseAllMap listed check w1) as [[ys|e'] w2];
    cbn [fst snd] in *; [discriminate|].
  inversion He. subst e'. rewrite Et. subst w1.
  eexists e, (_ ++ t). rewrite withTrace_withTrace. split; [reflexivity|].
  rewrite existsb_app. cbn [existsb isSyncOneFileCall orb].
  clear - Pt. induction t as [|x t IH]; simpl in *; [reflexivity|].
  apply andb_true_iff in Pt. destruct Pt as [Px Pt].
  apply negb_true_iff in Px. now rewrite Px, IH.
Qed.

Lemma syncFiles_invalid_listed_file_witness :
  exists e t,
    syncFiles namelessEnv 1 "workspace1" "folder1" 100 None
      (smallWorld [] [] [] [])
    = (Throw e,
       withTrace (trace (smallWorld [] [] [] []) ++ t)
         (smallWorld [] [] [] []))
    /\ existsb isSyncOneFileCall t = false.
Proof.
  apply (@syncFiles_invalid_listed_file namelessEnv (smallWorld [] [] [] [])
           1 "workspace1" "folder1" 100 None connector1 "connection1"
           (remoteObject "folder1" None folderMimeType false) "connection1"
           (FileList.mk 200 "OK"
              (Some [listedFile "doc1" documentMimeType; namelessFile])
              (Some "page2"))
           [listedFile "doc1" documentMimeType; namelessFile] namelessFile);
    try reflexivity.
  right. left. reflexivity.
Defined.

(** X5.  What [syncFiles] returns for a page that it went through: the
    listed files that have an id and a creation time were all converted;
    [subfolders] are the folders among the converted objects, in the order
    of the listing, trashed or not; [count] is at most the number of
    converted objects that are not trashed; and [nextPageToken] is the
    token of the listing, or nothing when the listing gives none or the
    empty string. *)
Theorem syncFiles_page_result :
  forall env w connectorId dataSourceConfig driveFolderId startSyncTs
         nextPageToken connector authCredentials driveFolder drive res files
         r,
    find (fun c => ConnectorResource.id c =? connectorId) (connectors w)
      = Some connector ->
    getAuthObject env (ConnectorResource.connectionId connector)
      = Ok authCredentials ->
    getGoogleDriveObject env authCredentials driveFolderId
      = Ok (Some driveFolder) ->
    (nextPageToken = None ->
     find (fun f =>
             sameFile connectorId (GoogleDriveObjectType.id driveFolder) f
             && seenSince startSyncTs f) (googleDriveFiles w) = None) ->
    getDriveClient env authCredentials = Ok drive ->
    files_list env drive (GoogleDriveObjectType.id driveFolder)
      (mimeTypesToSyncOf env connectorId w) nextPageToken = Ok res ->
    FileList.status res = 200 ->
    FileList.files res = Some files ->
    fst (syncFiles env connectorId dataSourceConfig driveFolderId startSyncTs
           nextPageToken w) = Ok r ->
    exists converted,
      map (fun file => driveObjectToDustType env file authCredentials)
        (filter (fun file => truthy (SchemaFile.id file)
                             && truthy (SchemaFile.createdTime file)) files)
      = map Ok converted
      /\ SyncFilesResult.subfolders r
         = map GoogleDriveObjectType.id
             (filter (fun o => (GoogleDriveObjectType.mimeType o
                                =? folderMimeType)%string) converted)
      /\ (SyncFilesResult.count r
          <= List.length
               (filter (fun o => negb (GoogleDriveObjectType.trashed o))
                  converted))%nat
      /\ SyncFilesResult.nextPageToken r <> Some ""
      /\ (SyncFilesResult.nextPageToken r = None
          \/ SyncFilesResult.nextPageToken r = FileList.nextPageToken res).
Proof.
  intros env w connectorId dsc driveFolderId ts token connector auth
    driveFolder drive res files r Hc Ha Hg Hv Hd Hl Hs Hf Hr.
  rewrite (@syncFiles_lists env w connectorId dsc driveFolderId ts token
             connector auth driveFolder drive res files Hc Ha Hg Hv Hd Hl Hs
             Hf) in Hr.
  destruct (bind _ _ _) as [r0 w'] eqn:H in Hr. cbn [fst] in Hr. subst r0.
  step H converted w1 H1; [|discriminate].
  step H results w2 H2; [|discriminate].
  unfold ret in H. inversion H. subst. clear H.
  apply promiseAllMap_Ok in H1. apply promiseAllMap_Ok in H2.
  exists converted. cbn [SyncFilesResult.subfolders SyncFilesResult.count
    SyncFilesResult.nextPageToken].
  split; [|split; [reflexivity|split; [|split]]].
  - clear - H1. induction H1 as [|x y xs ys (u1 & u2 & Hx) _ IH];
      [reflexivity|].
    simpl. rewrite IH. f_equal.
    destruct (_ || _); [discriminate|]. unfold call in Hx. now inversion Hx.
  - clear - H2. induction H2 as [|x y xs ys (u1 & u2 & Hx) _ IH];
      [apply le_n|].
    simpl. destruct (GoogleDriveObjectType.trashed x); simpl in *.
    + step Hx a u3 Hx1; [|discriminate]. unfold ret in Hx. inversion Hx.
      subst. exact IH.
    + destruct y; simpl; lia.
  - destruct (FileList.nextPageToken res) as [t|]; simpl; [|discriminate].
    destruct (t =? "")%string eqn:E; simpl; [discriminate|].
    intros X. inversion X. subst. discriminate.
  - destruct (truthy (FileList.nextPageToken res)); auto.
Qed.

Lemma syncFiles_page_result_witness :
  exists converted,
    map (fun file => driveObjectToDustType firstVisitEnv file "connection1")
      (filter (fun file => truthy (SchemaFile.id file)
                           && truthy (SchemaFile.createdTime file))
         [listedFile "doc1" documentMimeType;
          listedFile "folder2" folderMimeType])
    = map Ok converted
    /\ SyncFilesResult.subfolders (SyncFilesResult.mk None 2 ["folder2"])
       = map GoogleDriveObjectType.id
           (filter (fun o => (GoogleDriveObjectType.mimeType o
                              =? folderMimeType)%string) converted)
    /\ (SyncFilesResult.count (SyncFilesResult.mk None 2 ["folder2"])
        <= List.length
             (filter (fun o => negb (GoogleDriveObjectType.trashed o))
                converted))%nat
    /\ SyncFilesResult.nextPageToken (SyncFilesResult.mk None 2 ["folder2"])
       <> Some ""
    /\ (SyncFilesResult.nextPageToken (SyncFilesResult.mk None 2 ["folder2"])
        = None
        \/ SyncFilesResult.nextPageToken
             (SyncFilesResult.mk None 2 ["folder2"])
           = FileList.nextPageToken
               (FileList.mk 200 "OK"
                  (Some [listedFile "doc1" documentMimeType;
                         listedFile "folder2" folderMimeType]) None)).
Proof.
  apply (@syncFiles_page_result firstVisitEnv (smallWorld [] [] [] []) 1
           "workspace1" "folder1" 100 None connector1 "connection1"
           (remoteObject "folder1" None folderMimeType false) "connection1"
           (FileList.mk 200 "OK"
              (Some [listedFile "doc1" documentMimeType;
                     listedFile "folder2" folderMimeType]) None)
           [listedFile "doc1" documentMimeType;
            listedFile "folder2" folderMimeType]
           (SyncFilesResult.mk None 2 ["folder2"]));
    reflexivity.
Defined.

(** ** The cursor of a drive *)

(** X6.  [getSyncPageToken] reads and never writes.  A persisted cursor is
    returned as it is, with no call to the remote.  Without one the
    activity asks the remote for a start token: whatever comes of it, no
    table changes, so the drive still has no persisted cursor; and a
    returned token is the non-empty start token of a 200 answer, asked for
    the drive itself when it is a shared drive. *)
Theorem getSyncPageToken_reads_only :
  forall env w connectorId driveId isSharedDrive connector,
    find (fun c => ConnectorResource.id c =? connectorId) (connectors w)
      = Some connector ->
    let run := getSyncPageToken env connectorId driveId isSharedDrive w in
    (forall t, persistedCursor connectorId driveId w = Some t ->
               run = (Ok t, w))
    /\ googleDriveSyncTokens (snd run) = googleDriveSyncTokens w
    /\ googleDriveFiles (snd run) = googleDriveFiles w
    /\ googleDriveWebhooks (snd run) = googleDriveWebhooks w
    /\ dataSource (snd run) = dataSource w
    /\ (persistedCursor connectorId driveId w = None ->
        forall t, fst run = Ok t ->
          t <> ""
          /\ exists driveClient res,
               getDriveClient env (ConnectorResource.connectionId connector)
                 = Ok driveClient
               /\ changes_getStartPageToken env driveClient
                    (if isSharedDrive then Some driveId else None) = Ok res
               /\ StartPageToken.status res = 200
               /\ StartPageToken.startPageToken res = Some t).
Proof.
  intros env w connectorId driveId isSharedDrive connector Hc run.
  split; [|split; [|split; [|split; [|split]]]];
    try (subst run; apply keeps_getSyncPageToken; reflexivity).
  - intros t Ht. subst run. unfold persistedCursor in Ht.
    unfold getSyncPageToken. run. rewrite Hc.
    destruct (findSyncToken connectorId driveId (googleDriveSyncTokens w));
      [|discriminate].
    simpl in Ht. now inversion Ht.
  - intros Hnone t Ht. subst run. unfold persistedCursor in Hnone.
    unfold getSyncPageToken in Ht. run. rewrite Hc in Ht.
    destruct (findSyncToken connectorId driveId (googleDriveSyncTokens w));
      [discriminate|].
    destruct (getDriveClient env (ConnectorResource.connectionId connector))
      as [driveClient|e] eqn:Hd; [|discriminate].
    simpl in Ht.
    destruct (changes_getStartPageToken env driveClient
                (if isSharedDrive then Some driveId else None))
      as [res|e] eqn:Hst; [|discriminate].
    simpl in Ht.
    destruct (StartPageToken.status res =? 200) eqn:Hs; [|discriminate].
    simpl in Ht.
    destruct (StartPageToken.startPageToken res) as [t'|] eqn:Hres;
      [|discriminate].
    destruct (t' =? "")%string eqn:Hne; [discriminate|].
    simpl in Ht. inversion Ht. subst t'.
    split; [now apply String.eqb_neq|].
    exists driveClient, res. apply Z.eqb_eq in Hs.
    split; [reflexivity|split; [exact Hst|split; [exact Hs|exact Hres]]].
Qed.

Lemma getSyncPageToken_reads_only_witness :
  getSyncPageToken midFeedEnv 1 "drive1" false midFeedWorld
  = (Ok "page1", midFeedWorld).
Proof.
  apply (@getSyncPageToken_reads_only midFeedEnv midFeedWorld 1 "drive1"
           false connector1);
    reflexivity.
Defined.

(** ** Incremental sync: what the loop does with an entry *)

Lemma match_file A (s : string) (a b : A) :
  match s with
  | "file" => a
  | _ => b
  end = if (s =? "file")%string then a else b.
Proof.
  destruct s as [|[[] [] [] [] [] [] [] []] s]; try reflexivity.
  destruct s as [|[[] [] [] [] [] [] [] []] s]; try reflexivity.
  destruct s as [|[[] [] [] [] [] [] [] []] s]; try reflexivity.
  destruct s as [|[[] [] [] [] [] [] [] []] s]; try reflexivity.
  destruct s; reflexivity.
Qed.

(** X7.  The loop of [incrementalSync] ignores an entry that does not pass
    its filters: an entry that is not a file change, or has no file, or
    whose file has no MIME type or one that is not synced, or has no id,
    costs a heartbeat and nothing else. *)
Theorem incrementalSync_change_filtered_out :
  forall env connectorId dataSourceConfig startSyncTs mimeTypesToSync
         selectedFoldersIds authCredentials change w,
    (forall file id, ~ passesFilters mimeTypesToSync change file id) ->
    incrementalSync_change env connectorId dataSourceConfig startSyncTs
      mimeTypesToSync selectedFoldersIds authCredentials change w
    = (Ok tt, withTrace (trace w ++ [CallHeartbeat]) w).
Proof.
  intros env connectorId dsc ts mimeTypes folders auth change w Hno.
  unfold incrementalSync_change, heartbeat, emit, modify.
  unfold bind at 1.
  destruct (SchemaChange.changeType change) as [s|] eqn:Hct;
    [|reflexivity].
  rewrite match_file.
  destruct (String.eqb_spec s "file") as [->|Hs];
    [|destruct (SchemaChange.file change); reflexivity].
  destruct (SchemaChange.file change) as [file|] eqn:Hf; [|reflexivity].
  destruct (SchemaFile.mimeType file) as [mimeType|] eqn:Hm; [|reflexivity].
  cbn [truthy].
  destruct (String.eqb_spec mimeType "") as [->|Hne]; [reflexivity|].
  destruct (includes mimeTypes mimeType) eqn:Hinc; [|reflexivity].
  destruct (SchemaFile.id file) as [id|] eqn:Hid; [|reflexivity].
  cbn [negb orb].
  destruct (String.eqb_spec id "") as [->|Hidne]; [reflexivity|].
  exfalso. apply (Hno file id). unfold passesFilters.
  split; [exact Hct|split; [exact Hf|split; [|split; assumption]]].
  now exists mimeType.
Qed.

Lemma incrementalSync_change_filtered_out_witness :
  incrementalSync_change trashedEnv 1 "workspace1" 100
    (getMimeTypesToSync trashedEnv false) ["folder1"] "connection1"
    changeWithoutId trashedWorld
  = (Ok tt, withTrace (trace trashedWorld ++ [CallHeartbeat]) trashedWorld).
Proof.
  apply (@incrementalSync_change_filtered_out trashedEnv 1 "workspace1" 100
           (getMimeTypesToSync trashedEnv false) ["folder1"] "connection1"
           changeWithoutId trashedWorld).
  intros file id (_ & Hf & _ & Hid & _). simpl in Hf. inversion Hf.
  subst file. simpl in Hid. discriminate.
Defined.

(** X8.  An entry that passed the filters, whose file is in the watched
    scope, not trashed, and has a name and a creation time, is synced.  A
    folder only gets its mirror row upserted, stamped with the clock: no
    content is pushed and the downstream index is left alone.  Any other
    file goes to [syncOneFile], not as a batch; the loop body throws what
    it throws and otherwise returns, whatever boolean it gave. *)
Theorem incrementalSync_change_in_scope :
  forall env connectorId dataSourceConfig startSyncTs mimeTypesToSync
         selectedFoldersIds authCredentials change file id dustFile parents w,
    passesFilters mimeTypesToSync change file id ->
    driveObjectToDustType env file authCredentials = Ok dustFile ->
    getFileParentsMemoized env connectorId authCredentials dustFile startSyncTs
      = Ok parents ->
    anyInFolders selectedFoldersIds parents = true ->
    changeTrashed file = false ->
    truthy (SchemaFile.createdTime file) = true ->
    truthy (SchemaFile.name file) = true ->
    let run := incrementalSync_change env connectorId dataSourceConfig
                 startSyncTs mimeTypesToSync selectedFoldersIds
                 authCredentials change w in
    let reached :=
      [CallHeartbeat; CallDriveObjectToDustType (Some id);
       CallGetFileParentsMemoized connectorId
         (GoogleDriveObjectType.id dustFile) startSyncTs;
       LogInfo "will sync file"; CallDriveObjectToDustType (Some id)] in
    (GoogleDriveObjectType.mimeType dustFile = folderMimeType ->
     fst run = Ok tt
     /\ googleDriveFiles (snd run)
        = upsertFile
            (GoogleDriveFiles.mk connectorId
               (getDocumentId env (GoogleDriveObjectType.id dustFile))
               (GoogleDriveObjectType.id dustFile)
               (GoogleDriveObjectType.name dustFile)
               (GoogleDriveObjectType.mimeType dustFile)
               (GoogleDriveObjectType.parent dustFile)
               (Some (clock env (clockReads w))))
            (googleDriveFiles w)
     /\ dataSource (snd run) = dataSource w
     /\ callsSince w (snd run) = reached ++ [LogInfo "done syncing file"])
    /\ (GoogleDriveObjectType.mimeType dustFile <> folderMimeType ->
        forall r fs ds,
          syncOneFile env connectorId authCredentials dataSourceConfig
            dustFile startSyncTs false (googleDriveFiles w, dataSource w)
          = (r, (fs, ds)) ->
          fst run = match r with
                    | Ok _ => Ok tt
                    | Throw e => Throw e
                    end
          /\ googleDriveFiles (snd run) = fs
          /\ dataSource (snd run) = ds
          /\ callsSince w (snd run)
             = reached
               ++ CallSyncOneFile connectorId
                    (GoogleDriveObjectType.id dustFile) startSyncTs false
                  :: match r with
                     | Ok _ => [LogInfo "done syncing file"]
                     | Throw _ => []
                     end).
Proof.
  intros env connectorId dsc ts mimeTypes folders auth change file id dustFile
    parents w Hpass Hconv Hparents Hin Htr Hct Hnm run reached.
  assert (Hidt : truthy (SchemaFile.id file) = true).
  { destruct Hpass as (_ & _ & _ & Hid & Hne). rewrite Hid. simpl.
    apply negb_true_iff. now apply String.eqb_neq. }
  assert (Hrun : run
    = (driveFile <- call (CallDriveObjectToDustType (Some id))
                      (driveObjectToDustType env file auth) ;;
       if (GoogleDriveObjectType.mimeType driveFile =? folderMimeType)%string
       then
         lastSeenTs <- now env ;;
         modify (fun w =>
           withFiles
             (upsertFile
                (GoogleDriveFiles.mk connectorId
                   (getDocumentId env (GoogleDriveObjectType.id driveFile))
                   (GoogleDriveObjectType.id dustFile)
                   (GoogleDriveObjectType.name dustFile)
                   (GoogleDriveObjectType.mimeType dustFile)
                   (GoogleDriveObjectType.parent dustFile)
                   (Some lastSeenTs))
                (googleDriveFiles w)) w) ;;;
         emit (LogInfo "done syncing file")
       else
         callSyncOneFile env connectorId auth dsc driveFile ts false ;;;
         emit (LogInfo "done syncing file"))
        (withTrace
           (trace w
            ++ [CallHeartbeat; CallDriveObjectToDustType (Some id);
                CallGetFileParentsMemoized connectorId
                  (GoogleDriveObjectType.id dustFile) ts;
                LogInfo "will sync file"]) w)).
  { subst run.
    rewrite (incrementalSync_change_reaches_scope env connectorId dsc ts
               folders auth w Hpass).
    unfold objectIsInFolders. run. rewrite Hconv. simpl.
    rewrite Hparents. simpl.
    unfold anyInFolders in Hin. rewrite Hin, Htr, Hct, Hnm, Hidt. simpl.
    unfold withTrace. simpl. rewrite <- !app_assoc. reflexivity. }
  split.
  - intros Hfolder. rewrite Hrun. run. rewrite Hconv. simpl.
    rewrite Hfolder. rewrite String.eqb_refl. simpl.
    unfold callsSince. simpl. rewrite <- !app_assoc.
    rewrite skipn_app, skipn_all, Nat.sub_diag. simpl.
    repeat split; reflexivity.
  - intros Hfile r fs ds Hsync. rewrite Hrun. unfold callSyncOneFile. run.
    rewrite Hconv. simpl. apply String.eqb_neq in Hfile. rewrite Hfile.
    simpl. rewrite Hsync.
    unfold callsSince.
    destruct r as [b|e]; simpl; rewrite <- !app_assoc;
      rewrite skipn_app, skipn_all, Nat.sub_diag; simpl;
      repeat split; reflexivity.
Qed.

Lemma incrementalSync_change_in_scope_witness :
  fst (incrementalSync_change revisitEnv 1 "workspace1" 100
         (getMimeTypesToSync revisitEnv false) ["folder1"] "connection1"
         changeDoc1 (smallWorld [] [] [] []))
  = Ok tt
  /\ googleDriveFiles
       (snd (incrementalSync_change revisitEnv 1 "workspace1" 100
               (getMimeTypesToSync revisitEnv false) ["folder1"]
               "connection1" changeDoc1 (smallWorld [] [] [] [])))
     = [mirrorRow "doc1" documentMimeType (Some "folder1") (Some 100)]
  /\ dataSource
       (snd (incrementalSync_change revisitEnv 1 "workspace1" 100
               (getMimeTypesToSync revisitEnv false) ["folder1"]
               "connection1" changeDoc1 (smallWorld [] [] [] [])))
     = [("workspace1", "gdrive-doc1")]
  /\ callsSince (smallWorld [] [] [] [])
       (snd (incrementalSync_change revisitEnv 1 "workspace1" 100
               (getMimeTypesToSync revisitEnv false) ["folder1"]
               "connection1" changeDoc1 (smallWorld [] [] [] [])))
     = [CallHeartbeat; CallDriveObjectToDustType (Some "doc1");
        CallGetFileParentsMemoized 1 "doc1" 100; LogInfo "will sync file";
        CallDriveObjectToDustType (Some "doc1");
        CallSyncOneFile 1 "doc1" 100 false; LogInfo "done syncing file"].
Proof.
  assert (Hpass : passesFilters (getMimeTypesToSync revisitEnv false)
                    changeDoc1 fileDoc1 "doc1").
  { split; [reflexivity|split; [reflexivity|split; [|split]]].
    - exists documentMimeType.
      split; [reflexivity|split; [discriminate|reflexivity]].
    - reflexivity.
    - discriminate. }
  destruct (@incrementalSync_change_in_scope revisitEnv 1 "workspace1" 100
              (getMimeTypesToSync revisitEnv false) ["folder1"] "connection1"
              changeDoc1 fileDoc1 "doc1" dustDoc1
              [dustDoc1; remoteObject "folder1" None folderMimeType false]
              (smallWorld [] [] [] []) Hpass eq_refl eq_refl eq_refl eq_refl
              eq_refl eq_refl) as [_ H].
  apply (H ltac:(discriminate) (Ok true)
           [mirrorRow "doc1" documentMimeType (Some "folder1") (Some 100)]
           [("workspace1", "gdrive-doc1")] eq_refl).
Defined.

(** ** Incremental sync: the token it returns *)

(** X9.  A page token returned by [incrementalSync] is never the empty
    string: it is the non-empty [nextPageToken] of a page that the change
    feed answered with status 200.  (The workflow loops on it while it is
    there.) *)
Theorem incrementalSync_returns_next_page_token :
  forall env w connectorId dataSourceConfig driveId isSharedDrive startSyncTs
         nextPageToken t,
    fst (incrementalSync env connectorId dataSourceConfig driveId
           isSharedDrive startSyncTs nextPageToken w) = Ok (Some t) ->
    t <> ""
    /\ exists driveClient opts page,
         changes_list env driveClient opts = Ok page
         /\ ChangeList.status page = 200
         /\ ChangeList.nextPageToken page = Some t
         /\ ChangesListParams.driveId opts
            = (if isSharedDrive then Some driveId else None).
Proof.
  intros env w connectorId dsc driveId isShared ts token t Hr.
  unfold incrementalSync, tryCatch in Hr.
  destruct (incrementalSync_try env connectorId dsc driveId isShared ts token
              w) as [[r|e] w'] eqn:H.
  2:{ destruct (lostAccess e); simpl in Hr; discriminate. }
  simpl in Hr. inversion Hr. subst r. clear Hr.
  unfold incrementalSync_try in H.
  step H connector w0 S0; [|discriminate].
  destruct connector as [connector|]; [|discriminate].
  step H pageToken w1 S1; [|discriminate].
  step H config w2 S2; [|discriminate].
  step H folders w3 S3; [|discriminate].
  step H auth w4 S4; [|discriminate].
  step H client w5 S5; [|discriminate].
  step H page w6 S6; [|discriminate].
  destruct (ChangeList.status page =? 200) eqn:Hs; [|discriminate].
  cbn [negb] in H.
  destruct (ChangeList.changes page) as [changes|]; [|discriminate].
  step H u1 w7 S7; [|discriminate].
  step H u2 w8 S8; [|discriminate].
  step H u3 w9 S9; [|discriminate].
  unfold ret in H. injection H as Ht Hw.
  destruct (ChangeList.nextPageToken page) as [t'|] eqn:Hn;
    [|discriminate].
  cbn [truthy] in Ht.
  destruct (String.eqb_spec t' "") as [He|He]; [discriminate|].
  cbn [negb] in Ht. injection Ht as Ht. subst t'.
  split; [exact He|].
  unfold call in S6. inversion S6 as [[Hp Hw6]].
  exists client,
    (if isShared
     then ChangesListParams.mk pageToken (Some driveId) true true
     else ChangesListParams.mk pageToken None false false), page.
  split; [exact Hp|split; [now apply Z.eqb_eq|split; [exact Hn|]]].
  destruct isShared; reflexivity.
Qed.

Lemma incrementalSync_returns_next_page_token_witness :
  "page2" <> ""
  /\ exists driveClient opts page,
       changes_list midFeedEnv driveClient opts = Ok page
       /\ ChangeList.status page = 200
       /\ ChangeList.nextPageToken page = Some "page2"
       /\ ChangesListParams.driveId opts = None.
Proof.
  apply (@incrementalSync_returns_next_page_token midFeedEnv midFeedWorld 1
           "workspace1" "drive1" false 100 None "page2").
  reflexivity.
Defined.

(** ** Garbage collection: progress *)

Lemma deleteOneFile_rows env connectorId o w w' :
  deleteOneFile env connectorId o w = (Ok tt, w') ->
  forall r, In r (googleDriveFiles w') ->
    In r (googleDriveFiles w)
    /\ sameFile connectorId (GoogleDriveObjectType.id o) r = false.
Proof.
  unfold deleteOneFile, bind, gets.
  destruct (findFile connectorId (GoogleDriveObjectType.id o)
              (googleDriveFiles w)) as [row|] eqn:Hrow.
  - intros H. apply deleteFile_Ok in H. destruct H as [Hf _].
    destruct (findFile_sameFile _ _ _ Hrow) as (_ & Hrc & Hrd).
    intros r Hr. rewrite Hf in Hr. unfold destroyFile in Hr.
    apply filter_In in Hr. destruct Hr as [Hin Hs].
    rewrite Hrc, Hrd in Hs. split; [exact Hin|].
    now apply negb_true_iff.
  - intros H. inversion H; subst. intros r Hr. split; [exact Hr|].
    unfold findFile in Hrow. apply (find_none _ _ Hrow r Hr).
Qed.

Section Progress.
Variable env : Env.
Variable connectorId : ModelId.
Variable authCredentials : OAuth2Client.
Variable selectedFolders : list string.
Variable lastSeenTs : Z.
Hypothesis faithful : faithfulIds env.

(** After a task of the queue that returned, a mirror row is a row that
    was there, of another key than the candidate, or was stamped by the
    task. *)
Lemma garbageCollector_file_rows c w w' :
  GoogleDriveFiles.connectorId c = connectorId ->
  garbageCollector_file env connectorId authCredentials selectedFolders
    lastSeenTs c w = (Ok tt, w') ->
  (clockReads w <= clockReads w')%nat
  /\ forall r, In r (googleDriveFiles w') ->
       (In r (googleDriveFiles w) /\ fileKey r <> fileKey c)
       \/ GoogleDriveFiles.lastSeenTs r = Some (clock env (clockReads w)).
Proof.
  intros Hc H.
  destruct (@garbageCollector_file_Ok env connectorId authCredentials
              selectedFolders lastSeenTs faithful c w w' Hc H)
    as (_ & Hclock & _).
  split; [exact Hclock|].
  unfold garbageCollector_file in H.
  step H o w1 H1; [|discriminate].
  unfold call in H1. inversion H1 as [[Hget Hw1]]. clear H1.
  destruct o as [o|].
  - pose proof (faithful _ _ Hget) as Hid.
    step H isIn w2 H2; [|discriminate].
    assert (Hw2 : googleDriveFiles w2 = googleDriveFiles w
                  /\ clockReads w2 = clockReads w).
    { unfold objectIsInFolders in H2. step H2 ps w3 H3; [|discriminate].
      unfold call in H3. unfold ret in H2.
      inversion H3. inversion H2. subst. now split. }
    destruct Hw2 as [Hf2 Hk2].
    destruct (negb isIn || GoogleDriveObjectType.trashed o).
    + intros r Hr. left.
      destruct (deleteOneFile_rows _ _ _ _ H r Hr) as [Hin Hs].
      rewrite Hf2 in Hin. split; [exact Hin|].
      intros E.
      assert (Ht : sameFile connectorId (GoogleDriveObjectType.id o) r = true).
      { apply sameFile_fileKey. rewrite E, Hid. unfold fileKey.
        now rewrite Hc. }
      congruence.
    + unfold bind, now, modify in H. inversion H. subst w'. clear H.
      cbn [googleDriveFiles withFiles withClockReads]. rewrite Hf2, Hk2.
      intros r Hr. unfold updateLastSeenTs in Hr.
      apply in_map_iff in Hr. destruct Hr as (g & Hg & Hin).
      destruct (sameFile _ _ g) eqn:Hs.
      * right. now subst r.
      * left. subst r. split; [exact Hin|].
        intros E. apply sameFile_fileKey in E. congruence.
  - apply deleteFile_Ok in H. destruct H as [Hf _].
    intros r Hr. left. rewrite Hf in Hr. unfold destroyFile in Hr.
    apply filter_In in Hr. destruct Hr as [Hin Hs].
    subst w1. cbn [googleDriveFiles withTrace] in Hin.
    split; [exact Hin|].
    intros E. apply sameFile_fileKey in E.
    rewrite E in Hs. discriminate.
Qed.

Lemma garbageCollector_loop_rows cs : forall w w',
  (forall c, In c cs -> GoogleDriveFiles.connectorId c = connectorId) ->
  forEach cs
    (garbageCollector_file env connectorId authCredentials selectedFolders
       lastSeenTs) w = (Ok tt, w') ->
  (clockReads w <= clockReads w')%nat
  /\ forall r, In r (googleDriveFiles w') ->
       (In r (googleDriveFiles w)
        /\ forall c, In c cs -> fileKey c <> fileKey r)
       \/ exists k, (clockReads w <= k)%nat
                    /\ GoogleDriveFiles.lastSeenTs r = Some (clock env k).
Proof.
  induction cs as [|c0 cs IH]; intros w w' Hcid Hrun.
  - simpl in Hrun. inversion Hrun; subst. split; [apply Nat.le_refl|].
    intros r Hr. left. split; [exact Hr | intros c []].
  - simpl in Hrun. step Hrun u w1 Hstep; [|discriminate]. destruct u.
    destruct (garbageCollector_file_rows c0 w
                (Hcid c0 (or_introl eq_refl)) Hstep) as [Hk1 Hrows1].
    destruct (IH w1 w' (fun c H => Hcid c (or_intror H)) Hrun)
      as [Hk2 Hrows2].
    split; [lia|].
    intros r Hr. destruct (Hrows2 r Hr) as [[Hin Hkeys]|(k & Hk & Hts)].
    + destruct (Hrows1 r Hin) as [[Hin0 Hkey0]|Hts].
      * left. split; [exact Hin0|].
        intros c [<-|Hc]; [congruence | now apply Hkeys].
      * right. exists (clockReads w). split; [apply Nat.le_refl|exact Hts].
    + right. exists k. split; [lia|exact Hts].
Qed.
End Progress.

(** X10.  A garbage collection that returned leaves none of its
    candidates stale.  Against a remote that answers a fetch by id with the
    object of that id, and with a clock that is at or after the cutoff: a
    row that is stale after the collection was stale before it, and no
    candidate had its key.  So when at most 100 rows were stale, none is
    after the collection: the next one has no candidate, which is what
    ends the loop of the workflow. *)
Theorem garbageCollector_progress :
  forall env w connectorId lastSeenTs connector authCredentials n w',
    find (fun c => ConnectorResource.id c =? connectorId) (connectors w)
      = Some connector ->
    getAuthObject env (ConnectorResource.connectionId connector)
      = Ok authCredentials ->
    faithfulIds env ->
    (forall k, (clockReads w <= k)%nat -> lastSeenTs <= clock env k) ->
    garbageCollector env connectorId lastSeenTs w = (Ok n, w') ->
    let stale f := (GoogleDriveFiles.connectorId f =? connectorId)
                   && notSeenSince lastSeenTs f in
    (forall r, In r (googleDriveFiles w') -> stale r = true ->
       In r (googleDriveFiles w)
       /\ forall c,
            In c (garbageCollector_candidates connectorId lastSeenTs
                    (googleDriveFiles w)) ->
            fileKey c <> fileKey r)
    /\ ((List.length (filter stale (googleDriveFiles w)) <= 100)%nat ->
        garbageCollector_candidates connectorId lastSeenTs
          (googleDriveFiles w') = []).
Proof.
  intros env w connectorId lastSeenTs connector auth n w' Hk Hauth Hfaithful
    Hclock Hgc stale.
  rewrite (garbageCollector_run env w connectorId lastSeenTs Hk Hauth) in Hgc.
  step Hgc u w1 Hloop; [|discriminate].
  apply promiseAllMap_returns in Hloop.
  unfold ret in Hgc. inversion Hgc. subst n w1. clear Hgc.
  destruct (@garbageCollector_loop_rows env connectorId auth
              (foldersToSync connectorId w) lastSeenTs Hfaithful _ _ _
              (fun c H => proj1 (proj2
                 (garbageCollector_candidates_In _ _ _ _ H))) Hloop)
    as [_ Hrows].
  cbn [googleDriveFiles clockReads withTrace] in Hrows.
  assert (Hstale : forall r, In r (googleDriveFiles w') -> stale r = true ->
            In r (googleDriveFiles w)
            /\ forall c,
                 In c (garbageCollector_candidates connectorId lastSeenTs
                         (googleDriveFiles w)) ->
                 fileKey c <> fileKey r).
  { intros r Hr Hst. destruct (Hrows r Hr) as [H|(k & Hle & Hts)];
      [exact H|].
    exfalso. unfold stale, notSeenSince in Hst. rewrite Hts in Hst.
    apply andb_prop in Hst. destruct Hst as [_ Hlt].
    apply Z.ltb_lt in Hlt. specialize (Hclock k Hle). lia. }
  split; [exact Hstale|].
  intros Hlen. unfold garbageCollector_candidates. fold stale.
  destruct (filter stale (googleDriveFiles w')) as [|r rest] eqn:Hf;
    [now rewrite firstn_nil|].
  exfalso.
  assert (Hr : In r (filter stale (googleDriveFiles w')))
    by (rewrite Hf; now left).
  apply filter_In in Hr. destruct Hr as [Hin Hst].
  destruct (Hstale r Hin Hst) as [Hin0 Hkeys].
  apply (Hkeys r); [|reflexivity].
  unfold garbageCollector_candidates. fold stale.
  rewrite firstn_all2 by exact Hlen. apply filter_In. now split.
Qed.

Lemma garbageCollector_progress_witness :
  garbageCollector_candidates 1 100
    (googleDriveFiles (snd (garbageCollector staleEnv 1 100 staleWorld)))
  = [].
Proof.
  apply (@garbageCollector_progress staleEnv staleWorld 1 100 connector1
           "connection1" 4%nat
           (snd (garbageCollector staleEnv 1 100 staleWorld))).
  - reflexivity.
  - reflexivity.
  - apply smallDrive_faithfulIds.
  - intros k _. unfold staleEnv, smallDrive. cbn [clock]. lia.
  - vm_compute. reflexivity.
  - simpl. lia.
Defined.

(** ** Checking the selected folders *)

Lemma shouldGarbageCollect_folders_true env auth pre folder post w :
  Forall (fun f => foundRemotely env auth (GoogleDriveFolders.folderId f))
    pre ->
  getGoogleDriveObject env auth (GoogleDriveFolders.folderId folder)
    = Ok None ->
  shouldGarbageCollect_folders env auth (pre ++ folder :: post) w
  = (Ok true,
     withTrace
       (trace w
        ++ map (fun f => CallGetGoogleDriveObject
                           (GoogleDriveFolders.folderId f))
             (pre ++ [folder])) w).
Proof.
  intros Hpre Hmiss. revert w.
  induction Hpre as [|f pre (o & Hf) _ IH]; intros w; simpl.
  - unfold bind, call, ret. now rewrite Hmiss.
  - unfold bind at 1. unfold call at 1. rewrite Hf. rewrite IH.
    unfold withTrace. simpl. now rewrite <- app_assoc.
Qed.

Lemma shouldGarbageCollect_folders_false env auth folders w :
  Forall (fun f => foundRemotely env auth (GoogleDriveFolders.folderId f))
    folders ->
  shouldGarbageCollect_folders env auth folders w
  = (Ok false,
     withTrace
       (trace w
        ++ map (fun f => CallGetGoogleDriveObject
                           (GoogleDriveFolders.folderId f)) folders) w).
Proof.
  intros Hall. revert w.
  induction Hall as [|f folders (o & Hf) _ IH]; intros w; simpl.
  - unfold ret. now rewrite withTrace_nil.
  - unfold bind at 1. unfold call at 1. rewrite Hf. rewrite IH.
    unfold withTrace. simpl. now rewrite <- app_assoc.
Qed.

Lemma shouldGarbageCollect_folders_inv env auth folders : forall w b w',
  shouldGarbageCollect_folders env auth folders w = (Ok b, w') ->
  if b
  then exists pre folder post,
         folders = pre ++ folder :: post
         /\ Forall (fun f => foundRemotely env auth
                               (GoogleDriveFolders.folderId f)) pre
         /\ getGoogleDriveObject env auth (GoogleDriveFolders.folderId folder)
            = Ok None
  else Forall (fun f => foundRemotely env auth
                          (GoogleDriveFolders.folderId f)) folders.
Proof.
  induction folders as [|f folders IH]; intros w b w' H; simpl in H.
  - inversion H. constructor.
  - step H o w1 H1; [|discriminate].
    unfold call in H1. inversion H1 as [[Hf Hw1]]. clear H1.
    destruct o as [o|].
    + specialize (IH _ _ _ H). destruct b.
      * destruct IH as (pre & folder & post & -> & Hpre & Hmiss).
        exists (f :: pre), folder, post.
        split; [reflexivity|split; [|exact Hmiss]].
        constructor; [now exists o | exact Hpre].
      * constructor; [now exists o | exact IH].
    + inversion H. subst. exists [], f, folders.
      split; [reflexivity|split; [constructor|exact Hf]].
Qed.

(** X11.  [shouldGarbageCollect] fetches the selected folders of the
    connector in the order of the table and stops at the first one that
    the remote does not have: it returns [true] exactly when there is one,
    having fetched the folders up to it and none after it, and [false]
    exactly when the remote has them all.  It changes no table. *)
Theorem shouldGarbageCollect_first_missing :
  forall env w connectorId connector authCredentials,
    find (fun c => ConnectorResource.id c =? connectorId) (connectors w)
      = Some connector ->
    getAuthObject env (ConnectorResource.connectionId connector)
      = Ok authCredentials ->
    let run := shouldGarbageCollect env connectorId w in
    let found := foundRemotely env authCredentials in
    let fetches ids :=
      withTrace
        (trace w
         ++ CallGetAuthObject (ConnectorResource.connectionId connector)
            :: map CallGetGoogleDriveObject ids) w in
    (fst run = Ok true <->
     exists pre id post,
       foldersToSync connectorId w = pre ++ id :: post
       /\ Forall found pre
       /\ getGoogleDriveObject env authCredentials id = Ok None)
    /\ (forall pre id post,
          foldersToSync connectorId w = pre ++ id :: post ->
          Forall found pre ->
          getGoogleDriveObject env authCredentials id = Ok None ->
          snd run = fetches (pre ++ [id]))
    /\ (fst run = Ok false <-> Forall found (foldersToSync connectorId w))
    /\ (Forall found (foldersToSync connectorId w) ->
        snd run = fetches (foldersToSync connectorId w)).
Proof.
  intros env w connectorId connector auth Hc Ha run found fetches.
  set (rows := filter (fun f => GoogleDriveFolders.connectorId f
                                =? connectorId) (googleDriveFolders w)).
  set (w1 := withTrace
               (trace w
                ++ [CallGetAuthObject
                      (ConnectorResource.connectionId connector)]) w).
  assert (Hrun : run = shouldGarbageCollect_folders env auth rows w1).
  { subst run. unfold shouldGarbageCollect. run. now rewrite Hc, Ha. }
  assert (Hids : foldersToSync connectorId w
                 = map GoogleDriveFolders.folderId rows) by reflexivity.
  assert (Hsplit : forall pre id post,
            map GoogleDriveFolders.folderId rows = pre ++ id :: post ->
            exists rpre r rpost,
              rows = rpre ++ r :: rpost
              /\ map GoogleDriveFolders.folderId rpre = pre
              /\ GoogleDriveFolders.folderId r = id).
  { intros pre id post E. apply map_eq_app in E.
    destruct E as (rpre & rrest & -> & Hpre & Hrest).
    apply map_eq_cons in Hrest.
    destruct Hrest as (r & rpost & -> & Hr & _).
    now exists rpre, r, rpost. }
  assert (Hall : forall l,
            Forall found (map GoogleDriveFolders.folderId l)
            <-> Forall (fun f => foundRemotely env auth
                                   (GoogleDriveFolders.folderId f)) l).
  { intros l. rewrite Forall_map. reflexivity. }
  assert (Hfetch : forall ids,
            withTrace
              (trace w1 ++ map (fun f => CallGetGoogleDriveObject
                                           (GoogleDriveFolders.folderId f))
                             ids) w1
            = fetches (map GoogleDriveFolders.folderId ids)).
  { intros ids. subst w1 fetches. cbv beta.
    rewrite withTrace_withTrace, map_map. reflexivity. }
  split; [|split; [|split]].
  - split.
    + intros Ht. rewrite Hrun in Ht.
      destruct (shouldGarbageCollect_folders env auth rows w1)
        as [r w'] eqn:E.
      simpl in Ht. subst r.
      apply shouldGarbageCollect_folders_inv in E.
      destruct E as (rpre & r & rpost & Hrows & Hpre & Hmiss).
      exists (map GoogleDriveFolders.folderId rpre),
        (GoogleDriveFolders.folderId r),
        (map GoogleDriveFolders.folderId rpost).
      split; [|split; [now apply Hall | exact Hmiss]].
      rewrite Hids, Hrows, map_app. reflexivity.
    + intros (pre & id & post & E & Hpre & Hmiss). rewrite Hids in E.
      destruct (Hsplit _ _ _ E) as (rpre & r & rpost & Hrows & <- & <-).
      rewrite Hrun, Hrows.
      rewrite shouldGarbageCollect_folders_true;
        [reflexivity | now apply Hall | exact Hmiss].
  - intros pre id post E Hpre Hmiss. rewrite Hids in E.
    destruct (Hsplit _ _ _ E) as (rpre & r & rpost & Hrows & <- & <-).
    rewrite Hrun, Hrows.
    rewrite shouldGarbageCollect_folders_true;
      [|now apply Hall | exact Hmiss].
    cbn [snd]. rewrite Hfetch, map_app. reflexivity.
  - split.
    + intros Hf. rewrite Hrun in Hf.
      destruct (shouldGarbageCollect_folders env auth rows w1)
        as [r w'] eqn:E.
      simpl in Hf. subst r.
      apply shouldGarbageCollect_folders_inv in E.
      rewrite Hids. now apply Hall.
    + intros Hf. rewrite Hids in Hf. apply Hall in Hf.
      rewrite Hrun. now rewrite shouldGarbageCollect_folders_false.
  - intros Hf. rewrite Hids in Hf |- *. apply Hall in Hf.
    rewrite Hrun. rewrite shouldGarbageCollect_folders_false by exact Hf.
    cbn [snd]. apply Hfetch.
Qed.

Lemma shouldGarbageCollect_first_missing_witness :
  fst (shouldGarbageCollect lostDriveEnv 1 (smallWorld [] [] [] []))
  = Ok true.
Proof.
  apply (@shouldGarbageCollect_first_missing lostDriveEnv
           (smallWorld [] [] [] []) 1 connector1 "connection1" eq_refl
           eq_refl).
  exists [], "folder1", [].
  split; [reflexivity|split; [constructor|reflexivity]].
Defined.

(** ** The drives to sync *)

Lemma insertByIndex_perm V (e : N * V) l :
  Permutation (insertByIndex e l) (e :: l).
Proof.
  induction l as [|x l IH]; simpl; [apply Permutation_refl|].
  destruct (fst e <? fst x)%N; [apply Permutation_refl|].
  apply perm_trans with (x :: e :: l); [now apply perm_skip|].
  apply perm_swap.
Qed.

Lemma sortByIndex_perm V (l : list (N * V)) : Permutation (sortByIndex l) l.
Proof.
  induction l as [|e l IH]; simpl; [constructor|].
  apply perm_trans with (e :: sortByIndex l);
    [apply insertByIndex_perm | now apply perm_skip].
Qed.

(** [Object.values] gives every property of the object once. *)
Lemma Object_values_perm V (obj : JsObject V) :
  Permutation (Object_values obj) (map snd obj).
Proof.
  unfold Object_values.
  apply perm_trans with (map snd (indexed obj) ++ named obj).
  - apply Permutation_app_tail, Permutation_map, sortByIndex_perm.
  - induction obj as [|[k v] obj IH]; simpl; [constructor|].
    destruct (arrayIndex k); simpl.
    + now apply perm_skip.
    + apply Permutation_sym.
      apply perm_trans with (v :: map snd (indexed obj) ++ named obj);
        [apply perm_skip; now apply Permutation_sym
        | apply Permutation_middle].
Qed.

Lemma In_jsSet V (obj : JsObject V) key value k v :
  In (k, v) (jsSet obj key value) ->
  (k = key /\ v = value) \/ In (k, v) obj.
Proof.
  induction obj as [|[k0 v0] obj IH]; simpl.
  - intros [H|[]]. inversion H. now left.
  - destruct (String.eqb_spec k0 key) as [->|Hne]; simpl.
    + intros [H|H]; [inversion H; now left | right; now right].
    + intros [H|H]; [right; now left|].
      destruct (IH H) as [?|?]; [now left | right; now right].
Qed.

Lemma jsSet_keys V (obj : JsObject V) key value k :
  In k (map fst (jsSet obj key value)) <-> k = key \/ In k (map fst obj).
Proof.
  induction obj as [|[k0 v0] obj IH]; simpl.
  - split; [intros [H|[]]; now left | intros [H|[]]; now left].
  - destruct (String.eqb_spec k0 key) as [->|Hne]; simpl.
    + intuition (subst; auto).
    + rewrite IH. intuition (subst; auto).
Qed.

Lemma jsSet_NoDup V (obj : JsObject V) key value :
  NoDup (map fst obj) -> NoDup (map fst (jsSet obj key value)).
Proof.
  induction obj as [|[k0 v0] obj IH]; simpl; intros H.
  - repeat constructor. intros [].
  - apply NoDup_cons_iff in H. destruct H as [Hnotin Hnd].
    destruct (String.eqb_spec k0 key) as [->|Hne]; simpl.
    + now constructor.
    + constructor; [|now apply IH].
      rewrite jsSet_keys. intros [E|Hin]; [now subst | contradiction].
Qed.

(** The loop of [getDrivesToSync] that returned: the object holds one
    drive under each key, all of them drives of folders that the remote
    has, and the drive of every such folder of the loop. *)
Lemma getDrivesToSync_folders_Ok env auth ids folders :
  forall drives w out w',
    getDrivesToSync_folders env auth folders drives w = (Ok out, w') ->
    (forall f, In f folders -> In (GoogleDriveFolders.folderId f) ids) ->
    NoDup (map fst drives) ->
    (forall k d, In (k, d) drives ->
       LightGoogledrive.id d = k /\ k <> ""
       /\ exists id o,
            In id ids /\ getGoogleDriveObject env auth id = Ok (Some o)
            /\ d = driveOf o) ->
    NoDup (map fst out)
    /\ (forall k d, In (k, d) out ->
          LightGoogledrive.id d = k /\ k <> ""
          /\ exists id o,
               In id ids /\ getGoogleDriveObject env auth id = Ok (Some o)
               /\ d = driveOf o)
    /\ (forall k, In k (map fst drives) -> In k (map fst out))
    /\ (forall f o,
          In f folders ->
          getGoogleDriveObject env auth (GoogleDriveFolders.folderId f)
            = Ok (Some o) ->
          In (GoogleDriveObjectType.driveId o) (map fst out)).
Proof.
  induction folders as [|f folders IH]; intros drives w out w' H Hids Hnd Hinv;
    simpl in H.
  - inversion H. subst.
    split; [exact Hnd|split; [exact Hinv|split; [auto|intros f o []]]].
  - step H o w1 H1; [|discriminate].
    unfold call in H1. inversion H1 as [[Hf Hw1]]. clear H1.
    assert (Hids' : forall g, In g folders ->
                      In (GoogleDriveFolders.folderId g) ids)
      by (intros g Hg; apply Hids; now right).
    destruct o as [o|].
    + destruct (String.eqb_spec (GoogleDriveObjectType.driveId o) "")
        as [He|He]; [discriminate|].
      destruct (IH _ _ _ _ H Hids') as (Gnd & Ginv & Gkeys & Gall).
      * now apply jsSet_NoDup.
      * intros k d Hin. apply In_jsSet in Hin.
        destruct Hin as [[-> ->]|Hin]; [|now apply Hinv].
        split; [reflexivity|split; [exact He|]].
        exists (GoogleDriveFolders.folderId f), o.
        split; [apply Hids; now left | now split].
      * split; [exact Gnd|split; [exact Ginv|split]].
        -- intros k Hk. apply Gkeys, jsSet_keys. now right.
        -- intros g o' [<-|Hg] Hget.
           ++ rewrite Hf in Hget. inversion Hget. subst o'.
              apply Gkeys, jsSet_keys. now left.
           ++ now apply (Gall g).
    + destruct (IH _ _ _ _ H Hids' Hnd Hinv) as (Gnd & Ginv & Gkeys & Gall).
      split; [exact Gnd|split; [exact Ginv|split; [exact Gkeys|]]].
      intros g o' [<-|Hg] Hget; [congruence | now apply (Gall g)].
Qed.

(** X12.  The drives that [getDrivesToSync] returns are the drives of the
    selected folders that the remote has, each once: no two entries have
    the same id, no id is empty, every entry is the drive of a selected
    folder that the remote has, and the drive of every such folder is
    there.  A selected folder that the remote does not have is passed
    over. *)
Theorem getDrivesToSync_drives_of_folders :
  forall env w connectorId connector authCredentials drives,
    find (fun c => ConnectorResource.id c =? connectorId) (connectors w)
      = Some connector ->
    getAuthObject env (ConnectorResource.connectionId connector)
      = Ok authCredentials ->
    fst (getDrivesToSync env connectorId w) = Ok drives ->
    NoDup (map LightGoogledrive.id drives)
    /\ (forall d, In d drives ->
          LightGoogledrive.id d <> ""
          /\ exists id o,
               In id (foldersToSync connectorId w)
               /\ getGoogleDriveObject env authCredentials id = Ok (Some o)
               /\ d = driveOf o)
    /\ (forall id o,
          In id (foldersToSync connectorId w) ->
          getGoogleDriveObject env authCredentials id = Ok (Some o) ->
          exists d, In d drives
                    /\ LightGoogledrive.id d = GoogleDriveObjectType.driveId o).
Proof.
  intros env w connectorId connector auth drives Hc Ha Hr.
  unfold getDrivesToSync in Hr.
  destruct (bind _ _ w) as [r w'] eqn:H in Hr. cbn [fst] in Hr. subst r.
  step H rows w0 H0; [|discriminate].
  unfold gets in H0. inversion H0 as [[Hrows Hw0]]. subst w0. clear H0.
  step H c w0 H0; [|discriminate].
  unfold fetchById, gets in H0. rewrite Hc in H0.
  inversion H0. subst c w0. clear H0.
  step H a w1 H1; [|discriminate].
  unfold call in H1. rewrite Ha in H1. inversion H1 as [[Ea Hw1]]. subst a.
  clear H1.
  step H out w2 H2; [|discriminate].
  unfold ret in H. inversion H as [[Hd Hw']]. clear H.
  destruct (@getDrivesToSync_folders_Ok env auth
              (foldersToSync connectorId w) rows [] w1 out w2 H2)
    as (Gnd & Ginv & _ & Gall).
  { intros f Hf. subst rows. unfold foldersToSync. now apply in_map. }
  { constructor. }
  { intros k d []. }
  pose proof (Object_values_perm out) as Hperm.
  assert (Hkeys : map LightGoogledrive.id (map snd out) = map fst out).
  { rewrite map_map. apply map_ext_in. intros [k d] Hin.
    apply (Ginv k d Hin). }
  split; [|split].
  - apply (Permutation_NoDup
             (l := map LightGoogledrive.id (map snd out))).
    + apply Permutation_map, Permutation_sym, Hperm.
    + now rewrite Hkeys.
  - intros d Hin. apply (Permutation_in _ Hperm) in Hin.
    apply in_map_iff in Hin. destruct Hin as ([k d'] & <- & Hin).
    destruct (Ginv k d' Hin) as (Hid & Hne & Hex).
    split; [simpl; now rewrite Hid | exact Hex].
  - intros id o Hid Hget. subst rows. unfold foldersToSync in Hid.
    apply in_map_iff in Hid. destruct Hid as (f & <- & Hf).
    pose proof (Gall f o Hf Hget) as Hk.
    apply in_map_iff in Hk. destruct Hk as ([k d] & Hfst & Hin).
    simpl in Hfst. subst k. exists d. split.
    + apply (Permutation_in _ (Permutation_sym Hperm)).
      apply in_map_iff. now exists (GoogleDriveObjectType.driveId o, d).
    + apply (Ginv _ _ Hin).
Qed.

Lemma getDrivesToSync_drives_of_folders_witness :
  NoDup (map LightGoogledrive.id [LightGoogledrive.mk "drive1" "folder1" false])
  /\ (forall d, In d [LightGoogledrive.mk "drive1" "folder1" false] ->
        LightGoogledrive.id d <> ""
        /\ exists id o,
             In id (foldersToSync 1 staleWorld)
             /\ getGoogleDriveObject staleEnv "connection1" id = Ok (Some o)
             /\ d = driveOf o)
  /\ (forall id o,
        In id (foldersToSync 1 staleWorld) ->
        getGoogleDriveObject staleEnv "connection1" id = Ok (Some o) ->
        exists d, In d [LightGoogledrive.mk "drive1" "folder1" false]
                  /\ LightGoogledrive.id d = GoogleDriveObjectType.driveId o).
Proof.
  apply (@getDrivesToSync_drives_of_folders staleEnv staleWorld 1 connector1
           "connection1" [LightGoogledrive.mk "drive1" "folder1" false]);
    reflexivity.
Defined.

(** ** The drives of a connector *)

Lemma Forall_sharedDrives page : Forall listedAsShared (sharedDrives page).
Proof.
  unfold sharedDrives. induction page as [|d page IH]; simpl; [constructor|].
  apply Forall_app. split; [|exact IH].
  destruct (SchemaDrive.id d) as [id|]; [|constructor].
  destruct (SchemaDrive.name d) as [name|]; [|constructor].
  simpl.
  destruct (String.eqb_spec id "") as [|Hid]; [constructor|].
  destruct (String.eqb_spec name "") as [|Hname]; constructor;
    [|constructor].
  now split.
Qed.

(** The loop over the pages reads and changes nothing; it runs out of fuel
    exactly when the remote gives that many pages in a row with a next page
    token; what it returned, it returns with any more fuel. *)
Lemma getDrives_pages_run denv drive fuel : forall token acc w,
  snd (getDrives_pages denv fuel drive token acc w) = w
  /\ (fst (getDrives_pages denv fuel drive token acc w) = Ok None
      <-> morePagesAfter denv drive token fuel = true)
  /\ forall drives,
       fst (getDrives_pages denv fuel drive token acc w) = Ok (Some drives) ->
       (exists shared,
          drives = acc ++ shared /\ Forall listedAsShared shared)
       /\ forall fuel', (fuel <= fuel')%nat ->
            getDrives_pages denv fuel' drive token acc w
            = (Ok (Some drives), w).
Proof.
  induction fuel as [|fuel IH]; intros token acc w; simpl.
  - split; [reflexivity|split; [split; reflexivity|discriminate]].
  - unfold bind, answer.
    destruct (drives_list denv drive token) as [res|e] eqn:Hl; simpl.
    2:{ split; [reflexivity|split; [split; discriminate|discriminate]]. }
    destruct (DriveList.status res =? 200) eqn:Hs; simpl.
    2:{ split; [reflexivity|split; [split; discriminate|discriminate]]. }
    destruct (DriveList.drives res) as [page|] eqn:Hd; simpl.
    2:{ split; [reflexivity|split; [split; discriminate|discriminate]]. }
    destruct (truthy (DriveList.nextPageToken res)) eqn:Ht; simpl.
    + destruct (IH (DriveList.nextPageToken res) (acc ++ sharedDrives page) w)
        as (Hw & Hnone & Hsome).
      split; [exact Hw|split; [exact Hnone|]].
      intros drives Hr. destruct (Hsome drives Hr) as [(shared & -> & Hf) Hm].
      split.
      * exists (sharedDrives page ++ shared).
        split; [now rewrite app_assoc|].
        apply Forall_app. split; [apply Forall_sharedDrives | exact Hf].
      * intros [|fuel'] Hle; [lia|]. simpl. unfold bind, answer.
        rewrite Hl. simpl. rewrite Hs. simpl. rewrite Hd, Ht.
        apply Hm. lia.
    + unfold ret. simpl.
      split; [reflexivity|split; [split; discriminate|]].
      intros drives Hr. inversion Hr. subst drives. split.
      * exists (sharedDrives page). split; [reflexivity|].
        apply Forall_sharedDrives.
      * intros [|fuel'] Hle; [lia|]. simpl. unfold bind, answer.
        rewrite Hl. simpl. rewrite Hs. simpl. now rewrite Hd, Ht.
Qed.

Lemma getDrives_run env denv fuel connectorId connector drive auth myDriveId
  w :
  find (fun c => ConnectorResource.id c =? connectorId) (connectors w)
    = Some connector ->
  getDriveClient env (ConnectorResource.connectionId connector) = Ok drive ->
  getAuthObject env (ConnectorResource.connectionId connector) = Ok auth ->
  getMyDriveIdCached denv auth = Ok myDriveId ->
  getDrives env denv fuel connectorId w
  = getDrives_pages denv fuel drive None
      [LightGoogledrive.mk myDriveId "My Drive" false]
      (withTrace
         (trace w
          ++ [CallGetDriveClient (ConnectorResource.connectionId connector);
              CallGetAuthObject (ConnectorResource.connectionId connector)])
         w).
Proof.
  intros Hc Hd Ha Hm. unfold getDrives, answer. run.
  rewrite Hc, Hd. simpl. rewrite Ha. simpl. rewrite Hm.
  unfold withTrace. simpl. now rewrite <- app_assoc.
Qed.

Lemma sharedDrives_listed page :
  sharedDrives page = map listedDrive (filter hasIdAndName page).
Proof.
  unfold sharedDrives. induction page as [|d page IH]; simpl; [reflexivity|].
  rewrite IH. unfold hasIdAndName, listedDrive.
  destruct d as [[id|] [name|]]; simpl; try reflexivity.
  - destruct (negb (id =? "")%string && negb (name =? "")%string);
      reflexivity.
  - now rewrite andb_false_r.
Qed.

(** What the loop over the pages returns is the drives of the pages of the
    remote; and it returns when the fuel covers those pages. *)
Lemma getDrives_pages_listed denv drive fuel : forall token acc w drives,
  fst (getDrives_pages denv fuel drive token acc w) = Ok (Some drives) ->
  exists pages,
    pagesFrom denv drive token pages
    /\ (List.length pages <= fuel)%nat
    /\ drives
       = acc ++ map listedDrive (filter hasIdAndName (concat pages)).
Proof.
  induction fuel as [|fuel IH]; intros token acc w drives; simpl;
    [discriminate|].
  unfold bind, answer.
  destruct (drives_list denv drive token) as [res|e] eqn:Hl; simpl;
    [|discriminate].
  destruct (Z.eqb_spec (DriveList.status res) 200) as [Hs|Hs]; simpl;
    [|discriminate].
  destruct (DriveList.drives res) as [page|] eqn:Hd; simpl; [|discriminate].
  destruct (truthy (DriveList.nextPageToken res)) eqn:Ht; simpl.
  - intros Hr. destruct (IH _ _ _ _ Hr) as (pages & Hp & Hlen & ->).
    exists (page :: pages). split; [|split].
    + eapply pagesFrom_more; eassumption.
    + simpl. lia.
    + simpl. rewrite filter_app, map_app, sharedDrives_listed.
      now rewrite app_assoc.
  - intros Hr. injection Hr as <-.
    exists [page]. split; [|split].
    + eapply pagesFrom_last; eassumption.
    + simpl. lia.
    + simpl. now rewrite app_nil_r, sharedDrives_listed.
Qed.

Lemma getDrives_pages_returns denv drive token pages :
  pagesFrom denv drive token pages ->
  forall fuel acc w,
    (List.length pages <= fuel)%nat ->
    getDrives_pages denv fuel drive token acc w
    = (Ok (Some (acc ++ map listedDrive
                          (filter hasIdAndName (concat pages)))), w).
Proof.
  induction 1 as [token res page Hl Hs Hd Ht
                 |token res page pages Hl Hs Hd Ht Hp IH];
    intros [|fuel] acc w Hlen; simpl in Hlen; try lia;
    simpl; unfold bind, answer; rewrite Hl, Hs, Hd, Ht; simpl.
  - now rewrite app_nil_r, sharedDrives_listed.
  - rewrite IH by lia.
    rewrite filter_app, map_app, sharedDrives_listed.
    now rewrite app_assoc.
Qed.

(** X13.  [getDrives] lists the user's own drive first, named "My Drive"
    and not shared, then the shared drives of the pages of the remote that
    have an id and a name, in order.  It changes no table.  It goes on to
    the next page as long as the remote gives a next page token: the model
    runs out of fuel exactly when the remote gives that many pages in a row
    with one, and what it returned it returns with any more fuel.  What it
    returns is the list, after the user's own drive, of the drives with an
    id and a name of the pages that the remote gives from the first one to
    the first without a next page token, page after page; and it returns
    that list as soon as the fuel covers those pages. *)
Theorem getDrives_my_drive_then_shared :
  forall env denv fuel connectorId w connector drive authCredentials
         myDriveId,
    find (fun c => ConnectorResource.id c =? connectorId) (connectors w)
      = Some connector ->
    getDriveClient env (ConnectorResource.connectionId connector) = Ok drive ->
    getAuthObject env (ConnectorResource.connectionId connector)
      = Ok authCredentials ->
    getMyDriveIdCached denv authCredentials = Ok myDriveId ->
    let run := getDrives env denv fuel connectorId w in
    snd run
    = withTrace
        (trace w
         ++ [CallGetDriveClient (ConnectorResource.connectionId connector);
             CallGetAuthObject (ConnectorResource.connectionId connector)]) w
    /\ (fst run = Ok None <-> morePagesAfter denv drive None fuel = true)
    /\ (forall drives,
         fst run = Ok (Some drives) ->
         (exists shared,
            drives = LightGoogledrive.mk myDriveId "My Drive" false :: shared
            /\ Forall listedAsShared shared)
         /\ forall fuel', (fuel <= fuel')%nat ->
              fst (getDrives env denv fuel' connectorId w) = Ok (Some drives))
    /\ (forall drives,
         fst run = Ok (Some drives) ->
         exists pages,
           pagesFrom denv drive None pages
           /\ (List.length pages <= fuel)%nat
           /\ drives
              = LightGoogledrive.mk myDriveId "My Drive" false
                :: map listedDrive (filter hasIdAndName (concat pages)))
    /\ (forall pages,
         pagesFrom denv drive None pages ->
         (List.length pages <= fuel)%nat ->
         fst run
         = Ok (Some (LightGoogledrive.mk myDriveId "My Drive" false
                     :: map listedDrive
                          (filter hasIdAndName (concat pages))))).
Proof.
  intros env denv fuel connectorId w connector drive auth myDriveId Hc Hd Ha
    Hm run.
  subst run.
  rewrite (@getDrives_run env denv fuel connectorId connector drive auth
             myDriveId w Hc Hd Ha Hm).
  destruct (getDrives_pages_run denv drive fuel None
              [LightGoogledrive.mk myDriveId "My Drive" false]
              (withTrace
                 (trace w
                  ++ [CallGetDriveClient
                        (ConnectorResource.connectionId connector);
                      CallGetAuthObject
                        (ConnectorResource.connectionId connector)]) w))
    as (Hw & Hnone & Hsome).
  split; [exact Hw|split; [exact Hnone|split; [|split]]].
  - intros drives Hr. destruct (Hsome drives Hr) as [Hshape Hmono].
    split; [exact Hshape|].
    intros fuel' Hle.
    rewrite (@getDrives_run env denv fuel' connectorId connector drive auth
               myDriveId w Hc Hd Ha Hm).
    now rewrite (Hmono fuel' Hle).
  - intros drives Hr.
    destruct (getDrives_pages_listed _ _ _ _ _ _ Hr)
      as (pages & Hp & Hlen & ->).
    exists pages. split; [exact Hp|split; [exact Hlen|reflexivity]].
  - intros pages Hp Hlen.
    now rewrite (@getDrives_pages_returns _ _ _ _ Hp fuel _ _ Hlen).
Qed.

Lemma getDrives_my_drive_then_shared_witness :
  pagesFrom twoPages "connection1" None
    [[SchemaDrive.mk (Some "shared1") (Some "Team");
      SchemaDrive.mk (Some "shared2") None];
     [SchemaDrive.mk (Some "shared3") (Some "Archive")]]
  /\ fst (getDrives midFeedEnv twoPages 2 1 midFeedWorld)
     = Ok (Some [LightGoogledrive.mk "drive1" "My Drive" false;
                 LightGoogledrive.mk "shared1" "Team" true;
                 LightGoogledrive.mk "shared3" "Archive" true])
  /\ (exists shared,
        [LightGoogledrive.mk "drive1" "My Drive" false;
         LightGoogledrive.mk "shared1" "Team" true;
         LightGoogledrive.mk "shared3" "Archive" true]
        = LightGoogledrive.mk "drive1" "My Drive" false :: shared
        /\ Forall listedAsShared shared)
  /\ forall fuel', (2 <= fuel')%nat ->
       fst (getDrives midFeedEnv twoPages fuel' 1 midFeedWorld)
       = Ok (Some [LightGoogledrive.mk "drive1" "My Drive" false;
                   LightGoogledrive.mk "shared1" "Team" true;
                   LightGoogledrive.mk "shared3" "Archive" true]).
Proof.
  assert (Hpages :
    pagesFrom twoPages "connection1" None
      [[SchemaDrive.mk (Some "shared1") (Some "Team");
        SchemaDrive.mk (Some "shared2") None];
       [SchemaDrive.mk (Some "shared3") (Some "Archive")]]).
  { eapply pagesFrom_more; try reflexivity.
    eapply pagesFrom_last; reflexivity. }
  pose proof (@getDrives_my_drive_then_shared midFeedEnv twoPages 2 1
                midFeedWorld connector1 "connection1" "connection1" "drive1"
                eq_refl eq_refl eq_refl eq_refl) as H.
  cbv zeta in H. destruct H as (_ & _ & Hsome & _ & Hret).
  split; [exact Hpages|].
  split; [exact (Hret _ Hpages (le_n 2))|].
  exact (Hsome _ (Hret _ Hpages (le_n 2))).
Defined.

(** ** Giving every drive a cursor *)

Lemma findSyncToken_upsertSyncToken_other connectorId driveId c d token ts :
  (c, d) <> (connectorId, driveId) ->
  findSyncToken c d
    (upsertSyncToken (GoogleDriveSyncToken.mk connectorId driveId token) ts)
  = findSyncToken c d ts.
Proof.
  intros Hne.
  assert (Hnew : sameDrive c d
                   (GoogleDriveSyncToken.mk connectorId driveId token)
                 = false).
  { unfold sameDrive. simpl.
    destruct (Z.eqb_spec connectorId c) as [->|]; [|reflexivity].
    destruct (String.eqb_spec driveId d) as [->|]; [|reflexivity].
    now contradiction Hne. }
  assert (Hold : forall u, sameDrive connectorId driveId u = true ->
                           sameDrive c d u = false).
  { intros u Hu. unfold sameDrive in *. apply andb_prop in Hu.
    destruct Hu as [H1 H2]. apply Z.eqb_eq in H1. apply String.eqb_eq in H2.
    rewrite H1, H2.
    destruct (Z.eqb_spec connectorId c) as [->|]; [|reflexivity].
    destruct (String.eqb_spec driveId d) as [->|]; [|reflexivity].
    now contradiction Hne. }
  unfold findSyncToken, upsertSyncToken. simpl.
  destruct (existsb (sameDrive connectorId driveId) ts).
  - induction ts as [|u ts IH]; simpl; [reflexivity|].
    destruct (sameDrive connectorId driveId u) eqn:Eu.
    + rewrite Hnew, (Hold u Eu). exact IH.
    + destruct (sameDrive c d u); [reflexivity | exact IH].
  - induction ts as [|u ts IH]; simpl; [now rewrite Hnew|].
    destruct (sameDrive c d u); [reflexivity | exact IH].
Qed.

(** A persisted cursor is what [getSyncPageToken] returns, with no call. *)
Lemma getSyncPageToken_persisted env w connectorId driveId isSharedDrive
  connector row :
  find (fun c => ConnectorResource.id c =? connectorId) (connectors w)
    = Some connector ->
  findSyncToken connectorId driveId (googleDriveSyncTokens w) = Some row ->
  getSyncPageToken env connectorId driveId isSharedDrive w
  = (Ok (GoogleDriveSyncToken.syncToken row), w).
Proof.
  intros Hc Hrow. unfold getSyncPageToken. run. now rewrite Hc, Hrow.
Qed.

(** One turn of the loop of [populateSyncTokens]: the cursors that were
    there stay, and when the turn returns the drive has one. *)
Lemma populateSyncTokens_turn env connectorId connector drive w :
  find (fun c => ConnectorResource.id c =? connectorId) (connectors w)
    = Some connector ->
  let turn :=
    (lastSyncToken <-
       getSyncPageToken env connectorId (LightGoogledrive.id drive)
         (LightGoogledrive.isSharedDrive drive) ;;
     persistSyncToken connectorId (LightGoogledrive.id drive) lastSyncToken)
      w in
  (forall c d t, persistedCursor c d w = Some t ->
                 persistedCursor c d (snd turn) = Some t)
  /\ (fst turn = Ok tt ->
      persistedCursor connectorId (LightGoogledrive.id drive) (snd turn)
      <> None)
  /\ connectors (snd turn) = connectors w.
Proof.
  intros Hc turn. subst turn. unfold bind.
  destruct (getSyncPageToken env connectorId (LightGoogledrive.id drive)
              (LightGoogledrive.isSharedDrive drive) w) as [[tok|e] w1]
    eqn:E.
  - assert (Hts : googleDriveSyncTokens w1 = googleDriveSyncTokens w)
      by (eapply keeps_run; [|exact E]; apply keeps_getSyncPageToken;
          reflexivity).
    assert (Hcs : connectors w1 = connectors w)
      by (eapply keeps_run; [|exact E]; apply keeps_getSyncPageToken;
          reflexivity).
    unfold persistSyncToken, modify.
    cbn [fst snd googleDriveSyncTokens connectors withSyncTokens].
    rewrite Hts. split; [|split; [|exact Hcs]].
    + intros c d t Ht. unfold persistedCursor in *.
      cbn [googleDriveSyncTokens withSyncTokens].
      destruct (Z.eqb_spec c connectorId) as [->|Hne].
      * destruct (String.eqb_spec d (LightGoogledrive.id drive))
          as [->|Hne].
        -- rewrite findSyncToken_upsertSyncToken. simpl.
           destruct (findSyncToken connectorId (LightGoogledrive.id drive)
                       (googleDriveSyncTokens w)) as [row|] eqn:Hrow;
             [|discriminate].
           rewrite (@getSyncPageToken_persisted env w connectorId
                      (LightGoogledrive.id drive)
                      (LightGoogledrive.isSharedDrive drive) connector row
                      Hc Hrow) in E.
           inversion E. subst tok. exact Ht.
        -- rewrite findSyncToken_upsertSyncToken_other; [exact Ht|].
           intros X. inversion X. contradiction.
      * rewrite findSyncToken_upsertSyncToken_other; [exact Ht|].
        intros X. inversion X. contradiction.
    + intros _. unfold persistedCursor.
      cbn [googleDriveSyncTokens withSyncTokens].
      rewrite findSyncToken_upsertSyncToken. discriminate.
  - assert (Hts : googleDriveSyncTokens w1 = googleDriveSyncTokens w)
      by (eapply keeps_run; [|exact E]; apply keeps_getSyncPageToken;
          reflexivity).
    assert (Hcs : connectors w1 = connectors w)
      by (eapply keeps_run; [|exact E]; apply keeps_getSyncPageToken;
          reflexivity).
    cbn [fst snd]. split; [|split; [discriminate|exact Hcs]].
    intros c d t Ht. unfold persistedCursor in *. now rewrite Hts.
Qed.

Lemma populateSyncTokens_loop env connectorId connector drives : forall w,
  find (fun c => ConnectorResource.id c =? connectorId) (connectors w)
    = Some connector ->
  let loop :=
    forEach drives
      (fun drive =>
         lastSyncToken <-
           getSyncPageToken env connectorId (LightGoogledrive.id drive)
             (LightGoogledrive.isSharedDrive drive) ;;
         persistSyncToken connectorId (LightGoogledrive.id drive)
           lastSyncToken) w in
  (forall c d t, persistedCursor c d w = Some t ->
                 persistedCursor c d (snd loop) = Some t)
  /\ (fst loop = Ok tt ->
      forall drive, In drive drives ->
        persistedCursor connectorId (LightGoogledrive.id drive) (snd loop)
        <> None).
Proof.
  set (body := fun drive : LightGoogledrive.t =>
                 lastSyncToken <-
                   getSyncPageToken env connectorId (LightGoogledrive.id drive)
                     (LightGoogledrive.isSharedDrive drive) ;;
                 persistSyncToken connectorId (LightGoogledrive.id drive)
                   lastSyncToken).
  induction drives as [|d0 drives IH]; intros w Hc loop; subst loop;
    cbn [forEach].
  - split; [auto | intros _ drive []].
  - pose proof (@populateSyncTokens_turn env connectorId connector d0 w Hc)
      as Hturn.
    cbv zeta in Hturn. fold (body d0) in Hturn.
    destruct Hturn as (Hstay & Hhas & Hcs).
    unfold bind.
    destruct (body d0 w) as [[[]|e] w1]; cbn [fst snd] in Hstay, Hhas, Hcs.
    + assert (Hc1 : find (fun c => ConnectorResource.id c =? connectorId)
                      (connectors w1) = Some connector)
        by now rewrite Hcs.
      destruct (IH w1 Hc1) as [IHstay IHhas]. cbv zeta in IHstay, IHhas.
      split.
      * intros c d t Ht. apply IHstay, Hstay, Ht.
      * intros Hok drive [<-|Hin]; [|exact (IHhas Hok drive Hin)].
        destruct (persistedCursor connectorId (LightGoogledrive.id d0) w1)
          as [t|] eqn:Ht; [|now contradiction (Hhas eq_refl)].
        now rewrite (IHstay _ _ _ Ht).
    + cbn [fst snd]. split; [exact Hstay | discriminate].
Qed.

Lemma tracesOnly_keeps T A (proj : World -> T) (P : Event -> bool)
  (m : M A) :
  (forall t w, proj (withTrace t w) = proj w) ->
  tracesOnly P m -> keeps proj m.
Proof.
  intros Ht Hm w. destruct (Hm w) as (t & E & _). now rewrite E, Ht.
Qed.

Lemma tracesOnly_answer P A (r : Result A) : tracesOnly P (answer r).
Proof. intros w. exists []. split; [symmetry; apply withTrace_nil|easy]. Qed.

Lemma tracesOnly_getDrives env denv fuel connectorId :
  tracesOnly (fun _ => true) (getDrives env denv fuel connectorId).
Proof.
  unfold getDrives, fetchById, connectorNotFound.
  apply tracesOnly_bind; [apply tracesOnly_gets|]. intros [connector|];
    [|apply tracesOnly_throw].
  apply tracesOnly_bind; [now apply tracesOnly_call|]. intros drive.
  apply tracesOnly_bind; [now apply tracesOnly_call|]. intros auth.
  apply tracesOnly_bind; [apply tracesOnly_answer|]. intros myDriveId.
  intros w. exists [].
  rewrite (proj1 (getDrives_pages_run denv drive fuel None _ w)).
  split; [symmetry; apply withTrace_nil|reflexivity].
Qed.

Lemma keeps_populateSyncTokens T (proj : World -> T) env denv fuel
  connectorId :
  (forall t w, proj (withTrace t w) = proj w) ->
  (forall ts w, proj (withSyncTokens ts w) = proj w) ->
  keeps proj (populateSyncTokens env denv fuel connectorId).
Proof.
  intros Ht Hs. unfold populateSyncTokens, fetchById, connectorNotFound.
  apply keeps_bind; [apply keeps_gets|]. intros [connector|];
    [|apply keeps_throw].
  apply keeps_bind;
    [apply (tracesOnly_keeps proj Ht (tracesOnly_getDrives _ _ _ _))|].
  intros [drives|]; [|apply keeps_ret].
  apply keeps_bind; [|intros _; apply keeps_ret].
  apply keeps_forEach. intros drive.
  apply keeps_bind; [now apply keeps_getSyncPageToken|]. intros token.
  apply keeps_modify. intros w. apply Hs.
Qed.

Lemma populateSyncTokens_run env denv fuel connectorId connector w :
  find (fun c => ConnectorResource.id c =? connectorId) (connectors w)
    = Some connector ->
  populateSyncTokens env denv fuel connectorId w
  = match getDrives env denv fuel connectorId w with
    | (Ok (Some drives), w1) =>
        (forEach drives
           (fun drive =>
              lastSyncToken <-
                getSyncPageToken env connectorId (LightGoogledrive.id drive)
                  (LightGoogledrive.isSharedDrive drive) ;;
              persistSyncToken connectorId (LightGoogledrive.id drive)
                lastSyncToken) ;;;
         ret (Some tt)) w1
    | (Ok None, w1) => (Ok None, w1)
    | (Throw e, w1) => (Throw e, w1)
    end.
Proof.
  intros Hc.
  assert (Hid : ConnectorResource.id connector = connectorId).
  { apply find_some in Hc. destruct Hc as [_ Hc]. now apply Z.eqb_eq. }
  unfold populateSyncTokens, fetchById. unfold bind at 1. unfold gets at 1.
  rewrite Hc, Hid. unfold bind at 1.
  destruct (getDrives env denv fuel connectorId w) as [[[drives|]|e] w1];
    reflexivity.
Qed.

(** X14.  [populateSyncTokens] never moves a cursor: whatever happens, a
    cursor that was persisted, for any connector and drive, is the same
    afterwards.  When it returns, every drive that [getDrives] lists for
    the connector has a persisted cursor.  It leaves the mirror store, the
    webhooks and the downstream index as they were. *)
Theorem populateSyncTokens_cursors :
  forall env denv fuel connectorId w,
    let run := populateSyncTokens env denv fuel connectorId w in
    (forall c d t, persistedCursor c d w = Some t ->
                   persistedCursor c d (snd run) = Some t)
    /\ (fst run = Ok (Some tt) ->
        exists drives,
          fst (getDrives env denv fuel connectorId w) = Ok (Some drives)
          /\ forall drive, In drive drives ->
               persistedCursor connectorId (LightGoogledrive.id drive)
                 (snd run) <> None)
    /\ googleDriveFiles (snd run) = googleDriveFiles w
    /\ googleDriveWebhooks (snd run) = googleDriveWebhooks w
    /\ dataSource (snd run) = dataSource w.
Proof.
  intros env denv fuel connectorId w run.
  split; [|split; [|split; [|split]]];
    try (subst run; apply keeps_populateSyncTokens; reflexivity).
  - subst run.
    destruct (find (fun c => ConnectorResource.id c =? connectorId)
                (connectors w)) as [connector|] eqn:Hc.
    2:{ unfold populateSyncTokens, fetchById, bind, gets. rewrite Hc.
        auto. }
    rewrite (populateSyncTokens_run env denv fuel connectorId w Hc).
    destruct (tracesOnly_getDrives env denv fuel connectorId w)
      as (t0 & Hw1 & _).
    destruct (getDrives env denv fuel connectorId w)
      as [[[drives|]|e] w1]; cbn [snd] in Hw1 |- *; subst w1; auto.
    destruct (@populateSyncTokens_loop env connectorId connector drives
                (withTrace (trace w ++ t0) w) Hc) as [Hstay _].
    cbv zeta in Hstay.
    intros c d t Ht. unfold bind.
    destruct (forEach drives _ (withTrace (trace w ++ t0) w))
      as [[[]|e] w2]; cbn [snd] in *; apply Hstay; exact Ht.
  - subst run.
    destruct (find (fun c => ConnectorResource.id c =? connectorId)
                (connectors w)) as [connector|] eqn:Hc.
    2:{ unfold populateSyncTokens, fetchById, bind, gets. rewrite Hc.
        discriminate. }
    rewrite (populateSyncTokens_run env denv fuel connectorId w Hc).
    destruct (tracesOnly_getDrives env denv fuel connectorId w)
      as (t0 & Hw1 & _).
    destruct (getDrives env denv fuel connectorId w)
      as [[[drives|]|e] w1]; cbn [snd] in Hw1; subst w1;
      [|discriminate|discriminate].
    destruct (@populateSyncTokens_loop env connectorId connector drives
                (withTrace (trace w ++ t0) w) Hc) as [_ Hhas].
    cbv zeta in Hhas.
    intros Hok. exists drives. split; [reflexivity|].
    unfold bind in Hok |- *.
    destruct (forEach drives _ (withTrace (trace w ++ t0) w))
      as [[[]|e] w2]; cbn [fst snd] in *; [|discriminate].
    now apply Hhas.
Qed.

(** * The launchers *)

Ltac lrun :=
  unfold lbind, lret, lthrow, ltry, service, llog, lfetchById, lnow,
    terminateIfRunning, failedStarting, connectorNotFoundErr in *;
  cbn [fst snd world calls] in *.

Lemma newCalls_app w h t :
  newCalls w (mkLaunchWorld t (calls w ++ h)) = h.
Proof.
  unfold newCalls. cbn [calls].
  rewrite skipn_app, skipn_all, Nat.sub_diag. reflexivity.
Qed.

Lemma newCalls_refl w : newCalls w w = [].
Proof. unfold newCalls. apply skipn_all. Qed.

(** The launch of a full sync, once past its guards. *)
Lemma launchGoogleDriveFullSyncWorkflow_run env lenv connectorId fromTs w
  connector :
  find (fun c => ConnectorResource.id c =? connectorId)
    (connectors (world w)) = Some connector ->
  truthyNumber fromTs = false ->
  let workflowId := googleDriveFullSyncWorkflowId lenv connectorId in
  let options := fullSyncOptions env lenv connector connectorId in
  let asked := calls w ++ [CallGetTemporalClient] in
  launchGoogleDriveFullSyncWorkflow env lenv connectorId fromTs w
  = match getTemporalClient lenv (calls w) with
    | Some e => (Throws e, mkLaunchWorld (world w) asked)
    | None =>
        match terminate lenv asked workflowId with
        | Some (OtherError e) =>
            (Returns (LaunchErr (OtherError e)),
             mkLaunchWorld
               (withTrace
                  (trace (world w) ++ [LogError "Failed starting workflow."])
                  (world w))
               (asked ++ [CallTerminate workflowId]))
        | Some (RateLimitError m) =>
            (Returns (LaunchErr (RateLimitError m)),
             mkLaunchWorld
               (withTrace
                  (trace (world w) ++ [LogError "Failed starting workflow."])
                  (world w))
               (asked ++ [CallTerminate workflowId]))
        | _ =>
            match start lenv (asked ++ [CallTerminate workflowId]) options
            with
            | Some e =>
                (Returns (LaunchErr e),
                 mkLaunchWorld
                   (withTrace
                      (trace (world w)
                       ++ [LogError "Failed starting workflow."]) (world w))
                   ((asked ++ [CallTerminate workflowId])
                    ++ [CallStart options]))
            | None =>
                (Returns (LaunchOk workflowId),
                 mkLaunchWorld
                   (withTrace
                      (trace (world w) ++ [LogInfo "Started workflow."])
                      (world w))
                   ((asked ++ [CallTerminate workflowId])
                    ++ [CallStart options]))
            end
        end
    end.
Proof.
  intros Hc Hts workflowId options asked.
  subst workflowId options asked.
  unfold launchGoogleDriveFullSyncWorkflow, fullSyncOptions,
    terminateIfRunning, failedStarting, lfetchById.
  unfold lbind at 1. rewrite Hc, Hts.
  unfold lbind, ltry, service, llog, lret, lthrow.
  cbn [world calls].
  destruct (getTemporalClient lenv (calls w)); [reflexivity|].
  cbn [world calls].
  destruct (terminate lenv _ _) as [[m|m|e]|];
    cbn [isWorkflowNotFoundError negb world calls]; try reflexivity;
    destruct (start lenv _ _); reflexivity.
Qed.

(** X15.  [launchGoogleDriveFullSyncWorkflow] restarts the full sync of a
    connector.  It asks nothing of the service for a connector that does
    not exist or for a partial resync (a [fromTs] that is not null and not
    zero), and returns an error.  Otherwise it starts the workflow only
    after asking to terminate the workflow of the same id, and only if
    that went through or found no such workflow.  It throws only when the
    client of the service cannot be had: any later failure is returned as
    an error.  It returns the id of the workflow only when the start went
    through.  It changes no table. *)
Theorem launchGoogleDriveFullSyncWorkflow_restarts :
  forall env lenv connectorId fromTs w,
    let run := launchGoogleDriveFullSyncWorkflow env lenv connectorId fromTs
                 w in
    let workflowId := googleDriveFullSyncWorkflowId lenv connectorId in
    let asked := calls w ++ [CallGetTemporalClient] in
    tables (world (snd run)) = tables (world w)
    /\ (find (fun c => ConnectorResource.id c =? connectorId)
          (connectors (world w)) = None
        \/ truthyNumber fromTs = true ->
        snd run = w /\ exists e, fst run = Returns (LaunchErr e))
    /\ (forall e, fst run = Throws e ->
          getTemporalClient lenv (calls w) = Some e
          /\ newCalls w (snd run) = [CallGetTemporalClient])
    /\ (forall options,
          In (CallStart options) (newCalls w (snd run)) ->
          newCalls w (snd run)
          = [CallGetTemporalClient; CallTerminate workflowId;
             CallStart options]
          /\ StartOptions.workflowId options = workflowId
          /\ terminated lenv asked workflowId = true)
    /\ (forall id, fst run = Returns (LaunchOk id) ->
          id = workflowId
          /\ exists options,
               In (CallStart options) (newCalls w (snd run))
               /\ start lenv (asked ++ [CallTerminate workflowId]) options
                  = None).
Proof.
  intros env lenv connectorId fromTs w run workflowId asked.
  destruct (find (fun c => ConnectorResource.id c =? connectorId)
              (connectors (world w))) as [connector|] eqn:Hc.
  2:{ assert (Hrun : run = (Returns (connectorNotFoundErr connectorId), w)).
      { subst run. unfold launchGoogleDriveFullSyncWorkflow, lfetchById,
          lbind, lret. now rewrite Hc. }
      rewrite Hrun. cbn [fst snd]. rewrite newCalls_refl.
      split; [reflexivity|split; [intros _; split; [reflexivity|]|]].
      { eexists. reflexivity. }
      split; [discriminate|split; [intros o []|discriminate]]. }
  destruct (truthyNumber fromTs) eqn:Hts.
  { assert (Hrun : exists e, run = (Returns (LaunchErr e), w)).
    { subst run. unfold launchGoogleDriveFullSyncWorkflow, lfetchById,
        lbind, lret. rewrite Hc, Hts. eexists. reflexivity. }
    destruct Hrun as [e Hrun]. rewrite Hrun. cbn [fst snd].
    rewrite newCalls_refl.
    split; [reflexivity|split; [intros _; split; [reflexivity|]|]].
    { eexists. reflexivity. }
    split; [discriminate|split; [intros o []|discriminate]]. }
  pose proof (@launchGoogleDriveFullSyncWorkflow_run env lenv connectorId
                fromTs w connector Hc Hts) as Hrun.
  cbv zeta in Hrun. fold run workflowId asked in Hrun.
  unfold terminated.
  destruct (getTemporalClient lenv (calls w)) as [e0|] eqn:Hclient.
  { rewrite Hrun. cbn [fst snd world]. subst asked. rewrite newCalls_app.
    split; [reflexivity|split; [intros [H|H]; discriminate|]].
    split; [intros e H; inversion H; now split|].
    split; [intros o [H|[]]; discriminate|discriminate]. }
  assert (Hgo : forall (Hterm : match terminate lenv asked workflowId with
                                | Some (OtherError _) => False
                                | Some (RateLimitError _) => False
                                | _ => True
                                end),
            run = match start lenv (asked ++ [CallTerminate workflowId])
                          (fullSyncOptions env lenv connector connectorId)
                  with
                  | Some e =>
                      (Returns (LaunchErr e),
                       mkLaunchWorld
                         (withTrace
                            (trace (world w)
                             ++ [LogError "Failed starting workflow."])
                            (world w))
                         ((asked ++ [CallTerminate workflowId])
                          ++ [CallStart (fullSyncOptions env lenv connector
                                           connectorId)]))
                  | None =>
                      (Returns (LaunchOk workflowId),
                       mkLaunchWorld
                         (withTrace
                            (trace (world w)
                             ++ [LogInfo "Started workflow."]) (world w))
                         ((asked ++ [CallTerminate workflowId])
                          ++ [CallStart (fullSyncOptions env lenv connector
                                           connectorId)]))
                  end
            /\ match terminate lenv asked workflowId with
               | Some e => isWorkflowNotFoundError e
               | None => true
               end = true).
  { intros Hterm. rewrite Hrun.
    destruct (terminate lenv asked workflowId) as [[m|m|e]|];
      try contradiction; now split. }
  destruct (terminate lenv asked workflowId) as [[m|m|e]|] eqn:Hterm.
  1, 4: destruct (Hgo I) as [Hrun' Hok]; clear Hgo; rewrite Hrun';
    destruct (start lenv (asked ++ [CallTerminate workflowId])
                (fullSyncOptions env lenv connector connectorId))
      as [e2|] eqn:Hstart;
    cbn [fst snd world]; subst asked; rewrite <- !app_assoc, newCalls_app;
    cbn [app];
    (split; [reflexivity|split; [intros [H|H]; discriminate|]]);
    (split; [discriminate|]);
    (split;
     [intros o [H|[H|[H|[]]]]; try discriminate; inversion H;
      split; [reflexivity|split; [reflexivity|exact Hok]]|]);
    try discriminate;
    (intros id H; inversion H; split; [reflexivity|];
     eexists; split; [right; right; left; reflexivity|];
     rewrite <- app_assoc in Hstart; exact Hstart).
  all: clear Hgo; rewrite Hrun; cbn [fst snd world]; subst asked;
    rewrite <- !app_assoc, newCalls_app; cbn [app];
    (split; [reflexivity|split; [intros [H|H]; discriminate|]]);
    (split; [discriminate|split; [|discriminate]]);
    intros o [H|[H|[]]]; discriminate.
Qed.

Lemma launchGoogleDriveRenewWebhooksWorkflow_run lenv w :
  let workflowId := googleDriveRenewWebhooksWorkflowId lenv in
  let options := renewWebhooksOptions lenv in
  let asked := calls w ++ [CallGetTemporalClient] in
  launchGoogleDriveRenewWebhooksWorkflow lenv w
  = match getTemporalClient lenv (calls w) with
    | Some e => (Throws e, mkLaunchWorld (world w) asked)
    | None =>
        match terminate lenv asked workflowId with
        | Some (OtherError e) =>
            (Throws (OtherError e),
             mkLaunchWorld (world w) (asked ++ [CallTerminate workflowId]))
        | Some (RateLimitError m) =>
            (Throws (RateLimitError m),
             mkLaunchWorld (world w) (asked ++ [CallTerminate workflowId]))
        | _ =>
            match start lenv (asked ++ [CallTerminate workflowId]) options
            with
            | Some e =>
                (Returns (LaunchErr e),
                 mkLaunchWorld
                   (withTrace
                      (trace (world w)
                       ++ [LogError "Failed starting workflow."]) (world w))
                   ((asked ++ [CallTerminate workflowId])
                    ++ [CallStart options]))
            | None =>
                (Returns (LaunchOk workflowId),
                 mkLaunchWorld
                   (withTrace
                      (trace (world w) ++ [LogInfo "Started workflow."])
                      (world w))
                   ((asked ++ [CallTerminate workflowId])
                    ++ [CallStart options]))
            end
        end
    end.
Proof.
  intros workflowId options asked. subst workflowId options asked.
  unfold launchGoogleDriveRenewWebhooksWorkflow, renewWebhooksOptions,
    terminateIfRunning, failedStarting.
  unfold lbind, ltry, service, llog, lret, lthrow.
  cbn [world calls].
  destruct (getTemporalClient lenv (calls w)); [reflexivity|].
  cbn [world calls].
  destruct (terminate lenv _ _) as [[m|m|e]|];
    cbn [isWorkflowNotFoundError negb world calls]; try reflexivity;
    destruct (start lenv _ _); reflexivity.
Qed.

(** X16.  [launchGoogleDriveRenewWebhooksWorkflow] restarts the renewal
    workflow on its half-hourly schedule.  Unlike the launchers of the
    syncs, it throws when the running workflow cannot be terminated (for
    another reason than there being none), as it does when the client
    cannot be had; it asks for no start then.  A start that fails is
    returned as an error.  The start comes only after the terminate of the
    same id, and the id is returned only when the start went through. *)
Theorem launchGoogleDriveRenewWebhooksWorkflow_restarts :
  forall lenv w,
    let run := launchGoogleDriveRenewWebhooksWorkflow lenv w in
    let workflowId := googleDriveRenewWebhooksWorkflowId lenv in
    let asked := calls w ++ [CallGetTemporalClient] in
    tables (world (snd run)) = tables (world w)
    /\ (forall e,
          fst run = Throws e <->
          getTemporalClient lenv (calls w) = Some e
          \/ (getTemporalClient lenv (calls w) = None
              /\ terminate lenv asked workflowId = Some e
              /\ isWorkflowNotFoundError e = false))
    /\ (forall options,
          In (CallStart options) (newCalls w (snd run)) ->
          newCalls w (snd run)
          = [CallGetTemporalClient; CallTerminate workflowId;
             CallStart options]
          /\ options = renewWebhooksOptions lenv
          /\ terminated lenv asked workflowId = true
          /\ exists r, fst run = Returns r)
    /\ (forall id, fst run = Returns (LaunchOk id) ->
          id = workflowId
          /\ In (CallStart (renewWebhooksOptions lenv))
               (newCalls w (snd run))
          /\ start lenv (asked ++ [CallTerminate workflowId])
               (renewWebhooksOptions lenv) = None).
Proof.
  intros lenv w run workflowId asked.
  pose proof (launchGoogleDriveRenewWebhooksWorkflow_run lenv w) as Hrun.
  cbv zeta in Hrun. fold run workflowId asked in Hrun.
  unfold terminated.
  destruct (getTemporalClient lenv (calls w)) as [e0|] eqn:Hclient.
  { rewrite Hrun. cbn [fst snd world]. subst asked. rewrite newCalls_app.
    split; [reflexivity|split; [|split]].
    - intros e. split.
      + intros H. inversion H. now left.
      + intros [H|[H _]]; [now inversion H | discriminate].
    - intros o [H|[]]. discriminate.
    - discriminate. }
  destruct (terminate lenv asked workflowId) as [[m|m|e]|] eqn:Hterm.
  1, 4: destruct (start lenv (asked ++ [CallTerminate workflowId])
                    (renewWebhooksOptions lenv)) as [e2|] eqn:Hstart;
    rewrite Hrun; cbn [fst snd world]; subst asked;
    rewrite <- !app_assoc, newCalls_app; cbn [app];
    (split; [reflexivity|split; [|split]]);
    [ intros e; split;
      [discriminate
      |intros [H|(_ & H & Hn)];
       [discriminate|inversion H; subst; discriminate]]
    | intros o [H|[H|[H|[]]]]; try discriminate; inversion H;
      split; [reflexivity|split; [reflexivity|split; [reflexivity|]]];
      eexists; reflexivity
    | try discriminate
    | intros e; split;
      [discriminate
      |intros [H|(_ & H & Hn)];
       [discriminate|inversion H; subst; discriminate]]
    | intros o [H|[H|[H|[]]]]; try discriminate; inversion H;
      split; [reflexivity|split; [reflexivity|split; [reflexivity|]]];
      eexists; reflexivity
    | intros id H; inversion H;
      split; [reflexivity|split; [right; right; left; reflexivity|]];
      reflexivity ].
  all: rewrite Hrun; cbn [fst snd world]; subst asked;
    rewrite <- !app_assoc, newCalls_app; cbn [app];
    (split; [reflexivity|split; [|split]]);
    [ intros e'; split;
      [intros H; inversion H; right; now repeat split
      |intros [H|(_ & H & _)]; [discriminate|now inversion H]]
    | intros o [H|[H|[]]]; discriminate
    | discriminate ].
Qed.

Lemma launchGoogleDriveIncrementalSyncWorkflow_run env lenv connectorId w
  connector :
  find (fun c => ConnectorResource.id c =? connectorId)
    (connectors (world w)) = Some connector ->
  let workflowId := googleDriveIncrementalSyncWorkflowId lenv connectorId in
  let options := incrementalSyncOptions env lenv connector connectorId in
  let limiter :=
    CallRateLimiter (incrementalSyncKey connectorId) 1
      (GDRIVE_INCREMENTAL_SYNC_DEBOUNCE_SEC lenv) in
  let asked := (calls w ++ [limiter]) ++ [CallGetTemporalClient] in
  launchGoogleDriveIncrementalSyncWorkflow env lenv connectorId w
  = match rateLimiter lenv (calls w) (incrementalSyncKey connectorId) 1
            (GDRIVE_INCREMENTAL_SYNC_DEBOUNCE_SEC lenv) with
    | inr e => (Throws e, mkLaunchWorld (world w) (calls w ++ [limiter]))
    | inl remaining =>
        if remaining =? 0 then
          (Returns (LaunchErr (RateLimitError "Rate limit exceeded")),
           mkLaunchWorld (world w) (calls w ++ [limiter]))
        else
          match getTemporalClient lenv (calls w ++ [limiter]) with
          | Some e => (Throws e, mkLaunchWorld (world w) asked)
          | None =>
              match signalWithStart lenv asked options with
              | Some e =>
                  (Returns (LaunchErr e),
                   mkLaunchWorld
                     (withTrace
                        (trace (world w)
                         ++ [LogError "Failed starting workflow."])
                        (world w))
                     (asked ++ [CallSignalWithStart options]))
              | None =>
                  (Returns (LaunchOk workflowId),
                   mkLaunchWorld
                     (withTrace
                        (trace (world w) ++ [LogInfo "Started workflow."])
                        (world w))
                     (asked ++ [CallSignalWithStart options]))
              end
          end
    end.
Proof.
  intros Hc workflowId options limiter asked.
  subst workflowId options limiter asked.
  unfold launchGoogleDriveIncrementalSyncWorkflow, incrementalSyncOptions,
    incrementalSyncKey, failedStarting, lfetchById.
  unfold lbind at 1. rewrite Hc.
  unfold lbind, ltry, service, llog, lret, lthrow.
  cbn [world calls].
  destruct (rateLimiter lenv (calls w) _ 1 _) as [remaining|e];
    [|reflexivity].
  destruct (remaining =? 0); [reflexivity|].
  cbn [world calls].
  destruct (getTemporalClient lenv _); [reflexivity|].
  cbn [world calls].
  destruct (signalWithStart lenv _ _); reflexivity.
Qed.

(** X17.  [launchGoogleDriveIncrementalSyncWorkflow] is debounced and
    never terminates anything.  When the rate limiter leaves no allowance
    it returns a [RateLimitError] having asked the service for nothing
    else.  It signals the workflow (starting it if need be) only with an
    allowance that is not zero, with the webhook signal, and returns the
    id only when that went through. *)
Theorem launchGoogleDriveIncrementalSyncWorkflow_debounced :
  forall env lenv connectorId w connector,
    find (fun c => ConnectorResource.id c =? connectorId)
      (connectors (world w)) = Some connector ->
    let run := launchGoogleDriveIncrementalSyncWorkflow env lenv connectorId
                 w in
    let workflowId := googleDriveIncrementalSyncWorkflowId lenv connectorId in
    let allowance :=
      rateLimiter lenv (calls w) (incrementalSyncKey connectorId) 1
        (GDRIVE_INCREMENTAL_SYNC_DEBOUNCE_SEC lenv) in
    let limiter :=
      CallRateLimiter (incrementalSyncKey connectorId) 1
        (GDRIVE_INCREMENTAL_SYNC_DEBOUNCE_SEC lenv) in
    tables (world (snd run)) = tables (world w)
    /\ existsb isTerminateCall (newCalls w (snd run)) = false
    /\ (allowance = inl 0 ->
        run = (Returns (LaunchErr (RateLimitError "Rate limit exceeded")),
               mkLaunchWorld (world w) (calls w ++ [limiter])))
    /\ (forall options,
          In (CallSignalWithStart options) (newCalls w (snd run)) ->
          newCalls w (snd run)
          = [limiter; CallGetTemporalClient; CallSignalWithStart options]
          /\ options = incrementalSyncOptions env lenv connector connectorId
          /\ exists remaining, allowance = inl remaining /\ remaining <> 0)
    /\ (forall id, fst run = Returns (LaunchOk id) ->
          id = workflowId
          /\ In (CallSignalWithStart
                   (incrementalSyncOptions env lenv connector connectorId))
               (newCalls w (snd run))).
Proof.
  intros env lenv connectorId w connector Hc run workflowId allowance
    limiter.
  pose proof (@launchGoogleDriveIncrementalSyncWorkflow_run env lenv
                connectorId w connector Hc) as Hrun.
  cbv zeta in Hrun. fold run workflowId allowance limiter in Hrun.
  destruct allowance as [remaining|e] eqn:Hallow.
  2:{ rewrite Hrun. cbn [fst snd world]. rewrite newCalls_app.
      split; [reflexivity|split; [reflexivity|split; [discriminate|]]].
      split; [intros o [H|[]]; discriminate|discriminate]. }
  destruct (Z.eqb_spec remaining 0) as [->|Hne].
  { rewrite Hrun. cbn [fst snd world]. rewrite newCalls_app.
    split; [reflexivity|split; [reflexivity|split; [reflexivity|]]].
    split; [intros o [H|[]]; discriminate|discriminate]. }
  destruct (getTemporalClient lenv (calls w ++ [limiter])) as [e|].
  { rewrite Hrun. cbn [fst snd world]. rewrite <- !app_assoc, newCalls_app.
    split; [reflexivity|split; [reflexivity|split]].
    - intros H. inversion H. contradiction.
    - split; [intros o [H|[H|[]]]; discriminate|discriminate]. }
  destruct (signalWithStart lenv _ _) as [e|];
    rewrite Hrun; cbn [fst snd world]; rewrite <- !app_assoc, newCalls_app;
    cbn [app];
    (split; [reflexivity|split; [reflexivity|split]]);
    try (intros H; inversion H; contradiction);
    (split;
     [intros o [H|[H|[H|[]]]]; try discriminate; inversion H;
      split; [reflexivity|split; [reflexivity|]];
      exists remaining; now split|]);
    try discriminate.
  intros id H. inversion H.
  split; [reflexivity|right; right; left; reflexivity].
Qed.

Lemma launchGoogleDriveIncrementalSyncWorkflow_debounced_witness :
  launchGoogleDriveIncrementalSyncWorkflow revisitEnv stuckService 1
    launchWorld1
  = (Returns (LaunchErr (RateLimitError "Rate limit exceeded")),
     mkLaunchWorld (world launchWorld1)
       (calls launchWorld1
        ++ [CallRateLimiter (incrementalSyncKey 1) 1
              (GDRIVE_INCREMENTAL_SYNC_DEBOUNCE_SEC stuckService)])).
Proof.
  apply (@launchGoogleDriveIncrementalSyncWorkflow_debounced revisitEnv
           stuckService 1 launchWorld1 connector1 eq_refl).
  reflexivity.
Defined.

Lemma launchGoogleGarbageCollector_run env lenv connectorId w connector :
  find (fun c => ConnectorResource.id c =? connectorId)
    (connectors (world w)) = Some connector ->
  let workflowId := googleDriveGarbageCollectorWorkflowId lenv connectorId in
  let options :=
    garbageCollectorOptions lenv connector connectorId
      (clock env (clockReads (world w))) in
  let asked := calls w ++ [CallGetTemporalClient] in
  let later := withClockReads (S (clockReads (world w))) (world w) in
  launchGoogleGarbageCollector env lenv connectorId w
  = match getTemporalClient lenv (calls w) with
    | Some e => (Throws e, mkLaunchWorld (world w) asked)
    | None =>
        match terminate lenv asked workflowId with
        | Some (OtherError e) =>
            (Returns (LaunchErr (OtherError e)),
             mkLaunchWorld
               (withTrace
                  (trace (world w) ++ [LogError "Failed starting workflow."])
                  (world w))
               (asked ++ [CallTerminate workflowId]))
        | Some (RateLimitError m) =>
            (Returns (LaunchErr (RateLimitError m)),
             mkLaunchWorld
               (withTrace
                  (trace (world w) ++ [LogError "Failed starting workflow."])
                  (world w))
               (asked ++ [CallTerminate workflowId]))
        | _ =>
            match start lenv (asked ++ [CallTerminate workflowId]) options
            with
            | Some e =>
                (Returns (LaunchErr e),
                 mkLaunchWorld
                   (withTrace
                      (trace later ++ [LogError "Failed starting workflow."])
                      later)
                   ((asked ++ [CallTerminate workflowId])
                    ++ [CallStart options]))
            | None =>
                (Returns (LaunchOk workflowId),
                 mkLaunchWorld
                   (withTrace
                      (trace later ++ [LogInfo "Started workflow."]) later)
                   ((asked ++ [CallTerminate workflowId])
                    ++ [CallStart options]))
            end
        end
    end.
Proof.
  intros Hc workflowId options asked later.
  subst workflowId options asked later.
  unfold launchGoogleGarbageCollector, garbageCollectorOptions,
    terminateIfRunning, failedStarting, lfetchById.
  unfold lbind at 1. rewrite Hc.
  unfold lbind, ltry, service, llog, lret, lthrow, lnow.
  cbn [world calls].
  destruct (getTemporalClient lenv (calls w)); [reflexivity|].
  cbn [world calls].
  destruct (terminate lenv _ _) as [[m|m|e]|];
    cbn [isWorkflowNotFoundError negb world calls]; try reflexivity;
    destruct (start lenv _ _); reflexivity.
Qed.

(** X18.  [launchGoogleGarbageCollector] restarts the garbage collection
    of a connector as the full sync is restarted: the start comes only
    after the terminate of the same id, that went through or found no such
    workflow; it throws only when the client cannot be had; the id is
    returned only when the start went through.  The workflow is started
    for the connector with the time read from the clock after the
    terminate: the clock is not read when the terminate fails. *)
Theorem launchGoogleGarbageCollector_restarts :
  forall env lenv connectorId w connector,
    find (fun c => ConnectorResource.id c =? connectorId)
      (connectors (world w)) = Some connector ->
    let run := launchGoogleGarbageCollector env lenv connectorId w in
    let workflowId := googleDriveGarbageCollectorWorkflowId lenv connectorId in
    let asked := calls w ++ [CallGetTemporalClient] in
    let options :=
      garbageCollectorOptions lenv connector connectorId
        (clock env (clockReads (world w))) in
    tables (world (snd run)) = tables (world w)
    /\ (forall e, fst run = Throws e ->
          getTemporalClient lenv (calls w) = Some e
          /\ newCalls w (snd run) = [CallGetTemporalClient])
    /\ (forall o,
          In (CallStart o) (newCalls w (snd run)) ->
          newCalls w (snd run)
          = [CallGetTemporalClient; CallTerminate workflowId; CallStart o]
          /\ o = options
          /\ StartOptions.args o
             = [ArgConnectorId connectorId;
                ArgTimestamp (clock env (clockReads (world w)))]
          /\ terminated lenv asked workflowId = true
          /\ clockReads (world (snd run)) = S (clockReads (world w)))
    /\ ((forall o, ~ In (CallStart o) (newCalls w (snd run))) ->
        clockReads (world (snd run)) = clockReads (world w))
    /\ (forall id, fst run = Returns (LaunchOk id) ->
          id = workflowId
          /\ In (CallStart options) (newCalls w (snd run))
          /\ start lenv (asked ++ [CallTerminate workflowId]) options = None).
Proof.
  intros env lenv connectorId w connector Hc run workflowId asked options.
  assert (Hid : ConnectorResource.id connector = connectorId).
  { apply find_some in Hc. destruct Hc as [_ Hc]. now apply Z.eqb_eq. }
  pose proof (@launchGoogleGarbageCollector_run env lenv connectorId w
                connector Hc) as Hrun.
  cbv zeta in Hrun. fold run workflowId asked options in Hrun.
  unfold terminated.
  destruct (getTemporalClient lenv (calls w)) as [e0|] eqn:Hclient.
  { rewrite Hrun. cbn [fst snd world]. subst asked. rewrite newCalls_app.
    split; [reflexivity|split; [intros e H; inversion H; now split|]].
    split; [intros o [H|[]]; discriminate|].
    split; [reflexivity|discriminate]. }
  destruct (terminate lenv asked workflowId) as [[m|m|e]|] eqn:Hterm.
  1, 4: destruct (start lenv (asked ++ [CallTerminate workflowId]) options)
      as [e2|] eqn:Hstart;
    rewrite Hrun; cbn [fst snd world]; subst asked;
    rewrite <- !app_assoc, newCalls_app; cbn [app];
    (split; [reflexivity|split; [discriminate|]]);
    (split;
     [intros o [H|[H|[H|[]]]]; try discriminate; inversion H;
      split; [reflexivity|split; [reflexivity|]];
      split; [subst options; unfold garbageCollectorOptions;
              cbn [StartOptions.args]; now rewrite Hid|];
      split; reflexivity|]);
    (split;
     [intros Hno; exfalso; apply (Hno options); right; right; left;
      reflexivity|]);
    try discriminate;
    (intros id H; inversion H;
     split; [reflexivity|split; [right; right; left; reflexivity|]];
     reflexivity).
  all: rewrite Hrun; cbn [fst snd world]; subst asked;
    rewrite <- !app_assoc, newCalls_app; cbn [app];
    (split; [reflexivity|split; [discriminate|]]);
    (split; [intros o [H|[H|[]]]; discriminate|]);
    (split; [reflexivity|discriminate]).
Qed.

Lemma launchGoogleGarbageCollector_restarts_witness :
  "googleDrive-GarbageCollector-1"
  = googleDriveGarbageCollectorWorkflowId idleService 1
  /\ In (CallStart (garbageCollectorOptions idleService connector1 1 5000))
       (newCalls launchWorld1
          (snd (launchGoogleGarbageCollector revisitEnv idleService 1
                  launchWorld1)))
  /\ start idleService
       ((calls launchWorld1 ++ [CallGetTemporalClient])
        ++ [CallTerminate (googleDriveGarbageCollectorWorkflowId idleService
                             1)])
       (garbageCollectorOptions idleService connector1 1 5000) = None.
Proof.
  apply (@launchGoogleGarbageCollector_restarts revisitEnv idleService 1
           launchWorld1 connector1 eq_refl).
  reflexivity.
Defined.

(** * Deleting: the order of the two deletes *)

(** X19.  [deleteFile] destroys the mirror row last: when it throws (the
    connector is not found, or the downstream delete fails) the mirror
    store is as it was, so the row is still there for the next attempt.
    The same holds for [deleteOneFile]. *)
Theorem deleteFile_failure_keeps_mirror_row :
  forall env w e,
    (forall f, fst (deleteFile env f w) = Throw e ->
               googleDriveFiles (snd (deleteFile env f w))
               = googleDriveFiles w)
    /\ (forall connectorId file,
          fst (deleteOneFile env connectorId file w) = Throw e ->
          googleDriveFiles (snd (deleteOneFile env connectorId file w))
          = googleDriveFiles w).
Proof.
  intros env w e.
  assert (Hdel : forall f w0,
            fst (deleteFile env f w0) = Throw e ->
            googleDriveFiles (snd (deleteFile env f w0))
            = googleDriveFiles w0).
  { intros f w0. unfold deleteFile. run.
    destruct (find _ (connectors w0)) as [c|]; [|reflexivity]. simpl.
    destruct (isGoogleDriveSpreadSheetFile env f).
    - unfold deleteSpreadsheet. simpl.
      destruct (deleteSpreadsheet_result env c f (dataSource w0))
        as [[[]|e'] ds]; simpl; [discriminate|reflexivity].
    - destruct (negb _).
      + unfold deleteFromDataSource. simpl.
        destruct (deleteFromDataSource_error env _ _); simpl;
          [reflexivity|discriminate].
      + simpl. discriminate. }
  split; [intros f; apply Hdel|].
  intros connectorId file. unfold deleteOneFile, bind, gets.
  destruct (findFile connectorId (GoogleDriveObjectType.id file)
              (googleDriveFiles w)) as [row|]; [apply Hdel|discriminate].
Qed.

(** * The time of the last garbage collection *)

Lemma find_isConnectorRow_map connectorId c (g : ConnectorRow.t ->
                                              ConnectorRow.t) rows :
  (forall r, ConnectorRow.connector (g r) = ConnectorRow.connector r) ->
  find (isConnectorRow connectorId)
    (map (fun r => if isConnectorRow c r then g r else r) rows)
  = option_map (fun r => if isConnectorRow c r then g r else r)
      (find (isConnectorRow connectorId) rows).
Proof.
  intros Hg. induction rows as [|r rows IH]; simpl; [reflexivity|].
  assert (E : isConnectorRow connectorId
                (if isConnectorRow c r then g r else r)
              = isConnectorRow connectorId r).
  { destruct (isConnectorRow c r); [|reflexivity].
    unfold isConnectorRow. now rewrite Hg. }
  rewrite E. destruct (isConnectorRow connectorId r); [reflexivity|exact IH].
Qed.

(** X20.  [getLastGCTime] reads what [garbageCollectorFinished] wrote:
    after a collection of a connector is marked as finished, the time of
    its last collection is the clock read of the marking; the time of any
    other connector is what it was; and a connector that does not exist
    makes both throw, the marking changing nothing. *)
Theorem getLastGCTime_after_garbageCollectorFinished :
  forall env connectorId w,
    let run := garbageCollectorFinished env connectorId w in
    (forall connector,
       find (isConnectorRow connectorId) (connectorRows w) = Some connector ->
       fst run = Ok tt
       /\ getLastGCTime connectorId (snd run)
          = Ok (clock env (gcClockReads w))
       /\ forall other, other <> connectorId ->
            getLastGCTime other (snd run) = getLastGCTime other w)
    /\ (find (isConnectorRow connectorId) (connectorRows w) = None ->
        exists e,
          run = (Throw e, w) /\ getLastGCTime connectorId w = Throw e).
Proof.
  intros env connectorId w run. subst run.
  unfold garbageCollectorFinished, getLastGCTime.
  destruct (find (isConnectorRow connectorId) (connectorRows w))
    as [connector|] eqn:Hc.
  - split; [|discriminate].
    intros c Hc'. inversion Hc'. subst c. clear Hc'.
    assert (Hid : ConnectorResource.id (ConnectorRow.connector connector)
                  = connectorId).
    { apply find_some in Hc. destruct Hc as [_ Hc]. now apply Z.eqb_eq. }
    rewrite Hid. cbn [fst snd connectorRows].
    split; [reflexivity|split].
    + rewrite find_isConnectorRow_map by reflexivity. rewrite Hc. simpl.
      apply find_some in Hc. destruct Hc as [_ Hc]. rewrite Hc. simpl.
      destruct (clock env (gcClockReads w) =? 0) eqn:E; [|reflexivity].
      apply Z.eqb_eq in E. now rewrite E.
    + intros other Hne.
      rewrite find_isConnectorRow_map by reflexivity.
      destruct (find (isConnectorRow other) (connectorRows w)) as [r|] eqn:Hr;
        [|reflexivity].
      simpl. apply find_some in Hr. destruct Hr as [_ Hr].
      unfold isConnectorRow in Hr |- *. apply Z.eqb_eq in Hr.
      rewrite Hr. apply Z.eqb_neq in Hne. now rewrite Hne.
  - split; [discriminate|]. intros _. eexists. split; reflexivity.
Qed.

Example deleteFile_downstream_down :
  fst (deleteFile (downstreamDown trashedEnv)
         (mirrorRow "doc1" documentMimeType (Some "folder1") (Some 50))
         trashedWorld)
  = Throw (HTTPError "Service Unavailable")
  /\ googleDriveFiles
       (snd (deleteFile (downstreamDown trashedEnv)
               (mirrorRow "doc1" documentMimeType (Some "folder1") (Some 50))
               trashedWorld))
     = [mirrorRow "doc1" documentMimeType (Some "folder1") (Some 50)].
Proof. split; reflexivity. Qed.

Example getLastGCTime_never_collected :
  getLastGCTime 1 gcWorld1 = Ok 0
  /\ getLastGCTime 1 (snd (garbageCollectorFinished revisitEnv 1 gcWorld1))
     = Ok 5000
  /\ getLastGCTime 2 (snd (garbageCollectorFinished revisitEnv 1 gcWorld1))
     = Ok 0.
Proof. repeat split; reflexivity. Qed.

(** * Incremental sync: a connector that watches nothing *)

Lemma quiet_refl w : quiet w w.
Proof.
  split; [|split; [auto|reflexivity]].
  exists []. split; [now rewrite app_nil_r|reflexivity].
Qed.

Lemma quiet_trans w1 w2 w3 : quiet w1 w2 -> quiet w2 w3 -> quiet w1 w3.
Proof.
  intros ((t1 & E1 & P1) & K1 & F1) ((t2 & E2 & P2) & K2 & F2).
  split; [|split; [auto|congruence]].
  exists (t1 ++ t2). rewrite E2, E1, app_assoc, existsb_app, P1, P2.
  now split.
Qed.

Lemma quiet_bind A B (m : M A) (k : A -> M B) w :
  quiet w (snd (m w)) ->
  (forall a w1, m w = (Ok a, w1) -> quiet w1 (snd (k a w1))) ->
  quiet w (snd (bind m k w)).
Proof.
  intros Hm Hk. unfold bind. destruct (m w) as [[a|e] w1]; simpl in *.
  - apply quiet_trans with w1; [exact Hm | now apply Hk].
  - exact Hm.
Qed.

Lemma quiet_tryCatch A (m : M A) (h : JsError -> M A) w :
  quiet w (snd (m w)) ->
  (forall e w1, m w = (Throw e, w1) -> quiet w1 (snd (h e w1))) ->
  quiet w (snd (tryCatch m h w)).
Proof.
  intros Hm Hh. unfold tryCatch. destruct (m w) as [[a|e] w1]; simpl in *.
  - exact Hm.
  - apply quiet_trans with w1; [exact Hm | now apply Hh].
Qed.

Lemma quiet_forEach A (xs : list A) (body : A -> M unit) :
  (forall x w, quiet w (snd (body x w))) ->
  forall w, quiet w (snd (forEach xs body w)).
Proof.
  intros Hb. induction xs as [|x xs IH]; intros w; simpl.
  - apply quiet_refl.
  - apply quiet_bind; [apply Hb | intros _ w1 _; apply IH].
Qed.

Lemma quiet_tracesOnly A (m : M A) w :
  tracesOnly (fun e => negb (isSyncOneFileCall e)) m ->
  quiet w (snd (m w)).
Proof.
  intros Hm. destruct (Hm w) as (t & E & Pt). rewrite E.
  split; [|split; [auto|reflexivity]].
  exists t. split; [reflexivity|].
  clear - Pt. induction t as [|x t IH]; simpl in *; [reflexivity|].
  apply andb_true_iff in Pt. destruct Pt as [Px Pt].
  apply negb_true_iff in Px. now rewrite Px, IH.
Qed.

Lemma tracesOnly_getSyncPageToken env connectorId driveId shared :
  tracesOnly (fun e => negb (isSyncOneFileCall e))
    (getSyncPageToken env connectorId driveId shared).
Proof.
  unfold getSyncPageToken, fetchById, connectorNotFound.
  apply tracesOnly_bind; [apply tracesOnly_gets|]. intros [connector|];
    [|apply tracesOnly_throw].
  apply tracesOnly_bind; [apply tracesOnly_gets|]. intros [last|];
    [apply tracesOnly_ret|].
  apply tracesOnly_bind; [now apply tracesOnly_call|]. intros client.
  apply tracesOnly_bind; [now apply tracesOnly_call|]. intros res.
  destruct (negb _); [apply tracesOnly_throw|].
  destruct (StartPageToken.startPageToken res) as [t|];
    [|apply tracesOnly_throw].
  destruct (t =? "")%string; [apply tracesOnly_throw|apply tracesOnly_ret].
Qed.

Lemma quiet_deleteFile env f w : quiet w (snd (deleteFile env f w)).
Proof.
  assert (Hgone : forall w0 t ds,
            quiet w0
              (withFiles (destroyFile f (googleDriveFiles w0))
                 (withTrace (trace w0 ++ t) (withDataSource ds w0))) \/
            existsb isSyncOneFileCall t = true).
  { intros w0 t ds.
    destruct (existsb isSyncOneFileCall t) eqn:Pt; [now right|left].
    split; [|split; [|reflexivity]].
    - exists t. now split.
    - intros c i H. cbn [googleDriveFiles withFiles].
      now apply findFile_filter_None. }
  assert (Hsame : forall w0 t ds,
            existsb isSyncOneFileCall t = false ->
            quiet w0 (withTrace (trace w0 ++ t) (withDataSource ds w0))).
  { intros w0 t ds Pt. split; [|split; [auto|reflexivity]].
    exists t. now split. }
  unfold deleteFile. unfold bind at 1. unfold fetchById, gets.
  destruct (find _ (connectors w)) as [c|]; [|apply quiet_refl].
  unfold bind at 1. unfold emit at 1, modify at 1.
  unfold bind.
  destruct (isGoogleDriveSpreadSheetFile env f).
  - unfold deleteSpreadsheet. cbn [dataSource withTrace trace].
    destruct (deleteSpreadsheet_result env c f (dataSource w))
      as [[[]|e] ds]; unfold modify; cbn [snd].
    + destruct (Hgone w [LogInfo "Deleting Google Drive file.";
                          CallDeleteSpreadsheet (ConnectorResource.id c)
                            (GoogleDriveFiles.driveFileId f)] ds)
        as [H|H]; [|discriminate].
      unfold withFiles, withTrace, withDataSource in *. simpl in *.
      now rewrite <- app_assoc.
    + pose proof (Hsame w [LogInfo "Deleting Google Drive file.";
                           CallDeleteSpreadsheet (ConnectorResource.id c)
                             (GoogleDriveFiles.driveFileId f)] ds eq_refl)
        as H.
      unfold withTrace, withDataSource in *. simpl in *.
      now rewrite <- app_assoc.
  - destruct (negb _).
    + unfold deleteFromDataSource. cbn [dataSource withTrace trace].
      destruct (deleteFromDataSource_error env _ _) as [e|];
        unfold modify; cbn [snd].
      * pose proof (Hsame w
                      [LogInfo "Deleting Google Drive file.";
                       CallDeleteFromDataSource
                         (dataSourceConfigFromConnector env c)
                         (GoogleDriveFiles.dustFileId f)] (dataSource w)
                      eq_refl) as H.
        unfold withTrace, withDataSource in *. simpl in *.
        now rewrite <- app_assoc.
      * match goal with
        | |- quiet w (withFiles _ (withDataSource ?ds _)) =>
            destruct (Hgone w
                        [LogInfo "Deleting Google Drive file.";
                         CallDeleteFromDataSource
                           (dataSourceConfigFromConnector env c)
                           (GoogleDriveFiles.dustFileId f)] ds)
              as [H|H]; [|discriminate]
        end.
        unfold withFiles, withTrace, withDataSource in *. simpl in *.
        now rewrite <- app_assoc.
    + unfold ret, modify. cbn [snd].
      destruct (Hgone w [LogInfo "Deleting Google Drive file."]
                  (dataSource w)) as [H|H]; [|discriminate].
      unfold withFiles, withTrace, withDataSource in *. simpl in *.
      exact H.
Qed.

Lemma quiet_deleteOneFile env connectorId file w :
  quiet w (snd (deleteOneFile env connectorId file w)).
Proof.
  unfold deleteOneFile, bind, gets.
  destruct (findFile _ _ _); [apply quiet_deleteFile | apply quiet_refl].
Qed.

Lemma anyInFolders_nil parents : anyInFolders [] parents = false.
Proof.
  unfold anyInFolders. induction parents as [|p ps IH]; simpl; auto.
Qed.

(** With no selected folder, the loop body never syncs. *)
Lemma quiet_incrementalSync_change env connectorId dsc ts mimeTypes auth
  change w :
  quiet w
    (snd (incrementalSync_change env connectorId dsc ts mimeTypes [] auth
            change w)).
Proof.
  unfold incrementalSync_change.
  apply quiet_bind;
    [apply quiet_tracesOnly; now apply tracesOnly_emit|].
  intros _ w1 _.
  destruct (SchemaChange.changeType change) as [s|]; [|apply quiet_refl].
  rewrite match_file.
  destruct (s =? "file")%string;
    [|destruct (SchemaChange.file change); apply quiet_refl].
  destruct (SchemaChange.file change) as [file|]; [|apply quiet_refl].
  destruct (SchemaFile.mimeType file) as [mimeType|]; [|apply quiet_refl].
  destruct (negb _ || negb _); [apply quiet_refl|].
  destruct (SchemaFile.id file) as [id|]; [|apply quiet_refl].
  destruct (negb _); [apply quiet_refl|].
  apply quiet_bind;
    [apply quiet_tracesOnly; now apply tracesOnly_call|].
  intros dustFile w2 _.
  apply quiet_bind.
  { apply quiet_tracesOnly. unfold objectIsInFolders.
    apply tracesOnly_bind; [now apply tracesOnly_call|].
    intros parents. apply tracesOnly_ret. }
  intros isIn w3 Hin.
  assert (HisIn : isIn = false).
  { unfold objectIsInFolders in Hin. step Hin parents w4 H4; [|discriminate].
    unfold ret in Hin. inversion Hin. apply anyInFolders_nil. }
  subst isIn. cbn [negb orb].
  apply quiet_bind; [apply quiet_refl|].
  intros localFile w4 _.
  destruct localFile; [apply quiet_deleteOneFile | apply quiet_refl].
Qed.

(** X21.  An incremental sync for a connector that watches no folder
    pushes nothing: whatever the change feed holds, and whether the
    activity returns or throws, it makes no call of [syncOneFile] and adds
    no mirror row under a new key.  (Every entry is out of scope: at most
    its mirror row is deleted.) *)
Theorem incrementalSync_nothing_watched :
  forall env w connectorId dataSourceConfig driveId isSharedDrive startSyncTs
         nextPageToken,
    foldersToSync connectorId w = [] ->
    let w' := snd (incrementalSync env connectorId dataSourceConfig driveId
                     isSharedDrive startSyncTs nextPageToken w) in
    existsb isSyncOneFileCall (callsSince w w') = false
    /\ (forall c i, findFile c i (googleDriveFiles w) = None ->
                    findFile c i (googleDriveFiles w') = None).
Proof.
  intros env w connectorId dsc driveId isShared ts token Hnone w'.
  assert (Hq : quiet w w').
  { subst w'. unfold incrementalSync.
    apply quiet_tryCatch.
    2:{ intros e w1 _. destruct (lostAccess e).
        - apply quiet_tracesOnly.
          apply tracesOnly_bind; [now apply tracesOnly_emit|].
          intros _. apply tracesOnly_ret.
        - apply quiet_refl. }
    unfold incrementalSync_try.
    apply quiet_bind; [apply quiet_refl|].
    intros connector w0 H0. unfold fetchById, gets in H0.
    inversion H0. subst w0. clear H0.
    destruct (find _ (connectors w)) as [c|]; [|apply quiet_refl].
    apply quiet_bind.
    { apply quiet_tracesOnly.
      destruct token as [t|]; [destruct (t =? "")%string|];
        try apply tracesOnly_getSyncPageToken.
      apply tracesOnly_ret. }
    intros pageToken w1 Hpage.
    assert (F1 : googleDriveFolders w1 = googleDriveFolders w).
    { destruct token as [t|]; [destruct (t =? "")%string|];
        try (eapply keeps_run; [|exact Hpage]; apply keeps_getSyncPageToken;
             reflexivity).
      now inversion Hpage. }
    apply quiet_bind; [apply quiet_refl|].
    intros config w2 Hconfig. unfold findConfig, gets in Hconfig.
    inversion Hconfig. subst w2. clear Hconfig.
    apply quiet_bind; [apply quiet_refl|].
    intros folders w2 Hfolders. unfold getFoldersToSync, gets in Hfolders.
    injection Hfolders as Hf Hw2. subst w2.
    assert (Hempty : folders = []).
    { rewrite <- Hf, F1. exact Hnone. }
    clear Hf. subst folders.
    apply quiet_bind;
      [apply quiet_tracesOnly; now apply tracesOnly_call|].
    intros auth w2 _.
    apply quiet_bind;
      [apply quiet_tracesOnly; now apply tracesOnly_call|].
    intros client w3 _.
    apply quiet_bind;
      [apply quiet_tracesOnly; now apply tracesOnly_call|].
    intros page w4 _.
    destruct (negb _); [apply quiet_refl|].
    destruct (ChangeList.changes page) as [changes|]; [|apply quiet_refl].
    apply quiet_bind;
      [apply quiet_tracesOnly; now apply tracesOnly_emit|].
    intros _ w5 _.
    apply quiet_bind.
    { apply quiet_forEach. intros x w6.
      apply quiet_incrementalSync_change. }
    intros _ w6 _.
    apply quiet_bind; [|intros _ w7 _; apply quiet_refl].
    destruct (ChangeList.newStartPageToken page) as [t|];
      [|apply quiet_refl].
    destruct (t =? "")%string; [apply quiet_refl|].
    unfold persistSyncToken, modify. cbn [snd].
    split; [|split; [auto|reflexivity]].
    exists []. split; [cbn [trace withSyncTokens]; now rewrite app_nil_r
                      |reflexivity]. }
  destruct Hq as ((t & Et & Pt) & Hkeys & _).
  split; [|exact Hkeys].
  unfold callsSince. rewrite Et, skipn_app, skipn_all, Nat.sub_diag.
  exact Pt.
Qed.

Lemma incrementalSync_nothing_watched_witness :
  existsb isSyncOneFileCall
    (callsSince (nothingWatched (smallWorld [] [] [] []))
       (snd (incrementalSync revisitEnv 1 "workspace1" "drive1" false 100
               None (nothingWatched (smallWorld [] [] [] [])))))
  = false.
Proof.
  apply (@incrementalSync_nothing_watched revisitEnv
           (nothingWatched (smallWorld [] [] [] [])) 1 "workspace1" "drive1"
           false 100 None).
  reflexivity.
Defined.

(** * Garbage collection: the other connectors *)

Lemma keeps_promiseAllMap_In T A B (proj : World -> T) (xs : list A)
  (f : A -> M B) :
  (forall x, In x xs -> keeps proj (f x)) -> keeps proj (promiseAllMap xs f).
Proof.
  induction xs as [|x xs IH]; intros Hf w; simpl; [reflexivity|].
  pose proof (Hf x (or_introl eq_refl) w) as Hx.
  destruct (f x w) as [r w1].
  pose proof (IH (fun y Hy => Hf y (or_intror Hy)) w1) as Hrest.
  destruct (promiseAllMap xs f w1) as [rs w2].
  simpl in *. now rewrite Hrest.
Qed.

Section Others.
Variable env : Env.
Variable connectorId : ModelId.

Lemma rowsOfOthers_withTrace t w :
  rowsOfOthers connectorId (withTrace t w) = rowsOfOthers connectorId w.
Proof. reflexivity. Qed.

Lemma rowsOfOthers_destroyFile f w :
  GoogleDriveFiles.connectorId f = connectorId ->
  rowsOfOthers connectorId
    (withFiles (destroyFile f (googleDriveFiles w)) w)
  = rowsOfOthers connectorId w.
Proof.
  intros Hf. unfold rowsOfOthers, destroyFile.
  cbn [googleDriveFiles withFiles].
  induction (googleDriveFiles w) as [|r fs IH]; simpl; [reflexivity|].
  destruct (sameFile _ _ r) eqn:Hs; simpl.
  - unfold sameFile in Hs. apply andb_prop in Hs. destruct Hs as [Hc _].
    rewrite Hf in Hc. rewrite Hc. simpl. exact IH.
  - destruct (negb _); [now rewrite IH | exact IH].
Qed.

Lemma rowsOfOthers_updateLastSeenTs f ts w :
  GoogleDriveFiles.connectorId f = connectorId ->
  rowsOfOthers connectorId
    (withFiles (updateLastSeenTs f ts (googleDriveFiles w)) w)
  = rowsOfOthers connectorId w.
Proof.
  intros Hf. unfold rowsOfOthers, updateLastSeenTs.
  cbn [googleDriveFiles withFiles].
  induction (googleDriveFiles w) as [|r fs IH]; simpl; [reflexivity|].
  destruct (sameFile _ _ r) eqn:Hs; simpl.
  - unfold sameFile in Hs. apply andb_prop in Hs. destruct Hs as [Hc _].
    rewrite Hf in Hc. rewrite Hc. simpl. exact IH.
  - destruct (negb _); [now rewrite IH | exact IH].
Qed.

Lemma keeps_others_deleteFile f :
  GoogleDriveFiles.connectorId f = connectorId ->
  keeps (rowsOfOthers connectorId) (deleteFile env f).
Proof.
  intros Hf w. unfold deleteFile. run.
  destruct (find _ (connectors w)) as [c|]; [|reflexivity]. simpl.
  destruct (isGoogleDriveSpreadSheetFile env f).
  - unfold deleteSpreadsheet. simpl.
    destruct (deleteSpreadsheet_result env c f (dataSource w))
      as [[[]|e] ds]; simpl; [|reflexivity].
    now apply (rowsOfOthers_destroyFile f
                 (withTrace _ (withDataSource ds w))).
  - destruct (negb _).
    + unfold deleteFromDataSource. simpl.
      destruct (deleteFromDataSource_error env _ _); simpl; [reflexivity|].
      now apply (rowsOfOthers_destroyFile f
                   (withDataSource _ (withTrace _ w))).
    + simpl. now apply (rowsOfOthers_destroyFile f (withTrace _ w)).
Qed.

Lemma keeps_others_deleteOneFile file :
  keeps (rowsOfOthers connectorId) (deleteOneFile env connectorId file).
Proof.
  intros w. unfold deleteOneFile, bind, gets.
  destruct (findFile connectorId (GoogleDriveObjectType.id file)
              (googleDriveFiles w)) as [row|] eqn:Hrow; [|reflexivity].
  apply keeps_others_deleteFile.
  now destruct (findFile_sameFile _ _ _ Hrow) as (_ & Hrc & _).
Qed.

Lemma keeps_others_garbageCollector_file auth folders ts f :
  GoogleDriveFiles.connectorId f = connectorId ->
  keeps (rowsOfOthers connectorId)
    (garbageCollector_file env connectorId auth folders ts f).
Proof.
  intros Hf. unfold garbageCollector_file, objectIsInFolders.
  apply keeps_bind; [intros w; reflexivity|]. intros [o|].
  - apply keeps_bind.
    { apply keeps_bind; [intros w; reflexivity|]. intros ps.
      apply keeps_ret. }
    intros isIn. destruct (negb isIn || _).
    + apply keeps_others_deleteOneFile.
    + apply keeps_bind; [intros w; reflexivity|]. intros t.
      apply keeps_modify. intros w.
      now apply rowsOfOthers_updateLastSeenTs.
  - now apply keeps_others_deleteFile.
Qed.
End Others.

(** X22.  A garbage collection never touches the mirror rows of another
    connector: whatever the remote answers, and whether the collection
    returns or throws, the rows of the other connectors are the same
    afterwards, in the same order.  It leaves the cursors and the webhooks
    as they were. *)
Theorem garbageCollector_other_connectors :
  forall env w connectorId lastSeenTs,
    let w' := snd (garbageCollector env connectorId lastSeenTs w) in
    rowsOfOthers connectorId w' = rowsOfOthers connectorId w
    /\ googleDriveSyncTokens w' = googleDriveSyncTokens w
    /\ googleDriveWebhooks w' = googleDriveWebhooks w.
Proof.
  intros env w connectorId lastSeenTs w'. subst w'.
  assert (Hframe : forall T (proj : World -> T),
            (forall fs w0, proj (withFiles fs w0) = proj w0) ->
            (forall ds w0, proj (withDataSource ds w0) = proj w0) ->
            (forall n w0, proj (withClockReads n w0) = proj w0) ->
            (forall t w0, proj (withTrace t w0) = proj w0) ->
            keeps proj (garbageCollector env connectorId lastSeenTs)).
  { intros T proj H1 H2 H3 H4. unfold garbageCollector.
    repeat first
      [ apply keeps_call; assumption
      | apply keeps_garbageCollector_file; assumption
      | frame_step ]. }
  split; [|split; [apply Hframe; reflexivity | apply Hframe; reflexivity]].
  destruct (find (fun c => ConnectorResource.id c =? connectorId)
              (connectors w)) as [connector|] eqn:Hk.
  2:{ unfold garbageCollector, fetchById, bind, gets. now rewrite Hk. }
  destruct (getAuthObject env (ConnectorResource.connectionId connector))
    as [auth|e] eqn:Hauth.
  2:{ unfold garbageCollector, fetchById, bind, gets, call.
      now rewrite Hk, Hauth. }
  rewrite (garbageCollector_run env w connectorId lastSeenTs Hk Hauth).
  set (w1 := withTrace _ w).
  change (rowsOfOthers connectorId w) with (rowsOfOthers connectorId w1).
  apply (keeps_bind (proj := rowsOfOthers connectorId));
    [|intros _; apply keeps_ret].
  apply keeps_promiseAllMap_In. intros f Hf.
  apply keeps_others_garbageCollector_file.
  now apply garbageCollector_candidates_In in Hf.
Qed.
